(** * OpenPNM: linear transport solver and throat-diameter models

    A shallow embedding of

    - [OpenPNM/Algorithms/__LinearSolver__.py] (class [LinearSolver]):
      coefficient matrix and right-hand side assembly, the solve step,
      the rate evaluator and the effective property estimator;
    - [OpenPNM/Geometry/models/throat_diameter.py] (function [minpore]).

    Numbers.  The Python code computes on IEEE doubles.  The methods of the
    class are embedded over exact rationals in canonical form ([Qc]), where
    [==] of numpy is Leibniz equality and nothing is rounded; this serves
    for what does not depend on rounding: the shape of the arrays, the
    control flow, the errors and the state of the instance.  The assembly
    of the coefficient matrix is embedded a second time, in module
    [Numeric], over an arbitrary arithmetic of which the doubles
    ([binary64], the primitive floats) are an instance; what depends on how
    numbers are subtracted, multiplied, added or compared is stated there.

    Arrays are lists, indices are natural numbers.  An out-of-range read or
    write is an [IndexError], as in numpy.  Boolean-mask indexing follows the
    numpy the module was written for (the module negates masks with unary
    minus and indexes the length-[A_dim] array [dia] with the length-[N]
    mask [self._BCtypes==1]): [a[mask]] reads [a] at the positions where
    [mask] is true, whatever the two lengths are. *)

From Stdlib Require Import String.
From Stdlib Require Import QArith Qcanon Qcabs.
From Stdlib Require Import List Bool Arith PeanoNat Lia.
Import ListNotations.

(* ================================================================== *)
(** * Errors and the error monad *)
(* ================================================================== *)

Inductive error : Type :=
| ConfigurationError   (* Exception('No boundary condition has been applied to this network.') *)
| IndexError           (* index out of bounds *)
| ValueError           (* operands could not be broadcast together; bad sparse index *)
| AttributeError       (* attribute read or deleted while absent *)
| KeyError             (* dictionary key read or deleted while absent *)
| NameError            (* local variable read before assignment *)
| TypeError            (* operation on a value of the wrong type *)
| SolverError.         (* failure reported by the inner run *)

Definition result (A : Type) : Type := (error + A)%type.

Definition ok {A} (a : A) : result A := inr a.
Definition raise {A} (e : error) : result A := inl e.

Definition rbind {A B} (m : result A) (k : A -> result B) : result B :=
  match m with
  | inl e => inl e
  | inr a => k a
  end.

Declare Scope result_scope.
Delimit Scope result_scope with res.
Notation "x <- m ;; k" := (rbind m (fun x => k))
  (at level 61, m at next level, right associativity) : result_scope.
Notation "' pat <- m ;; k" := (rbind m (fun x => match x with pat => k end))
  (at level 61, pat pattern, m at next level, right associativity) : result_scope.

Fixpoint mapM {A B} (f : A -> result B) (l : list A) : result (list B) :=
  match l with
  | [] => ok []
  | a :: l' =>
      match f a with
      | inl e => inl e
      | inr b =>
          match mapM f l' with
          | inl e => inl e
          | inr bs => ok (b :: bs)
          end
      end
  end.

(* ================================================================== *)
(** * Rational helpers *)
(* ================================================================== *)

Open Scope Qc_scope.

Definition Qc_eqb (x y : Qc) : bool := Qeq_bool x y.
Definition Qc_leb (x y : Qc) : bool := Qle_bool x y.
Definition Qc_ltb (x y : Qc) : bool := negb (Qle_bool y x).

(** [min] and [max] of a pair, as [np.min]/[np.max] along an axis of length 2. *)
Definition Qcmin (x y : Qc) : Qc := if Qc_leb x y then x else y.
Definition Qcmax (x y : Qc) : Qc := if Qc_leb x y then y else x.

(* ================================================================== *)
(** * numpy array primitives *)
(* ================================================================== *)

Module Numpy.

(** [sp.r_[0:n]] *)
Definition arange (n : nat) : list nat := seq 0 n.

(** [sp.in1d(a, b)] *)
Definition in1d (a b : list nat) : list bool :=
  map (fun x => existsb (Nat.eqb x) b) a.

(** [-mask] on a boolean array (logical negation in the numpy of the module). *)
Definition negate (mask : list bool) : list bool := map negb mask.

Definition any (mask : list bool) : bool := existsb (fun b => b) mask.
Definition all (mask : list bool) : bool := forallb (fun b => b) mask.

(** Positions at which a mask is true, counted from [i]. *)
Fixpoint nonzero_from (i : nat) (mask : list bool) : list nat :=
  match mask with
  | [] => []
  | b :: m => if b then i :: nonzero_from (S i) m else nonzero_from (S i) m
  end.

Definition nonzero (mask : list bool) : list nat := nonzero_from 0 mask.

(** [a[i]] for an integer [i] *)
Definition item {A} (a : list A) (i : nat) : result A :=
  match nth_error a i with
  | Some x => ok x
  | None => raise IndexError
  end.

(** [a[idx]] for an integer index array [idx] *)
Definition take {A} (a : list A) (idx : list nat) : result (list A) :=
  mapM (item a) idx.

(** [a[mask]] for a boolean array [mask] *)
Definition mask_get {A} (a : list A) (mask : list bool) : result (list A) :=
  take a (nonzero mask).

(** [a[i] = v] for an integer [i] *)
Fixpoint set_item {A} (a : list A) (i : nat) (v : A) : result (list A) :=
  match a, i with
  | [], _ => raise IndexError
  | _ :: a', O => ok (v :: a')
  | x :: a', S i' =>
      match set_item a' i' v with
      | inl e => inl e
      | inr r => ok (x :: r)
      end
  end.

(** [a[idx] = v] for an integer index array [idx] and a scalar [v] *)
Fixpoint put {A} (a : list A) (idx : list nat) (v : A) : result (list A) :=
  match idx with
  | [] => ok a
  | i :: idx' =>
      match set_item a i v with
      | inl e => inl e
      | inr a' => put a' idx' v
      end
  end.

(** [a[mask] = vals]: the true positions of [mask] receive the elements of
    [vals] in order; [vals] must supply exactly as many elements. *)
Fixpoint mask_set {A} (a : list A) (mask : list bool) (vals : list A)
  : result (list A) :=
  match mask, a, vals with
  | [], _, [] => ok a
  | [], _, _ :: _ => raise ValueError
  | true :: _, [], _ => raise IndexError
  | false :: m, [], _ => mask_set [] m vals
  | true :: _, _ :: _, [] => raise ValueError
  | true :: m, _ :: a', v :: vals' =>
      match mask_set a' m vals' with
      | inl e => inl e
      | inr r => ok (v :: r)
      end
  | false :: m, x :: a', _ =>
      match mask_set a' m vals with
      | inl e => inl e
      | inr r => ok (x :: r)
      end
  end.

(** [sp.sum] *)
Definition sum (l : list Qc) : Qc := fold_right Qcplus 0 l.

(** Insertion in a strictly increasing list. *)
Fixpoint insert_sorted (x : Qc) (l : list Qc) : list Qc :=
  match l with
  | [] => [x]
  | y :: l' =>
      if Qc_eqb x y then l
      else if Qc_ltb x y then x :: l
      else y :: insert_sorted x l'
  end.

(** Strictly increasing lists. *)
Fixpoint increasing (l : list Qc) : Prop :=
  match l with
  | [] => True
  | x :: l' => (forall y, In y l' -> x < y) /\ increasing l'
  end.

(** [sp.unique]: the sorted distinct values. *)
Definition unique (l : list Qc) : list Qc :=
  fold_right insert_sorted [] l.

(** Element-wise product with numpy broadcasting of one-dimensional
    operands. *)
Definition multiply (a b : list Qc) : result (list Qc) :=
  if Nat.eqb (length a) (length b) then ok (map (fun p => fst p * snd p) (combine a b))
  else match a, b with
       | x :: nil, _ => ok (map (fun y => x * y) b)
       | _, y :: nil => ok (map (fun x => x * y) a)
       | _, _ => raise ValueError
       end.

(** Element-wise difference with the same broadcasting. *)
Definition subtract (a b : list Qc) : result (list Qc) :=
  if Nat.eqb (length a) (length b) then ok (map (fun p => fst p - snd p) (combine a b))
  else match a, b with
       | x :: nil, _ => ok (map (fun y => x - y) b)
       | _, y :: nil => ok (map (fun x => x - y) a)
       | _, _ => raise ValueError
       end.

(** The selection that a boolean mask makes in an array. *)
Fixpoint select {A} (a : list A) (mask : list bool) : list A :=
  match a, mask with
  | x :: a', b :: m => if b then x :: select a' m else select a' m
  | _, _ => []
  end.

End Numpy.

(* ================================================================== *)
(** * Throat diameter models *)
(* ================================================================== *)

Module ThroatDiameter.
Import Numpy.
Local Open Scope result_scope.

(** The part of the network object that [minpore] reads. *)
Record Network : Type := {
  pore_diameter : list Qc;            (* network["pore.diameter"] *)
  throat_conns : list (nat * nat)     (* network["throat.conns"]  *)
}.

(** [network["pore.diameter"][network["throat.conns"][nTs]]] *)
Definition pore_diameters_of (network : Network) (nTs : list nat)
  : result (list (Qc * Qc)) :=
  conns <- take (throat_conns network) nTs ;;
  mapM (fun c : nat * nat =>
          d1 <- item (pore_diameter network) (fst c) ;;
          d2 <- item (pore_diameter network) (snd c) ;;
          ok (d1, d2)) conns.

(** [minpore(network, geometry)].  [nTs] is
    [geometry.map_throats(network, geometry.throats())], the network indices
    of the throats of the geometry. *)
Definition minpore (network : Network) (nTs : list nat) : result (list Qc) :=
  pDs <- pore_diameters_of network nTs ;;
  let value := map (fun p => Qcmin (fst p) (snd p)) pDs in
  let zero := map (fun v => Qc_eqb v 0) value in
  vals <- mask_get (map (fun p => Qcmax (fst p) (snd p)) pDs) zero ;;
  mask_set value zero vals.

End ThroatDiameter.

(* ================================================================== *)
(** * The network object *)
(* ================================================================== *)

(** The network class is not part of the sources at hand.  The solver only
    calls its methods, so a network is the record of what those calls
    return: its data arrays, and the three topological queries as fields. *)
Module GenericNetwork.

Record t : Type := {
  num_pores : nat;
  connections : list (nat * nat);          (* get_throat_data(prop='connections') *)
  cross_section : list Qc;                 (* get_throat_data(prop='cross_section') *)
  coords : list (Qc * Qc * Qc);            (* get_pore_data(prop='coords') *)
  get_pore_info : string -> list bool;     (* get_pore_info(label=l): a mask over pores *)
  (* find_neighbor_pores(P, mode='not_intersection', excl_self=True) *)
  find_neighbor_pores : list nat -> list nat;
  (* find_connecting_throat(P1, P2) *)
  find_connecting_throat : list nat -> list nat -> list nat;
  (* find_neighbor_throats(P, flatten=True, mode='not_intersection') *)
  find_neighbor_throats : list nat -> list nat
}.

Definition num_throats (net : t) : nat := length (connections net).

(** [get_pore_indices()] *)
Definition get_pore_indices (net : t) : list nat := Numpy.arange (num_pores net).

(** [get_pore_indices(label)]: the pores carrying the label. *)
Definition get_pore_indices_of (net : t) (label : string) : list nat :=
  Numpy.nonzero (get_pore_info net label).

(** [find_connected_pores(throats)]: the rows of the connection array. *)
Definition find_connected_pores (net : t) (throats : list nat)
  : result (list (nat * nat)) :=
  Numpy.take (connections net) throats.

End GenericNetwork.

(* ================================================================== *)
(** * The solver object and its monad *)
(* ================================================================== *)

Module LinearSolver.
Import Numpy.

(** Boundary condition codes of [_boundary_conditions_setup]. *)
Definition Dirichlet : nat := 1.
Definition Neumann_flux : nat := 2.
Definition Neumann_insulated : nat := 3.
Definition Neumann_rate_union : nat := 4.
Definition Neumann_rate_individual : nat := 5.

(** [self._conductance] is a scalar or an array. *)
Inductive conductance_t : Type :=
| Scalar (g : Qc)
| Array (g : list Qc).

(** [sp.size] *)
Definition size (c : conductance_t) : nat :=
  match c with
  | Scalar _ => 1
  | Array g => length g
  end.

(** [c * sp.ones(n)] for a [c] of size 1. *)
Definition times_ones (c : conductance_t) (n : nat) : list Qc :=
  match c with
  | Scalar g => repeat g n
  | Array g => repeat (hd 0 g) n
  end.

(** [self._extera_Neumann_equations] is the integer 0 or an array. *)
Inductive extera_t : Type :=
| Zero
| Values (v : list Qc).

(** A sparse matrix in coordinate form.  Converting it to compressed rows
    sums the entries that share a position. *)
Record coo_matrix : Type := {
  shape : nat;
  row : list nat;
  col : list nat;
  data : list Qc
}.

(** Instance attributes.  An attribute that the code creates or deletes at
    run time is optional. *)
Record self_t : Type := mkSelf {
  _pore_info : list (string * list bool);
  _pore_data : list (string * list Qc);
  _BCtypes : option (list nat);
  _BCvalues : option (list Qc);
  _conductance : option conductance_t;
  _extera_Neumann_equations : option extera_t;
  _g_super : option Qc;
  _Coeff_dimension : option nat;
  _Neumann_super_X : option (list Qc);
  _result : option (list Qc);
  _dir : option (list bool);
  _BCval_temp : option (list Qc);
  _BCtypes_temp : option (list nat);
  _BCvalues_temp : option (list Qc);
  _logger : list string
}.

Definition set_pore_info_dict v (s : self_t) : self_t :=
  mkSelf v (_pore_data s) (_BCtypes s) (_BCvalues s) (_conductance s)
    (_extera_Neumann_equations s) (_g_super s) (_Coeff_dimension s)
    (_Neumann_super_X s) (_result s) (_dir s) (_BCval_temp s)
    (_BCtypes_temp s) (_BCvalues_temp s) (_logger s).
Definition set_pore_data_dict v (s : self_t) : self_t :=
  mkSelf (_pore_info s) v (_BCtypes s) (_BCvalues s) (_conductance s)
    (_extera_Neumann_equations s) (_g_super s) (_Coeff_dimension s)
    (_Neumann_super_X s) (_result s) (_dir s) (_BCval_temp s)
    (_BCtypes_temp s) (_BCvalues_temp s) (_logger s).
Definition set_BCtypes v (s : self_t) : self_t :=
  mkSelf (_pore_info s) (_pore_data s) v (_BCvalues s) (_conductance s)
    (_extera_Neumann_equations s) (_g_super s) (_Coeff_dimension s)
    (_Neumann_super_X s) (_result s) (_dir s) (_BCval_temp s)
    (_BCtypes_temp s) (_BCvalues_temp s) (_logger s).
Definition set_BCvalues v (s : self_t) : self_t :=
  mkSelf (_pore_info s) (_pore_data s) (_BCtypes s) v (_conductance s)
    (_extera_Neumann_equations s) (_g_super s) (_Coeff_dimension s)
    (_Neumann_super_X s) (_result s) (_dir s) (_BCval_temp s)
    (_BCtypes_temp s) (_BCvalues_temp s) (_logger s).
Definition set_conductance v (s : self_t) : self_t :=
  mkSelf (_pore_info s) (_pore_data s) (_BCtypes s) (_BCvalues s) v
    (_extera_Neumann_equations s) (_g_super s) (_Coeff_dimension s)
    (_Neumann_super_X s) (_result s) (_dir s) (_BCval_temp s)
    (_BCtypes_temp s) (_BCvalues_temp s) (_logger s).
Definition set_extera_Neumann_equations v (s : self_t) : self_t :=
  mkSelf (_pore_info s) (_pore_data s) (_BCtypes s) (_BCvalues s)
    (_conductance s) v (_g_super s) (_Coeff_dimension s)
    (_Neumann_super_X s) (_result s) (_dir s) (_BCval_temp s)
    (_BCtypes_temp s) (_BCvalues_temp s) (_logger s).
Definition set_g_super v (s : self_t) : self_t :=
  mkSelf (_pore_info s) (_pore_data s) (_BCtypes s) (_BCvalues s)
    (_conductance s) (_extera_Neumann_equations s) v (_Coeff_dimension s)
    (_Neumann_super_X s) (_result s) (_dir s) (_BCval_temp s)
    (_BCtypes_temp s) (_BCvalues_temp s) (_logger s).
Definition set_Coeff_dimension v (s : self_t) : self_t :=
  mkSelf (_pore_info s) (_pore_data s) (_BCtypes s) (_BCvalues s)
    (_conductance s) (_extera_Neumann_equations s) (_g_super s) v
    (_Neumann_super_X s) (_result s) (_dir s) (_BCval_temp s)
    (_BCtypes_temp s) (_BCvalues_temp s) (_logger s).
Definition set_Neumann_super_X v (s : self_t) : self_t :=
  mkSelf (_pore_info s) (_pore_data s) (_BCtypes s) (_BCvalues s)
    (_conductance s) (_extera_Neumann_equations s) (_g_super s)
    (_Coeff_dimension s) v (_result s) (_dir s) (_BCval_temp s)
    (_BCtypes_temp s) (_BCvalues_temp s) (_logger s).
Definition set_result v (s : self_t) : self_t :=
  mkSelf (_pore_info s) (_pore_data s) (_BCtypes s) (_BCvalues s)
    (_conductance s) (_extera_Neumann_equations s) (_g_super s)
    (_Coeff_dimension s) (_Neumann_super_X s) v (_dir s) (_BCval_temp s)
    (_BCtypes_temp s) (_BCvalues_temp s) (_logger s).
Definition set_dir v (s : self_t) : self_t :=
  mkSelf (_pore_info s) (_pore_data s) (_BCtypes s) (_BCvalues s)
    (_conductance s) (_extera_Neumann_equations s) (_g_super s)
    (_Coeff_dimension s) (_Neumann_super_X s) (_result s) v (_BCval_temp s)
    (_BCtypes_temp s) (_BCvalues_temp s) (_logger s).
Definition set_BCval_temp v (s : self_t) : self_t :=
  mkSelf (_pore_info s) (_pore_data s) (_BCtypes s) (_BCvalues s)
    (_conductance s) (_extera_Neumann_equations s) (_g_super s)
    (_Coeff_dimension s) (_Neumann_super_X s) (_result s) (_dir s) v
    (_BCtypes_temp s) (_BCvalues_temp s) (_logger s).
Definition set_BCtypes_temp v (s : self_t) : self_t :=
  mkSelf (_pore_info s) (_pore_data s) (_BCtypes s) (_BCvalues s)
    (_conductance s) (_extera_Neumann_equations s) (_g_super s)
    (_Coeff_dimension s) (_Neumann_super_X s) (_result s) (_dir s)
    (_BCval_temp s) v (_BCvalues_temp s) (_logger s).
Definition set_BCvalues_temp v (s : self_t) : self_t :=
  mkSelf (_pore_info s) (_pore_data s) (_BCtypes s) (_BCvalues s)
    (_conductance s) (_extera_Neumann_equations s) (_g_super s)
    (_Coeff_dimension s) (_Neumann_super_X s) (_result s) (_dir s)
    (_BCval_temp s) (_BCtypes_temp s) v (_logger s).
Definition set_logger v (s : self_t) : self_t :=
  mkSelf (_pore_info s) (_pore_data s) (_BCtypes s) (_BCvalues s)
    (_conductance s) (_extera_Neumann_equations s) (_g_super s)
    (_Coeff_dimension s) (_Neumann_super_X s) (_result s) (_dir s)
    (_BCval_temp s) (_BCtypes_temp s) (_BCvalues_temp s) v.

(** A method is a computation on the instance: it returns a value or raises,
    and in both cases the instance keeps the mutations made so far. *)
Definition M (A : Type) : Type := self_t -> result A * self_t.

Definition ret {A} (a : A) : M A := fun s => (ok a, s).
Definition throw {A} (e : error) : M A := fun s => (raise e, s).
Definition bind {A B} (m : M A) (k : A -> M B) : M B :=
  fun s => match m s with
           | (inl e, s') => (inl e, s')
           | (inr a, s') => k a s'
           end.
Definition lift {A} (r : result A) : M A := fun s => (r, s).

Declare Scope method_scope.
Delimit Scope method_scope with M.
Notation "x <- m ;; k" := (bind m (fun x => k))
  (at level 61, m at next level, right associativity) : method_scope.
Notation "m ;;; k" := (bind m (fun _ => k))
  (at level 61, right associativity) : method_scope.
Local Open Scope method_scope.

(** Reading an attribute that may be absent. *)
Definition getattr {A} (f : self_t -> option A) : M A :=
  fun s => match f s with
           | Some a => (ok a, s)
           | None => (raise AttributeError, s)
           end.
Definition setattr {A} (f : A -> self_t -> self_t) (v : A) : M unit :=
  fun s => (ok tt, f v s).
(** [delattr(self, name)] *)
Definition delattr {A} (f : self_t -> option A)
    (g : option A -> self_t -> self_t) : M unit :=
  fun s => match f s with
           | Some _ => (ok tt, g None s)
           | None => (raise AttributeError, s)
           end.
(** [try: body  except: pass] *)
Definition try_pass (body : M unit) : M unit :=
  fun s => match body s with
           | (_, s') => (ok tt, s')
           end.
(** [self._logger.info(msg)] *)
Definition logger_info (msg : string) : M unit :=
  fun s => (ok tt, set_logger (_logger s ++ [msg]) s).

(** Iterating a loop body over a list, left to right. *)
Fixpoint for_each {A} (l : list A) (body : A -> M unit) : M unit :=
  match l with
  | [] => ret tt
  | a :: l' => body a ;;; for_each l' body
  end.


(** Accumulating a value through a loop over a list, left to right. *)
Fixpoint fold_result {A S} (body : S -> A -> result S) (l : list A) (acc : S)
  : result S :=
  match l with
  | [] => ok acc
  | a :: l' =>
      match body acc a with
      | inl e => inl e
      | inr acc' => fold_result body l' acc'
      end
  end.

(** ** Dictionaries with string keys ([_pore_info], [_pore_data]) *)

Fixpoint dict_get {V} (d : list (string * V)) (k : string) : option V :=
  match d with
  | [] => None
  | (k', v) :: d' => if String.eqb k k' then Some v else dict_get d' k
  end.

Definition dict_mem {V} (d : list (string * V)) (k : string) : bool :=
  match dict_get d k with Some _ => true | None => false end.

Fixpoint dict_remove {V} (d : list (string * V)) (k : string)
  : list (string * V) :=
  match d with
  | [] => []
  | (k', v) :: d' =>
      if String.eqb k k' then dict_remove d' k else (k', v) :: dict_remove d' k
  end.

Fixpoint dict_replace {V} (d : list (string * V)) (k : string) (v : V)
  : list (string * V) :=
  match d with
  | [] => []
  | (k', v') :: d' =>
      if String.eqb k k' then (k', v) :: d' else (k', v') :: dict_replace d' k v
  end.

(** [d[k] = v] *)
Definition dict_set {V} (d : list (string * V)) (k : string) (v : V)
  : list (string * V) :=
  if dict_mem d k then dict_replace d k v else d ++ [(k, v)].

(** [del d[k]] *)
Definition dict_del {V} (d : list (string * V)) (k : string)
  : result (list (string * V)) :=
  if dict_mem d k then ok (dict_remove d k) else raise KeyError.

(** ** Lines 130-213: [_build_coefficient_matrix] *)

Definition is_kind (k : nat) (types : list nat) : list bool :=
  map (Nat.eqb k) types.                       (* self._BCtypes==k *)
Definition not_kind (k : nat) (types : list nat) : list bool :=
  map (fun t => negb (Nat.eqb k t)) types.     (* self._BCtypes!=k *)
Definition has_value (v : Qc) (values : list Qc) : list bool :=
  map (fun x => Qc_eqb x v) values.            (* self._BCvalues==v *)

Definition array_of (c : conductance_t) : list Qc :=
  match c with
  | Scalar g => [g]
  | Array g => g
  end.

Definition g_super_value : Qc := Q2Qc (1 # (10 ^ 60)).    (* 1e-60 *)

Section Assembly.

Variable net : GenericNetwork.t.

Let N := GenericNetwork.num_pores net.
Let pores := GenericNetwork.get_pore_indices net.

(** Lines 132-134: unclassified pores that do not carry the label
    ['internal'] become insulated. *)
Definition insulate_boundaries : M unit :=
  boundaries <- lift (mask_get pores
                  (negate (in1d pores (GenericNetwork.get_pore_indices_of net "internal")))) ;;
  types <- getattr _BCtypes ;;
  tb <- lift (take types boundaries) ;;
  if any (is_kind 0 tb) then
    idx <- lift (mask_get boundaries (is_kind 0 tb)) ;;
    types' <- lift (put types idx Neumann_insulated) ;;
    setattr set_BCtypes (Some types')
  else ret tt.

(** Lines 137-156: the off-diagonal conductance entries.  A scalar has size
    1 and has been replaced by an array when [data_main] is read. *)
Definition conductance_entries : M (list nat * list nat * list Qc) :=
  let pnum := pores in
  let tpore1 := map fst (GenericNetwork.connections net) in
  let tpore2 := map snd (GenericNetwork.connections net) in
  types <- getattr _BCtypes ;;
  nd1 <- lift (mask_get pnum (not_kind 1 types)) ;;
  let loc1 := in1d tpore1 nd1 in
  modified_tpore1 <- lift (mask_get tpore1 loc1) ;;
  modified_tpore2 <- lift (mask_get tpore2 loc1) ;;
  let row := modified_tpore1 in
  let col := modified_tpore2 in
  c <- getattr _conductance ;;
  (if Nat.eqb (size c) 1
   then setattr set_conductance
          (Some (Array (times_ones c (GenericNetwork.num_throats net))))
   else ret tt) ;;;
  c' <- getattr _conductance ;;
  let data_main := array_of c' in
  data <- lift (mask_get data_main loc1) ;;
  types <- getattr _BCtypes ;;
  nd2 <- lift (mask_get pnum (not_kind 1 types)) ;;
  let loc2 := in1d tpore2 nd2 in
  modified_tpore2 <- lift (mask_get tpore2 loc2) ;;
  modified_tpore1 <- lift (mask_get tpore1 loc2) ;;
  data2 <- lift (mask_get data_main loc2) ;;
  ret (row ++ modified_tpore2, col ++ modified_tpore1, data ++ data2).

(** The conductance array after lines 146-147. *)
Definition broadcast (c : conductance_t) (n : nat) : list Qc :=
  if Nat.eqb (size c) 1 then times_ones c n else array_of c.

(** Lines 165-170: the body of the loop over the distinct flux values. *)
Definition convert_flux_group (flux_pores : list nat) (v : Qc) : M unit :=
  values <- getattr _BCvalues ;;
  same <- lift (mask_get pores (has_value v values)) ;;
  f <- lift (mask_get flux_pores (in1d flux_pores same)) ;;
  let fn := GenericNetwork.find_neighbor_pores net f in
  internal_fn <- lift (take (GenericNetwork.get_pore_info net "internal") fn) ;;
  fn <- lift (mask_get fn internal_fn) ;;
  let ft := GenericNetwork.find_connecting_throat net f fn in
  types <- getattr _BCtypes ;;
  types' <- lift (put types f Neumann_rate_union) ;;
  setattr set_BCtypes (Some types') ;;;
  values <- getattr _BCvalues ;;
  vf <- lift (take values f) ;;
  cs <- lift (take (GenericNetwork.cross_section net) ft) ;;
  prod <- lift (multiply vf cs) ;;
  values' <- lift (put values f (sum prod)) ;;
  setattr set_BCvalues (Some values').

(** Lines 161-170.  The loop runs over [flux_values[i]] for
    [i = 0 .. len(flux_values)-1], that is over the list itself. *)
Definition convert_flux : M unit :=
  types <- getattr _BCtypes ;;
  if any (is_kind 2 types) then
    flux_pores <- lift (mask_get pores (is_kind 2 types)) ;;
    values <- getattr _BCvalues ;;
    fv <- lift (mask_get values (is_kind 2 types)) ;;
    let flux_values := unique fv in
    for_each flux_values (convert_flux_group flux_pores)
  else ret tt.

(** Lines 180-187: the body of the loop over the superpores.  The loop
    writes no attribute; [mask], [values] and [A_dim] are read before it. *)
Definition superpore_group (A_dim : nat) (mask : list bool) (values : list Qc)
    (extera_neu : list Qc)
    (acc : list nat * list nat * list Qc) (item_ : nat)
  : result (list nat * list nat * list Qc) :=
  let '(row, col, data) := acc in
  (neu_tpore2 <- mask_get pores mask ;;
   vn <- take values neu_tpore2 ;;
   e <- item extera_neu item_ ;;
   neu_tpore2 <- mask_get neu_tpore2 (has_value e vn) ;;
   let n := length neu_tpore2 in
   let sp_ := (A_dim - item_ - 1)%nat in
   ok (row ++ neu_tpore2 ++ repeat sp_ n,
       col ++ repeat sp_ n ++ neu_tpore2,
       data ++ repeat g_super_value n ++ repeat g_super_value n))%res.

(** The grouped-rate pores that carry the value [x] (lines 180-181), and
    what the two links of line 182-187 between them and the superpore [sp_]
    add at position [(r, c)]. *)
Definition rate_group (types : list nat) (values : list Qc) (x : Qc)
  : list nat :=
  let k4 := nonzero (is_kind 4 types) in
  select k4 (has_value x (map (fun p => nth p values 0) k4)).

Definition superpore_link (sp_ : nat) (neu : list nat) (r c : nat) : Qc :=
  (if Nat.eqb c sp_ && existsb (Nat.eqb r) neu then g_super_value else 0)
  + (if Nat.eqb r sp_ && existsb (Nat.eqb c) neu then g_super_value else 0).

(** Lines 158 and 173-192. *)
Definition superpore_entries (rcd : list nat * list nat * list Qc)
  : M (nat * (list nat * list nat * list Qc)) :=
  let A_dim := N in
  types <- getattr _BCtypes ;;
  r <- (if any (is_kind 4 types) then
          values <- getattr _BCvalues ;;
          kv <- lift (mask_get values (is_kind 4 types)) ;;
          setattr set_extera_Neumann_equations (Some (Values (unique kv))) ;;;
          let extera_neu := unique kv in
          let A_dim := (A_dim + length extera_neu)%nat in
          setattr set_g_super (Some g_super_value) ;;;
          let mask := is_kind 4 types in
          rcd' <- lift (fold_result (superpore_group A_dim mask values extera_neu)
                          (arange (length extera_neu)) rcd) ;;
          ret (A_dim, rcd')
        else
          setattr set_extera_Neumann_equations (Some Zero) ;;;
          ret (A_dim, rcd)) ;;
  setattr set_Coeff_dimension (Some (fst r)) ;;;
  ret r.

(** Lines 203-204: [S_temp[row[i]] = S_temp[row[i]] - temp_data[i]] for
    [i = 0 .. len(row)-1]. *)
Fixpoint accumulate (S_temp : list Qc) (row : list nat) (temp_data : list Qc)
  : result (list Qc) :=
  match row, temp_data with
  | [], _ => ok S_temp
  | _ :: _, [] => raise IndexError
  | r :: row', d :: temp' =>
      match item S_temp r with
      | inl e => inl e
      | inr old =>
          match set_item S_temp r (old - d) with
          | inl e => inl e
          | inr S' => accumulate S' row' temp'
          end
      end
  end.

(** [coo_matrix((data,(row,col)),(n,n))]: the three arrays must have one
    length and every index must lie inside the shape. *)
Definition coo_matrix_new (data : list Qc) (row col : list nat) (n : nat)
  : result coo_matrix :=
  if Nat.eqb (length row) (length data) && Nat.eqb (length col) (length data)
     && forallb (fun r => Nat.ltb r n) row && forallb (fun c => Nat.ltb c n) col
  then ok {| shape := n; row := row; col := col; data := data |}
  else raise ValueError.

(** Lines 194-211: Dirichlet unit diagonal, then the diagonal closure. *)
Definition close_diagonal (A_dim : nat) (rcd : list nat * list nat * list Qc)
  : M coo_matrix :=
  let '(row, col, data) := rcd in
  let dia := arange A_dim in
  types <- getattr _BCtypes ;;
  dir <- lift (mask_get dia (is_kind 1 types)) ;;
  let row := row ++ dir in
  let col := col ++ dir in
  let data := data ++ map (fun _ => 1) dir in
  temp_data <- lift (put data (nonzero (in1d row dir)) 0) ;;
  S_temp <- lift (accumulate (repeat 0 A_dim) row temp_data) ;;
  non_Dir <- lift (mask_get dia (negate (in1d dia dir))) ;;
  diag <- lift (take S_temp non_Dir) ;;
  let data := data ++ diag in
  let row := row ++ non_Dir in
  let col := col ++ non_Dir in
  lift (coo_matrix_new data row col A_dim).

(** The rows that lines 205-208 close: the indices below [A_dim] that are
    not in [dir]. *)
Definition non_Dirichlet (A_dim : nat) (dir : list nat) : list nat :=
  filter (fun i => negb (existsb (Nat.eqb i) dir)) (seq 0 A_dim).

(** The quantities of lines 165-168 for the flux value [v], as functions of
    the flux pores and of the value array: the group [f], its neighbours
    that carry the label ['internal'], and the throats [ft] between the
    two. *)
Definition flux_group (flux_pores : list nat) (values : list Qc) (v : Qc)
  : list nat :=
  select flux_pores (in1d flux_pores (nonzero (has_value v values))).

Definition internal_neighbors (f : list nat) : list nat :=
  let fn := GenericNetwork.find_neighbor_pores net f in
  select fn (map (fun p => nth p (GenericNetwork.get_pore_info net "internal") false) fn).

Definition flux_throats (f : list nat) : list nat :=
  GenericNetwork.find_connecting_throat net f (internal_neighbors f).

(** The sum of flux times cross-section over the throats of the group. *)
Definition flux_rate (flux_pores : list nat) (values : list Qc) (v : Qc) : Qc :=
  sum (map (fun t => v * nth t (GenericNetwork.cross_section net) 0)
         (flux_throats (flux_group flux_pores values v))).

(** The same sum in the words of the specification, which keeps among the
    neighbours of the group the internal nodes that are not Dirichlet. *)
Definition spec_flux_rate (types : list nat) (flux_pores : list nat)
    (values : list Qc) (v : Qc) : Qc :=
  let f := flux_group flux_pores values v in
  let fn := GenericNetwork.find_neighbor_pores net f in
  let fn := filter (fun p => nth p (GenericNetwork.get_pore_info net "internal") false
                             && negb (Nat.eqb (nth p types 0%nat) Dirichlet)) fn in
  let ft := GenericNetwork.find_connecting_throat net f fn in
  sum (map (fun t => v * nth t (GenericNetwork.cross_section net) 0) ft).

(** The state of the arrays inside the loop of lines 164-170 once the
    flux values [done] have been handled: the flux pores of a handled value
    are grouped-rate pores and carry the rate of their group, the others
    still carry their flux. *)
Definition converted_so_far (flux_pores : list nat) (values : list Qc)
    (done : list Qc) (tc : list nat) (vc : list Qc) : Prop :=
  length vc = length values /\
  forall p y, In p flux_pores -> nth_error values p = Some y ->
    (In y done ->
       nth_error tc p = Some Neumann_rate_union /\
       nth_error vc p = Some (flux_rate flux_pores values y)) /\
    (~ In y done -> nth_error vc p = Some y).

Definition _build_coefficient_matrix : M coo_matrix :=
  insulate_boundaries ;;;
  rcd <- conductance_entries ;;
  convert_flux ;;;
  r <- superpore_entries rcd ;;
  close_diagonal (fst r) (snd r).

(** The entry at a position of the compressed matrix: the sum of the
    coordinate entries stored there. *)
Fixpoint entry_of (row col : list nat) (data : list Qc) (r c : nat) : Qc :=
  match row, col, data with
  | r' :: row', c' :: col', d :: data' =>
      (if Nat.eqb r' r && Nat.eqb c' c then d else 0) + entry_of row' col' data' r c
  | _, _, _ => 0
  end.

Definition entry (A : coo_matrix) (r c : nat) : Qc :=
  entry_of (row A) (col A) (data A) r c.

(** The sum of the coordinate entries stored in row [r]. *)
Fixpoint row_total (row : list nat) (data : list Qc) (r : nat) : Qc :=
  match row, data with
  | r' :: row', d :: data' =>
      (if Nat.eqb r' r then d else 0) + row_total row' data' r
  | _, _ => 0
  end.

(** Sum of the entries of row [r] in the columns listed in [cs]. *)
Definition row_sum_over (A : coo_matrix) (r : nat) (cs : list nat) : Qc :=
  sum (map (entry A r) cs).

Definition row_sum (A : coo_matrix) (r : nat) : Qc :=
  row_sum_over A r (arange (shape A)).

Definition off_diagonal_sum (A : coo_matrix) (r : nat) : Qc :=
  row_sum_over A r (filter (fun c => negb (Nat.eqb c r)) (arange (shape A))).

(** ** Lines 216-229: [_build_RHS_matrix] *)

(** An integer index into an array of length [n]; a negative index counts
    from the end. *)
Definition py_index (n : nat) (i : Z) : result nat :=
  if (0 <=? i)%Z then
    if (i <? Z.of_nat n)%Z then ok (Z.to_nat i) else raise IndexError
  else
    if (0 <=? i + Z.of_nat n)%Z then ok (Z.to_nat (i + Z.of_nat n))
    else raise IndexError.

(** [B[idx] = vals] for an index array and an array of the same length. *)
Fixpoint put_each {A} (a : list A) (idx : list nat) (vals : list A)
  : result (list A) :=
  match idx, vals with
  | [], [] => ok a
  | i :: idx', v :: vals' =>
      match set_item a i v with
      | inl e => inl e
      | inr a' => put_each a' idx' vals'
      end
  | _, _ => raise ValueError
  end.

Definition RHS_superpore (A_dim : nat) (extera_neu : list Qc)
    (B : list Qc) (item_ : nat) : result (list Qc) :=
  (e <- item extera_neu item_ ;;
   i <- py_index (length B) (Z.of_nat A_dim - Z.of_nat item_ - 1) ;;
   set_item B i e)%res.

Definition _build_RHS_matrix : M (list Qc) :=
  extera_neu <- getattr _extera_Neumann_equations ;;
  A_dim <- getattr _Coeff_dimension ;;
  let B := repeat 0 A_dim in
  types <- getattr _BCtypes ;;
  Dir_pores <- lift (mask_get pores (is_kind 1 types)) ;;
  values <- getattr _BCvalues ;;
  vd <- lift (take values Dir_pores) ;;
  B <- lift (put_each B Dir_pores vd) ;;
  individual_Neu_pores <- lift (mask_get pores (is_kind 5 types)) ;;
  vi <- lift (take values individual_Neu_pores) ;;
  B <- lift (put_each B individual_Neu_pores vi) ;;
  if any (is_kind 4 types) then
    match extera_neu with
    | Zero => throw TypeError                  (* len(0) *)
    | Values e =>
        lift (fold_result (RHS_superpore A_dim e) (arange (length e)) B)
    end
  else ret B.

(** ** Lines 36-50: [_do_one_inner_iteration] *)

(** [sprslin.spsolve], the sparse direct solver of the library. *)
Variable spsolve : coo_matrix -> list Qc -> result (list Qc).

Definition _do_one_inner_iteration : M (list Qc) :=
  types <- getattr _BCtypes ;;
  if all (is_kind 0 types) then
    throw ConfigurationError
  else
    logger_info "Creating Coefficient matrix for the algorithm" ;;;
    A <- _build_coefficient_matrix ;;
    logger_info "Creating RHS matrix for the algorithm" ;;;
    B <- _build_RHS_matrix ;;
    logger_info "Solving AX = B for the sparse matrices" ;;;
    X <- lift (spsolve A B) ;;
    sx <- lift (mask_get X (negate (in1d (arange (length X)) (arange N)))) ;;
    setattr set_Neumann_super_X (Some sx) ;;;
    x <- lift (take X (arange N)) ;;
    setattr set_result (Some x) ;;;
    getattr _result.

End Assembly.


(** ** The labelled property store of the instance *)

Definition gets {A} (f : self_t -> A) : M A := fun s => (ok (f s), s).

Definition of_key {A} (o : option A) : result A :=
  match o with
  | Some a => ok a
  | None => raise KeyError
  end.

(** Modelled from the spec: the "generic labeled-property store" through
    which the solver reads and writes per-node labels and values
    ([get_pore_info], [set_pore_info], [get_pore_data], [set_pore_data] of the
    base class, which is not part of the sources at hand).  A label is a
    mask over the nodes and a property is an array over the nodes; writing
    at locations creates the entry when it is missing (no node labelled, every
    value 0), and mode ['overwrite'] clears the label first. *)
Definition get_pore_info (label : string) : M (list bool) :=
  d <- gets _pore_info ;; lift (of_key (dict_get d label)).

Definition get_pore_data (prop : string) : M (list Qc) :=
  d <- gets _pore_data ;; lift (of_key (dict_get d prop)).

Definition set_pore_info (n : nat) (label : string) (locations : list nat)
    (overwrite : bool) : M unit :=
  d <- gets _pore_info ;;
  let old := match dict_get d label with
             | Some m => m
             | None => repeat false n
             end in
  let base := if overwrite then map (fun _ => false) old else old in
  m <- lift (put base locations true) ;;
  setattr set_pore_info_dict (dict_set d label m).

Definition set_pore_data_at (n : nat) (prop : string) (data : Qc)
    (locations : list nat) : M unit :=
  d <- gets _pore_data ;;
  let old := match dict_get d prop with
             | Some a => a
             | None => repeat 0 n
             end in
  a <- lift (put old locations data) ;;
  setattr set_pore_data_dict (dict_set d prop a).

Definition set_pore_data (prop : string) (data : list Qc) : M unit :=
  d <- gets _pore_data ;;
  setattr set_pore_data_dict (dict_set d prop data).

Definition del_pore_info (label : string) : M unit :=
  d <- gets _pore_info ;;
  d' <- lift (dict_del d label) ;;
  setattr set_pore_info_dict d'.

Definition del_pore_data (prop : string) : M unit :=
  d <- gets _pore_data ;;
  d' <- lift (dict_del d prop) ;;
  setattr set_pore_data_dict d'.

(** ** Lines 52-128: [_boundary_conditions_setup] *)

Definition BC_code (bctype : string) : option nat :=
  if String.eqb bctype "Dirichlet" then Some 1%nat
  else if String.eqb bctype "Neumann_flux" then Some 2%nat
  else if String.eqb bctype "Neumann_insulated" then Some 3%nat
  else if String.eqb bctype "Neumann_rate_union" then Some 4%nat
  else if String.eqb bctype "Neumann_rate_individual" then Some 5%nat
  else None.

Definition apply_BC_label (bctype : string) : M unit :=
  match BC_code bctype with
  | None => ret tt
  | Some k =>
      bcpores <- get_pore_info bctype ;;
      types <- getattr _BCtypes ;;
      types' <- lift (put types (nonzero bcpores) k) ;;
      setattr set_BCtypes (Some types') ;;;
      bcval <- get_pore_data "BCval" ;;
      vals <- lift (mask_get bcval bcpores) ;;
      values <- getattr _BCvalues ;;
      values' <- lift (mask_set values bcpores vals) ;;
      setattr set_BCvalues (Some values')
  end.

Definition _boundary_conditions_setup (n : nat) : M unit :=
  setattr set_BCtypes (Some (repeat 0%nat n)) ;;;
  setattr set_BCvalues (Some (repeat 0 n)) ;;;
  keys <- gets (fun s => map fst (_pore_info s)) ;;
  for_each keys apply_BC_label ;;;
  logger_info "Boundary conditions have been applied successfully.".

(** ** Lines 231-248: [rate] *)

Definition index_conductance (c : conductance_t) (throats : list nat)
  : result (list Qc) :=
  match c with
  | Scalar _ => raise TypeError
  | Array g => take g throats
  end.

Section Rate.

Variable net : GenericNetwork.t.

(** The arguments default to [''], written [None]. *)
Definition rate (pores throats : option (list nat)) : M Qc :=
  tc <- match throats, pores with
        | Some ts, _ =>
            conns <- lift (GenericNetwork.find_connected_pores net ts) ;;
            ret (ts, conns)
        | None, Some ps =>
            let ts := GenericNetwork.find_neighbor_throats net ps in
            conns <- lift (GenericNetwork.find_connected_pores net ts) ;;
            ret (ts, conns)
        | None, None => throw NameError
        end ;;
  let throats := fst tc in
  let p1 := map fst (snd tc) in
  let p2 := map snd (snd tc) in
  let inside := match pores with Some ps => ps | None => [] end in
  let outside1 := negate (in1d p1 inside) in
  v2 <- lift (mask_get p2 outside1) ;;
  pores1 <- lift (mask_set p1 outside1 v2) ;;
  v1 <- lift (mask_get p1 outside1) ;;
  pores2 <- lift (mask_set p2 outside1 v1) ;;
  X <- getattr _result ;;
  X1 <- lift (take X pores1) ;;
  X2 <- lift (take X pores2) ;;
  c <- getattr _conductance ;;
  g <- lift (index_conductance c throats) ;;
  d <- lift (subtract X1 X2) ;;
  gd <- lift (multiply g d) ;;
  ret (sum gd).

End Rate.

(** The rate across a cut in the words of the specification: every
    connection is oriented with its endpoint inside the node set as source,
    and the conductance times the potential drop from source to sink is
    summed over the connections. *)
Definition is_inside (inside : list nat) (p : nat) : bool :=
  existsb (Nat.eqb p) inside.
Definition source (inside : list nat) (c : nat * nat) : nat :=
  if is_inside inside (fst c) then fst c else snd c.
Definition sink (inside : list nat) (c : nat * nat) : nat :=
  if is_inside inside (fst c) then snd c else fst c.
Definition cut_rate (g X : list Qc) (inside : list nat)
    (throats : list nat) (conns : list (nat * nat)) : Qc :=
  sum (map (fun tc => nth (fst tc) g 0
                      * (nth (source inside (snd tc)) X 0
                         - nth (sink inside (snd tc)) X 0))
           (combine throats conns)).

(** ** Lines 250-387: [_calc_eff_prop_cubic] *)

(** The argument [face1] or [face2]: a string, a list whose items are
    strings or not, or something else. *)
Inductive face_arg : Type :=
| FaceStr (s : string)
| FaceList (l : list (option string))
| FaceOther.

(** What the method returns. *)
Inductive output : Type :=
| Mapping (result_ : list (string * Qc))      (* the dictionary [result] *)
| Tensor (tensor : list (list Qc))            (* the 3x3 array [tensor]  *)
| NoneValue.                                  (* falling off the end     *)

Definition zeros33 : list (list Qc) := repeat (repeat 0 3) 3.

(** An array of shape [(3, 3)] *)
Definition is_3x3 (t : list (list Qc)) : Prop :=
  length t = 3%nat /\ Forall (fun r => length r = 3%nat) t.

(** [tensor[i,j]] *)
Definition tensor_get (t : list (list Qc)) (i j : nat) : Qc :=
  nth j (nth i t []) 0.

(** [tensor[i,i] = v] for [i < 3] *)
Definition tensor_set_diag (t : list (list Qc)) (i : nat) (v : Qc)
  : list (list Qc) :=
  match set_item (nth i t []) i v with
  | inr r => match set_item t i r with
             | inr t' => t'
             | inl _ => t
             end
  | inl _ => t
  end.

(** Lines 373-375: the diagonal position chosen for a pair. *)
Definition tensor_position (ftype1 : string) : option nat :=
  if String.eqb ftype1 "top" || String.eqb ftype1 "bottom" then Some 2%nat
  else if String.eqb ftype1 "right" || String.eqb ftype1 "left" then Some 1%nat
  else if String.eqb ftype1 "front" || String.eqb ftype1 "back" then Some 0%nat
  else None.

Definition place (ftype1 : string) (eff : Qc) (tensor : list (list Qc))
  : list (list Qc) :=
  match tensor_position ftype1 with
  | Some k => tensor_set_diag tensor k eff
  | None => tensor
  end.

(** [sp.average] *)
Definition average (l : list Qc) : Qc :=
  sum l / Q2Qc (inject_Z (Z.of_nat (length l))).

(** [max] and [min] of a sequence; the empty sequence is a [ValueError]. *)
Definition maximum (l : list Qc) : result Qc :=
  match l with
  | [] => raise ValueError
  | x :: l' => ok (fold_left Qcmax l' x)
  end.
Definition minimum (l : list Qc) : result Qc :=
  match l with
  | [] => raise ValueError
  | x :: l' => ok (fold_left Qcmin l' x)
  end.

Definition is_empty_str (f : face_arg) : bool :=
  match f with
  | FaceStr s => String.eqb s ""
  | _ => false
  end.

(** [self._logger.error(msg)] *)
Definition logger_error (msg : string) : M unit := logger_info msg.

(** Lines 271-275 *)
Fixpoint collect_faces (l : list (option string * option string))
  : M (list string * list string) :=
  match l with
  | [] => ret ([], [])
  | (Some a, Some b) :: l' =>
      r <- collect_faces l' ;; ret (a :: fst r, b :: snd r)
  | _ :: l' =>
      logger_error "face1 and face2 should be string or a list of strings!" ;;;
      collect_faces l'
  end.

(** Lines 262-286 *)
Definition face_types (face1 face2 : face_arg) : M (list string * list string) :=
  if negb (is_empty_str face1) && negb (is_empty_str face2) then
    match face1, face2 with
    | FaceList l1, FaceList l2 =>
        if Nat.eqb (length l1) (length l2) then collect_faces (combine l1 l2)
        else logger_error "face1 and face 2 should have equal length!" ;;;
             ret ([], [])
    | FaceStr a, FaceStr b => ret (a :: nil, b :: nil)
    | _, _ =>
        logger_error "face1 and face2 should be string or a list of strings!" ;;;
        ret ([], [])
    end
  else if is_empty_str face1 && is_empty_str face2 then
    ret (("front" :: "right" :: "top" :: nil)%string,
         ("back" :: "left" :: "bottom" :: nil)%string)
  else logger_error "wrong input for face1 or face2" ;;; ret ([], []).

(** Lines 334-350: the coordinate that is constant over the pores of
    [face1], first match among x, y, z. *)
Definition constant_axis (coordx coordy coordz : list Qc) (face1_pores : list nat)
  : result (option nat) :=
  (cx <- take coordx face1_pores ;;
   if Nat.eqb (length (unique cx)) 1 then ok (Some 0%nat) else
   cy <- take coordy face1_pores ;;
   if Nat.eqb (length (unique cy)) 1 then ok (Some 1%nat) else
   cz <- take coordz face1_pores ;;
   if Nat.eqb (length (unique cz)) 1 then ok (Some 2%nat) else ok None)%res.

Section EffectiveProperty.

Variable net : GenericNetwork.t.

(** [self.run(active_fluid=fluid, x_term=x_term, conductance=conductance,
    occupancy=occupancy)], defined in the subclasses. *)
Variable run : M unit.

(** [sp.log(1-v)] *)
Variable log1m : Qc -> Qc.

(** [fluid.get_pore_data(prop=d_term)] *)
Variable d_data : list Qc.

Variable alg : string.
Variable x_term : string.

Let N := GenericNetwork.num_pores net.

(** Lines 287-298 *)
Definition set_aside : M unit :=
  has_dir <- gets (fun s => dict_mem (_pore_info s) "Dirichlet") ;;
  (if has_dir then
     d <- get_pore_info "Dirichlet" ;;
     setattr set_dir (Some d) ;;;
     del_pore_info "Dirichlet"
   else ret tt) ;;;
  has_val <- gets (fun s => dict_mem (_pore_data s) "BCval") ;;
  if has_val then
    v <- get_pore_data "BCval" ;;
    setattr set_BCval_temp (Some v) ;;;
    del_pore_data "BCval" ;;;
    try_pass (
      t <- getattr _BCtypes ;;
      setattr set_BCtypes_temp (Some t) ;;;
      delattr _BCtypes set_BCtypes ;;;
      v <- getattr _BCvalues ;;
      setattr set_BCvalues_temp (Some v) ;;;
      delattr _BCvalues set_BCvalues)
  else ret tt.

(** Lines 376-385 *)
Definition put_back : M unit :=
  try_pass (
    d <- getattr _dir ;;
    set_pore_info N "Dirichlet" (nonzero d) true ;;;
    delattr _dir set_dir ;;;
    v <- getattr _BCval_temp ;;
    set_pore_data "BCval" v ;;;
    delattr _BCval_temp set_BCval_temp ;;;
    t <- getattr _BCtypes_temp ;;
    setattr set_BCtypes (Some t) ;;;
    delattr _BCtypes_temp set_BCtypes_temp ;;;
    v <- getattr _BCvalues_temp ;;
    setattr set_BCvalues (Some v) ;;;
    delattr _BCvalues_temp set_BCvalues_temp).

(** Lines 320-366: the effective coefficient of one pair, from the solved
    field [x] and the conductance left by the run. *)
Definition effective_coefficient (x : list Qc) (cond : conductance_t)
    (face1 face2 : string) : result Qc :=
  (let face1_pores := GenericNetwork.get_pore_indices_of net face1 in
   let face2_pores := GenericNetwork.get_pore_indices_of net face2 in
   let fickian := String.eqb alg "Fickian" in
   let stokes := String.eqb alg "Stokes" in
   x1 <- (if fickian || stokes then take x face1_pores else ok []) ;;
   x2 <- (if fickian || stokes then take x face2_pores else ok []) ;;
   let X1 := if fickian then map log1m x1 else x1 in
   let X2 := if fickian then map log1m x2 else x2 in
   _ <- (if fickian || stokes then ok tt else raise NameError) ;;
   let delta_X := Qcabs (average X2 - average X1) in
   let d_force := average d_data in
   let coordx := map (fun c => fst (fst c)) (GenericNetwork.coords net) in
   let coordy := map (fun c => snd (fst c)) (GenericNetwork.coords net) in
   let coordz := map (fun c => snd c) (GenericNetwork.coords net) in
   axis <- constant_axis coordx coordy coordz face1_pores ;;
   c <- match axis with
        | Some 0%nat => ok (coordx, coordy, coordz)
        | Some 1%nat => ok (coordy, coordx, coordz)
        | Some _ => ok (coordz, coordx, coordy)
        | None => raise NameError
        end ;;
   let '(main, temp1, temp2) := c in
   coord_main1 <- take main face1_pores ;;
   coord_main2 <- take main face2_pores ;;
   coord_temp1 <- take temp1 face1_pores ;;
   coord_temp2 <- take temp2 face1_pores ;;
   u1 <- item (unique coord_main1) 0 ;;
   u2 <- item (unique coord_main2) 0 ;;
   let L := Qcabs (u1 - u2) in
   max1 <- maximum coord_temp1 ;;
   min1 <- minimum coord_temp1 ;;
   max2 <- maximum coord_temp2 ;;
   min2 <- minimum coord_temp2 ;;
   let length_1 := max1 - min1 in
   let length_2 := max2 - min2 in
   let A := length_1 * length_2 in
   let fn := GenericNetwork.find_neighbor_pores net face1_pores in
   fn <- mask_get fn (in1d fn (GenericNetwork.get_pore_indices_of net "internal")) ;;
   let ft := GenericNetwork.find_connecting_throat net face1_pores fn in
   xn <- take x fn ;;
   let X_temp := if fickian then map log1m xn else xn in
   let d_force := if fickian then d_force else 1 / d_force in
   g <- index_conductance cond ft ;;
   d <- subtract X1 X_temp ;;
   gd <- multiply g (map Qcabs d) ;;
   let N_ := sum gd in
   ok (N_ * L / (d_force * A * delta_X)))%res.

(** Lines 301-375: one turn of the loop over the face pairs.  The element
    [effective_prop[i]] read on lines 372-375 is the one just appended. *)
Definition estimate_pair
    (acc : list Qc * list (string * Qc) * list (list Qc))
    (faces : string * string)
  : M (list Qc * list (string * Qc) * list (list Qc)) :=
  let '(effective_prop, result_, tensor) := acc in
  let face1 := fst faces in
  let face2 := snd faces in
  let face1_pores := GenericNetwork.get_pore_indices_of net face1 in
  let face2_pores := GenericNetwork.get_pore_indices_of net face2 in
  set_pore_info N "Dirichlet" face1_pores true ;;;
  set_pore_data_at N "BCval" (Q2Qc (8 # 10)) face1_pores ;;;
  set_pore_info N "Dirichlet" face2_pores false ;;;
  set_pore_data_at N "BCval" (Q2Qc (4 # 10)) face2_pores ;;;
  run ;;;
  x <- get_pore_data x_term ;;
  cond <- getattr _conductance ;;
  eff <- lift (effective_coefficient x cond face1 face2) ;;
  del_pore_info "Dirichlet" ;;;
  del_pore_data "BCval" ;;;
  delattr _BCtypes set_BCtypes ;;;
  delattr _BCvalues set_BCvalues ;;;
  ret (effective_prop ++ [eff],
       dict_set result_ (face1 ++ "/" ++ face2)%string eff,
       place face1 eff tensor).

Fixpoint estimate_pairs
    (acc : list Qc * list (string * Qc) * list (list Qc))
    (l : list (string * string))
  : M (list Qc * list (string * Qc) * list (list Qc)) :=
  match l with
  | [] => ret acc
  | faces :: l' => acc' <- estimate_pair acc faces ;; estimate_pairs acc' l'
  end.

(** The instance between two turns of the loop: the Dirichlet label, the
    boundary values and the two boundary arrays are absent, and the four
    temporaries hold what was set aside. *)
Definition set_aside_state (dir : list bool) (bcval : list Qc)
    (T0 : option (list nat)) (V0 : option (list Qc)) (s : self_t) : Prop :=
  dict_mem (_pore_info s) "Dirichlet" = false /\
  dict_mem (_pore_data s) "BCval" = false /\
  _BCtypes s = None /\ _BCvalues s = None /\
  _dir s = Some dir /\ _BCval_temp s = Some bcval /\
  _BCtypes_temp s = T0 /\ _BCvalues_temp s = V0.

(** A run that leaves the four temporaries alone. *)
Definition keeps_temporaries (r : M unit) : Prop :=
  forall s, let s' := snd (r s) in
    _dir s' = _dir s /\ _BCval_temp s' = _BCval_temp s /\
    _BCtypes_temp s' = _BCtypes_temp s /\ _BCvalues_temp s' = _BCvalues_temp s.

(** The four temporaries of the estimator, and a method that leaves them
    alone whether it returns or raises. *)
Definition temporaries (s : self_t)
  : option (list bool) * option (list Qc) * option (list nat)
    * option (list Qc) :=
  (_dir s, _BCval_temp s, _BCtypes_temp s, _BCvalues_temp s).

Definition frames_temporaries {A} (m : M A) : Prop :=
  forall s, temporaries (snd (m s)) = temporaries s.

(** A method that leaves the part [f] of the instance as it found it,
    whether it returns or raises. *)
Definition preserves {X A} (f : self_t -> X) (m : M A) : Prop :=
  forall s, f (snd (m s)) = f s.

Definition _calc_eff_prop_cubic (face1 face2 : face_arg) : M output :=
  ft <- face_types face1 face2 ;;
  let ftype1 := fst ft in
  let ftype2 := snd ft in
  set_aside ;;;
  r <- estimate_pairs ([], [], zeros33) (combine ftype1 ftype2) ;;
  put_back ;;;
  let '(_, result_, tensor) := r in
  if Nat.ltb (length ftype1) 3 then ret (Mapping result_)
  else if Nat.eqb (length ftype1) 3 then ret (Tensor tensor)
  else ret NoneValue.

End EffectiveProperty.

End LinearSolver.

(* ================================================================== *)
(** * A reference network *)
(* ================================================================== *)

Module Topology.
Import Numpy.

Definition mem (x : nat) (l : list nat) : bool := existsb (Nat.eqb x) l.

(** Modelled from the spec: the neighbour query of the network class, which
    is not part of the sources at hand ("the group's neighbors", "face1
    nodes and their neighbors"): the nodes outside [P] that share a
    connection with a node of [P], in increasing order. *)
Definition neighbor_pores (n : nat) (conns : list (nat * nat)) (P : list nat)
  : list nat :=
  filter (fun p =>
            negb (mem p P) &&
            existsb (fun c => (Nat.eqb (fst c) p && mem (snd c) P)
                              || (Nat.eqb (snd c) p && mem (fst c) P)) conns)
         (arange n).

(** Modelled from the spec: the connecting-edge query of the network class,
    which is not part of the sources at hand ("the connecting edges"): the
    connections with one endpoint in [P1] and the other in [P2]. *)
Definition connecting_throat (conns : list (nat * nat)) (P1 P2 : list nat)
  : list nat :=
  nonzero (map (fun c => (mem (fst c) P1 && mem (snd c) P2)
                         || (mem (snd c) P1 && mem (fst c) P2)) conns).

(** Modelled from the spec: the cut query of the network class, which is
    not part of the sources at hand ("connections whose endpoints straddle
    the given node set"). *)
Definition neighbor_throats (conns : list (nat * nat)) (P : list nat)
  : list nat :=
  nonzero (map (fun c => xorb (mem (fst c) P) (mem (snd c) P)) conns).

Definition network (n : nat) (conns : list (nat * nat)) (cs : list Qc)
    (xyz : list (Qc * Qc * Qc)) (labels : string -> list bool)
  : GenericNetwork.t :=
  {| GenericNetwork.num_pores := n;
     GenericNetwork.connections := conns;
     GenericNetwork.cross_section := cs;
     GenericNetwork.coords := xyz;
     GenericNetwork.get_pore_info := labels;
     GenericNetwork.find_neighbor_pores := neighbor_pores n conns;
     GenericNetwork.find_connecting_throat := connecting_throat conns;
     GenericNetwork.find_neighbor_throats := neighbor_throats conns |}.

End Topology.

(* ================================================================== *)
(** * The assembly in the arithmetic of the arrays *)
(* ================================================================== *)

From Stdlib Require PrimFloat FloatOps SpecFloat.

(** Lines 130-213 once more, this time as a function of the arrays that the
    method reads and over an arbitrary arithmetic: the subtraction, the
    product, the comparisons and [sp.sum] are fields of a record, and no law
    is assumed of them.  With [binary64] the functions compute what the
    program computes, rounding included; with [exact] they compute on exact
    rationals, as the methods of [LinearSolver] do.  The statements that
    depend on how numbers are added, multiplied or compared are made here. *)
Module Binary64.
Import PrimFloat.

(** The double nearest to 1e-60, 9.9999999999999997e-61. *)
Definition tiny : float := 0x1.9b604aaaca626p-200%float.

End Binary64.

Module Numeric.
Import Numpy LinearSolver.
Local Open Scope result_scope.
Local Open Scope nat_scope.

Record numbers : Type := {
  carrier : Type;
  zero : carrier;                          (* 0.0 *)
  one : carrier;                           (* 1.0 *)
  tiny : carrier;                          (* 1e-60 *)
  sub : carrier -> carrier -> carrier;     (* a - b *)
  mul : carrier -> carrier -> carrier;     (* a * b *)
  eqb : carrier -> carrier -> bool;        (* a == b *)
  ltb : carrier -> carrier -> bool;        (* a < b *)
  sum : list carrier -> carrier            (* sp.sum *)
}.

(** Exact rationals. *)
Definition exact : numbers :=
  {| carrier := Qc; zero := Q2Qc 0; one := Q2Qc 1; tiny := g_super_value;
     sub := Qcminus; mul := Qcmult; eqb := Qc_eqb; ltb := Qc_ltb;
     sum := Numpy.sum |}.

(** IEEE 754 binary64, the numbers of the arrays of the program.  The sum
    adds from left to right, as [sp.sum] does on arrays of fewer than eight
    elements. *)
Definition binary64 : numbers :=
  {| carrier := PrimFloat.float;
     zero := PrimFloat.zero;
     one := PrimFloat.one;
     tiny := Binary64.tiny;
     sub := PrimFloat.sub; mul := PrimFloat.mul;
     eqb := PrimFloat.eqb; ltb := PrimFloat.ltb;
     sum := fun l => fold_left PrimFloat.add l PrimFloat.zero |}.

(** The value of a double as a rational; infinities and NaN have none. *)
Definition exact_value (f : PrimFloat.float) : option Q :=
  match FloatOps.Prim2SF f with
  | SpecFloat.S754_zero _ => Some 0%Q
  | SpecFloat.S754_finite s m e =>
      Some ((if s then -1 else 1) * (Zpos m # 1) * Qpower 2 e)%Q
  | _ => None
  end.

(** The exact sum of the values of a list of doubles. *)
Fixpoint exact_sum (l : list PrimFloat.float) : option Q :=
  match l with
  | [] => Some 0%Q
  | x :: l' =>
      match exact_value x, exact_sum l' with
      | Some a, Some b => Some (a + b)%Q
      | _, _ => None
      end
  end.

Section InArithmetic.

Variable K : numbers.
Variable net : GenericNetwork.t.

(** [get_throat_data(prop='cross_section')], in the arithmetic [K]. *)
Variable cross_section : list (carrier K).

Let N := GenericNetwork.num_pores net.
Let pores := GenericNetwork.get_pore_indices net.

(** [self._conductance] is a scalar or an array. *)
Inductive conductance : Type :=
| Scalar (g : carrier K)
| Array (g : list (carrier K)).

Definition size (c : conductance) : nat :=
  match c with
  | Scalar _ => 1
  | Array g => length g
  end.

(** [c * sp.ones(n)] for a [c] of size 1. *)
Definition times_ones (c : conductance) (n : nat) : list (carrier K) :=
  match c with
  | Scalar g => repeat (mul K g (one K)) n
  | Array g => repeat (mul K (hd (zero K) g) (one K)) n
  end.

Definition array_of (c : conductance) : list (carrier K) :=
  match c with
  | Scalar g => [g]
  | Array g => g
  end.

(** A sparse matrix in coordinate form. *)
Record matrix : Type := {
  shape : nat;
  row : list nat;
  col : list nat;
  data : list (carrier K)
}.

(** [values == v] *)
Definition has_value (v : carrier K) (values : list (carrier K)) : list bool :=
  map (fun x => eqb K x v) values.

(** [sp.unique], for arrays without NaN: insertion in an increasing list. *)
Fixpoint insert_sorted (x : carrier K) (l : list (carrier K))
  : list (carrier K) :=
  match l with
  | [] => [x]
  | y :: l' =>
      if eqb K x y then l
      else if ltb K x y then x :: l
      else y :: insert_sorted x l'
  end.

Definition unique (l : list (carrier K)) : list (carrier K) :=
  fold_right insert_sorted [] l.

(** Element-wise product with numpy broadcasting of one-dimensional
    operands. *)
Definition multiply (a b : list (carrier K)) : result (list (carrier K)) :=
  if Nat.eqb (length a) (length b)
  then ok (map (fun p => mul K (fst p) (snd p)) (combine a b))
  else match a, b with
       | x :: nil, _ => ok (map (fun y => mul K x y) b)
       | _, y :: nil => ok (map (fun x => mul K x y) a)
       | _, _ => raise ValueError
       end.

(** Lines 132-134: unclassified pores that do not carry the label
    ['internal'] become insulated. *)
Definition insulate (types : list nat) : result (list nat) :=
  boundaries <- mask_get pores
                  (negate (in1d pores
                             (GenericNetwork.get_pore_indices_of net "internal"))) ;;
  tb <- take types boundaries ;;
  if any (is_kind 0 tb) then
    idx <- mask_get boundaries (is_kind 0 tb) ;;
    put types idx Neumann_insulated
  else ok types.

(** Lines 137-156: the off-diagonal conductance entries, and the
    conductance array that lines 146-147 leave on the instance. *)
Definition conductance_entries (types : list nat) (c : conductance)
  : result (list nat * list nat * list (carrier K) * list (carrier K)) :=
  let pnum := pores in
  let tpore1 := map fst (GenericNetwork.connections net) in
  let tpore2 := map snd (GenericNetwork.connections net) in
  nd1 <- mask_get pnum (not_kind 1 types) ;;
  let loc1 := in1d tpore1 nd1 in
  modified_tpore1 <- mask_get tpore1 loc1 ;;
  modified_tpore2 <- mask_get tpore2 loc1 ;;
  let row := modified_tpore1 in
  let col := modified_tpore2 in
  let data_main :=
    if Nat.eqb (size c) 1
    then times_ones c (GenericNetwork.num_throats net)
    else array_of c in
  data <- mask_get data_main loc1 ;;
  nd2 <- mask_get pnum (not_kind 1 types) ;;
  let loc2 := in1d tpore2 nd2 in
  modified_tpore2 <- mask_get tpore2 loc2 ;;
  modified_tpore1 <- mask_get tpore1 loc2 ;;
  data2 <- mask_get data_main loc2 ;;
  ok (row ++ modified_tpore2, col ++ modified_tpore1, data ++ data2, data_main).

(** Lines 165-170: the body of the loop over the distinct flux values, on
    the kind and value arrays. *)
Definition convert_flux_group (flux_pores : list nat)
    (tv : list nat * list (carrier K)) (v : carrier K)
  : result (list nat * list (carrier K)) :=
  let '(types, values) := tv in
  same <- mask_get pores (has_value v values) ;;
  f <- mask_get flux_pores (in1d flux_pores same) ;;
  let fn := GenericNetwork.find_neighbor_pores net f in
  internal_fn <- take (GenericNetwork.get_pore_info net "internal") fn ;;
  fn <- mask_get fn internal_fn ;;
  let ft := GenericNetwork.find_connecting_throat net f fn in
  types' <- put types f Neumann_rate_union ;;
  vf <- take values f ;;
  cs <- take cross_section ft ;;
  prod <- multiply vf cs ;;
  values' <- put values f (sum K prod) ;;
  ok (types', values').

(** Lines 161-170.  The loop runs over [flux_values[i]] for
    [i = 0 .. len(flux_values)-1], that is over the list itself. *)
Definition convert_flux (tv : list nat * list (carrier K))
  : result (list nat * list (carrier K)) :=
  let '(types, values) := tv in
  if any (is_kind 2 types) then
    flux_pores <- mask_get pores (is_kind 2 types) ;;
    fv <- mask_get values (is_kind 2 types) ;;
    fold_result (convert_flux_group flux_pores) (unique fv) tv
  else ok tv.

(** Lines 180-187: the body of the loop over the superpores. *)
Definition superpore_group (A_dim : nat) (mask : list bool)
    (values : list (carrier K)) (extera_neu : list (carrier K))
    (acc : list nat * list nat * list (carrier K)) (item_ : nat)
  : result (list nat * list nat * list (carrier K)) :=
  let '(row, col, data) := acc in
  neu_tpore2 <- mask_get pores mask ;;
  vn <- take values neu_tpore2 ;;
  e <- item extera_neu item_ ;;
  neu_tpore2 <- mask_get neu_tpore2 (has_value e vn) ;;
  let n := length neu_tpore2 in
  let sp_ := (A_dim - item_ - 1)%nat in
  ok (row ++ neu_tpore2 ++ repeat sp_ n,
      col ++ repeat sp_ n ++ neu_tpore2,
      data ++ repeat (tiny K) n ++ repeat (tiny K) n).

(** Lines 158 and 173-192: the dimension, the entries with the superpore
    links, and the array [_extera_Neumann_equations] (absent when it is the
    integer 0). *)
Definition superpore_entries (types : list nat) (values : list (carrier K))
    (rcd : list nat * list nat * list (carrier K))
  : result (nat * (list nat * list nat * list (carrier K))
            * option (list (carrier K))) :=
  if any (is_kind 4 types) then
    kv <- mask_get values (is_kind 4 types) ;;
    let extera_neu := unique kv in
    let A_dim := (N + length extera_neu)%nat in
    let mask := is_kind 4 types in
    rcd' <- fold_result (superpore_group A_dim mask values extera_neu)
              (arange (length extera_neu)) rcd ;;
    ok (A_dim, rcd', Some extera_neu)
  else ok (N, rcd, None).

(** Lines 203-204: [S_temp[row[i]] = S_temp[row[i]] - temp_data[i]] for
    [i = 0 .. len(row)-1]. *)
Fixpoint accumulate (S_temp : list (carrier K)) (row : list nat)
    (temp_data : list (carrier K)) : result (list (carrier K)) :=
  match row, temp_data with
  | [], _ => ok S_temp
  | _ :: _, [] => raise IndexError
  | r :: row', d :: temp' =>
      match item S_temp r with
      | inl e => inl e
      | inr old =>
          match set_item S_temp r (sub K old d) with
          | inl e => inl e
          | inr S' => accumulate S' row' temp'
          end
      end
  end.

(** [coo_matrix((data,(row,col)),(n,n))] *)
Definition matrix_new (data : list (carrier K)) (row col : list nat) (n : nat)
  : result matrix :=
  if Nat.eqb (length row) (length data) && Nat.eqb (length col) (length data)
     && forallb (fun r => Nat.ltb r n) row && forallb (fun c => Nat.ltb c n) col
  then ok {| shape := n; row := row; col := col; data := data |}
  else raise ValueError.

(** Lines 194-211: Dirichlet unit diagonal, then the diagonal closure. *)
Definition close_diagonal (types : list nat) (A_dim : nat)
    (rcd : list nat * list nat * list (carrier K)) : result matrix :=
  let '(row, col, data) := rcd in
  let dia := arange A_dim in
  dir <- mask_get dia (is_kind 1 types) ;;
  let row := row ++ dir in
  let col := col ++ dir in
  let data := data ++ map (fun _ => one K) dir in
  temp_data <- put data (nonzero (in1d row dir)) (zero K) ;;
  S_temp <- accumulate (repeat (zero K) A_dim) row temp_data ;;
  non_Dir <- mask_get dia (negate (in1d dia dir)) ;;
  diag <- take S_temp non_Dir ;;
  let data := data ++ diag in
  let row := row ++ non_Dir in
  let col := col ++ non_Dir in
  matrix_new data row col A_dim.

(** What the assembly returns and leaves on the instance. *)
Record assembled : Type := {
  A : matrix;                              (* the returned matrix *)
  BCtypes : list nat;                      (* self._BCtypes *)
  BCvalues : list (carrier K);             (* self._BCvalues *)
  conductance_array : list (carrier K);    (* self._conductance *)
  extera_Neumann_equations : option (list (carrier K));
  Coeff_dimension : nat                    (* self._Coeff_dimension *)
}.

(** Lines 130-213: [_build_coefficient_matrix], from the kind array, the
    value array and the conductance found on the instance. *)
Definition _build_coefficient_matrix (types : list nat)
    (values : list (carrier K)) (c : conductance) : result assembled :=
  types <- insulate types ;;
  e <- conductance_entries types c ;;
  let '(row, col, data, g) := e in
  tv <- convert_flux (types, values) ;;
  let '(types, values) := tv in
  r <- superpore_entries types values (row, col, data) ;;
  let '(A_dim, rcd, extera_neu) := r in
  M_ <- close_diagonal types A_dim rcd ;;
  ok {| A := M_; BCtypes := types; BCvalues := values;
        conductance_array := g; extera_Neumann_equations := extera_neu;
        Coeff_dimension := A_dim |}.

(** The entries that the coordinate arrays store in row [r], in storage
    order. *)
Definition stored_in_row (rows : list nat) (entries : list (carrier K))
    (r : nat) : list (carrier K) :=
  select entries (map (Nat.eqb r) rows).

(** The group of the flux value [v]: the flux pores whose value compares
    equal to [v]. *)
Definition flux_group (flux_pores : list nat) (values : list (carrier K))
    (v : carrier K) : list nat :=
  select flux_pores (in1d flux_pores (nonzero (has_value v values))).

(** The sum of flux times cross-section over the throats of the group:
    node by node when the group has as many nodes as throats, and the one
    flux against every throat otherwise. *)
Definition flux_rate (flux_pores : list nat) (values : list (carrier K))
    (v : carrier K) : carrier K :=
  let f := flux_group flux_pores values v in
  let ft := flux_throats net f in
  let vf := map (fun p => nth p values (zero K)) f in
  let cs := map (fun t => nth t cross_section (zero K)) ft in
  sum K (if Nat.eqb (length vf) (length cs)
         then map (fun p => mul K (fst p) (snd p)) (combine vf cs)
         else map (fun c => mul K (hd (zero K) vf) c) cs).

(** [==] and [<] compare the numbers of [l] as numbers are compared: [==]
    is an equivalence on them and [<] a strict total order.  A list of
    doubles passes unless one of them is NaN. *)
Definition ordered_numbers (l : list (carrier K)) : bool :=
  forallb (fun x =>
    eqb K x x &&
    forallb (fun y =>
      implb (eqb K x y) (eqb K y x) &&
      implb (ltb K x y) (negb (eqb K x y)) &&
      (eqb K x y || ltb K x y || ltb K y x) &&
      forallb (fun z =>
        implb (eqb K x y && eqb K y z) (eqb K x z) &&
        implb (ltb K x y && ltb K y z) (ltb K x z)) l) l) l.

(** The state of the arrays inside the loop of lines 164-170 once the
    flux values [done] have been handled: a flux pore whose flux compares
    equal to a handled value is a grouped-rate pore and carries the rate of
    that group, the others still carry their flux. *)
Definition converted_so_far (flux_pores : list nat)
    (values : list (carrier K)) (done : list (carrier K))
    (tc : list nat) (vc : list (carrier K)) : Prop :=
  length vc = length values /\
  forall p y, In p flux_pores -> nth_error values p = Some y ->
    if existsb (eqb K y) done
    then nth_error tc p = Some Neumann_rate_union /\
         exists u, In u done /\ eqb K y u = true /\
                   nth_error vc p = Some (flux_rate flux_pores values u)
    else nth_error vc p = Some y.

End InArithmetic.

Arguments Scalar {K} g.
Arguments Array {K} g.
Arguments shape {K} m.
Arguments row {K} m.
Arguments col {K} m.
Arguments data {K} m.
Arguments A {K} a.
Arguments BCtypes {K} a.
Arguments BCvalues {K} a.
Arguments conductance_array {K} a.
Arguments extera_Neumann_equations {K} a.
Arguments Coeff_dimension {K} a.

End Numeric.

(* ================================================================== *)
(** * Concrete inputs *)
(* ================================================================== *)

Local Open Scope nat_scope.

Module Examples.
Import Numpy.

Definition minpore_example_network : ThroatDiameter.Network :=
  {| ThroatDiameter.pore_diameter := [Q2Qc 0; Q2Qc (3 # 1); Q2Qc (2 # 1)]%list;
     ThroatDiameter.throat_conns := [(0, 1); (1, 2)]%list |}.

Definition q (n : Z) (d : positive) : Qc := Q2Qc (n # d).

(** An instance with its boundary arrays and conductance set, and nothing
    else. *)
Definition instance (types : list nat) (values : list Qc)
    (c : LinearSolver.conductance_t) : LinearSolver.self_t :=
  LinearSolver.mkSelf [] [] (Some types) (Some values) (Some c)
    None None None None None None None None None [].

(** Two pores joined by one throat; both are internal. *)
Definition two_pores : GenericNetwork.t :=
  Topology.network 2 [(0, 1)] [q 1 1] []
    (fun l => if String.eqb l "internal" then [true; true] else []).

Definition no_BC : LinearSolver.self_t :=
  instance [0; 0] [q 0 1; q 0 1] (LinearSolver.Scalar (q 2 1)).

Definition both_Dirichlet : LinearSolver.self_t :=
  instance [1; 1] [q 1 1; q 0 1] (LinearSolver.Scalar (q 2 1)).

(** A solver for the systems whose matrix is the identity. *)
Definition solve_identity (A : LinearSolver.coo_matrix) (B : list Qc)
  : result (list Qc) := ok B.

(** Four pores in a row, 0 - 1 - 2 - 3; the two end pores are boundary
    pores, the two middle ones are internal. *)
Definition chain_labels (l : string) : list bool :=
  if String.eqb l "internal" then [false; true; true; false] else [].

Definition chain : GenericNetwork.t :=
  Topology.network 4 [(0, 1); (1, 2); (2, 3)] [q 1 1; q 1 1; q 2 1] []
    chain_labels.

(** The chain solved between potential 1 at pore 0 and 0 at pore 3, with
    conductance 3 on every throat. *)
Definition chain_solved : LinearSolver.self_t :=
  LinearSolver.set_result (Some [q 1 1; q 2 3; q 1 3; q 0 1])
    (instance [1; 0; 0; 1] [q 1 1; q 0 1; q 0 1; q 0 1]
       (LinearSolver.Array [q 3 1; q 3 1; q 3 1])).

(** The chain with a Dirichlet pore at one end and a flux of 1/2 at the
    other. *)
Definition chain_flux : LinearSolver.self_t :=
  instance [1; 0; 0; 2] [q 1 1; q 0 1; q 0 1; q 1 2]
    (LinearSolver.Scalar (q 3 1)).

(** The chain with a flux of 1/2 at pore 3, whose only neighbour, the
    internal pore 2, is a Dirichlet pore. *)
Definition chain_flux_beside_Dirichlet : LinearSolver.self_t :=
  instance [0; 0; 1; 2] [q 0 1; q 0 1; q 1 1; q 1 2]
    (LinearSolver.Scalar (q 3 1)).

(** A cube of 2 x 2 x 2 pores.  Pore [4a + 2b + c] sits at [(a, 2b, 3c)];
    the throats join the pores that differ in one of [a], [b], [c]. *)
Definition cube_coords : list (Qc * Qc * Qc) :=
  [(q 0 1, q 0 1, q 0 1); (q 0 1, q 0 1, q 3 1);
   (q 0 1, q 2 1, q 0 1); (q 0 1, q 2 1, q 3 1);
   (q 1 1, q 0 1, q 0 1); (q 1 1, q 0 1, q 3 1);
   (q 1 1, q 2 1, q 0 1); (q 1 1, q 2 1, q 3 1)].

Definition cube_conns : list (nat * nat) :=
  [(0, 1); (2, 3); (4, 5); (6, 7);
   (0, 2); (1, 3); (4, 6); (5, 7);
   (0, 4); (1, 5); (2, 6); (3, 7)].

Definition x_low := [true; true; true; true; false; false; false; false].
Definition x_high := [false; false; false; false; true; true; true; true].
Definition y_low := [true; true; false; false; true; true; false; false].
Definition y_high := [false; false; true; true; false; false; true; true].
Definition z_low := [true; false; true; false; true; false; true; false].
Definition z_high := [false; true; false; true; false; true; false; true].

(** Faces named as the default arguments expect: front/back across x,
    left/right across y, bottom/top across z. *)
Definition cube_labels (l : string) : list bool :=
  if String.eqb l "internal" then repeat true 8
  else if String.eqb l "front" then x_low
  else if String.eqb l "back" then x_high
  else if String.eqb l "left" then y_low
  else if String.eqb l "right" then y_high
  else if String.eqb l "bottom" then z_low
  else if String.eqb l "top" then z_high
  else repeat false 8.

(** The same cube lying on its side: the faces named top and bottom lie
    across x, the faces named front and back across z. *)
Definition tilted_labels (l : string) : list bool :=
  if String.eqb l "internal" then repeat true 8
  else if String.eqb l "top" then x_low
  else if String.eqb l "bottom" then x_high
  else if String.eqb l "left" then y_low
  else if String.eqb l "right" then y_high
  else if String.eqb l "front" then z_low
  else if String.eqb l "back" then z_high
  else repeat false 8.

Definition cube : GenericNetwork.t :=
  Topology.network 8 cube_conns (repeat (q 1 1) 12) cube_coords cube_labels.

Definition tilted_cube : GenericNetwork.t :=
  Topology.network 8 cube_conns (repeat (q 1 1) 12) cube_coords tilted_labels.

(** A run that sets up the boundary arrays from the labels, installs a unit
    conductance and writes a fixed potential field under ["pressure"]. *)
Definition run_with_fixed_field : LinearSolver.M unit :=
  LinearSolver.bind (LinearSolver._boundary_conditions_setup 8) (fun _ =>
  LinearSolver.bind
    (LinearSolver.setattr LinearSolver.set_conductance
       (Some (LinearSolver.Array (repeat (q 1 1) 12)))) (fun _ =>
  LinearSolver.set_pore_data "pressure"
    [q 8 10; q 7 10; q 6 10; q 5 10; q 4 10; q 3 10; q 2 10; q 1 10])).

(** A run whose solve fails. *)
Definition run_that_fails : LinearSolver.M unit :=
  LinearSolver.throw SolverError.

(** An instance that carries a Dirichlet label on pores 0 and 7, with
    values, and the arrays of an earlier setup. *)
Definition labelled_instance : LinearSolver.self_t :=
  LinearSolver.mkSelf
    [("Dirichlet"%string, [true; false; false; false; false; false; false; true])]
    [("BCval"%string, [q 1 1; q 0 1; q 0 1; q 0 1; q 0 1; q 0 1; q 0 1; q 1 2])]
    (Some [1; 0; 0; 0; 0; 0; 0; 1])
    (Some [q 1 1; q 0 1; q 0 1; q 0 1; q 0 1; q 0 1; q 0 1; q 1 2])
    None None None None None None None None None None [].

End Examples.

(** Doubles, written in hexadecimal so that each literal is the double
    itself. *)
Module Doubles.
Import PrimFloat.

Definition tenth : float := 0x1.999999999999ap-4%float.       (* 0.1 *)
Definition fifth : float := 0x1.999999999999ap-3%float.       (* 0.2 *)
Definition three_tenths_up : float := 0x1.3333333333334p-2%float.
                                                   (* 0.30000000000000004 *)
Definition quarter : float := 0x1p-2%float.                   (* 0.25 *)
Definition half : float := 0x1p-1%float.                      (* 0.5 *)
Definition two : float := 0x1p+1%float.                       (* 2.0 *)
Definition three : float := 0x1.8p+1%float.                   (* 3.0 *)

End Doubles.

Module FloatExamples.
Import Numpy.

(** Three pores in a row, 0 - 1 - 2, all of them internal. *)
Definition three_chain : GenericNetwork.t :=
  Topology.network 3 [(0, 1); (1, 2)] [] []
    (fun l => if String.eqb l "internal" then [true; true; true] else []).

(** The cross-sections of [Examples.chain] as doubles. *)
Definition chain_cross_section : list PrimFloat.float :=
  [PrimFloat.one; PrimFloat.one; Doubles.two].

End FloatExamples.

(* ================================================================== *)
(** * Facts about the array primitives *)
(* ================================================================== *)

Module NumpyFacts.
Import Numpy.

Lemma Qc_eqb_eq (x y : Qc) : Qc_eqb x y = true <-> x = y.
Proof.
  unfold Qc_eqb. rewrite Qeq_bool_iff. split.
  - apply Qc_is_canon.
  - intros ->. reflexivity.
Qed.

Lemma Qc_eqb_refl (x : Qc) : Qc_eqb x x = true.
Proof. apply Qc_eqb_eq. reflexivity. Qed.

Lemma Qc_eqb_neq (x y : Qc) : Qc_eqb x y = false <-> x <> y.
Proof.
  rewrite <- Qc_eqb_eq. destruct (Qc_eqb x y); split; congruence.
Qed.

Lemma mapM_length {A B} (f : A -> result B) l r :
  mapM f l = inr r -> length r = length l.
Proof.
  revert r. induction l as [|a l IH]; simpl; intros r H.
  - inversion H. reflexivity.
  - destruct (f a); try discriminate.
    destruct (mapM f l); try discriminate.
    inversion H. simpl. f_equal. apply IH. reflexivity.
Qed.

Lemma mapM_nth {A B} (f : A -> result B) l r k a :
  mapM f l = inr r -> nth_error l k = Some a ->
  exists b, f a = inr b /\ nth_error r k = Some b.
Proof.
  revert r k. induction l as [|x l IH]; simpl; intros r k H Hk.
  - destruct k; discriminate.
  - destruct (f x) eqn:Fx; try discriminate.
    destruct (mapM f l) eqn:Ml; try discriminate.
    inversion H; subst. destruct k; simpl in *.
    + inversion Hk; subst. eauto.
    + eapply IH; eauto.
Qed.

Lemma mapM_total {A B} (f : A -> result B) l :
  (forall a, In a l -> exists b, f a = inr b) -> exists r, mapM f l = inr r.
Proof.
  induction l as [|x l IH]; simpl; intros H.
  - eexists. reflexivity.
  - destruct (H x) as [b Hb]; auto. rewrite Hb.
    destruct IH as [r Hr]; auto. rewrite Hr. eexists. reflexivity.
Qed.

Lemma mapM_app {A B} (f : A -> result B) l1 l2 r :
  mapM f (l1 ++ l2) = inr r ->
  exists r1 r2, mapM f l1 = inr r1 /\ mapM f l2 = inr r2 /\ r = r1 ++ r2.
Proof.
  revert r. induction l1 as [|x l1 IH]; simpl; intros r H.
  - exists [], r. auto.
  - destruct (f x); try discriminate.
    destruct (mapM f (l1 ++ l2)) eqn:E; try discriminate.
    destruct (IH _ eq_refl) as (r1 & r2 & -> & H2 & ->).
    inversion H; subst. exists (b :: r1), r2. auto.
Qed.

Lemma item_inv {A} (a : list A) i x :
  item a i = inr x <-> nth_error a i = Some x.
Proof.
  unfold item. destruct (nth_error a i); split; intro H; inversion H; reflexivity.
Qed.

Lemma take_length {A} (a : list A) idx r :
  take a idx = inr r -> length r = length idx.
Proof. apply mapM_length. Qed.

Lemma take_nth {A} (a : list A) idx r k i :
  take a idx = inr r -> nth_error idx k = Some i ->
  nth_error r k = nth_error a i /\ i < length a.
Proof.
  intros H Hk. destruct (mapM_nth _ _ _ _ _ H Hk) as (b & Hb & Hr).
  apply item_inv in Hb. rewrite Hr, Hb. split; auto.
  apply nth_error_Some. congruence.
Qed.

Lemma take_In {A} (a : list A) idx r x :
  take a idx = inr r -> In x r -> exists i, In i idx /\ nth_error a i = Some x.
Proof.
  unfold take. revert r. induction idx as [|i idx IH]; simpl; intros r H Hx.
  - inversion H; subst. destruct Hx.
  - destruct (item a i) eqn:E; try discriminate.
    destruct (mapM (item a) idx) eqn:E2; try discriminate.
    inversion H; subst. destruct Hx as [->|Hx].
    + exists i. split; auto. apply item_inv. exact E.
    + destruct (IH _ eq_refl Hx) as (j & Hj & Hn). exists j. auto.
Qed.

Lemma take_bound {A} (a : list A) idx r i :
  take a idx = inr r -> In i idx -> i < length a.
Proof.
  intros H Hi. apply In_nth_error in Hi. destruct Hi as [k Hk].
  eapply take_nth; eauto.
Qed.

Lemma take_total {A} (a : list A) idx :
  Forall (fun i => i < length a) idx -> exists r, take a idx = inr r.
Proof.
  intros H. apply mapM_total. intros i Hi.
  rewrite Forall_forall in H. specialize (H i Hi).
  destruct (nth_error a i) eqn:E.
  - exists a0. apply item_inv. exact E.
  - apply nth_error_None in E. lia.
Qed.

Lemma take_arange n idx r :
  take (arange n) idx = inr r -> r = idx /\ Forall (fun i => i < n) idx.
Proof.
  unfold take, arange. revert r. induction idx as [|i idx IH]; simpl; intros r H.
  - inversion H. auto.
  - destruct (item (seq 0 n) i) eqn:E; try discriminate.
    destruct (mapM (item (seq 0 n)) idx) eqn:E2; try discriminate.
    inversion H; subst. destruct (IH _ eq_refl) as [-> HF].
    apply item_inv in E.
    assert (i < n) by (pose proof (proj1 (nth_error_Some (seq 0 n) i)) as P;
                       rewrite length_seq in P; apply P; congruence).
    rewrite nth_error_seq in E.
    destruct (Nat.ltb_spec i n); try lia. inversion E; subst.
    split; [reflexivity | constructor; auto].
Qed.

Lemma take_arange_total n idx :
  Forall (fun i => i < n) idx -> take (arange n) idx = inr idx.
Proof.
  intros H. destruct (take_total (arange n) idx) as [r Hr].
  - unfold arange. rewrite length_seq. exact H.
  - destruct (take_arange _ _ _ Hr) as [-> _]. exact Hr.
Qed.

(** *** Masks *)

Lemma nonzero_from_shift k mask :
  nonzero_from (S k) mask = map S (nonzero_from k mask).
Proof.
  revert k. induction mask as [|b m IH]; simpl; intros k; auto.
  destruct b; simpl; rewrite IH; reflexivity.
Qed.

Lemma In_nonzero_from k mask i :
  In i (nonzero_from k mask) <-> k <= i /\ nth_error mask (i - k) = Some true.
Proof.
  revert k. induction mask as [|b m IH]; simpl; intros k.
  - split; [intros [] | intros [_ H]; destruct (i - k); discriminate].
  - assert (Hrec : In i (nonzero_from (S k) m) <->
                   S k <= i /\ nth_error m (i - S k) = Some true) by apply IH.
    destruct b; simpl.
    + rewrite Hrec. split.
      * intros [->|[H1 H2]].
        -- rewrite Nat.sub_diag. auto.
        -- split; [lia|]. replace (i - k) with (S (i - S k)) by lia. exact H2.
      * intros [H1 H2]. destruct (Nat.eq_dec k i) as [->|Hne]; auto.
        right. split; [lia|]. replace (i - k) with (S (i - S k)) in H2 by lia.
        exact H2.
    + rewrite Hrec. split.
      * intros [H1 H2]. split; [lia|].
        replace (i - k) with (S (i - S k)) by lia. exact H2.
      * intros [H1 H2]. destruct (Nat.eq_dec k i) as [->|Hne].
        -- rewrite Nat.sub_diag in H2. discriminate.
        -- split; [lia|]. replace (i - k) with (S (i - S k)) in H2 by lia.
           exact H2.
Qed.

Lemma In_nonzero mask i :
  In i (nonzero mask) <-> nth_error mask i = Some true.
Proof.
  unfold nonzero. rewrite In_nonzero_from, Nat.sub_0_r. split.
  - intros [_ H]; exact H.
  - intros H; split; [lia | exact H].
Qed.

Lemma NoDup_nonzero_from k mask : NoDup (nonzero_from k mask).
Proof.
  revert k. induction mask as [|b m IH]; simpl; intros k.
  - constructor.
  - destruct b; auto. constructor; auto.
    rewrite In_nonzero_from. lia.
Qed.

Lemma NoDup_nonzero mask : NoDup (nonzero mask).
Proof. apply NoDup_nonzero_from. Qed.

Lemma nonzero_bound mask i : In i (nonzero mask) -> i < length mask.
Proof.
  rewrite In_nonzero. intros H. apply nth_error_Some. congruence.
Qed.

Lemma mapM_item_cons {A} (x : A) a l :
  mapM (item (x :: a)) (map S l) = mapM (item a) l.
Proof.
  induction l as [|i l IH]; simpl; auto.
  rewrite IH. reflexivity.
Qed.

Lemma mask_get_select {A} (a : list A) mask r :
  mask_get a mask = inr r -> r = select a mask.
Proof.
  unfold mask_get, take, nonzero. revert a r.
  induction mask as [|b m IH]; intros a r H.
  - simpl in H. inversion H. destruct a; reflexivity.
  - destruct a as [|x a].
    + simpl in *. destruct b.
      * simpl in H. discriminate.
      * rewrite nonzero_from_shift in H.
        destruct (nonzero_from 0 m) as [|i l] eqn:E.
        -- simpl in H. inversion H. reflexivity.
        -- simpl in H. destruct i; discriminate.
    + simpl in *. destruct b.
      * simpl in H. rewrite nonzero_from_shift, mapM_item_cons in H.
        destruct (mapM (item a) (nonzero_from 0 m)) eqn:E; try discriminate.
        inversion H; subst. f_equal. apply IH. exact E.
      * rewrite nonzero_from_shift, mapM_item_cons in H. apply IH. exact H.
Qed.

Lemma mask_get_total {A} (a : list A) mask :
  length mask <= length a -> mask_get a mask = inr (select a mask).
Proof.
  intros H. destruct (take_total a (nonzero mask)) as [r Hr].
  - apply Forall_forall. intros i Hi. apply nonzero_bound in Hi. lia.
  - unfold mask_get. rewrite Hr. f_equal. apply mask_get_select. exact Hr.
Qed.

Lemma mask_get_arange n mask r :
  mask_get (arange n) mask = inr r ->
  r = nonzero mask /\ Forall (fun i => i < n) (nonzero mask).
Proof. apply take_arange. Qed.

Lemma select_map {A} (f : A -> bool) (a : list A) :
  select a (map f a) = filter f a.
Proof.
  induction a as [|x a IH]; simpl; auto.
  destruct (f x); rewrite IH; reflexivity.
Qed.

Lemma existsb_eqb_In x l : existsb (Nat.eqb x) l = true <-> In x l.
Proof.
  rewrite existsb_exists. split.
  - intros (y & Hy & E). apply Nat.eqb_eq in E. subst. exact Hy.
  - intros H. exists x. split; auto. apply Nat.eqb_refl.
Qed.

Lemma select_in1d a b : select a (in1d a b) = filter (fun x => existsb (Nat.eqb x) b) a.
Proof. unfold in1d. apply select_map. Qed.

Lemma In_select_in1d a b x : In x (select a (in1d a b)) <-> In x a /\ In x b.
Proof.
  rewrite select_in1d, filter_In, existsb_eqb_In. reflexivity.
Qed.

(** *** Writes *)

Lemma set_item_spec {A} (a : list A) i v a' :
  set_item a i v = inr a' ->
  i < length a /\ length a' = length a /\
  forall j, nth_error a' j = if Nat.eqb j i then Some v else nth_error a j.
Proof.
  revert i a'. induction a as [|x a IH]; intros i a' H.
  - destruct i; discriminate.
  - destruct i; simpl in H.
    + inversion H; subst. simpl. split; [lia|]. split; auto.
      intros [|j]; reflexivity.
    + destruct (set_item a i v) eqn:E; try discriminate.
      inversion H; subst. destruct (IH _ _ E) as (H1 & H2 & H3).
      simpl. split; [lia|]. split; [lia|].
      intros [|j]; simpl; auto.
Qed.

Lemma set_item_total {A} (a : list A) i v :
  i < length a -> exists a', set_item a i v = inr a'.
Proof.
  revert i. induction a as [|x a IH]; simpl; intros i H; [lia|].
  destruct i.
  - eexists; reflexivity.
  - destruct (IH i) as [a' Ha]; [lia|]. rewrite Ha. eexists; reflexivity.
Qed.

Lemma put_spec {A} (a : list A) idx v a' :
  put a idx v = inr a' ->
  Forall (fun i => i < length a) idx /\ length a' = length a /\
  forall j, nth_error a' j =
            if existsb (Nat.eqb j) idx then (if j <? length a then Some v else None)
            else nth_error a j.
Proof.
  revert a a'. induction idx as [|i idx IH]; simpl; intros a a' H.
  - inversion H; subst. auto.
  - destruct (set_item a i v) as [|a1] eqn:E; try discriminate.
    destruct (set_item_spec _ _ _ _ E) as (H1 & H2 & H3).
    destruct (IH _ _ H) as (G1 & G2 & G3).
    rewrite H2 in *. split; [constructor; auto|]. split; [exact G2|].
    intros j. rewrite G3, H3.
    destruct (Nat.eqb j i) eqn:Eji; simpl.
    + apply Nat.eqb_eq in Eji. subst.
      destruct (existsb (Nat.eqb i) idx); auto.
      destruct (Nat.ltb_spec i (length a)); auto; lia.
    + reflexivity.
Qed.

Lemma put_total {A} (a : list A) idx v :
  Forall (fun i => i < length a) idx -> exists a', put a idx v = inr a'.
Proof.
  revert a. induction idx as [|i idx IH]; simpl; intros a H.
  - eexists; reflexivity.
  - inversion H; subst.
    destruct (set_item_total a i v H2) as [a1 E]. rewrite E.
    apply IH. destruct (set_item_spec _ _ _ _ E) as (_ & -> & _). exact H3.
Qed.

Lemma mask_set_merge {A B} (f h : A -> B) (g : A -> bool) (l : list A) :
  mask_set (map f l) (map g l) (select (map h l) (map g l))
  = inr (map (fun x => if g x then h x else f x) l).
Proof.
  induction l as [|x l IH]; simpl; auto.
  destruct (g x); simpl; rewrite IH; reflexivity.
Qed.

Lemma take_map_nth {A} (d : A) (a : list A) idx r :
  take a idx = inr r -> r = map (fun i => nth i a d) idx.
Proof.
  unfold take. revert r. induction idx as [|i idx IH]; simpl; intros r H.
  - inversion H. reflexivity.
  - destruct (item a i) eqn:E; try discriminate.
    destruct (mapM (item a) idx) eqn:E2; try discriminate.
    inversion H; subst. apply item_inv in E.
    rewrite (nth_error_nth _ _ d E). f_equal. apply IH. reflexivity.
Qed.

Lemma take_ext {A} (a : list A) idx :
  Forall (fun i => i < length a) idx ->
  forall d, take a idx = inr (map (fun i => nth i a d) idx).
Proof.
  intros H d. destruct (take_total a idx H) as [r Hr].
  rewrite Hr. f_equal. apply (take_map_nth d _ _ _ Hr).
Qed.

Lemma subtract_same a b :
  length a = length b ->
  subtract a b = inr (map (fun p => (fst p - snd p)%Qc) (combine a b)).
Proof. intros H. unfold subtract. rewrite H, Nat.eqb_refl. reflexivity. Qed.

Lemma multiply_same a b :
  length a = length b ->
  multiply a b = inr (map (fun p => (fst p * snd p)%Qc) (combine a b)).
Proof. intros H. unfold multiply. rewrite H, Nat.eqb_refl. reflexivity. Qed.

Lemma sum_app l1 l2 : sum (l1 ++ l2) = (sum l1 + sum l2)%Qc.
Proof.
  unfold sum. induction l1 as [|x l1 IH]; simpl.
  - ring.
  - fold (sum (l1 ++ l2)) in *. fold (sum l1) in *. rewrite IH. ring.
Qed.

Lemma sum_map_opp {A} (f : A -> Qc) l :
  sum (map (fun x => (- f x)%Qc) l) = (- sum (map f l))%Qc.
Proof.
  unfold sum. induction l as [|x l IH]; simpl.
  - ring.
  - rewrite IH. ring.
Qed.

End NumpyFacts.

Module ThroatDiameterFacts.
Import Numpy NumpyFacts ThroatDiameter.

Lemma Qcmin_cases (x y : Qc) :
  ((x <= y)%Qc /\ Qcmin x y = x /\ Qcmax x y = y) \/
  ((y <= x)%Qc /\ Qcmin x y = y /\ Qcmax x y = x).
Proof.
  unfold Qcmin, Qcmax, Qc_leb.
  destruct (Qle_bool x y) eqn:E.
  - left. apply Qle_bool_iff in E. auto.
  - right. split; auto.
    destruct (Qclt_le_dec y x) as [H|H].
    + apply Qclt_le_weak. exact H.
    + apply Qle_bool_iff in H. congruence.
Qed.

Lemma pore_diameters_of_nth network nTs pDs k t a b :
  pore_diameters_of network nTs = inr pDs ->
  nth_error nTs k = Some t ->
  nth_error (throat_conns network) t = Some (a, b) ->
  exists da db,
    nth_error (pore_diameter network) a = Some da /\
    nth_error (pore_diameter network) b = Some db /\
    nth_error pDs k = Some (da, db).
Proof.
  unfold pore_diameters_of, rbind. intros H Hk Ht.
  destruct (take (throat_conns network) nTs) as [|conns] eqn:E; try discriminate.
  destruct (take_nth _ _ _ _ _ E Hk) as [Hc _]. rewrite Ht in Hc.
  destruct (mapM_nth _ _ _ _ _ H Hc) as (p & Hp & Hn). simpl in Hp.
  destruct (item (pore_diameter network) a) as [|da] eqn:Ea; try discriminate.
  destruct (item (pore_diameter network) b) as [|db] eqn:Eb; try discriminate.
  inversion Hp; subst. exists da, db.
  apply item_inv in Ea. apply item_inv in Eb. auto.
Qed.

Lemma pore_diameters_of_total network nTs :
  (forall t, In t nTs -> exists a b,
      nth_error (throat_conns network) t = Some (a, b) /\
      a < length (pore_diameter network) /\ b < length (pore_diameter network)) ->
  exists pDs, pore_diameters_of network nTs = inr pDs /\ length pDs = length nTs.
Proof.
  intros H. unfold pore_diameters_of, rbind.
  destruct (take_total (throat_conns network) nTs) as [conns E].
  { apply Forall_forall. intros t Ht. destruct (H t Ht) as (a & b & Hn & _).
    apply nth_error_Some. congruence. }
  rewrite E.
  match goal with |- exists _, mapM ?f _ = _ /\ _ => destruct (mapM_total f conns) as [pDs Hp] end.
  { intros [a b] Hin. destruct (take_In _ _ _ _ E Hin) as (t & Ht & Hn).
    destruct (H t Ht) as (a' & b' & Hn' & Ha & Hb).
    rewrite Hn in Hn'. inversion Hn'; subst. simpl.
    destruct (nth_error (pore_diameter network) a') eqn:Ea;
      [|apply nth_error_None in Ea; lia].
    destruct (nth_error (pore_diameter network) b') eqn:Eb;
      [|apply nth_error_None in Eb; lia].
    unfold item. rewrite Ea, Eb. simpl. eexists; reflexivity. }
  exists pDs. split; auto.
  rewrite (mapM_length _ _ _ Hp). apply (take_length _ _ _ E).
Qed.

Lemma minpore_eq network nTs pDs :
  pore_diameters_of network nTs = inr pDs ->
  minpore network nTs =
  inr (map (fun p => if Qc_eqb (Qcmin (fst p) (snd p)) (Q2Qc 0)
                     then Qcmax (fst p) (snd p) else Qcmin (fst p) (snd p)) pDs).
Proof.
  intros H. unfold minpore, rbind. rewrite H.
  rewrite map_map.
  rewrite mask_get_total by (rewrite !length_map; lia).
  simpl.
  apply (mask_set_merge (fun p => Qcmin (fst p) (snd p))
           (fun p => Qcmax (fst p) (snd p))
           (fun p => Qc_eqb (Qcmin (fst p) (snd p)) (Q2Qc 0))).
Qed.

End ThroatDiameterFacts.

Import Numpy NumpyFacts ThroatDiameter ThroatDiameterFacts Examples.

(** C10.  For every throat of the geometry whose network index and pore
    indices are in range, [minpore] returns a value for each throat, equal
    to the smaller of the two connecting pore diameters, except that when
    that smaller diameter is zero the value is the larger one. *)
Theorem minpore_min_or_max_when_zero (network : Network) (nTs : list nat) :
  (forall t, In t nTs -> exists a b,
      nth_error (throat_conns network) t = Some (a, b) /\
      a < length (pore_diameter network) /\ b < length (pore_diameter network)) ->
  exists value,
    minpore network nTs = inr value /\
    length value = length nTs /\
    forall k t a b da db,
      nth_error nTs k = Some t ->
      nth_error (throat_conns network) t = Some (a, b) ->
      nth_error (pore_diameter network) a = Some da ->
      nth_error (pore_diameter network) b = Some db ->
      nth_error value k =
        Some (if Qc_eqb (Qcmin da db) (Q2Qc 0) then Qcmax da db else Qcmin da db)
      /\ (Qcmin da db <= da /\ Qcmin da db <= db /\ da <= Qcmax da db /\ db <= Qcmax da db)%Qc
      /\ (Qcmin da db = da \/ Qcmin da db = db)
      /\ (Qcmax da db = da \/ Qcmax da db = db).
Proof.
  intros H. destruct (pore_diameters_of_total network nTs H) as (pDs & Hp & Hlen).
  eexists. split; [apply (minpore_eq _ _ _ Hp)|].
  split; [rewrite length_map; exact Hlen|].
  intros k t a b da db Hk Ht Ha Hb.
  destruct (pore_diameters_of_nth _ _ _ _ _ _ _ Hp Hk Ht) as (da' & db' & Ha' & Hb' & Hn).
  rewrite Ha in Ha'. rewrite Hb in Hb'. inversion Ha'; inversion Hb'; subst.
  split.
  - rewrite nth_error_map, Hn. reflexivity.
  - destruct (Qcmin_cases da' db') as [(L & -> & ->)|(L & -> & ->)];
      repeat split; auto using Qcle_refl.
Qed.

Lemma minpore_min_or_max_when_zero_witness :
  exists value,
    minpore minpore_example_network [0; 1]%list = inr value /\
    nth_error value 0 = Some (Qcmax (Q2Qc 0) (Q2Qc (3 # 1))) /\
    nth_error value 1 = Some (Qcmin (Q2Qc (3 # 1)) (Q2Qc (2 # 1))).
Proof.
  destruct (minpore_min_or_max_when_zero minpore_example_network [0; 1]%list)
    as (value & Hv & _ & Hk).
  - intros t Ht. simpl in Ht. destruct Ht as [<-|[<-|[]]].
    + exists 0, 1. simpl. repeat split; lia.
    + exists 1, 2. simpl. repeat split; lia.
  - exists value. split; [exact Hv|]. split.
    + apply (Hk 0 0 0 1 (Q2Qc 0) (Q2Qc (3 # 1))); reflexivity.
    + apply (Hk 1 1 1 2 (Q2Qc (3 # 1)) (Q2Qc (2 # 1))); reflexivity.
Defined.

(* ================================================================== *)
(** * Facts about methods *)
(* ================================================================== *)

Module MethodFacts.
Import Numpy NumpyFacts LinearSolver.

Lemma bind_ok {A B} (m : M A) (k : A -> M B) s b s' :
  bind m k s = (inr b, s') ->
  exists a s1, m s = (inr a, s1) /\ k a s1 = (inr b, s').
Proof.
  unfold bind. destruct (m s) as [[e|a] s1]; intros H; try discriminate.
  exists a, s1. auto.
Qed.

Lemma getattr_ok {A} (f : self_t -> option A) s a s' :
  getattr f s = (inr a, s') -> f s = Some a /\ s' = s.
Proof.
  unfold getattr. destruct (f s); intros H; inversion H; auto.
Qed.

Lemma lift_ok {A} (r : result A) s a s' :
  lift r s = (inr a, s') -> r = inr a /\ s' = s.
Proof. unfold lift. intros H; inversion H; auto. Qed.

Lemma setattr_ok {A} (f : A -> self_t -> self_t) v s u s' :
  setattr f v s = (inr u, s') -> s' = f v s.
Proof. unfold setattr. intros H; inversion H; auto. Qed.

Lemma ret_ok {A} (a : A) s b s' : ret a s = (inr b, s') -> b = a /\ s' = s.
Proof. unfold ret. intros H; inversion H; auto. Qed.

Lemma gets_ok {A} (f : self_t -> A) s a s' :
  gets f s = (inr a, s') -> a = f s /\ s' = s.
Proof. unfold gets. intros H; inversion H; auto. Qed.

Lemma delattr_ok {A} (f : self_t -> option A) g s u s' :
  delattr f g s = (inr u, s') -> (exists a, f s = Some a) /\ s' = g None s.
Proof.
  unfold delattr. destruct (f s) eqn:E; intros H; inversion H; eauto.
Qed.

Lemma logger_info_ok msg s u s' :
  logger_info msg s = (inr u, s') -> s' = set_logger (_logger s ++ [msg]) s.
Proof. unfold logger_info. intros H; inversion H; auto. Qed.

Lemma rbind_ok {A B} (m : result A) (k : A -> result B) b :
  rbind m k = inr b -> exists a, m = inr a /\ k a = inr b.
Proof. destruct m; simpl; intros H; try discriminate. eauto. Qed.

End MethodFacts.

(** Inversion of a method call that returned normally. *)
Ltac method_inv H :=
  lazymatch type of H with
  | LinearSolver.bind _ _ _ = (inr _, _) =>
      let a := fresh "a" in
      let s1 := fresh "s" in
      let H1 := fresh "H" in
      let H2 := fresh "H" in
      apply MethodFacts.bind_ok in H; destruct H as (a & s1 & H1 & H2);
      method_inv H1; method_inv H2
  | LinearSolver.getattr _ _ = (inr _, _) =>
      let E := fresh "E" in
      apply MethodFacts.getattr_ok in H; destruct H as [H E]; subst
  | LinearSolver.lift _ _ = (inr _, _) =>
      let E := fresh "E" in
      apply MethodFacts.lift_ok in H; destruct H as [H E]; subst
  | LinearSolver.setattr _ _ _ = (inr _, _) =>
      apply MethodFacts.setattr_ok in H; subst
  | LinearSolver.ret _ _ = (inr _, _) =>
      let E := fresh "E" in
      apply MethodFacts.ret_ok in H; destruct H as [H E]; subst
  | LinearSolver.gets _ _ = (inr _, _) =>
      let E := fresh "E" in
      apply MethodFacts.gets_ok in H; destruct H as [H E]; subst
  | LinearSolver.logger_info _ _ = (inr _, _) =>
      apply MethodFacts.logger_info_ok in H; subst
  | _ => idtac
  end.

Import Numpy NumpyFacts LinearSolver MethodFacts Examples.

Lemma take_arange_firstn {A} (X : list A) n :
  n <= length X -> take X (arange n) = inr (firstn n X).
Proof.
  unfold take, arange. revert n. induction X as [|x X IH]; intros n H.
  - simpl in H. replace n with 0 by lia. reflexivity.
  - destruct n; [reflexivity|]. simpl in H.
    simpl seq. rewrite <- seq_shift. simpl mapM. rewrite mapM_item_cons.
    rewrite IH by lia. reflexivity.
Qed.

(** C5.  When the kind array is all zero, one inner iteration raises the
    configuration error at once: the instance is left as it was, so no
    matrix or right-hand side has been built and nothing was logged.
    Otherwise the iteration goes on: it logs, assembles the matrix and the
    right-hand side, solves, and returns the first [N] entries of the
    solution. *)
Theorem no_boundary_condition_is_an_error
    (net : GenericNetwork.t) (spsolve : coo_matrix -> list Qc -> result (list Qc))
    (s : self_t) (types : list nat) :
  _BCtypes s = Some types ->
  (all (is_kind 0 types) = true ->
   _do_one_inner_iteration net spsolve s = (inl ConfigurationError, s)) /\
  (all (is_kind 0 types) = false ->
   forall A s1 B s2 X,
     _build_coefficient_matrix net
       (set_logger (_logger s ++ ["Creating Coefficient matrix for the algorithm"%string]) s)
       = (inr A, s1) ->
     _build_RHS_matrix net
       (set_logger (_logger s1 ++ ["Creating RHS matrix for the algorithm"%string]) s1)
       = (inr B, s2) ->
     spsolve A B = inr X ->
     GenericNetwork.num_pores net <= length X ->
     exists s',
       _do_one_inner_iteration net spsolve s
         = (inr (firstn (GenericNetwork.num_pores net) X), s') /\
       _result s' = Some (firstn (GenericNetwork.num_pores net) X)).
Proof.
  intros Ht. split.
  - intros Hall. unfold _do_one_inner_iteration, bind, getattr.
    rewrite Ht. unfold ok. cbv beta iota. rewrite Hall. reflexivity.
  - intros Hall A s1 B s2 X HA HB HX Hlen.
    unfold _do_one_inner_iteration, bind at 1, getattr at 1.
    rewrite Ht. unfold ok at 1. cbv beta iota. rewrite Hall.
    unfold bind at 1, logger_info at 1. unfold ok at 1. cbv beta iota.
    unfold bind at 1. rewrite HA.
    unfold bind at 1, logger_info at 1. unfold ok at 1. cbv beta iota.
    unfold bind at 1. rewrite HB.
    unfold bind at 1, logger_info at 1. unfold ok at 1. cbv beta iota.
    unfold bind at 1, lift at 1. rewrite HX.
    unfold bind at 1, lift at 1.
    rewrite mask_get_total
      by (unfold negate, in1d, arange; rewrite !length_map, length_seq; lia).
    unfold bind at 1, setattr at 1. unfold ok at 1. cbv beta iota.
    unfold bind at 1, lift at 1.
    rewrite take_arange_firstn by exact Hlen.
    unfold bind, setattr, getattr. simpl. eexists. split; reflexivity.
Qed.

Lemma no_boundary_condition_is_an_error_witness :
  _do_one_inner_iteration two_pores solve_identity no_BC
    = (inl ConfigurationError, no_BC) /\
  exists s',
    _do_one_inner_iteration two_pores solve_identity both_Dirichlet
      = (inr (firstn 2 [q 1 1; q 0 1]), s') /\
    _result s' = Some (firstn 2 [q 1 1; q 0 1]).
Proof.
  split.
  - apply (proj1 (no_boundary_condition_is_an_error two_pores solve_identity
                    no_BC [0; 0] eq_refl)).
    reflexivity.
  - eapply (proj2 (no_boundary_condition_is_an_error two_pores solve_identity
                     both_Dirichlet [1; 1] eq_refl)).
    + reflexivity.
    + vm_compute. reflexivity.
    + vm_compute. reflexivity.
    + reflexivity.
    + simpl. lia.
Defined.

(* ================================================================== *)
(** * The rate evaluator *)
(* ================================================================== *)

Module RateFacts.
Import Numpy NumpyFacts LinearSolver MethodFacts.

Lemma swap_outside (P : list nat) (conns : list (nat * nat)) :
  let p1 := map fst conns in
  let p2 := map snd conns in
  let outside1 := negate (in1d p1 P) in
  (exists v2, mask_get p2 outside1 = inr v2 /\
              mask_set p1 outside1 v2 = inr (map (source P) conns)) /\
  (exists v1, mask_get p1 outside1 = inr v1 /\
              mask_set p2 outside1 v1 = inr (map (sink P) conns)).
Proof.
  intros p1 p2 outside1.
  assert (Hm : outside1 = map (fun c => negb (is_inside P (fst c))) conns).
  { unfold outside1, negate, in1d, p1. rewrite !map_map. reflexivity. }
  split.
  - exists (select p2 outside1). split.
    + apply mask_get_total. rewrite Hm. unfold p2. rewrite !length_map. lia.
    + rewrite Hm. unfold p1, p2. rewrite mask_set_merge. f_equal.
      apply map_ext. intros c. unfold source.
      destruct (is_inside P (fst c)); reflexivity.
  - exists (select p1 outside1). split.
    + apply mask_get_total. rewrite Hm. unfold p1. rewrite !length_map. lia.
    + rewrite Hm. unfold p1, p2. rewrite mask_set_merge. f_equal.
      apply map_ext. intros c. unfold sink.
      destruct (is_inside P (fst c)); reflexivity.
Qed.

(** What [rate(pores=P)] computes, step by step. *)
Lemma rate_pores_eq (net : GenericNetwork.t) (P : list nat) (s : self_t) :
  rate net (Some P) None s =
  let ts := GenericNetwork.find_neighbor_throats net P in
  match take (GenericNetwork.connections net) ts with
  | inl e => (inl e, s)
  | inr conns =>
      match _result s with
      | None => (inl AttributeError, s)
      | Some X =>
          match take X (map (source P) conns) with
          | inl e => (inl e, s)
          | inr X1 =>
              match take X (map (sink P) conns) with
              | inl e => (inl e, s)
              | inr X2 =>
                  match _conductance s with
                  | None => (inl AttributeError, s)
                  | Some c =>
                      match index_conductance c ts with
                      | inl e => (inl e, s)
                      | inr g =>
                          (inr (sum (map (fun p => (fst p * snd p)%Qc)
                                  (combine g
                                     (map (fun p => (fst p - snd p)%Qc)
                                        (combine X1 X2))))), s)
                      end
                  end
              end
          end
      end
  end.
Proof.
  unfold rate. cbv zeta.
  unfold bind at 1. unfold bind at 1. unfold lift at 1.
  unfold GenericNetwork.find_connected_pores.
  destruct (take (GenericNetwork.connections net)
              (GenericNetwork.find_neighbor_throats net P)) as [e|conns] eqn:Ec;
    [reflexivity|].
  unfold ret at 1. unfold ok at 1. cbv beta iota. cbn [fst snd].
  destruct (swap_outside P conns) as [(v2 & Hv2 & Hs1) (v1 & Hv1 & Hs2)].
  cbv zeta in Hv2, Hs1, Hv1, Hs2.
  unfold bind at 1, lift at 1. rewrite Hv2.
  unfold bind at 1, lift at 1. rewrite Hs1.
  unfold bind at 1, lift at 1. rewrite Hv1.
  unfold bind at 1, lift at 1. rewrite Hs2.
  unfold bind at 1, getattr at 1.
  destruct (_result s) as [X|]; [|reflexivity].
  unfold ok at 1. cbv beta iota.
  unfold bind at 1, lift at 1.
  destruct (take X (map (source P) conns)) as [e|X1] eqn:E1; [reflexivity|].
  unfold bind at 1, lift at 1.
  destruct (take X (map (sink P) conns)) as [e|X2] eqn:E2; [reflexivity|].
  unfold bind at 1, getattr at 1.
  destruct (_conductance s) as [c|]; [|reflexivity].
  unfold ok at 1. cbv beta iota.
  unfold bind at 1, lift at 1.
  destruct (index_conductance c (GenericNetwork.find_neighbor_throats net P))
    as [e|g] eqn:Eg; [reflexivity|].
  assert (L1 : length X1 = length conns)
    by (rewrite (take_length _ _ _ E1), length_map; reflexivity).
  assert (L2 : length X2 = length conns)
    by (rewrite (take_length _ _ _ E2), length_map; reflexivity).
  assert (Lg : length g = length conns).
  { destruct c; simpl in Eg; try discriminate.
    rewrite (take_length _ _ _ Eg). symmetry. apply (take_length _ _ _ Ec). }
  unfold bind at 1, lift at 1. rewrite subtract_same by congruence.
  unfold bind at 1, lift at 1.
  rewrite multiply_same
    by (rewrite length_map, length_combine; lia).
  reflexivity.
Qed.

Lemma source_sink_swap (A B : list nat) (c : nat * nat) :
  is_inside B (fst c) = negb (is_inside A (fst c)) ->
  source B c = sink A c /\ sink B c = source A c.
Proof.
  unfold source, sink. intros ->. destruct (is_inside A (fst c)); auto.
Qed.

Lemma combine_map_swap (X1 X2 : list Qc) :
  map (fun p => (fst p - snd p)%Qc) (combine X2 X1)
  = map (fun d => (- d)%Qc) (map (fun p => (fst p - snd p)%Qc) (combine X1 X2)).
Proof.
  revert X2. induction X1 as [|x X1 IH]; intros [|y X2]; simpl; auto.
  rewrite IH. f_equal. ring.
Qed.

Lemma sum_weighted_opp (g d : list Qc) :
  sum (map (fun p => (fst p * snd p)%Qc) (combine g (map (fun x => (- x)%Qc) d)))
  = (- sum (map (fun p => (fst p * snd p)%Qc) (combine g d)))%Qc.
Proof.
  revert d. unfold sum. induction g as [|x g IH]; intros [|y d]; simpl;
    try ring.
  rewrite IH. ring.
Qed.

Lemma cut_rate_eq (g X : list Qc) (A ts : list nat) (conns : list (nat * nat))
    (gt X1 X2 : list Qc) :
  take g ts = inr gt ->
  take X (map (source A) conns) = inr X1 ->
  take X (map (sink A) conns) = inr X2 ->
  length ts = length conns ->
  sum (map (fun p => (fst p * snd p)%Qc)
         (combine gt (map (fun p => (fst p - snd p)%Qc) (combine X1 X2))))
  = cut_rate g X A ts conns.
Proof.
  intros Hg H1 H2 Hl.
  rewrite (take_map_nth (Q2Qc 0) _ _ _ Hg), (take_map_nth (Q2Qc 0) _ _ _ H1),
    (take_map_nth (Q2Qc 0) _ _ _ H2).
  unfold cut_rate. f_equal. clear.
  revert conns. induction ts as [|t ts IH]; intros [|c conns]; simpl; auto.
  rewrite IH. reflexivity.
Qed.

End RateFacts.

Import Numpy NumpyFacts LinearSolver MethodFacts RateFacts Examples.

(** C6.  Called on a node set [A], the rate evaluator returns the sum, over
    the throats [ts] that the network reports for [A], of the conductance
    times the potential at the source minus the potential at the sink, where
    the source of a throat that crosses the cut is its endpoint inside [A]
    and the sink the one outside.  When a node set [B] has the same cut and
    is the complement of [A] on the endpoints of the cut, the rate of [B] is
    the opposite of the rate of [A]. *)
Theorem rate_is_oriented_and_antisymmetric
    (net : GenericNetwork.t) (s s' : self_t) (A B : list nat) (R : Qc) :
  let ts := GenericNetwork.find_neighbor_throats net A in
  GenericNetwork.find_neighbor_throats net B = ts ->
  (forall t c, In t ts -> nth_error (GenericNetwork.connections net) t = Some c ->
     is_inside A (fst c) = negb (is_inside A (snd c)) /\
     is_inside B (fst c) = negb (is_inside A (fst c)) /\
     is_inside B (snd c) = negb (is_inside A (snd c))) ->
  rate net (Some A) None s = (inr R, s') ->
  (exists conns X g,
      take (GenericNetwork.connections net) ts = inr conns /\
      _result s = Some X /\ _conductance s = Some (Array g) /\
      R = cut_rate g X A ts conns /\
      forall c, In c conns ->
        is_inside A (source A c) = true /\ is_inside A (sink A c) = false /\
        ((source A c = fst c /\ sink A c = snd c) \/
         (source A c = snd c /\ sink A c = fst c))) /\
  rate net (Some B) None s = (inr (- R)%Qc, s').
Proof.
  intros ts HB Hcut HR.
  rewrite rate_pores_eq in HR. cbv zeta in HR. fold ts in HR.
  destruct (take (GenericNetwork.connections net) ts) as [e|conns] eqn:Ec;
    [discriminate|].
  destruct (_result s) as [X|] eqn:EX; [|discriminate].
  destruct (take X (map (source A) conns)) as [e|X1] eqn:E1; [discriminate|].
  destruct (take X (map (sink A) conns)) as [e|X2] eqn:E2; [discriminate|].
  destruct (_conductance s) as [c|] eqn:Econd; [|discriminate].
  destruct (index_conductance c ts) as [e|gt] eqn:Eg; [discriminate|].
  destruct c as [g0|g]; [discriminate|]. simpl in Eg.
  inversion HR; subst s'. clear HR.
  assert (Hconn : forall c, In c conns ->
            is_inside A (fst c) = negb (is_inside A (snd c)) /\
            is_inside B (fst c) = negb (is_inside A (fst c)) /\
            is_inside B (snd c) = negb (is_inside A (snd c))).
  { intros c Hc. destruct (take_In _ _ _ _ Ec Hc) as (t & Ht & Hn).
    apply (Hcut t c Ht Hn). }
  split.
  - exists conns, X, g. repeat split; auto.
    + apply (cut_rate_eq g X A ts conns gt X1 X2 Eg E1 E2).
      symmetry. apply (take_length _ _ _ Ec).
    + destruct (Hconn c H) as (H1 & _). unfold source.
      destruct (is_inside A (fst c)) eqn:E; auto.
      rewrite H1 in E. destruct (is_inside A (snd c)); auto; discriminate.
    + destruct (Hconn c H) as (H1 & _). unfold sink.
      destruct (is_inside A (fst c)) eqn:E; auto.
      rewrite H1 in E. destruct (is_inside A (snd c)); auto; discriminate.
    + unfold source, sink. destruct (is_inside A (fst c)); auto.
  - rewrite rate_pores_eq. cbv zeta. rewrite HB, Ec, EX.
    assert (HsB : map (source B) conns = map (sink A) conns).
    { apply map_ext_in. intros c Hc. destruct (Hconn c Hc) as (_ & H2 & _).
      apply (source_sink_swap A B c H2). }
    assert (HkB : map (sink B) conns = map (source A) conns).
    { apply map_ext_in. intros c Hc. destruct (Hconn c Hc) as (_ & H2 & _).
      apply (source_sink_swap A B c H2). }
    rewrite HsB, HkB, E2, E1, Econd. simpl index_conductance. rewrite Eg.
    rewrite combine_map_swap, sum_weighted_opp. reflexivity.
Qed.

Lemma rate_is_oriented_and_antisymmetric_witness :
  exists R,
    rate chain (Some [0; 1]) None chain_solved = (inr R, chain_solved) /\
    rate chain (Some [2; 3]) None chain_solved = (inr (- R)%Qc, chain_solved) /\
    R = q 1 1.
Proof.
  eexists. split; [vm_compute; reflexivity|]. split.
  - apply (rate_is_oriented_and_antisymmetric chain chain_solved chain_solved
             [0; 1] [2; 3]).
    + reflexivity.
    + intros t c Ht Hn. vm_compute in Ht. destruct Ht as [<-|[]].
      vm_compute in Hn. inversion Hn; subst. vm_compute. auto.
    + vm_compute. reflexivity.
  - apply Qc_is_canon. vm_compute. reflexivity.
Defined.

(* ================================================================== *)
(** * Sparse entries and the diagonal closure *)
(* ================================================================== *)

Module MatrixFacts.
Import Numpy NumpyFacts LinearSolver MethodFacts.

Lemma sum_map_plus {A} (f g : A -> Qc) l :
  sum (map (fun c => (f c + g c)%Qc) l) = (sum (map f l) + sum (map g l))%Qc.
Proof.
  unfold sum. induction l as [|x l IH]; simpl; [ring|]. rewrite IH. ring.
Qed.

Lemma sum_map_zero {A} (l : list A) : sum (map (fun _ => 0%Qc) l) = 0%Qc.
Proof.
  unfold sum. induction l as [|x l IH]; simpl; [reflexivity|]. rewrite IH. ring.
Qed.


(** The sum of an indicator over a list without duplicates. *)
Lemma sum_indicator (c : nat) (d : Qc) (l : list nat) :
  NoDup l ->
  sum (map (fun x => if Nat.eqb c x then d else 0%Qc) l)
  = if existsb (Nat.eqb c) l then d else 0%Qc.
Proof.
  unfold sum. induction l as [|x l IH]; simpl; intros ND; [reflexivity|].
  inversion ND; subst. rewrite (IH H2).
  destruct (Nat.eqb c x) eqn:E; simpl.
  - apply Nat.eqb_eq in E. subst.
    destruct (existsb (Nat.eqb x) l) eqn:E2.
    + apply existsb_eqb_In in E2. contradiction.
    + ring.
  - ring.
Qed.

Lemma existsb_seq c n : existsb (Nat.eqb c) (seq 0 n) = (c <? n).
Proof.
  destruct (Nat.ltb_spec c n) as [H|H].
  - apply existsb_eqb_In. apply in_seq. lia.
  - destruct (existsb (Nat.eqb c) (seq 0 n)) eqn:E; auto.
    apply existsb_eqb_In in E. apply in_seq in E. lia.
Qed.

(** Summing the entries of a row over all columns gives the row total. *)
Lemma row_sum_is_row_total (row col : list nat) (data : list Qc) (r n : nat) :
  length col = length row ->
  Forall (fun c => c < n) col ->
  sum (map (entry_of row col data r) (arange n)) = row_total row data r.
Proof.
  unfold arange. revert col data.
  induction row as [|r' row IH]; intros col data Hl Hc.
  - simpl. apply sum_map_zero.
  - destruct col as [|c' col]; [discriminate|].
    destruct data as [|d data]; [simpl; apply sum_map_zero|].
    simpl entry_of. simpl row_total.
    rewrite (sum_map_plus
               (fun c => if Nat.eqb r' r && Nat.eqb c' c then d else 0%Qc)
               (entry_of row col data r)).
    inversion Hc; subst. rewrite IH by (simpl in Hl; auto; lia).
    f_equal. destruct (Nat.eqb r' r); simpl.
    + rewrite (sum_indicator c' d (seq 0 n) (seq_NoDup n 0)), existsb_seq.
      destruct (Nat.ltb_spec c' n); [reflexivity | lia].
    + apply sum_map_zero.
Qed.

Lemma entry_of_app (row1 col1 : list nat) (data1 : list Qc)
    (row2 col2 : list nat) (data2 : list Qc) (r c : nat) :
  length col1 = length row1 -> length data1 = length row1 ->
  entry_of (row1 ++ row2) (col1 ++ col2) (data1 ++ data2) r c
  = (entry_of row1 col1 data1 r c + entry_of row2 col2 data2 r c)%Qc.
Proof.
  revert col1 data1. induction row1 as [|r' row1 IH]; intros col1 data1 H1 H2.
  - destruct col1; [|discriminate]. destruct data1; [|discriminate].
    simpl. ring.
  - destruct col1 as [|c' col1]; [discriminate|].
    destruct data1 as [|d data1]; [discriminate|].
    simpl. rewrite IH by (simpl in *; lia). ring.
Qed.

Lemma row_total_app (row1 : list nat) (data1 : list Qc)
    (row2 : list nat) (data2 : list Qc) (r : nat) :
  length data1 = length row1 ->
  row_total (row1 ++ row2) (data1 ++ data2) r
  = (row_total row1 data1 r + row_total row2 data2 r)%Qc.
Proof.
  revert data1. induction row1 as [|r' row1 IH]; intros data1 H.
  - destruct data1; [|discriminate]. simpl. ring.
  - destruct data1 as [|d data1]; [discriminate|].
    simpl. rewrite IH by (simpl in *; lia). ring.
Qed.

(** A row that stores nothing. *)
Lemma entry_of_absent (row col : list nat) (data : list Qc) (r c : nat) :
  ~ In r row -> entry_of row col data r c = 0%Qc.
Proof.
  revert col data. induction row as [|r' row IH]; intros col data H.
  - reflexivity.
  - destruct col as [|c' col]; [reflexivity|].
    destruct data as [|d data]; [reflexivity|]. simpl.
    destruct (Nat.eqb_spec r' r) as [->|Hne].
    + exfalso. apply H. left. reflexivity.
    + simpl. rewrite IH by (intro; apply H; right; assumption). ring.
Qed.

Lemma row_total_absent (row : list nat) (data : list Qc) (r : nat) :
  ~ In r row -> row_total row data r = 0%Qc.
Proof.
  revert data. induction row as [|r' row IH]; intros data H.
  - reflexivity.
  - destruct data as [|d data]; [reflexivity|]. simpl.
    destruct (Nat.eqb_spec r' r) as [->|Hne].
    + exfalso. apply H. left. reflexivity.
    + rewrite IH by (intro; apply H; right; assumption). ring.
Qed.

(** Diagonal entries [(i, i, f i)] for the [i] of a duplicate-free list. *)
Lemma entry_of_diagonal (idx : list nat) (f : nat -> Qc) (r c : nat) :
  NoDup idx ->
  entry_of idx idx (map f idx) r c
  = if Nat.eqb r c && existsb (Nat.eqb r) idx then f r else 0%Qc.
Proof.
  induction idx as [|i idx IH]; intros ND.
  - simpl. rewrite andb_false_r. reflexivity.
  - inversion ND; subst. simpl. rewrite (IH H2).
    destruct (Nat.eqb_spec i r) as [->|Hir]; simpl.
    + rewrite (Nat.eqb_sym r c). destruct (Nat.eqb_spec c r) as [->|Hcr]; simpl.
      * rewrite Nat.eqb_refl. simpl.
        destruct (existsb (Nat.eqb r) idx) eqn:E.
        -- apply existsb_eqb_In in E. contradiction.
        -- ring.
      * ring.
    + destruct (Nat.eqb_spec r i) as [->|_]; [congruence|]. simpl. ring.
Qed.

Lemma row_total_diagonal (idx : list nat) (f : nat -> Qc) (r : nat) :
  NoDup idx ->
  row_total idx (map f idx) r = if existsb (Nat.eqb r) idx then f r else 0%Qc.
Proof.
  induction idx as [|i idx IH]; intros ND.
  - reflexivity.
  - inversion ND; subst. simpl. rewrite (IH H2).
    destruct (Nat.eqb_spec i r) as [->|Hir]; simpl.
    + rewrite Nat.eqb_refl. simpl.
      destruct (existsb (Nat.eqb r) idx) eqn:E.
      * apply existsb_eqb_In in E. contradiction.
      * ring.
    + destruct (Nat.eqb_spec r i) as [->|_]; [congruence|]. simpl. ring.
Qed.

(** The loop of lines 203-204 subtracts from every cell the total of the
    row. *)
Lemma accumulate_spec (row : list nat) (temp S_temp S' : list Qc) :
  accumulate S_temp row temp = inr S' ->
  length row <= length temp /\
  length S' = length S_temp /\
  Forall (fun r => r < length S_temp) row /\
  forall r, nth r S' 0%Qc = (nth r S_temp 0%Qc - row_total row temp r)%Qc.
Proof.
  revert temp S_temp S'. induction row as [|r' row IH]; intros temp S_temp S' H.
  - simpl in H. inversion H; subst. simpl.
    repeat split; auto; try lia. intros r. ring.
  - destruct temp as [|d temp]; [discriminate|]. simpl in H.
    destruct (item S_temp r') as [|old] eqn:Ei; [discriminate|].
    destruct (set_item S_temp r' (old - d)%Qc) as [|S1] eqn:Es; [discriminate|].
    destruct (set_item_spec _ _ _ _ Es) as (Hb & Hl & Hn).
    destruct (IH _ _ _ H) as (G0 & G1 & G2 & G3).
    rewrite Hl in *. simpl. repeat split; auto; try lia.
    intros r. rewrite G3.
    apply item_inv in Ei.
    assert (Hr : nth r S1 0%Qc =
                 if Nat.eqb r r' then (old - d)%Qc else nth r S_temp 0%Qc).
    { destruct (Nat.eqb_spec r r') as [->|Hne].
      - apply nth_error_nth. rewrite Hn, Nat.eqb_refl. reflexivity.
      - destruct (Nat.lt_ge_cases r (length S_temp)) as [Hlt|Hge].
        + destruct (nth_error S_temp r) as [x|] eqn:Ex;
            [|apply nth_error_None in Ex; lia].
          rewrite (nth_error_nth _ _ _ Ex). apply nth_error_nth.
          rewrite Hn. destruct (Nat.eqb_spec r r'); [congruence|]. exact Ex.
        + rewrite !nth_overflow by lia. reflexivity. }
    rewrite Hr. rewrite (Nat.eqb_sym r' r).
    destruct (Nat.eqb r r') eqn:Err.
    + apply Nat.eqb_eq in Err. subst r.
      rewrite (nth_error_nth _ _ 0%Qc Ei). ring.
    + ring.
Qed.

(** Clearing the data of the rows listed in [dir] keeps the total of
    every other row. *)
Lemma row_total_cleared (row dir : list nat) (data temp : list Qc) (r : nat) :
  put data (nonzero (in1d row dir)) 0%Qc = inr temp ->
  length data = length row ->
  row_total row temp r
  = if existsb (Nat.eqb r) dir then 0%Qc else row_total row data r.
Proof.
  intros Hp Hl. destruct (put_spec _ _ _ _ Hp) as (_ & Hlen & Hn).
  assert (Hk : forall k, nth_error temp k =
                 match nth_error row k with
                 | Some rk => if existsb (Nat.eqb rk) dir
                              then (if k <? length data then Some 0%Qc else None)
                              else nth_error data k
                 | None => nth_error data k
                 end).
  { intros k. rewrite Hn.
    destruct (existsb (Nat.eqb k) (nonzero (in1d row dir))) eqn:E.
    - apply existsb_eqb_In, In_nonzero in E. unfold in1d in E.
      rewrite nth_error_map in E. destruct (nth_error row k); simpl in E;
        [|discriminate]. inversion E as [E']. rewrite E'. reflexivity.
    - destruct (nth_error row k) as [rk|] eqn:Er; auto.
      destruct (existsb (Nat.eqb rk) dir) eqn:E2; auto.
      assert (In k (nonzero (in1d row dir))).
      { apply In_nonzero. unfold in1d. rewrite nth_error_map, Er. simpl.
        rewrite E2. reflexivity. }
      apply existsb_eqb_In in H. congruence. }
  clear Hp Hn. revert data temp Hl Hlen Hk.
  induction row as [|r' row IH]; intros data temp Hl Hlen Hk.
  - simpl. destruct (existsb (Nat.eqb r) dir); reflexivity.
  - destruct data as [|d data]; [discriminate|].
    destruct temp as [|t temp]; [discriminate|].
    simpl. pose proof (Hk 0) as H0. simpl in H0.
    rewrite (IH data temp); try (simpl in *; lia).
    + destruct (Nat.eqb_spec r' r) as [->|Hne].
      * destruct (existsb (Nat.eqb r) dir); inversion H0; subst; ring.
      * destruct (existsb (Nat.eqb r) dir); ring.
    + intros k. specialize (Hk (S k)). simpl in Hk. rewrite Hk. reflexivity.
Qed.

Lemma sum_split_at (f : nat -> Qc) (r n : nat) :
  r < n ->
  sum (map f (seq 0 n))
  = (f r + sum (map f (filter (fun c => negb (Nat.eqb c r)) (seq 0 n))))%Qc.
Proof.
  intros Hr.
  assert (G : forall l, NoDup l -> In r l ->
           sum (map f l)
           = (f r + sum (map f (filter (fun c => negb (Nat.eqb c r)) l)))%Qc).
  { unfold sum. induction l as [|x l IH]; intros ND Hin; [destruct Hin|].
    inversion ND; subst. simpl.
    destruct (Nat.eqb_spec x r) as [->|Hne]; simpl.
    - f_equal. f_equal. f_equal. symmetry.
      apply forallb_filter_id. apply forallb_forall. intros y Hy.
      destruct (Nat.eqb_spec y r); [subst; contradiction | reflexivity].
    - destruct Hin as [->|Hin]; [congruence|].
      rewrite (IH H2 Hin). ring. }
  apply G; [apply seq_NoDup | apply in_seq; lia].
Qed.

Lemma In_is_kind (k : nat) (types : list nat) (i : nat) :
  In i (nonzero (is_kind k types)) <-> nth_error types i = Some k.
Proof.
  rewrite In_nonzero. unfold is_kind. rewrite nth_error_map.
  destruct (nth_error types i) as [t|]; simpl; split; intros H;
    try discriminate.
  - inversion H as [E]. apply Nat.eqb_eq in E. subst. reflexivity.
  - inversion H; subst. rewrite Nat.eqb_refl. reflexivity.
Qed.

Lemma existsb_is_kind (k : nat) (types : list nat) (i : nat) :
  existsb (Nat.eqb i) (nonzero (is_kind k types)) = true
  <-> nth_error types i = Some k.
Proof. rewrite existsb_eqb_In. apply In_is_kind. Qed.

Lemma coo_matrix_new_ok (data : list Qc) (row col : list nat) (n : nat) A :
  coo_matrix_new data row col n = inr A ->
  length row = length data /\ length col = length data /\
  Forall (fun r => r < n) row /\ Forall (fun c => c < n) col /\
  A = {| shape := n; row := row; col := col; data := data |}.
Proof.
  unfold coo_matrix_new. intros H.
  destruct (Nat.eqb (length row) (length data)) eqn:E1; [|discriminate].
  destruct (Nat.eqb (length col) (length data)) eqn:E2; [|discriminate].
  destruct (forallb (fun r => r <? n) row) eqn:E3; [|discriminate].
  destruct (forallb (fun c => c <? n) col) eqn:E4; [|discriminate].
  simpl in H. inversion H; subst.
  apply Nat.eqb_eq in E1. apply Nat.eqb_eq in E2.
  repeat split; auto; apply Forall_forall; intros x Hx.
  - rewrite forallb_forall in E3. apply Nat.ltb_lt. auto.
  - rewrite forallb_forall in E4. apply Nat.ltb_lt. auto.
Qed.

(** What lines 194-211 return, when they return. *)
Lemma close_diagonal_inv (A_dim : nat) (row col : list nat) (data : list Qc)
    (s s' : self_t) (A : coo_matrix) :
  close_diagonal A_dim (row, col, data) s = (inr A, s') ->
  exists types temp S_temp,
    s' = s /\ _BCtypes s = Some types /\
    let dir := nonzero (is_kind 1 types) in
    let non_Dir := non_Dirichlet A_dim dir in
    Forall (fun i => i < A_dim) dir /\
    put (data ++ map (fun _ => 1%Qc) dir) (nonzero (in1d (row ++ dir) dir)) 0%Qc
      = inr temp /\
    accumulate (repeat 0%Qc A_dim) (row ++ dir) temp = inr S_temp /\
    length col = length row /\ length data = length row /\
    Forall (fun r => r < A_dim) row /\ Forall (fun c => c < A_dim) col /\
    A = {| shape := A_dim;
           LinearSolver.row := (row ++ dir) ++ non_Dir;
           LinearSolver.col := (col ++ dir) ++ non_Dir;
           LinearSolver.data := (data ++ map (fun _ => 1%Qc) dir)
                                ++ map (fun i => nth i S_temp 0%Qc) non_Dir |}.
Proof.
  unfold close_diagonal. intros H. method_inv H.
  match goal with
  | Ht : _BCtypes s = Some ?types,
    Hd : mask_get (arange A_dim) (is_kind 1 ?types) = inr ?dir,
    Hp : put _ _ _ = inr ?temp,
    Ha : accumulate _ _ _ = inr ?S_temp,
    Hn : mask_get (arange A_dim) (negate _) = inr ?non_Dir,
    Hg : take ?S_temp ?non_Dir = inr ?diag,
    Hc : coo_matrix_new _ _ _ _ = inr A |- _ =>
      rename types into types0, temp into temp0, S_temp into S_temp0;
      destruct (mask_get_arange _ _ _ Hd) as [Ed Hdir];
      apply mask_get_select in Hn;
      pose proof (take_length _ _ _ Hg) as Ldiag;
      apply (take_map_nth 0%Qc) in Hg;
      destruct (coo_matrix_new_ok _ _ _ _ _ Hc) as (L1 & L2 & F1 & F2 & EA);
      subst dir diag
  end.
  match goal with
  | Hn : ?non_Dir = select _ _ |- _ =>
      assert (Hnd : non_Dir = non_Dirichlet A_dim (nonzero (is_kind 1 types0)))
        by (rewrite Hn; unfold negate, in1d, arange; rewrite map_map;
            rewrite select_map; reflexivity);
      clear Hn; subst non_Dir
  end.
  subst A.
  rewrite !length_app, !length_map in L1, L2.
  apply Forall_app in F1. destruct F1 as [F1 _].
  apply Forall_app in F1. destruct F1 as [F1 _].
  apply Forall_app in F2. destruct F2 as [F2 _].
  apply Forall_app in F2. destruct F2 as [F2 _].
  exists types0, temp0, S_temp0. cbv zeta.
  repeat split; auto; lia.
Qed.

(** The diagonal closure: the row of a node that is not Dirichlet sums to
    zero. *)
Lemma closure_row_sum (A_dim : nat) (row col : list nat) (data : list Qc)
    (s s' : self_t) (A : coo_matrix) (types : list nat) (r : nat) :
  close_diagonal A_dim (row, col, data) s = (inr A, s') ->
  _BCtypes s = Some types ->
  r < A_dim -> nth_error types r <> Some 1 ->
  row_sum A r = 0%Qc.
Proof.
  intros H Ht Hr Hk.
  destruct (close_diagonal_inv _ _ _ _ _ _ _ H)
    as (types' & temp & S_temp & -> & Ht' & Hdir & Hput & Hacc & Lc & Ld & Fr & Fc & ->).
  rewrite Ht in Ht'. inversion Ht'; subst types'. clear Ht'.
  set (dir := nonzero (is_kind 1 types)) in *.
  set (nd := non_Dirichlet A_dim dir) in *.
  assert (Hrd : existsb (Nat.eqb r) dir = false).
  { destruct (existsb (Nat.eqb r) dir) eqn:E; auto.
    apply existsb_is_kind in E. contradiction. }
  assert (Hrn : existsb (Nat.eqb r) nd = true).
  { apply existsb_eqb_In. unfold nd, non_Dirichlet. apply filter_In. split.
    - apply in_seq. lia.
    - rewrite Hrd. reflexivity. }
  assert (NDn : NoDup nd) by (apply NoDup_filter, seq_NoDup).
  assert (NDd : NoDup dir) by apply NoDup_nonzero.
  unfold row_sum, row_sum_over, entry. simpl.
  rewrite row_sum_is_row_total.
  2:{ rewrite !length_app. lia. }
  2:{ apply Forall_app. split; [apply Forall_app; split; auto|].
      apply Forall_forall. intros x Hx. apply filter_In in Hx.
      destruct Hx as [Hx _]. apply in_seq in Hx. lia. }
  rewrite row_total_app by (rewrite !length_app, length_map; lia).
  rewrite (row_total_diagonal nd (fun i => nth i S_temp 0%Qc) r NDn), Hrn.
  destruct (accumulate_spec _ _ _ _ Hacc) as (_ & _ & _ & HS).
  rewrite HS.
  rewrite (row_total_cleared _ _ _ _ r Hput)
    by (rewrite !length_app, length_map; lia).
  rewrite Hrd.
  replace (nth r (repeat 0%Qc A_dim) 0%Qc) with 0%Qc
    by (symmetry; apply nth_repeat).
  ring.
Qed.

Lemma closure_diagonal_entry (A : coo_matrix) (r : nat) :
  r < shape A -> row_sum A r = 0%Qc ->
  entry A r r = (- off_diagonal_sum A r)%Qc.
Proof.
  unfold row_sum, off_diagonal_sum, row_sum_over, arange. intros Hr H.
  rewrite (sum_split_at (entry A r) r (shape A) Hr) in H.
  set (e := entry A r r) in *.
  set (o := sum (map (entry A r)
                   (filter (fun c => negb (Nat.eqb c r)) (seq 0 (shape A))))) in *.
  replace e with ((e + o) - o)%Qc by ring. rewrite H. ring.
Qed.

(** A Dirichlet row that received no entry before line 194 is a unit
    row. *)
Lemma closure_Dirichlet_row (A_dim : nat) (row col : list nat) (data : list Qc)
    (s s' : self_t) (A : coo_matrix) (types : list nat) (d c : nat) :
  close_diagonal A_dim (row, col, data) s = (inr A, s') ->
  _BCtypes s = Some types ->
  nth_error types d = Some 1 ->
  ~ In d row ->
  entry A d c = if Nat.eqb d c then 1%Qc else 0%Qc.
Proof.
  intros H Ht Hd Hrow.
  destruct (close_diagonal_inv _ _ _ _ _ _ _ H)
    as (types' & temp & S_temp & -> & Ht' & Hdir & Hput & Hacc & Lc & Ld & Fr & Fc & ->).
  rewrite Ht in Ht'. inversion Ht'; subst types'. clear Ht'.
  set (dir := nonzero (is_kind 1 types)) in *.
  set (nd := non_Dirichlet A_dim dir) in *.
  assert (Hdd : existsb (Nat.eqb d) dir = true) by (apply existsb_is_kind; auto).
  assert (Hdn : existsb (Nat.eqb d) nd = false).
  { destruct (existsb (Nat.eqb d) nd) eqn:E; auto.
    apply existsb_eqb_In in E. unfold nd, non_Dirichlet in E.
    apply filter_In in E. destruct E as [_ E]. rewrite Hdd in E. discriminate. }
  unfold entry. simpl.
  rewrite entry_of_app by (rewrite !length_app, ?length_map; lia).
  rewrite entry_of_app by lia.
  rewrite (entry_of_absent _ _ _ _ _ Hrow).
  rewrite (entry_of_diagonal dir (fun _ => 1%Qc) d c (NoDup_nonzero _)).
  rewrite (entry_of_diagonal nd (fun i => nth i S_temp 0%Qc) d c)
    by (apply NoDup_filter, seq_NoDup).
  rewrite Hdd, Hdn, andb_true_r, andb_false_r.
  destruct (Nat.eqb d c); ring.
Qed.

End MatrixFacts.

(* ================================================================== *)
(** * The phases of the assembly *)
(* ================================================================== *)

Module AssemblyFacts.
Import Numpy NumpyFacts LinearSolver MethodFacts MatrixFacts.

Lemma In_select {A} (a : list A) (mask : list bool) (x : A) :
  In x (select a mask) ->
  exists k, nth_error a k = Some x /\ nth_error mask k = Some true.
Proof.
  revert mask. induction a as [|y a IH]; intros [|b mask] H;
    try (simpl in H; contradiction).
  simpl in H. destruct b.
  - destruct H as [->|H].
    + exists 0. auto.
    + destruct (IH _ H) as (k & H1 & H2). exists (S k). auto.
  - destruct (IH _ H) as (k & H1 & H2). exists (S k). auto.
Qed.

(** ** Lines 132-134 *)

Lemma insulate_boundaries_ok (net : GenericNetwork.t) (s s1 : self_t) (u : unit) :
  insulate_boundaries net s = (inr u, s1) ->
  exists t0 t1,
    _BCtypes s = Some t0 /\ _BCtypes s1 = Some t1 /\
    length t1 = length t0 /\
    (forall i, nth_error t1 i = nth_error t0 i \/
               (nth_error t0 i = Some 0 /\ nth_error t1 i = Some 3)) /\
    _BCvalues s1 = _BCvalues s /\ _conductance s1 = _conductance s.
Proof.
  unfold insulate_boundaries. intros H. method_inv H.
  match goal with
  | Ht : _BCtypes s = Some ?t, Hb : take ?t ?b = inr ?tb |- _ =>
      rename t into t0, b into bnd, tb into tb0; rename Hb into Htake
  end.
  match goal with
  | Hif : (if any (is_kind 0 tb0) then _ else _) _ = _ |- _ =>
      destruct (any (is_kind 0 tb0)) eqn:Eany; method_inv Hif
  end.
  - match goal with
    | Hi : mask_get bnd _ = inr ?idx, Hp : put t0 ?idx _ = inr ?t1 |- _ =>
        rename t1 into t1'; rename idx into idx0;
        apply mask_get_select in Hi;
        destruct (put_spec _ _ _ _ Hp) as (_ & Hlen & Hn)
    end.
    exists t0, t1'. simpl. repeat split; auto.
    intros i. rewrite Hn.
    destruct (existsb (Nat.eqb i) idx0) eqn:E; [|left; reflexivity].
    right. apply existsb_eqb_In in E. subst idx0.
    destruct (In_select _ _ _ E) as (k & Hk1 & Hk2).
    unfold is_kind in Hk2. rewrite nth_error_map in Hk2.
    destruct (take_nth _ _ _ _ _ Htake Hk1) as [Hv Hb].
    rewrite Hv in Hk2.
    destruct (nth_error t0 i) as [x|] eqn:Ex; simpl in Hk2; [|discriminate].
    inversion Hk2 as [Hx]. destruct x; [|discriminate].
    split; auto. destruct (Nat.ltb_spec i (length t0)); auto; lia.
  - exists t0, t0. repeat split; auto.
Qed.

(** How a phase acts on the kinds and values of the nodes that it does not
    convert. *)
Lemma kind_one_after_insulate (t0 t1 : list nat) (i : nat) :
  (nth_error t1 i = nth_error t0 i \/
   (nth_error t0 i = Some 0 /\ nth_error t1 i = Some 3)) ->
  (nth_error t1 i = Some 1 <-> nth_error t0 i = Some 1).
Proof.
  intros [->|[H0 H1]]; [reflexivity|]. rewrite H0, H1.
  split; intros H; discriminate.
Qed.

(** ** Lines 137-156 *)

Lemma conductance_entries_ok (net : GenericNetwork.t) (s s2 : self_t)
    (row col : list nat) (data : list Qc) :
  conductance_entries net s = (inr (row, col, data), s2) ->
  exists types c d1 d2,
    _BCtypes s = Some types /\ _conductance s = Some c /\
    _BCtypes s2 = Some types /\ _BCvalues s2 = _BCvalues s /\
    _conductance s2 = Some (Array (broadcast c (GenericNetwork.num_throats net))) /\
    let g := broadcast c (GenericNetwork.num_throats net) in
    let nd := nonzero (not_kind 1 types) in
    let tpore1 := map fst (GenericNetwork.connections net) in
    let tpore2 := map snd (GenericNetwork.connections net) in
    Forall (fun i => i < GenericNetwork.num_pores net) nd /\
    mask_get g (in1d tpore1 nd) = inr d1 /\
    mask_get g (in1d tpore2 nd) = inr d2 /\
    row = select tpore1 (in1d tpore1 nd) ++ select tpore2 (in1d tpore2 nd) /\
    col = select tpore2 (in1d tpore1 nd) ++ select tpore1 (in1d tpore2 nd) /\
    data = d1 ++ d2.
Proof.
  unfold conductance_entries. intros H. method_inv H.
  repeat match goal with
  | Hm : mask_get (GenericNetwork.get_pore_indices net) _ = inr _ |- _ =>
      apply mask_get_arange in Hm; destruct Hm as [? ?]; subst
  end.
  repeat match goal with
  | Hm : mask_get (map _ (GenericNetwork.connections net)) _ = inr _ |- _ =>
      apply mask_get_select in Hm; subst
  end.
  match goal with
  | Ht : _BCtypes s = Some ?t, Hc : _conductance s = Some ?c |- _ =>
      exists t, c
  end.
  match goal with
  | Hif : (if Nat.eqb (size ?c) 1 then _ else _) _ = (inr _, ?s1) |- _ =>
      unfold broadcast; destruct (Nat.eqb (size c) 1) eqn:Esz; method_inv Hif
  end.
  - simpl in *.
    repeat match goal with
    | Hc : Some _ = Some _ |- _ => inversion Hc; subst; clear Hc
    end.
    repeat match goal with
    | Ha : ?f s = Some ?x, Hb : ?f s = Some ?y |- _ =>
        rewrite Ha in Hb; inversion Hb; subst; clear Hb
    end.
    match goal with
    | Hr : (row, col, data) = _ |- _ => inversion Hr; subst; clear Hr
    end.
    match goal with
    | H1 : mask_get _ (in1d (map fst _) _) = inr ?d1,
      H2 : mask_get _ (in1d (map snd _) _) = inr ?d2 |- _ => exists d1, d2
    end.
    simpl. repeat split; auto.
  - repeat match goal with
    | Ha : ?f s = Some ?x, Hb : ?f s = Some ?y |- _ =>
        rewrite Ha in Hb; inversion Hb; subst; clear Hb
    end.
    match goal with
    | Hr : (row, col, data) = _ |- _ => inversion Hr; subst; clear Hr
    end.
    match goal with
    | H1 : mask_get _ (in1d (map fst _) _) = inr ?d1,
      H2 : mask_get _ (in1d (map snd _) _) = inr ?d2 |- _ => exists d1, d2
    end.
    match goal with
    | Hc : _conductance s = Some ?c |- _ => destruct c as [g0|g0]
    end; [simpl in Esz; discriminate|].
    simpl. repeat split; auto.
Qed.

(** ** [sp.unique] *)

Lemma In_insert_sorted (x y : Qc) (l : list Qc) :
  In y (insert_sorted x l) <-> y = x \/ In y l.
Proof.
  induction l as [|z l IH]; simpl.
  - intuition.
  - destruct (Qc_eqb x z) eqn:E.
    + apply Qc_eqb_eq in E. subst. simpl. intuition.
    + destruct (Qc_ltb x z); simpl; [intuition|]. rewrite IH. intuition.
Qed.

Lemma In_unique (y : Qc) (l : list Qc) : In y (unique l) <-> In y l.
Proof.
  unfold unique. induction l as [|x l IH]; simpl; [reflexivity|].
  rewrite In_insert_sorted, IH. intuition.
Qed.

Lemma Qc_ltb_lt (x y : Qc) : Qc_ltb x y = true <-> (x < y)%Qc.
Proof.
  unfold Qc_ltb. split; intros H.
  - apply negb_true_iff in H. apply Qcnot_le_lt. intros L.
    apply Qle_bool_iff in L. congruence.
  - apply negb_true_iff. destruct (Qle_bool y x) eqn:E; auto.
    apply Qle_bool_iff in E. apply Qclt_not_le in H. contradiction.
Qed.

Lemma increasing_insert_sorted (x : Qc) (l : list Qc) :
  increasing l -> increasing (insert_sorted x l).
Proof.
  induction l as [|z l IH]; simpl; intros H.
  - split; [intros y []|exact I].
  - destruct H as [H1 H2].
    destruct (Qc_eqb x z) eqn:E; [simpl; auto|].
    destruct (Qc_ltb x z) eqn:L.
    + apply Qc_ltb_lt in L. simpl. split; [|auto].
      intros y [<-|Hy]; auto. eapply Qclt_trans; eauto.
    + simpl. split; [|auto].
      intros y Hy. apply In_insert_sorted in Hy. destruct Hy as [->|Hy]; auto.
      apply Qc_eqb_neq in E.
      destruct (Qc_dec x z) as [[Hlt|Hgt]|Heq]; auto; try contradiction.
      apply Qc_ltb_lt in Hlt. congruence.
Qed.

Lemma increasing_NoDup (l : list Qc) : increasing l -> NoDup l.
Proof.
  induction l as [|x l IH]; simpl; intros H; constructor.
  - destruct H as [H _]. intros Hin. specialize (H x Hin).
    apply Qclt_not_eq in H. congruence.
  - apply IH, H.
Qed.

Lemma NoDup_unique (l : list Qc) : NoDup (unique l).
Proof.
  apply increasing_NoDup. unfold unique.
  induction l as [|x l IH]; simpl; [exact I|].
  apply increasing_insert_sorted, IH.
Qed.

(** ** Lines 161-170 *)

Lemma In_flux_group (F : list nat) (v : list Qc) (x : Qc) (p : nat) :
  In p (flux_group F v x) <-> In p F /\ nth_error v p = Some x.
Proof.
  unfold flux_group. rewrite In_select_in1d, In_nonzero.
  unfold has_value. rewrite nth_error_map.
  destruct (nth_error v p) as [y|]; simpl.
  - split; intros [H1 H2]; split; auto.
    + inversion H2 as [E]. apply Qc_eqb_eq in E. subst. reflexivity.
    + inversion H2; subst. rewrite Qc_eqb_refl. reflexivity.
  - split; intros [H1 H2]; discriminate.
Qed.

Lemma convert_flux_group_ok (net : GenericNetwork.t) (F : list nat) (x : Qc)
    (s s1 : self_t) (u : unit) :
  convert_flux_group net F x s = (inr u, s1) ->
  exists t v cs_ft prod t1 v1,
    _BCtypes s = Some t /\ _BCvalues s = Some v /\
    let f := flux_group F v x in
    put t f 4 = inr t1 /\
    take v f = inr (map (fun p => nth p v 0%Qc) f) /\
    take (GenericNetwork.cross_section net) (flux_throats net f) = inr cs_ft /\
    multiply (map (fun p => nth p v 0%Qc) f) cs_ft = inr prod /\
    put v f (sum prod) = inr v1 /\
    s1 = set_BCvalues (Some v1) (set_BCtypes (Some t1) s).
Proof.
  unfold convert_flux_group. intros H. method_inv H. simpl in *.
  repeat match goal with
  | Ha : ?f s = Some ?x, Hb : ?f s = Some ?y |- _ =>
      rewrite Ha in Hb; inversion Hb; subst; clear Hb
  end.
  match goal with
  | Ht : _BCtypes s = Some ?t, Hv : _BCvalues s = Some ?v |- _ =>
      rename t into t0, v into v0
  end.
  match goal with
  | Hm : mask_get (GenericNetwork.get_pore_indices net) _ = inr ?same |- _ =>
      apply mask_get_arange in Hm; destruct Hm as [? _]; subst same
  end.
  match goal with
  | Hm : mask_get F _ = inr ?f |- _ =>
      apply mask_get_select in Hm; fold (flux_group F v0 x) in Hm; subst f
  end.
  match goal with
  | Hi : take (GenericNetwork.get_pore_info net "internal") _ = inr ?m,
    Hm : mask_get _ ?m = inr ?fn |- _ =>
      apply (take_map_nth false) in Hi; subst m;
      apply mask_get_select in Hm;
      fold (internal_neighbors net (flux_group F v0 x)) in Hm; subst fn
  end.
  fold (flux_throats net (flux_group F v0 x)) in *.
  match goal with
  | Hp : put t0 _ _ = inr ?t1, Hq : put v0 _ (sum ?prod) = inr ?v1,
    Hc : take (GenericNetwork.cross_section net) _ = inr ?cs,
    Hv : take v0 _ = inr ?vf |- _ =>
      exists t0, v0, cs, prod, t1, v1;
      pose proof (take_map_nth 0%Qc _ _ _ Hv); subst vf
  end.
  cbv zeta. repeat split; auto.
Qed.

(** The loop touches the flux pores only, and a flux pore keeps its kind
    or becomes a grouped-rate pore. *)
Lemma convert_flux_loop_frame (net : GenericNetwork.t) (F : list nat)
    (vals : list Qc) :
  forall (s s' : self_t) (u : unit) (t : list nat) (v : list Qc),
  for_each vals (convert_flux_group net F) s = (inr u, s') ->
  _BCtypes s = Some t -> _BCvalues s = Some v ->
  exists t' v',
    _BCtypes s' = Some t' /\ _BCvalues s' = Some v' /\
    length t' = length t /\ length v' = length v /\
    (forall i, ~ In i F ->
       nth_error t' i = nth_error t i /\ nth_error v' i = nth_error v i) /\
    (forall i, In i F ->
       nth_error t' i = nth_error t i \/ nth_error t' i = Some 4) /\
    _conductance s' = _conductance s.
Proof.
  induction vals as [|x vals IH]; intros s s' u t v H Ht Hv.
  - simpl in H. method_inv H. exists t, v. repeat split; auto.
  - simpl in H. method_inv H.
    match goal with
    | Hg : convert_flux_group _ _ _ _ = _ |- _ =>
        destruct (convert_flux_group_ok _ _ _ _ _ _ Hg)
          as (t0 & v0 & cs & prod & t1 & v1 & Ht0 & Hv0 & Hp & _ & _ & _ & Hq & ->)
    end.
    rewrite Ht in Ht0. rewrite Hv in Hv0. inversion Ht0; inversion Hv0; subst.
    destruct (put_spec _ _ _ _ Hp) as (_ & Lt & Nt).
    destruct (put_spec _ _ _ _ Hq) as (_ & Lv & Nv).
    match goal with
    | Hl : for_each _ _ _ = _ |- _ =>
        destruct (IH _ _ _ t1 v1 Hl eq_refl eq_refl)
          as (t' & v' & Ht' & Hv' & Lt' & Lv' & Hout & Hin & Hc)
    end.
    exists t', v'. repeat split; auto; try congruence.
    + destruct (Hout i H) as [E _]. rewrite E, Nt.
      destruct (existsb (Nat.eqb i) (flux_group F v0 x)) eqn:E2; auto.
      apply existsb_eqb_In, In_flux_group in E2. tauto.
    + destruct (Hout i H) as [_ E]. rewrite E, Nv.
      destruct (existsb (Nat.eqb i) (flux_group F v0 x)) eqn:E2; auto.
      apply existsb_eqb_In, In_flux_group in E2. tauto.
    + intros i Hi. destruct (Hin i Hi) as [E|E]; auto.
      rewrite E, Nt.
      destruct (existsb (Nat.eqb i) (flux_group F v0 x)) eqn:E2; auto.
      destruct (Nat.ltb_spec i (length t0)); auto.
      left. symmetry. apply nth_error_None. lia.
Qed.

Lemma convert_flux_ok (net : GenericNetwork.t) (s s3 : self_t) (u : unit)
    (t : list nat) :
  convert_flux net s = (inr u, s3) ->
  _BCtypes s = Some t ->
  exists t3,
    _BCtypes s3 = Some t3 /\ length t3 = length t /\
    (forall i, nth_error t i <> Some 2 -> nth_error t3 i = nth_error t i) /\
    (forall i, nth_error t i = Some 2 ->
       nth_error t3 i = Some 2 \/ nth_error t3 i = Some 4) /\
    (forall v, _BCvalues s = Some v ->
       exists v3, _BCvalues s3 = Some v3 /\ length v3 = length v /\
         forall i, nth_error t i <> Some 2 -> nth_error v3 i = nth_error v i) /\
    (_BCvalues s = None -> _BCvalues s3 = None) /\
    _conductance s3 = _conductance s.
Proof.
  unfold convert_flux. intros H Ht. method_inv H.
  match goal with
  | Ha : _BCtypes s = Some ?x |- _ =>
      rewrite Ht in Ha; inversion Ha; subst x; clear Ha
  end.
  match goal with
  | Hif : (if any (is_kind 2 t) then _ else _) _ = _ |- _ =>
      destruct (any (is_kind 2 t)) eqn:Eany; method_inv Hif
  end.
  - match goal with
    | Hm : mask_get (GenericNetwork.get_pore_indices net) _ = inr ?F |- _ =>
        apply mask_get_arange in Hm; destruct Hm as [? _]; subst F
    end.
    match goal with
    | Hv : _BCvalues s = Some ?v, Hl : for_each _ _ _ = _ |- _ =>
        destruct (convert_flux_loop_frame _ _ _ _ _ _ t v Hl Ht Hv)
          as (t' & v' & Ht' & Hv' & Lt' & Lv' & Hout & Hin & Hc);
        rename Hv into Hv0; rename v into v0
    end.
    exists t'. repeat split; auto.
    + intros i Hi. apply Hout. rewrite In_is_kind. exact Hi.
    + intros i Hi. destruct (Hin i) as [E|E]; auto.
      * apply In_is_kind. exact Hi.
      * left. congruence.
    + intros v Hv. rewrite Hv0 in Hv. inversion Hv; subst v.
      exists v'. repeat split; auto.
      intros i Hi. apply Hout. rewrite In_is_kind. exact Hi.
    + intros Hn. congruence.
  - exists t. repeat split; auto.
    + intros v Hv. exists v. repeat split; auto.
Qed.

(** ** Lines 173-192 *)

Lemma NoDup_select {A} (a : list A) (mask : list bool) :
  NoDup a -> NoDup (select a mask).
Proof.
  revert mask. induction a as [|x a IH]; intros [|b mask] ND; simpl;
    try constructor.
  inversion ND; subst. destruct b; auto. constructor; auto.
  intros Hin. destruct (In_select _ _ _ Hin) as (k & Hk & _).
  apply nth_error_In in Hk. contradiction.
Qed.

Lemma NoDup_rate_group (t : list nat) (v : list Qc) (x : Qc) :
  NoDup (rate_group t v x).
Proof. apply NoDup_select, NoDup_nonzero. Qed.

Lemma In_rate_group (t : list nat) (v : list Qc) (x : Qc) (p : nat) :
  In p (rate_group t v x) <-> nth_error t p = Some 4 /\ nth p v 0%Qc = x.
Proof.
  unfold rate_group, has_value. rewrite map_map, select_map, filter_In.
  rewrite In_is_kind, Qc_eqb_eq. reflexivity.
Qed.

Lemma entry_of_repeat_col (neu : list nat) (sp : nat) (g : Qc) (r c : nat) :
  NoDup neu ->
  entry_of neu (repeat sp (length neu)) (repeat g (length neu)) r c
  = if Nat.eqb c sp && existsb (Nat.eqb r) neu then g else 0%Qc.
Proof.
  induction neu as [|p neu IH]; intros ND.
  - simpl. rewrite andb_false_r. reflexivity.
  - inversion ND; subst. simpl. rewrite (IH H2).
    rewrite (Nat.eqb_sym sp c), (Nat.eqb_sym p r).
    destruct (Nat.eqb c sp); simpl; [|rewrite andb_false_r; ring].
    rewrite andb_true_r.
    destruct (Nat.eqb_spec r p) as [->|Hne]; simpl; [|ring].
    destruct (existsb (Nat.eqb p) neu) eqn:E; [|ring].
    apply existsb_eqb_In in E. contradiction.
Qed.

Lemma entry_of_repeat_row (neu : list nat) (sp : nat) (g : Qc) (r c : nat) :
  NoDup neu ->
  entry_of (repeat sp (length neu)) neu (repeat g (length neu)) r c
  = if Nat.eqb r sp && existsb (Nat.eqb c) neu then g else 0%Qc.
Proof.
  induction neu as [|p neu IH]; intros ND.
  - simpl. rewrite andb_false_r. reflexivity.
  - inversion ND; subst. simpl. rewrite (IH H2).
    rewrite (Nat.eqb_sym sp r), (Nat.eqb_sym p c).
    destruct (Nat.eqb r sp); simpl; [|ring].
    destruct (Nat.eqb_spec c p) as [->|Hne]; simpl; [|ring].
    destruct (existsb (Nat.eqb p) neu) eqn:E; [|ring].
    apply existsb_eqb_In in E. contradiction.
Qed.

Lemma entry_of_superpore_block (neu : list nat) (sp : nat) (r c : nat) :
  NoDup neu ->
  entry_of (neu ++ repeat sp (length neu)) (repeat sp (length neu) ++ neu)
    (repeat g_super_value (length neu) ++ repeat g_super_value (length neu)) r c
  = superpore_link sp neu r c.
Proof.
  intros ND. rewrite entry_of_app by (rewrite !repeat_length; reflexivity).
  rewrite entry_of_repeat_col, entry_of_repeat_row by exact ND.
  reflexivity.
Qed.

Lemma superpore_group_ok (net : GenericNetwork.t) (A_dim : nat) (t : list nat)
    (v e : list Qc) (row col : list nat) (data : list Qc) (item_ : nat)
    (row' col' : list nat) (data' : list Qc) :
  superpore_group net A_dim (is_kind 4 t) v e (row, col, data) item_
    = inr (row', col', data') ->
  exists x,
    nth_error e item_ = Some x /\
    let neu := rate_group t v x in
    let n := length neu in
    let sp := A_dim - item_ - 1 in
    row' = row ++ neu ++ repeat sp n /\
    col' = col ++ repeat sp n ++ neu /\
    data' = data ++ repeat g_super_value n ++ repeat g_super_value n.
Proof.
  unfold superpore_group. intros H.
  apply rbind_ok in H. destruct H as (neu0 & H0 & H).
  apply rbind_ok in H. destruct H as (vn & H1 & H).
  apply rbind_ok in H. destruct H as (x & H2 & H).
  apply rbind_ok in H. destruct H as (neu & H3 & H).
  apply mask_get_arange in H0. destruct H0 as [-> _].
  apply (take_map_nth 0%Qc) in H1. subst vn.
  apply item_inv in H2. apply mask_get_select in H3.
  fold (rate_group t v x) in H3. subst neu.
  inversion H; subst. exists x. cbv zeta. auto.
Qed.

Lemma fold_superpore_group (net : GenericNetwork.t) (A_dim : nat) (t : list nat)
    (v e : list Qc) (items : list nat) :
  forall (row col : list nat) (data : list Qc)
         (row' col' : list nat) (data' : list Qc),
  fold_result (superpore_group net A_dim (is_kind 4 t) v e) items (row, col, data)
    = inr (row', col', data') ->
  length col = length row -> length data = length row ->
  length col' = length row' /\ length data' = length row' /\
  (forall r c,
     entry_of row' col' data' r c
     = (entry_of row col data r c
        + sum (map (fun item_ =>
                      superpore_link (A_dim - item_ - 1)
                        (rate_group t v (nth item_ e 0%Qc)) r c) items))%Qc) /\
  (forall r, In r row' ->
     In r row \/ nth_error t r = Some 4 \/
     exists item_, In item_ items /\ r = A_dim - item_ - 1) /\
  (forall c, In c col' ->
     In c col \/ nth_error t c = Some 4 \/
     exists item_, In item_ items /\ c = A_dim - item_ - 1) /\
  (forall item_, In item_ items -> item_ < length e).
Proof.
  induction items as [|i items IH]; intros row col data row' col' data' H Lc Ld.
  - simpl in H. inversion H; subst. repeat split; auto.
    + intros r c. simpl. ring.
    + intros item_ [].
  - cbn [fold_result] in H.
    destruct (superpore_group net A_dim (is_kind 4 t) v e (row, col, data) i)
      as [err|[[row1 col1] data1]] eqn:E; [discriminate|].
    destruct (superpore_group_ok _ _ _ _ _ _ _ _ _ _ _ _ E)
      as (x & Hx & Hr & Hc & Hd).
    set (neu := rate_group t v x) in *.
    assert (ND : NoDup neu) by apply NoDup_rate_group.
    destruct (IH _ _ _ _ _ _ H) as (L1 & L2 & He & Hrow & Hcol & Hit).
    { subst. rewrite !length_app, !repeat_length. lia. }
    { subst. rewrite !length_app, !repeat_length. lia. }
    repeat split; auto.
    + intros r c. rewrite He. subst row1 col1 data1.
      rewrite entry_of_app by lia.
      rewrite entry_of_superpore_block by exact ND.
      simpl map. unfold sum at 2. simpl fold_right.
      fold (sum (map (fun item_ => superpore_link (A_dim - item_ - 1)
                        (rate_group t v (nth item_ e 0%Qc)) r c) items)).
      rewrite (nth_error_nth _ _ 0%Qc Hx). fold neu. ring.
    + intros r Hr'. destruct (Hrow r Hr') as [Hin|[Hk|(j & Hj & Ej)]].
      * subst row1. apply in_app_or in Hin. destruct Hin as [Hin|Hin]; auto.
        apply in_app_or in Hin. destruct Hin as [Hin|Hin].
        -- right. left. apply In_rate_group in Hin. tauto.
        -- apply repeat_spec in Hin. right. right. exists i. split; simpl; auto.
      * auto.
      * right. right. exists j. split; simpl; auto.
    + intros c Hc'. destruct (Hcol c Hc') as [Hin|[Hk|(j & Hj & Ej)]].
      * subst col1. apply in_app_or in Hin. destruct Hin as [Hin|Hin]; auto.
        apply in_app_or in Hin. destruct Hin as [Hin|Hin].
        -- apply repeat_spec in Hin. right. right. exists i. split; simpl; auto.
        -- right. left. apply In_rate_group in Hin. tauto.
      * auto.
      * right. right. exists j. split; simpl; auto.
    + intros j [<-|Hj]; auto. apply nth_error_Some. congruence.
Qed.

Lemma superpore_entries_ok (net : GenericNetwork.t)
    (rcd : list nat * list nat * list Qc) (s s4 : self_t)
    (r : nat * (list nat * list nat * list Qc)) :
  superpore_entries net rcd s = (inr r, s4) ->
  exists t,
    _BCtypes s = Some t /\ _BCtypes s4 = Some t /\
    _BCvalues s4 = _BCvalues s /\ _conductance s4 = _conductance s /\
    _Coeff_dimension s4 = Some (fst r) /\
    if any (is_kind 4 t) then
      exists v kv,
        _BCvalues s = Some v /\
        mask_get v (is_kind 4 t) = inr kv /\
        fst r = GenericNetwork.num_pores net + length (unique kv) /\
        _extera_Neumann_equations s4 = Some (Values (unique kv)) /\
        fold_result (superpore_group net (fst r) (is_kind 4 t) v (unique kv))
          (arange (length (unique kv))) rcd = inr (snd r)
    else
      r = (GenericNetwork.num_pores net, rcd) /\
      _extera_Neumann_equations s4 = Some Zero.
Proof.
  unfold superpore_entries. intros H. method_inv H. simpl.
  match goal with
  | Ht : _BCtypes s = Some ?t |- _ => exists t; rename t into t0
  end.
  match goal with
  | Hif : (if any (is_kind 4 t0) then _ else _) _ = _ |- _ =>
      destruct (any (is_kind 4 t0)) eqn:Eany; method_inv Hif
  end.
  - simpl in *. repeat split; auto.
    match goal with
    | Hv : _BCvalues s = Some ?v, Hm : mask_get ?v _ = inr ?kv |- _ =>
        exists v, kv; repeat split; auto
    end.
  - simpl in *. repeat split; auto.
Qed.

End AssemblyFacts.

(* ================================================================== *)
(** * The assembled system *)
(* ================================================================== *)

Module SystemFacts.
Import Numpy NumpyFacts LinearSolver MethodFacts MatrixFacts AssemblyFacts.

Lemma build_inv (net : GenericNetwork.t) (s s' : self_t) (A : coo_matrix) :
  _build_coefficient_matrix net s = (inr A, s') ->
  exists s1 s2 s3 s4 u1 u3 rcd r,
    insulate_boundaries net s = (inr u1, s1) /\
    conductance_entries net s1 = (inr rcd, s2) /\
    convert_flux net s2 = (inr u3, s3) /\
    superpore_entries net rcd s3 = (inr r, s4) /\
    close_diagonal (fst r) (snd r) s4 = (inr A, s').
Proof.
  unfold _build_coefficient_matrix. intros H. method_inv H.
  repeat eexists; eauto.
Qed.

Lemma In_not_kind (k : nat) (types : list nat) (i : nat) :
  In i (nonzero (not_kind k types)) <->
  exists x, nth_error types i = Some x /\ x <> k.
Proof.
  rewrite In_nonzero. unfold not_kind. rewrite nth_error_map.
  destruct (nth_error types i) as [x|]; simpl.
  - split.
    + intros H. inversion H as [E]. exists x. split; auto.
      apply negb_true_iff in E. apply Nat.eqb_neq in E. congruence.
    + intros (y & Hy & Hne). inversion Hy; subst. f_equal.
      apply negb_true_iff. apply Nat.eqb_neq. congruence.
  - split; [discriminate|]. intros (y & Hy & _). discriminate.
Qed.

Lemma close_diagonal_shape (A_dim : nat) (rcd : list nat * list nat * list Qc)
    (s s' : self_t) (A : coo_matrix) :
  close_diagonal A_dim rcd s = (inr A, s') -> shape A = A_dim /\ s' = s.
Proof.
  destruct rcd as [[row col] data]. intros H.
  destruct (close_diagonal_inv _ _ _ _ _ _ _ H)
    as (t & temp & S_temp & -> & _ & _ & _ & _ & _ & _ & _ & _ & ->).
  auto.
Qed.

Lemma entry_of_absent_col (row col : list nat) (data : list Qc) (r c : nat) :
  ~ In c col -> entry_of row col data r c = 0%Qc.
Proof.
  revert col data. induction row as [|r' row IH]; intros col data H.
  - reflexivity.
  - destruct col as [|c' col]; [reflexivity|].
    destruct data as [|d data]; [reflexivity|]. simpl.
    destruct (Nat.eqb_spec c' c) as [->|Hne].
    + exfalso. apply H. left. reflexivity.
    + rewrite andb_false_r.
      rewrite IH by (intro; apply H; right; assumption). ring.
Qed.

(** What the assembly does to the instance, and which rows it fills before
    the diagonal phase. *)
Lemma build_summary (net : GenericNetwork.t) (s s' : self_t) (A : coo_matrix)
    (t : list nat) :
  _build_coefficient_matrix net s = (inr A, s') ->
  _BCtypes s = Some t ->
  exists t' dim row col data c,
    _BCtypes s' = Some t' /\ length t' = length t /\
    (forall i, nth_error t' i = Some 1 <-> nth_error t i = Some 1) /\
    (forall i x, nth_error t' i = Some x -> x <> 1 ->
       i < GenericNetwork.num_pores net) /\
    (forall v, _BCvalues s = Some v ->
       exists v', _BCvalues s' = Some v' /\
         forall i, nth_error t i = Some 1 -> nth_error v' i = nth_error v i) /\
    _conductance s = Some c /\
    _conductance s' = Some (Array (broadcast c (GenericNetwork.num_throats net))) /\
    _Coeff_dimension s' = Some dim /\ shape A = dim /\
    close_diagonal dim (row, col, data) s' = (inr A, s') /\
    (if any (is_kind 4 t') then
       exists v' kv,
         _BCvalues s' = Some v' /\ mask_get v' (is_kind 4 t') = inr kv /\
         dim = GenericNetwork.num_pores net + length (unique kv) /\
         _extera_Neumann_equations s' = Some (Values (unique kv)) /\
         forall r c,
           (forall a b, In (a, b) (GenericNetwork.connections net) ->
              a < GenericNetwork.num_pores net /\ b < GenericNetwork.num_pores net) ->
           GenericNetwork.num_pores net <= r \/ GenericNetwork.num_pores net <= c ->
           entry_of row col data r c
           = sum (map (fun item_ =>
                         superpore_link (dim - item_ - 1)
                           (rate_group t' v' (nth item_ (unique kv) 0%Qc)) r c)
                    (arange (length (unique kv))))
     else dim = GenericNetwork.num_pores net /\
          _extera_Neumann_equations s' = Some Zero) /\
    (forall r, In r row ->
       (exists x, nth_error t' r = Some x /\ x <> 1) \/
       GenericNetwork.num_pores net <= r).
Proof.
  intros H Ht.
  destruct (build_inv _ _ _ _ H)
    as (s1 & s2 & s3 & s4 & u1 & u3 & [[row0 col0] data0] & [dim [[row col] data]]
        & H1 & H2 & H3 & H4 & H5).
  destruct (insulate_boundaries_ok _ _ _ _ H1)
    as (t0 & t1 & Ht0 & Ht1 & L1 & K1 & V1 & C1).
  rewrite Ht in Ht0. inversion Ht0; subst t0. clear Ht0.
  destruct (conductance_entries_ok _ _ _ _ _ _ H2)
    as (t1' & c & d1 & d2 & Ht1' & Hc & Ht2 & V2 & C2 & Hnd & Hd1 & Hd2 & Er & Ec & Ed).
  rewrite Ht1 in Ht1'. inversion Ht1'; subst t1'. clear Ht1'.
  destruct (convert_flux_ok _ _ _ _ _ H3 Ht2)
    as (t3 & Ht3 & L3 & K3a & K3b & V3 & V3n & C3).
  destruct (superpore_entries_ok _ _ _ _ _ H4)
    as (t3' & Ht3' & Ht4 & V4 & C4 & D4 & Hsp).
  rewrite Ht3 in Ht3'. inversion Ht3'; subst t3'. clear Ht3'.
  simpl fst in *. simpl snd in *.
  destruct (close_diagonal_shape _ _ _ _ _ H5) as [Hshape ->].
  assert (K13 : forall i, nth_error t3 i = Some 1 <-> nth_error t1 i = Some 1).
  { intros i. destruct (Nat.eq_dec 0 0) as [_|]; [|lia].
    destruct (nth_error t1 i) as [x|] eqn:E.
    - destruct (Nat.eq_dec x 2) as [->|Hne].
      + destruct (K3b i E) as [E3|E3]; rewrite E3; split; discriminate.
      + rewrite (K3a i) by congruence. rewrite E. reflexivity.
    - rewrite (K3a i) by congruence. rewrite E. reflexivity. }
  assert (Hlow : forall i x, nth_error t3 i = Some x -> x <> 1 ->
                   i < GenericNetwork.num_pores net).
  { intros i x Hx Hne.
    assert (Hin : In i (nonzero (not_kind 1 t1))).
    { apply In_not_kind.
      destruct (nth_error t1 i) as [y|] eqn:E.
      - exists y. split; auto. intros ->.
        apply K13 in E. congruence.
      - apply nth_error_None in E.
        assert (i < length t3) by (apply nth_error_Some; congruence). lia. }
    rewrite Forall_forall in Hnd. apply Hnd. exact Hin. }
  exists t3, dim, row, col, data, c.
  split; [exact Ht4|]. split; [lia|].
  split.
  { intros i. rewrite K13. apply kind_one_after_insulate, K1. }
  split; [exact Hlow|].
  split.
  { intros v Hv. rewrite <- V1, <- V2 in Hv.
    destruct (V3 v Hv) as (v3 & Hv3 & _ & Hs).
    exists v3. split; [congruence|].
    intros i Hi. apply Hs.
    assert (nth_error t1 i = Some 1) by (apply (kind_one_after_insulate _ _ _ (K1 i)); auto).
    congruence. }
  split; [congruence|]. split; [congruence|].
  split; [exact D4|]. split; [exact Hshape|]. split; [exact H5|].
  destruct (any (is_kind 4 t3)) eqn:Eany.
  - destruct Hsp as (v & kv & Hv & Hkv & Hdim & Hex & Hfold).
    simpl in Hdim, Hfold.
    assert (Lc : length col0 = length row0).
    { subst row0 col0. rewrite !length_app.
      unfold mask_get in Hd1, Hd2.
      repeat match goal with
      | |- context [length (select ?a (in1d ?b ?c))] =>
          let Hx := fresh in
          assert (Hx : mask_get a (in1d b c) = inr (select a (in1d b c)))
            by (apply mask_get_total; unfold in1d; rewrite !length_map; lia);
          rewrite (take_length _ _ _ Hx); clear Hx
      end. reflexivity. }
    assert (Ld : length data0 = length row0).
    { subst row0 data0. rewrite !length_app.
      rewrite (take_length _ _ _ Hd1), (take_length _ _ _ Hd2).
      repeat match goal with
      | |- context [length (select ?a (in1d ?b ?c))] =>
          let Hx := fresh in
          assert (Hx : mask_get a (in1d b c) = inr (select a (in1d b c)))
            by (apply mask_get_total; unfold in1d; rewrite !length_map; lia);
          rewrite (take_length _ _ _ Hx); clear Hx
      end. reflexivity. }
    destruct (fold_superpore_group _ _ _ _ _ _ _ _ _ _ _ _ Hfold Lc Ld)
      as (_ & _ & Hent & Hrow & _ & Hit).
    split.
    { exists v, kv. split; [congruence|]. split; [exact Hkv|].
      split; [exact Hdim|]. split; [exact Hex|].
      intros r cc Hwf Hrc. rewrite Hent.
      assert (Hz : entry_of row0 col0 data0 r cc = 0%Qc).
      { destruct Hrc as [Hr|Hcc0].
        - apply entry_of_absent. intros Hin. subst row0.
          apply in_app_or in Hin.
          assert (Hnd' : In r (nonzero (not_kind 1 t1)))
            by (destruct Hin as [Hin|Hin]; apply In_select_in1d in Hin; tauto).
          rewrite Forall_forall in Hnd. specialize (Hnd r Hnd'). lia.
        - apply entry_of_absent_col. intros Hin. subst col0.
          apply in_app_or in Hin.
          assert (Hcc : In cc (map snd (GenericNetwork.connections net)) \/
                        In cc (map fst (GenericNetwork.connections net)))
            by (destruct Hin as [Hin|Hin];
                destruct (In_select _ _ _ Hin) as (k & Hk & _);
                apply nth_error_In in Hk; auto).
          destruct Hcc as [Hcc|Hcc]; apply in_map_iff in Hcc;
            destruct Hcc as ([a b] & Eab & Hab); destruct (Hwf a b Hab);
            simpl in Eab; lia. }
      rewrite Hz. ring. }
    intros r Hr. destruct (Hrow r Hr) as [Hin|[Hk|(j & Hj & ->)]].
    + left. subst row0. apply in_app_or in Hin.
      assert (Hnd' : In r (nonzero (not_kind 1 t1))).
      { destruct Hin as [Hin|Hin]; apply In_select_in1d in Hin; tauto. }
      apply In_not_kind in Hnd'. destruct Hnd' as (x & Hx & Hne).
      destruct (nth_error t3 r) as [y|] eqn:E.
      * exists y. split; auto. intros ->. apply K13 in E. congruence.
      * apply nth_error_None in E.
        assert (r < length t1) by (apply nth_error_Some; congruence). lia.
    + left. exists 4. split; auto.
    + right. specialize (Hit j Hj). lia.
  - destruct Hsp as [Er' Hex]. inversion Er'; subst.
    split; [auto|].
    intros r Hin. left. apply in_app_or in Hin.
    assert (Hnd' : In r (nonzero (not_kind 1 t1))).
    { destruct Hin as [Hin|Hin]; apply In_select_in1d in Hin; tauto. }
    apply In_not_kind in Hnd'. destruct Hnd' as (x & Hx & Hne).
    destruct (nth_error t3 r) as [y|] eqn:E.
    * exists y. split; auto. intros ->. apply K13 in E. congruence.
    * apply nth_error_None in E.
      assert (r < length t1) by (apply nth_error_Some; congruence). lia.
Qed.

(** ** The right-hand side *)

Lemma put_each_spec {A} (idx : list nat) :
  forall (a : list A) (vals a' : list A),
  put_each a idx vals = inr a' ->
  length a' = length a /\
  (forall j, ~ In j idx -> nth_error a' j = nth_error a j) /\
  (NoDup idx -> forall k j, nth_error idx k = Some j ->
     nth_error a' j = nth_error vals k).
Proof.
  induction idx as [|i idx IH]; intros a vals a' H.
  - destruct vals; [|discriminate]. simpl in H. inversion H; subst.
    repeat split; auto. intros _ k j Hk. destruct k; discriminate.
  - destruct vals as [|v vals]; [discriminate|]. simpl in H.
    destruct (set_item a i v) as [|a1] eqn:E; [discriminate|].
    destruct (set_item_spec _ _ _ _ E) as (Hb & Hl & Hn).
    destruct (IH _ _ _ H) as (L & Hout & Hin).
    split; [congruence|]. split.
    + intros j Hj. rewrite Hout by (intro; apply Hj; right; assumption).
      rewrite Hn. destruct (Nat.eqb_spec j i) as [->|_]; auto.
      exfalso. apply Hj. left. reflexivity.
    + intros ND k j Hk. inversion ND; subst.
      destruct k as [|k]; simpl in Hk.
      * inversion Hk; subst. rewrite Hout by assumption.
        rewrite Hn, Nat.eqb_refl. reflexivity.
      * simpl. apply Hin; assumption.
Qed.

Lemma py_index_from_end (dim item_ i : nat) :
  item_ < dim ->
  py_index dim (Z.of_nat dim - Z.of_nat item_ - 1) = inr i ->
  i = dim - item_ - 1.
Proof.
  unfold py_index. intros Hlt H.
  destruct (Z.leb_spec 0 (Z.of_nat dim - Z.of_nat item_ - 1)); [|lia].
  destruct (Z.ltb_spec (Z.of_nat dim - Z.of_nat item_ - 1) (Z.of_nat dim));
    [|lia].
  inversion H. lia.
Qed.

Lemma fold_RHS_superpore (dim n : nat) (e : list Qc) (items : list nat) :
  forall B B' : list Qc,
  fold_result (RHS_superpore dim e) items B = inr B' ->
  length B = dim ->
  (forall item_, In item_ items -> n + item_ < dim) ->
  length B' = dim /\ forall j, j < n -> nth_error B' j = nth_error B j.
Proof.
  induction items as [|i items IH]; intros B B' H L Hit.
  - simpl in H. inversion H; subst. auto.
  - cbn [fold_result] in H.
    destruct (RHS_superpore dim e B i) as [|B1] eqn:E; [discriminate|].
    unfold RHS_superpore in E.
    apply rbind_ok in E. destruct E as (x & _ & E).
    apply rbind_ok in E. destruct E as (k & Hk & E).
    rewrite L in Hk. apply py_index_from_end in Hk;
      [|specialize (Hit i (or_introl eq_refl)); lia].
    destruct (set_item_spec _ _ _ _ E) as (_ & L1 & N1).
    destruct (IH _ _ H) as (L' & Hj).
    { congruence. }
    { intros j Hj. apply Hit. right. exact Hj. }
    split; auto. intros j Hlt. rewrite Hj by exact Hlt. rewrite N1.
    specialize (Hit i (or_introl eq_refl)).
    destruct (Nat.eqb_spec j k); auto. lia.
Qed.

Lemma build_RHS_inv (net : GenericNetwork.t) (s1 s2 : self_t) (B : list Qc) :
  _build_RHS_matrix net s1 = (inr B, s2) ->
  exists ex dim t v B1 B2,
    _extera_Neumann_equations s1 = Some ex /\
    _Coeff_dimension s1 = Some dim /\
    _BCtypes s1 = Some t /\ _BCvalues s1 = Some v /\
    put_each (repeat 0%Qc dim) (nonzero (is_kind 1 t))
      (map (fun p => nth p v 0%Qc) (nonzero (is_kind 1 t))) = inr B1 /\
    put_each B1 (nonzero (is_kind 5 t))
      (map (fun p => nth p v 0%Qc) (nonzero (is_kind 5 t))) = inr B2 /\
    (if any (is_kind 4 t)
     then exists e, ex = Values e /\
            fold_result (RHS_superpore dim e) (arange (length e)) B2 = inr B
     else B = B2) /\
    s2 = s1.
Proof.
  unfold _build_RHS_matrix. intros H. method_inv H.
  repeat match goal with
  | Hm : mask_get (GenericNetwork.get_pore_indices net) _ = inr _ |- _ =>
      apply mask_get_arange in Hm; destruct Hm as [? _]; subst
  end.
  repeat match goal with
  | Hm : take _ _ = inr ?x |- _ =>
      apply (take_map_nth 0%Qc) in Hm; subst x
  end.
  match goal with
  | He : _extera_Neumann_equations s1 = Some ?ex,
    Hd : _Coeff_dimension s1 = Some ?dim,
    Ht : _BCtypes s1 = Some ?t, Hv : _BCvalues s1 = Some ?v,
    H1 : put_each (repeat _ _) _ _ = inr ?B1,
    H2 : put_each ?B1 _ _ = inr ?B2 |- _ =>
      exists ex, dim, t, v, B1, B2; rename t into t0, ex into ex0
  end.
  repeat split; auto.
  - match goal with
    | Hif : (if any (is_kind 4 t0) then _ else _) _ = _ |- _ =>
        destruct (any (is_kind 4 t0)); [destruct ex0|]; method_inv Hif
    end.
    + unfold throw in *.
      match goal with Hx : (raise _, _) = _ |- _ => inversion Hx end.
    + eexists; split; eauto.
    + reflexivity.
  - match goal with
    | Hif : (if any (is_kind 4 t0) then _ else _) _ = _ |- _ =>
        destruct (any (is_kind 4 t0)); [destruct ex0|]; method_inv Hif
    end; auto.
    unfold throw in *.
    match goal with Hx : (raise _, _) = _ |- _ => inversion Hx end.
Qed.

Lemma any_false_nonzero (mask : list bool) :
  any mask = false -> nonzero mask = [].
Proof.
  intros H. destruct (nonzero mask) as [|i l] eqn:E; auto.
  assert (Hi : In i (nonzero mask)) by (rewrite E; left; auto).
  apply In_nonzero, nth_error_In in Hi.
  assert (existsb (fun b => b) mask = true)
    by (apply existsb_exists; exists true; auto).
  unfold any in H. congruence.
Qed.

Lemma any_false_select {A} (a : list A) (mask : list bool) :
  any mask = false -> select a mask = [].
Proof.
  revert mask. induction a as [|x a IH]; intros [|b mask] H; auto.
  simpl in *. destruct b; [discriminate|]. apply IH. exact H.
Qed.



End SystemFacts.

Import Numpy NumpyFacts LinearSolver MethodFacts MatrixFacts AssemblyFacts SystemFacts Examples.

(** The closure in exact rationals, where no subtraction is rounded: the
    diagonal entry of every row that does not belong to a Dirichlet node
    (the rows of converted flux nodes and the superpore rows included) is
    the negated sum of the off-diagonal entries of the row, and the row sums
    to zero.  In the doubles of the program the same entry is rounded at
    every subtraction; see [ClosureFacts] below. *)
Theorem exact_closure_gives_zero_row_sum
    (net : GenericNetwork.t) (s s' : self_t) (A : coo_matrix)
    (types' : list nat) (r : nat) :
  _build_coefficient_matrix net s = (inr A, s') ->
  _BCtypes s' = Some types' ->
  r < shape A ->
  nth_error types' r <> Some Dirichlet ->
  entry A r r = (- off_diagonal_sum A r)%Qc /\ row_sum A r = 0%Qc.
Proof.
  intros H Ht Hr Hk.
  destruct (build_inv _ _ _ _ H)
    as (s1 & s2 & s3 & s4 & u1 & u3 & rcd & [dim [[row col] data]]
        & _ & _ & _ & _ & H5).
  cbn [fst snd] in H5.
  destruct (close_diagonal_shape _ _ _ _ _ H5) as [Hshape Es]. subst s4.
  assert (Hsum : row_sum A r = 0%Qc).
  { apply (closure_row_sum dim row col data s' s' A types' r H5 Ht); [lia|].
    exact Hk. }
  split; [|exact Hsum].
  apply closure_diagonal_entry; assumption.
Qed.

Lemma exact_closure_gives_zero_row_sum_witness :
  exists A s',
    _build_coefficient_matrix chain chain_flux = (inr A, s') /\
    (entry A 3 3 = (- off_diagonal_sum A 3)%Qc /\ row_sum A 3 = 0%Qc) /\
    (entry A 4 4 = (- off_diagonal_sum A 4)%Qc /\ row_sum A 4 = 0%Qc).
Proof.
  evar (A0 : coo_matrix). evar (s0 : self_t).
  assert (HA : _build_coefficient_matrix chain chain_flux = (inr A0, s0))
    by (subst A0 s0; vm_compute; reflexivity).
  evar (t0 : list nat).
  assert (Ht : _BCtypes s0 = Some t0) by (subst s0 t0; vm_compute; reflexivity).
  exists A0, s0. split; [exact HA|]. split.
  - apply (exact_closure_gives_zero_row_sum chain chain_flux s0 A0 t0 3 HA Ht).
    + subst A0. vm_compute. lia.
    + subst t0. vm_compute. discriminate.
  - apply (exact_closure_gives_zero_row_sum chain chain_flux s0 A0 t0 4 HA Ht).
    + subst A0. vm_compute. lia.
    + subst t0. vm_compute. discriminate.
Defined.

(** C2.  For every node that the registry classifies as Dirichlet, the
    assembled row is the unit row (1 on the diagonal, 0 elsewhere) and the
    right-hand side holds the Dirichlet value of the node; in particular the
    two positions of a connection between two Dirichlet nodes hold nothing
    but the unit diagonal. *)
Theorem Dirichlet_rows_are_identity_rows
    (net : GenericNetwork.t) (s s1 s2 : self_t) (A : coo_matrix) (B : list Qc)
    (types : list nat) (values : list Qc) :
  _BCtypes s = Some types ->
  _BCvalues s = Some values ->
  _build_coefficient_matrix net s = (inr A, s1) ->
  _build_RHS_matrix net s1 = (inr B, s2) ->
  (forall d, d < GenericNetwork.num_pores net ->
     nth_error types d = Some Dirichlet ->
     (forall c, entry A d c = if Nat.eqb d c then 1%Qc else 0%Qc) /\
     nth_error B d = nth_error values d /\ d < length values) /\
  (forall a b, In (a, b) (GenericNetwork.connections net) ->
     a < GenericNetwork.num_pores net -> b < GenericNetwork.num_pores net ->
     nth_error types a = Some Dirichlet -> nth_error types b = Some Dirichlet ->
     entry A a b = (if Nat.eqb a b then 1%Qc else 0%Qc) /\
     entry A b a = (if Nat.eqb b a then 1%Qc else 0%Qc)).
Proof.
  intros Ht Hv HA HB.
  assert (Main : forall d, d < GenericNetwork.num_pores net ->
     nth_error types d = Some Dirichlet ->
     (forall c, entry A d c = if Nat.eqb d c then 1%Qc else 0%Qc) /\
     nth_error B d = nth_error values d /\ d < length values).
  { intros d Hd Hk.
    destruct (build_summary _ _ _ _ _ HA Ht)
      as (t' & dim & row & col & data & c0 & Ht' & Lt & K & Hlow & V & _ & _
          & Hdim & Hshape & Hclose & Hsp & Hrows).
    destruct (V _ Hv) as (v' & Hv' & Hvd).
    assert (Hk' : nth_error t' d = Some 1) by (apply K; exact Hk).
    split.
    - intros c. apply (closure_Dirichlet_row dim row col data s1 s1 A t' d c);
        auto.
      intros Hin. destruct (Hrows d Hin) as [(x & Hx & Hne)|Hge]; [|lia].
      congruence.
    - destruct (build_RHS_inv _ _ _ _ HB)
        as (ex & dim' & t'' & v'' & B1 & B2 & Hex & Hdim' & Ht'' & Hv'' & H1 & H2
            & Hif & _).
      rewrite Hdim in Hdim'. rewrite Ht' in Ht''. rewrite Hv' in Hv''.
      inversion Hdim'; inversion Ht''; inversion Hv''; subst dim' t'' v''.
      clear Hdim' Ht'' Hv''.
      destruct (put_each_spec _ _ _ _ H1) as (L1 & _ & In1).
      destruct (put_each_spec _ _ _ _ H2) as (L2 & Out2 & _).
      assert (Hd1 : In d (nonzero (is_kind 1 t'))) by (apply In_is_kind; auto).
      destruct (In_nth_error _ _ Hd1) as [k Hkd].
      assert (Hdv : d < length v').
      { (* the read of the Dirichlet values succeeded *)
        unfold _build_RHS_matrix in HB. method_inv HB.
        repeat match goal with
        | Hm : mask_get (GenericNetwork.get_pore_indices net) _ = inr _ |- _ =>
            apply mask_get_arange in Hm; destruct Hm as [? _]; subst
        end.
        repeat match goal with
        | Ha : ?f s1 = Some ?x, Hb : ?f s1 = Some ?y |- _ =>
            rewrite Ha in Hb; inversion Hb; subst; clear Hb
        end.
        match goal with
        | Hm : take v' (nonzero (is_kind 1 t')) = inr _ |- _ =>
            apply (take_bound _ _ _ d Hm Hd1)
        end. }
      assert (HB1 : nth_error B1 d = nth_error v' d).
      { rewrite (In1 (NoDup_nonzero _) k d Hkd).
        rewrite nth_error_map, Hkd. simpl.
        destruct (nth_error v' d) as [x|] eqn:Ex;
          [|apply nth_error_None in Ex; lia].
        rewrite (nth_error_nth _ _ _ Ex). reflexivity. }
      assert (HB2 : nth_error B2 d = nth_error v' d).
      { rewrite Out2; auto. rewrite In_is_kind. congruence. }
      assert (Lv : d < length values).
      { apply nth_error_Some. rewrite <- (Hvd d Hk).
        apply nth_error_Some. exact Hdv. }
      split; [|exact Lv].
      rewrite <- (Hvd d Hk), <- HB2.
      destruct (any (is_kind 4 t')) eqn:Eany.
      + destruct Hif as (e & -> & Hfold).
        destruct Hsp as (v2 & kv & Hv2 & Hkv & Edim & Hex2 & _).
        rewrite Hex in Hex2. inversion Hex2; subst e.
        destruct (fold_RHS_superpore dim (GenericNetwork.num_pores net)
                    (unique kv) (arange (length (unique kv))) B2 B Hfold)
          as (_ & Hj).
        * rewrite L2, L1. apply repeat_length.
        * intros j Hj. apply in_seq in Hj. lia.
        * apply Hj. exact Hd.
      + subst B2. reflexivity. }
  split; [exact Main|].
  intros a b _ Ha Hb Ka Kb.
  destruct (Main a Ha Ka) as (Ea & _). destruct (Main b Hb Kb) as (Eb & _).
  split; [apply Ea | apply Eb].
Qed.

Lemma Dirichlet_rows_are_identity_rows_witness :
  exists A s1 B s2,
    _build_coefficient_matrix chain chain_flux = (inr A, s1) /\
    _build_RHS_matrix chain s1 = (inr B, s2) /\
    (forall c, entry A 0 c = if Nat.eqb 0 c then 1%Qc else 0%Qc) /\
    nth_error B 0 = Some (q 1 1).
Proof.
  evar (A0 : coo_matrix). evar (s10 : self_t).
  assert (HA : _build_coefficient_matrix chain chain_flux = (inr A0, s10))
    by (subst A0 s10; vm_compute; reflexivity).
  evar (B0 : list Qc). evar (s20 : self_t).
  assert (HB : _build_RHS_matrix chain s10 = (inr B0, s20))
    by (subst B0 s20 s10; vm_compute; reflexivity).
  destruct (Dirichlet_rows_are_identity_rows chain chain_flux s10 s20 A0 B0
              [1; 0; 0; 2] [q 1 1; q 0 1; q 0 1; q 1 2]
              eq_refl eq_refl HA HB) as [Main _].
  exists A0, s10, B0, s20. split; [exact HA|]. split; [exact HB|].
  destruct (Main 0) as (E & Hb & _); [simpl; lia|reflexivity|].
  split; [exact E|exact Hb].
Defined.




(* ================================================================== *)
(** * The diagonal closure in the arithmetic of the arrays *)
(* ================================================================== *)

Module ClosureFacts.
Import Numpy NumpyFacts LinearSolver MethodFacts MatrixFacts Numeric.

Lemma select_app {A} (a1 a2 : list A) (m1 m2 : list bool) :
  length a1 = length m1 ->
  select (a1 ++ a2) (m1 ++ m2) = select a1 m1 ++ select a2 m2.
Proof.
  revert m1. induction a1 as [|x a1 IH]; intros [|b m1] L;
    try discriminate L; [reflexivity|].
  simpl in L. injection L as L. simpl.
  rewrite (IH m1 L). destruct b; reflexivity.
Qed.

Lemma select_absent {A} (a : list A) (r : nat) (rows : list nat) :
  ~ In r rows -> select a (map (Nat.eqb r) rows) = [].
Proof.
  revert a. induction rows as [|r0 rows IH]; intros a H.
  - destruct a; reflexivity.
  - destruct a as [|x a]; [reflexivity|]. simpl.
    destruct (Nat.eqb_spec r r0) as [->|_].
    + exfalso. apply H. left. reflexivity.
    + apply IH. intros Hin. apply H. right. exact Hin.
Qed.

Lemma select_same_rows {A} (r : nat) (rows : list nat) :
  forall d1 d2 : list A,
  length d1 = length d2 ->
  (forall j, nth_error rows j = Some r -> nth_error d1 j = nth_error d2 j) ->
  select d1 (map (Nat.eqb r) rows) = select d2 (map (Nat.eqb r) rows).
Proof.
  induction rows as [|r0 rows IH]; intros d1 d2 L H.
  - destruct d1, d2; reflexivity.
  - destruct d1 as [|x d1]; destruct d2 as [|y d2]; try discriminate L;
      [reflexivity|].
    simpl in L. injection L as L. simpl.
    rewrite (IH d1 d2 L) by (intros j Hj; apply (H (S j)); exact Hj).
    destruct (Nat.eqb_spec r r0) as [->|_]; [|reflexivity].
    specialize (H 0 eq_refl). simpl in H. inversion H. reflexivity.
Qed.

Section InArithmetic.

Variable K : numbers.

(** Lines 203-204: every row ends with its start value minus, one after
    the other, the entries stored in the row. *)
Lemma accumulate_rows (rows : list nat) :
  forall (S_temp temp S' : list (carrier K)),
  accumulate K S_temp rows temp = inr S' ->
  length S' = length S_temp /\
  length rows <= length temp /\
  forall r x, nth_error S_temp r = Some x ->
    nth_error S' r
    = Some (fold_left (sub K) (stored_in_row K rows temp r) x).
Proof.
  unfold stored_in_row.
  induction rows as [|r0 rows IH]; intros S_temp temp S' H.
  - simpl in H. inversion H; subst.
    split; [reflexivity|]. split; [simpl; lia|].
    intros r x Hx. destruct temp; exact Hx.
  - destruct temp as [|d temp]; [discriminate H|]. simpl in H.
    destruct (item S_temp r0) as [e|old] eqn:Eo; [discriminate H|].
    destruct (set_item S_temp r0 (sub K old d)) as [e|S1] eqn:Es;
      [discriminate H|].
    apply item_inv in Eo.
    destruct (set_item_spec _ _ _ _ Es) as (_ & L1 & N1).
    destruct (IH _ _ _ H) as (L' & Lt & Hr).
    split; [congruence|]. split; [simpl; lia|].
    intros r x Hx. simpl.
    destruct (Nat.eqb_spec r r0) as [->|Hne].
    + rewrite Eo in Hx. inversion Hx; subst old.
      simpl. apply Hr. rewrite N1, Nat.eqb_refl. reflexivity.
    + apply Hr. rewrite N1.
      destruct (Nat.eqb_spec r r0) as [E|_]; [contradiction|exact Hx].
Qed.

Lemma matrix_new_ok (entries : list (carrier K)) (rows cols : list nat)
    (n : nat) (M_ : matrix K) :
  matrix_new K entries rows cols n = inr M_ ->
  length rows = length entries /\ length cols = length entries /\
  M_ = {| shape := n; row := rows; col := cols; data := entries |}.
Proof.
  unfold matrix_new. intros H.
  destruct (Nat.eqb (length rows) (length entries)) eqn:E1; [|discriminate H].
  destruct (Nat.eqb (length cols) (length entries)) eqn:E2; [|discriminate H].
  simpl in H.
  destruct (forallb (fun r => Nat.ltb r n) rows); [|discriminate H].
  destruct (forallb (fun c => Nat.ltb c n) cols); [|discriminate H].
  simpl in H. apply Nat.eqb_eq in E1. apply Nat.eqb_eq in E2.
  inversion H. auto.
Qed.

(** What lines 194-211 return, when they return. *)
Lemma close_diagonal_stores (types : list nat) (A_dim : nat)
    (rows cols : list nat) (entries : list (carrier K)) (M_ : matrix K) :
  forall dir non_Dir,
  dir = nonzero (is_kind 1 types) ->
  non_Dir = non_Dirichlet A_dim dir ->
  close_diagonal K types A_dim (rows, cols, entries) = inr M_ ->
  exists diag,
    length entries = length rows /\
    length cols = length rows /\
    length diag = length non_Dir /\
    M_ = {| shape := A_dim;
            row := (rows ++ dir) ++ non_Dir;
            col := (cols ++ dir) ++ non_Dir;
            data := (entries ++ map (fun _ => one K) dir) ++ diag |} /\
    forall k r, nth_error non_Dir k = Some r ->
      nth_error diag k
      = Some (fold_left (sub K) (stored_in_row K rows entries r) (zero K)).
Proof.
  unfold close_diagonal. intros dir non_Dir Edir Enon H.
  apply rbind_ok in H. destruct H as (dir' & Hd & H).
  destruct (mask_get_arange _ _ _ Hd) as [Ed Hdir]. rewrite <- Edir in Ed, Hdir.
  subst dir'.
  apply rbind_ok in H. destruct H as (temp & Hp & H).
  apply rbind_ok in H. destruct H as (S_temp & Ha & H).
  apply rbind_ok in H. destruct H as (nd & Hn & H).
  apply rbind_ok in H. destruct H as (diag & Hg & H).
  apply mask_get_select in Hn.
  assert (End : nd = non_Dir).
  { rewrite Hn, Enon. unfold non_Dirichlet, negate, in1d, arange.
    rewrite map_map, select_map. reflexivity. }
  clear Hn. subst nd.
  pose proof (take_length _ _ _ Hg) as Ldiag.
  destruct (matrix_new_ok _ _ _ _ _ H) as (L1 & L2 & EM).
  rewrite !length_app, !length_map in L1.
  assert (Lrows : length entries = length rows) by lia.
  assert (Lcols : length cols = length rows).
  { rewrite !length_app, !length_map in L2. lia. }
  exists diag. split; [exact Lrows|]. split; [exact Lcols|].
  split; [exact Ldiag|]. split; [exact EM|].
  intros k r Hk.
  destruct (take_nth _ _ _ _ _ Hg Hk) as [Hv Hb]. rewrite Hv.
  destruct (accumulate_rows _ _ _ _ Ha) as (LS & _ & Hrows).
  rewrite repeat_length in LS.
  assert (Hr : r < A_dim) by lia.
  assert (Hnot : ~ In r dir).
  { assert (Hin : In r non_Dir) by (eapply nth_error_In; exact Hk).
    rewrite Enon in Hin. unfold non_Dirichlet in Hin. apply filter_In in Hin.
    destruct Hin as [_ Hin]. apply negb_true_iff in Hin.
    intros Hd'. apply existsb_eqb_In in Hd'. congruence. }
  rewrite (Hrows r (zero K)) by (apply nth_error_repeat; exact Hr).
  f_equal. f_equal. unfold stored_in_row.
  destruct (put_spec _ _ _ _ Hp) as (_ & Lt & Nt).
  rewrite (select_same_rows r (rows ++ dir) temp
             (entries ++ map (fun _ => one K) dir)).
  - rewrite map_app, select_app by (rewrite length_map; exact Lrows).
    rewrite (select_absent _ r dir Hnot). apply app_nil_r.
  - exact Lt.
  - intros j Hj. rewrite Nt.
    destruct (existsb (Nat.eqb j) (nonzero (in1d (rows ++ dir) dir))) eqn:E;
      [|reflexivity].
    exfalso. apply existsb_eqb_In in E. apply In_nonzero in E.
    unfold in1d in E. rewrite nth_error_map, Hj in E. simpl in E.
    inversion E as [E']. apply existsb_eqb_In in E'. contradiction.
Qed.

(** The assembly ends with the closure. *)
Lemma build_closes (net : GenericNetwork.t) (cs : list (carrier K))
    (types : list nat) (values : list (carrier K)) (c : conductance K)
    (out : assembled K) :
  _build_coefficient_matrix K net cs types values c = inr out ->
  exists rcd,
    close_diagonal K (BCtypes out) (Coeff_dimension out) rcd = inr (A out).
Proof.
  unfold _build_coefficient_matrix. intros H.
  apply rbind_ok in H. destruct H as (t1 & _ & H).
  apply rbind_ok in H. destruct H as ([[[rows cols] entries] g] & _ & H).
  apply rbind_ok in H. destruct H as ([t3 v3] & _ & H).
  apply rbind_ok in H. destruct H as ([[dim rcd] ex] & _ & H).
  apply rbind_ok in H. destruct H as (M_ & Hc & H).
  inversion H; subst out. simpl. exists rcd. exact Hc.
Qed.

Lemma NoDup_non_Dirichlet (n : nat) (dir : list nat) :
  NoDup (non_Dirichlet n dir).
Proof. unfold non_Dirichlet. apply NoDup_filter, seq_NoDup. Qed.

Lemma In_non_Dirichlet (n : nat) (dir : list nat) (r : nat) :
  In r (non_Dirichlet n dir) <-> r < n /\ ~ In r dir.
Proof.
  unfold non_Dirichlet. rewrite filter_In, in_seq, negb_true_iff.
  rewrite <- existsb_eqb_In. destruct (existsb (Nat.eqb r) dir); split.
  - intros [_ F]. discriminate F.
  - intros [_ F]. exfalso. apply F. reflexivity.
  - intros [L _]. split; [lia|discriminate].
  - intros [L _]. split; [lia|reflexivity].
Qed.

Lemma not_In_firstn {A} (l : list A) (k : nat) (x : A) :
  NoDup l -> nth_error l k = Some x -> ~ In x (firstn k l).
Proof.
  intros ND Hk Hin. apply In_nth_error in Hin. destruct Hin as [j Hj].
  assert (Lj : j < length (firstn k l)) by (apply nth_error_Some; congruence).
  rewrite length_firstn in Lj.
  rewrite nth_error_firstn in Hj.
  destruct (Nat.ltb_spec j k) as [Ljk|Ljk]; [|lia].
  rewrite NoDup_nth_error in ND.
  assert (E : j = k) by (apply ND; [lia|congruence]). lia.
Qed.

End InArithmetic.

End ClosureFacts.

Import Numpy NumpyFacts LinearSolver MethodFacts MatrixFacts Numeric ClosureFacts.

(** C1.  In the assembled coefficient matrix, computed in any arithmetic
    and so in the doubles of the program, every row whose node is not
    Dirichlet (the rows of converted flux nodes and the superpore rows
    included) ends with its diagonal entry, and that entry is what lines
    203-204 leave in [S_temp]: zero minus the entries stored before it in
    the row, subtracted one after the other in storage order. *)
Theorem closing_entry_is_zero_minus_the_row
    (K : numbers) (net : GenericNetwork.t) (cross_section : list (carrier K))
    (types : list nat) (values : list (carrier K)) (c : conductance K)
    (out : assembled K) (r : nat) :
  Numeric._build_coefficient_matrix K net cross_section types values c
    = inr out ->
  r < shape (A out) ->
  nth_error (BCtypes out) r <> Some Dirichlet ->
  exists i,
    nth_error (row (A out)) i = Some r /\
    nth_error (col (A out)) i = Some r /\
    (forall j, i < j -> nth_error (row (A out)) j <> Some r) /\
    nth_error (data (A out)) i
    = Some (fold_left (sub K)
              (stored_in_row K (firstn i (row (A out)))
                 (firstn i (data (A out))) r)
              (zero K)).
Proof.
  intros H Hr Hk.
  destruct (build_closes K _ _ _ _ _ _ H) as ([[rows cols] entries] & Hc).
  destruct (close_diagonal_stores K _ _ _ _ _ _ _ _ eq_refl eq_refl Hc)
    as (diag & Lr & Lc & Ld & EM & Hdiag).
  remember (nonzero (is_kind 1 (BCtypes out))) as dir eqn:Edir.
  remember (non_Dirichlet (Coeff_dimension out) dir) as nonD eqn:Enon.
  rewrite EM in Hr |- *. cbn [shape row col data] in Hr |- *.
  assert (Hnot : ~ In r dir).
  { rewrite Edir, In_is_kind. exact Hk. }
  assert (Hin : In r nonD).
  { rewrite Enon. apply In_non_Dirichlet. split; assumption. }
  assert (ND : NoDup nonD) by (rewrite Enon; apply NoDup_non_Dirichlet).
  destruct (In_nth_error _ _ Hin) as [k Hnk].
  assert (Lk : k < length nonD) by (apply nth_error_Some; congruence).
  exists (length (rows ++ dir) + k).
  split.
  { rewrite nth_error_app2 by lia.
    replace (length (rows ++ dir) + k - length (rows ++ dir)) with k by lia.
    exact Hnk. }
  split.
  { rewrite nth_error_app2 by (rewrite !length_app; lia).
    replace (length (rows ++ dir) + k - length (cols ++ dir)) with k
      by (rewrite !length_app; lia).
    exact Hnk. }
  split.
  { intros j Hj. rewrite nth_error_app2 by lia. intros Hjr.
    rewrite NoDup_nth_error in ND.
    assert (E : k = j - length (rows ++ dir)) by (apply ND; [lia|congruence]).
    lia. }
  assert (Le : length (entries ++ map (fun _ => one K) dir)
               = length (rows ++ dir))
    by (rewrite !length_app, length_map; lia).
  rewrite nth_error_app2 by lia.
  replace (length (rows ++ dir) + k
           - length (entries ++ map (fun _ => one K) dir)) with k by lia.
  rewrite (Hdiag k r Hnk). f_equal. f_equal.
  rewrite firstn_app_2.
  rewrite <- Le. rewrite firstn_app_2.
  unfold stored_in_row.
  rewrite !map_app.
  rewrite select_app by (rewrite ?length_app, ?length_map; lia).
  rewrite select_app by (rewrite ?length_app, ?length_map; lia).
  rewrite (select_absent _ r dir Hnot).
  rewrite (select_absent _ r (firstn k nonD)) by (apply not_In_firstn; assumption).
  rewrite !app_nil_r. reflexivity.
Qed.

Lemma closing_entry_is_zero_minus_the_row_witness :
  exists out,
    Numeric._build_coefficient_matrix binary64 Examples.chain
      FloatExamples.chain_cross_section [2; 2; 1; 2]
      [Doubles.half; Doubles.quarter; PrimFloat.one; Doubles.half]
      (@Scalar binary64 Doubles.three) = inr out /\
    4 < shape (A out) /\
    nth_error (BCtypes out) 4 <> Some Dirichlet /\
    exists i,
      nth_error (row (A out)) i = Some 4 /\
      nth_error (col (A out)) i = Some 4 /\
      (forall j, i < j -> nth_error (row (A out)) j <> Some 4) /\
      nth_error (data (A out)) i
      = Some (fold_left (sub binary64)
                (stored_in_row binary64 (firstn i (row (A out)))
                   (firstn i (data (A out))) 4)
                (zero binary64)).
Proof.
  evar (o : assembled binary64).
  assert (H : Numeric._build_coefficient_matrix binary64 Examples.chain
                FloatExamples.chain_cross_section [2; 2; 1; 2]
                [Doubles.half; Doubles.quarter; PrimFloat.one; Doubles.half]
                (@Scalar binary64 Doubles.three) = inr o)
    by (subst o; vm_compute; reflexivity).
  assert (Hr : 4 < shape (A o)) by (subst o; cbn; lia).
  assert (Hk : nth_error (BCtypes o) 4 <> Some Dirichlet)
    by (subst o; cbn; discriminate).
  exists o. split; [exact H|]. split; [exact Hr|]. split; [exact Hk|].
  exact (closing_entry_is_zero_minus_the_row binary64 _ _ _ _ _ o 4 H Hr Hk).
Defined.

(** C1 as stated fails in the doubles of the program.  On three pores in a
    row with conductances 0.1 and 0.2 and the two end pores Dirichlet, the
    interior row 1 stores 0.2, 0.1 and the closing entry
    -0.30000000000000004: the three values do not add up to zero, the
    closing entry is not minus the sum of 0.2 and 0.1, and added by column
    in doubles the row gives -2.7755575615628914e-17. *)
Lemma rounded_closure_leaves_a_residue :
  exists out d,
    Numeric._build_coefficient_matrix binary64 FloatExamples.three_chain []
      [1; 0; 1] [PrimFloat.one; PrimFloat.zero; PrimFloat.zero]
      (@Array binary64 [Doubles.tenth; Doubles.fifth]) = inr out /\
    nth_error (BCtypes out) 1 = Some 0 /\
    select (col (A out)) (map (Nat.eqb 1) (row (A out))) = [2; 0; 1] /\
    stored_in_row binary64 (row (A out)) (data (A out)) 1
    = [Doubles.fifth; Doubles.tenth; d] /\
    (exists off dq total,
       exact_sum [Doubles.fifth; Doubles.tenth] = Some off /\
       exact_value d = Some dq /\
       exact_sum [Doubles.fifth; Doubles.tenth; d] = Some total /\
       ~ (dq == - off)%Q /\ ~ (total == 0)%Q) /\
    PrimFloat.eqb (sum binary64 [Doubles.tenth; d; Doubles.fifth])
      PrimFloat.zero = false.
Proof.
  do 2 eexists. split; [vm_compute; reflexivity|].
  split; [reflexivity|]. split; [reflexivity|]. split; [reflexivity|].
  split.
  - do 3 eexists. split; [vm_compute; reflexivity|].
    split; [vm_compute; reflexivity|]. split; [vm_compute; reflexivity|].
    split; intros E; vm_compute in E; discriminate E.
  - vm_compute. reflexivity.
Qed.

(* ================================================================== *)
(** * Conversion of flux conditions into rate conditions *)
(* ================================================================== *)

Module FluxFacts.
Import Numpy NumpyFacts LinearSolver MethodFacts MatrixFacts AssemblyFacts
  SystemFacts.

Lemma combine_repeat_mul (x : Qc) (cs : list Qc) :
  map (fun p => (fst p * snd p)%Qc) (combine (repeat x (length cs)) cs)
  = map (fun c => (x * c)%Qc) cs.
Proof.
  induction cs as [|c cs IH]; simpl; auto. rewrite IH. reflexivity.
Qed.

Lemma multiply_repeat (x : Qc) (n : nat) (cs prod : list Qc) :
  multiply (repeat x n) cs = inr prod ->
  length cs = n \/ n = 1 ->
  prod = map (fun c => (x * c)%Qc) cs.
Proof.
  unfold multiply. rewrite repeat_length. intros H Hn.
  destruct (Nat.eqb_spec n (length cs)) as [->|Hne].
  - inversion H. apply combine_repeat_mul.
  - destruct Hn as [Hn | ->]; [congruence|]. simpl in H. inversion H. reflexivity.
Qed.

Lemma has_value_mem (x : Qc) (w : list Qc) (p : nat) :
  existsb (Nat.eqb p) (nonzero (has_value x w)) = true <-> nth_error w p = Some x.
Proof.
  rewrite existsb_eqb_In, In_nonzero. unfold has_value. rewrite nth_error_map.
  destruct (nth_error w p) as [y|]; simpl.
  - split; intros H.
    + inversion H as [E]. apply Qc_eqb_eq in E. subst. reflexivity.
    + inversion H; subst. rewrite Qc_eqb_refl. reflexivity.
  - split; discriminate.
Qed.

Lemma flux_group_filter (F : list nat) (w : list Qc) (x : Qc) :
  flux_group F w x
  = filter (fun p => existsb (Nat.eqb p) (nonzero (has_value x w))) F.
Proof. unfold flux_group. apply select_in1d. Qed.

(** The loop of lines 164-170, one flux value after the other. *)
Lemma convert_flux_loop (net : GenericNetwork.t) (F : list nat) (v : list Qc)
    (vals_all : list Qc) :
  (forall p, In p F -> p < length v) ->
  (forall x, In x vals_all ->
     let f := flux_group F v x in
     length (flux_throats net f) = length f \/ length f = 1) ->
  (forall x y, In x vals_all -> In y vals_all -> x <> y ->
     flux_rate net F v x <> y) ->
  forall (todo done : list Qc) (s s' : self_t) (u : unit)
         (tc : list nat) (vc : list Qc),
  for_each todo (convert_flux_group net F) s = (inr u, s') ->
  NoDup (done ++ todo) ->
  (forall x, In x (done ++ todo) -> In x vals_all) ->
  _BCtypes s = Some tc -> _BCvalues s = Some vc ->
  converted_so_far net F v done tc vc ->
  exists t' v',
    _BCtypes s' = Some t' /\ _BCvalues s' = Some v' /\
    converted_so_far net F v (done ++ todo) t' v'.
Proof.
  intros HFv Hshape Hnc.
  induction todo as [|x todo IH]; intros done s s' u tc vc H ND Hall Ht Hv Inv.
  - simpl in H. method_inv H. rewrite app_nil_r. eauto.
  - simpl in H. method_inv H.
    match goal with
    | Hg : convert_flux_group _ _ _ _ = _ |- _ =>
        destruct (convert_flux_group_ok _ _ _ _ _ _ Hg)
          as (t0 & v0 & cs & prod & t1 & v1 & Ht0 & Hv0 & Hp & Hvf & Hcs & Hm & Hq & ->)
    end.
    rewrite Ht in Ht0. rewrite Hv in Hv0. inversion Ht0; inversion Hv0; subst t0 v0.
    clear Ht0 Hv0.
    destruct Inv as [Lvc Inv].
    assert (Hx : In x vals_all) by (apply Hall, in_or_app; right; left; auto).
    assert (Hxd : ~ In x done).
    { intros Hin. apply NoDup_remove_2 in ND. apply ND, in_or_app. auto. }
    (* the group is the group of the original flux value *)
    assert (Ef : flux_group F vc x = flux_group F v x).
    { rewrite !flux_group_filter. apply filter_ext_in. intros p Hp'.
      apply eq_iff_eq_true. rewrite !has_value_mem.
      destruct (nth_error v p) as [y|] eqn:Ey;
        [|apply nth_error_None in Ey; specialize (HFv p Hp'); lia].
      destruct (Inv p y Hp' Ey) as [Hd Hnd].
      destruct (in_dec Qc_eq_dec y done) as [Hin|Hnin].
      - destruct (Hd Hin) as [_ Hr]. rewrite Hr.
        assert (Hyx : y <> x) by (intros ->; contradiction).
        assert (Hy : In y vals_all) by (apply Hall, in_or_app; auto).
        specialize (Hnc y x Hy Hx Hyx).
        split; intros E; inversion E; congruence.
      - rewrite (Hnd Hnin). reflexivity. }
    rewrite Ef in *.
    set (f := flux_group F v x) in *.
    assert (Hfx : forall p, In p f -> nth_error vc p = Some x).
    { intros p Hp'. apply In_flux_group in Hp'. destruct Hp' as [HpF Hpx].
      destruct (Inv p x HpF Hpx) as [_ Hnd]. apply Hnd. exact Hxd. }
    assert (Evf : map (fun p => nth p vc 0%Qc) f = repeat x (length f)).
    { rewrite <- map_const. apply map_ext_in. intros p Hp'.
      apply nth_error_nth. apply Hfx. exact Hp'. }
    rewrite Evf in Hm.
    pose proof (take_length _ _ _ Hcs) as Lcs.
    apply (take_map_nth 0%Qc) in Hcs.
    assert (Eprod : sum prod = flux_rate net F v x).
    { rewrite (multiply_repeat x (length f) cs prod Hm).
      - unfold flux_rate. fold f. rewrite Hcs, map_map. reflexivity.
      - destruct (Hshape x Hx) as [E|E]; fold f in E; [left; lia|right; exact E]. }
    rewrite Eprod in Hq.
    destruct (put_spec _ _ _ _ Hp) as (Bt & Lt1 & Nt1).
    destruct (put_spec _ _ _ _ Hq) as (Bv & Lv1 & Nv1).
    match goal with
    | Hl : for_each todo _ _ = _ |- _ =>
        destruct (IH (done ++ [x]) _ _ _ t1 v1 Hl) as (t' & v' & Ht' & Hv' & Inv')
    end.
    + rewrite <- app_assoc. exact ND.
    + intros y Hy. apply Hall. rewrite <- app_assoc in Hy. exact Hy.
    + reflexivity.
    + reflexivity.
    + split; [congruence|].
      intros p y HpF Hpy.
      destruct (Inv p y HpF Hpy) as [Hd Hnd].
      assert (Hmem : existsb (Nat.eqb p) f = true <-> y = x).
      { rewrite existsb_eqb_In. unfold f. rewrite In_flux_group.
        split; [intros [_ E]; congruence|intros ->; auto]. }
      rewrite Nt1, Nv1.
      destruct (existsb (Nat.eqb p) f) eqn:Em.
      * assert (y = x) by (apply Hmem; reflexivity). subst y.
        assert (Hpf : In p f) by (apply existsb_eqb_In; exact Em).
        rewrite Forall_forall in Bt, Bv.
        pose proof (Bt p Hpf) as B1. pose proof (Bv p Hpf) as B2.
        apply Nat.ltb_lt in B1. apply Nat.ltb_lt in B2. rewrite B1, B2.
        split; [auto|]. intros Hn. exfalso. apply Hn, in_or_app.
        right. left. reflexivity.
      * assert (Hyx : y <> x) by (intros E; apply Hmem in E; discriminate).
        split.
        -- intros Hin. apply in_app_or in Hin. destruct Hin as [Hin|[E|[]]];
             [apply Hd; exact Hin|congruence].
        -- intros Hn. apply Hnd. intros Hin. apply Hn, in_or_app. auto.
    + exists t', v'. rewrite <- app_assoc in Inv'. auto.
Qed.

Lemma is_kind_ext (k : nat) (t t1 : list nat) :
  length t1 = length t ->
  (forall i, nth_error t1 i = Some k <-> nth_error t i = Some k) ->
  is_kind k t1 = is_kind k t.
Proof.
  intros L H. apply nth_error_ext. intros i. unfold is_kind.
  rewrite !nth_error_map.
  destruct (nth_error t1 i) as [x|] eqn:E1; destruct (nth_error t i) as [y|] eqn:E2;
    simpl; auto.
  - f_equal. apply eq_iff_eq_true. rewrite !Nat.eqb_eq.
    specialize (H i). rewrite E1, E2 in H.
    split; intros E; subst k.
    + destruct H as [H _]. specialize (H eq_refl). congruence.
    + destruct H as [_ H]. specialize (H eq_refl). congruence.
  - apply nth_error_None in E2.
    assert (i < length t1) by (apply nth_error_Some; congruence). lia.
  - apply nth_error_None in E1.
    assert (i < length t) by (apply nth_error_Some; congruence). lia.
Qed.

(** Lines 161-170 as a whole. *)
Lemma convert_flux_values (net : GenericNetwork.t) (s s3 : self_t) (u : unit)
    (t : list nat) (v : list Qc) :
  convert_flux net s = (inr u, s3) ->
  _BCtypes s = Some t -> _BCvalues s = Some v ->
  let F := nonzero (is_kind 2 t) in
  (forall p x, nth_error t p = Some 2 -> nth_error v p = Some x ->
     let f := flux_group F v x in
     length (flux_throats net f) = length f \/ length f = 1) ->
  (forall p x q y, nth_error t p = Some 2 -> nth_error v p = Some x ->
     nth_error t q = Some 2 -> nth_error v q = Some y ->
     x <> y -> flux_rate net F v x <> y) ->
  exists t3 v3,
    _BCtypes s3 = Some t3 /\ _BCvalues s3 = Some v3 /\
    forall p x, nth_error t p = Some 2 -> nth_error v p = Some x ->
      nth_error t3 p = Some 4 /\ nth_error v3 p = Some (flux_rate net F v x).
Proof.
  intros H Ht Hv F Hshape Hnc. unfold convert_flux in H. method_inv H.
  match goal with
  | Ha : _BCtypes s = Some ?x |- _ =>
      rewrite Ht in Ha; inversion Ha; subst x; clear Ha
  end.
  match goal with
  | Hif : (if any (is_kind 2 t) then _ else _) _ = _ |- _ =>
      destruct (any (is_kind 2 t)) eqn:Eany; method_inv Hif
  end.
  - match goal with
    | Hm : mask_get (GenericNetwork.get_pore_indices net) _ = inr ?F0 |- _ =>
        apply mask_get_arange in Hm; destruct Hm as [? _]; subst F0
    end.
    match goal with
    | Ha : _BCvalues s = Some ?x |- _ =>
        rewrite Hv in Ha; inversion Ha; subst x; clear Ha
    end.
    match goal with
    | Hm : mask_get v (is_kind 2 t) = inr ?fv |- _ =>
        rename fv into fv0; rename Hm into Hfv
    end.
    assert (HFv : forall p, In p F -> p < length v)
      by (intros p Hp; apply (take_bound _ _ _ p Hfv Hp)).
    pose proof (take_map_nth 0%Qc _ _ _ Hfv) as Efv. fold F in Efv.
    assert (Hval : forall x, In x (unique fv0) ->
              exists p, nth_error t p = Some 2 /\ nth_error v p = Some x).
    { intros x Hx. apply (proj1 (In_unique _ _)) in Hx. rewrite Efv in Hx.
      apply in_map_iff in Hx. destruct Hx as (p & Hp & HpF).
      exists p. split; [apply In_is_kind; exact HpF|].
      specialize (HFv p HpF).
      destruct (nth_error v p) as [y|] eqn:Ey; [|apply nth_error_None in Ey; lia].
      rewrite (nth_error_nth _ _ _ Ey) in Hp. congruence. }
    assert (HshapeU : forall x, In x (unique fv0) ->
              let f := flux_group F v x in
              length (flux_throats net f) = length f \/ length f = 1).
    { intros x Hx. destruct (Hval x Hx) as (p & Hp & Hpx).
      apply (Hshape p x Hp Hpx). }
    assert (HncU : forall x y, In x (unique fv0) -> In y (unique fv0) -> x <> y ->
              flux_rate net F v x <> y).
    { intros x y Hx Hy Hne. destruct (Hval x Hx) as (p & Hp & Hpx).
      destruct (Hval y Hy) as (q & Hq & Hqy).
      apply (Hnc p x q y); auto. }
    assert (InvU : converted_so_far net F v [] t v).
    { split; [reflexivity|]. intros p y _ Hy. split; [intros []|auto]. }
    match goal with
    | Hl : for_each _ _ _ = (inr ?u0, s3) |- _ =>
        destruct (convert_flux_loop net F v (unique fv0) HFv HshapeU HncU
                    (unique fv0) [] s s3 u0 t v Hl (NoDup_unique fv0)
                    (fun x Hx => Hx) Ht Hv InvU)
          as (t3 & v3 & Ht3 & Hv3 & _ & Inv)
    end.
    exists t3, v3. split; [exact Ht3|]. split; [exact Hv3|].
    intros p x Hp Hx.
    assert (HpF : In p F) by (apply In_is_kind; exact Hp).
    destruct (Inv p x HpF Hx) as [Hd _]. apply Hd.
    simpl. apply In_unique. rewrite Efv. apply in_map_iff.
    exists p. split; auto. apply (nth_error_nth _ _ _ Hx).
  - exists t, v. split; [exact Ht|]. split; [exact Hv|].
    intros p x Hp _. apply In_is_kind in Hp.
    rewrite any_false_nonzero in Hp by exact Eany. destruct Hp.
Qed.

End FluxFacts.

Import Numpy NumpyFacts LinearSolver MethodFacts MatrixFacts AssemblyFacts
  SystemFacts FluxFacts Examples.

(** The conversion in exact rationals, where the products and the sum are
    not rounded and [==] is equality.  The Neumann-flux nodes are grouped
    by identical flux value; for each group the neighbours that carry the
    label 'internal' (Dirichlet ones included) and the throats joining the
    group to them are found.  When every group has as many nodes as such
    throats, or a single node, and no group's rate equals the flux value of
    another group, every node of the group is reclassified as grouped-rate
    (kind 4) with value the sum of flux times cross-section over those
    throats.  The statement in the doubles of the program is in
    [FluxGroupFacts] below. *)
Theorem exact_flux_groups_become_rate_groups
    (net : GenericNetwork.t) (s s' : self_t) (A : coo_matrix)
    (t : list nat) (v : list Qc) :
  _BCtypes s = Some t -> _BCvalues s = Some v ->
  _build_coefficient_matrix net s = (inr A, s') ->
  let F := nonzero (is_kind Neumann_flux t) in
  (forall p x, nth_error t p = Some Neumann_flux -> nth_error v p = Some x ->
     let f := flux_group F v x in
     length (flux_throats net f) = length f \/ length f = 1) ->
  (forall p x q y,
     nth_error t p = Some Neumann_flux -> nth_error v p = Some x ->
     nth_error t q = Some Neumann_flux -> nth_error v q = Some y ->
     x <> y -> flux_rate net F v x <> y) ->
  exists t' v',
    _BCtypes s' = Some t' /\ _BCvalues s' = Some v' /\
    forall p x,
      nth_error t p = Some Neumann_flux -> nth_error v p = Some x ->
      (forall q, In q (flux_group F v x) <->
                 nth_error t q = Some Neumann_flux /\ nth_error v q = Some x) /\
      nth_error t' p = Some Neumann_rate_union /\
      nth_error v' p = Some (flux_rate net F v x).
Proof.
  intros Ht Hv HA F Hshape Hnc.
  unfold Neumann_flux, Neumann_rate_union in *.
  destruct (build_inv _ _ _ _ HA)
    as (s1 & s2 & s3 & s4 & u1 & u3 & [[row0 col0] data0] & r
        & H1 & H2 & H3 & H4 & H5).
  destruct (insulate_boundaries_ok _ _ _ _ H1)
    as (t0 & t1 & Ht0 & Ht1 & L1 & K1 & V1 & C1).
  rewrite Ht in Ht0. inversion Ht0; subst t0. clear Ht0.
  destruct (conductance_entries_ok _ _ _ _ _ _ H2)
    as (t1' & c & d1 & d2 & Ht1' & Hc & Ht2 & V2 & _).
  rewrite Ht1 in Ht1'. inversion Ht1'; subst t1'. clear Ht1'.
  assert (K2 : forall i, nth_error t1 i = Some 2 <-> nth_error t i = Some 2).
  { intros i. destruct (K1 i) as [->|[E0 E3]]; [reflexivity|].
    rewrite E0, E3. split; discriminate. }
  assert (EF : is_kind 2 t1 = is_kind 2 t) by (apply is_kind_ext; auto).
  assert (Hv2 : _BCvalues s2 = Some v) by congruence.
  destruct (convert_flux_values net s2 s3 u3 t1 v H3 Ht2 Hv2)
    as (t3 & v3 & Ht3 & Hv3 & Hconv).
  { rewrite EF. fold F. intros p x Hp Hx. apply (Hshape p x); auto.
    apply K2. exact Hp. }
  { rewrite EF. fold F. intros p x q y Hp Hx Hq Hy. apply (Hnc p x q y); auto;
      apply K2; assumption. }
  rewrite EF in Hconv. fold F in Hconv.
  destruct (superpore_entries_ok _ _ _ _ _ H4)
    as (t3' & Ht3' & Ht4 & V4 & _).
  destruct r as [dim rcd]. cbn [fst snd] in H5.
  destruct (close_diagonal_shape _ _ _ _ _ H5) as [_ Es]. subst s4.
  exists t3, v3. split; [congruence|]. split; [congruence|].
  intros p x Hp Hx. split.
  - intros q. unfold F. rewrite In_flux_group, In_is_kind. reflexivity.
  - apply Hconv; auto. apply K2. exact Hp.
Qed.

Lemma chain_flux_only_at_3 (p : nat) :
  nth_error [1; 0; 0; 2]%list p = Some Neumann_flux -> p = 3.
Proof.
  destruct p as [|[|[|[|p]]]]; simpl; intros H; try discriminate H; auto.
  destruct p; discriminate H.
Qed.

Lemma exact_flux_groups_become_rate_groups_witness :
  exists A s' t' v',
    _build_coefficient_matrix chain chain_flux = (inr A, s') /\
    _BCtypes s' = Some t' /\ _BCvalues s' = Some v' /\
    nth_error t' 3 = Some 4 /\
    nth_error v' 3 = Some (flux_rate chain [3]%list
                             [q 1 1; q 0 1; q 0 1; q 1 2]%list (q 1 2)).
Proof.
  evar (A0 : coo_matrix). evar (s0 : self_t).
  assert (HA : _build_coefficient_matrix chain chain_flux = (inr A0, s0))
    by (subst A0 s0; vm_compute; reflexivity).
  destruct (exact_flux_groups_become_rate_groups chain chain_flux s0 A0
              [1; 0; 0; 2]%list [q 1 1; q 0 1; q 0 1; q 1 2]%list
              eq_refl eq_refl HA) as (t' & v' & Ht' & Hv' & Hconv).
  - intros p x Hp Hx.
    pose proof (chain_flux_only_at_3 p Hp). subst p.
    simpl in Hx. inversion Hx; subst x. right. vm_compute. reflexivity.
  - intros p x p' y Hp Hx Hq Hy Hne.
    pose proof (chain_flux_only_at_3 p Hp). pose proof (chain_flux_only_at_3 p' Hq).
    subst p p'. simpl in Hx, Hy. rewrite Hx in Hy. inversion Hy. contradiction.
  - exists A0, s0, t', v'. split; [exact HA|]. split; [exact Ht'|].
    split; [exact Hv'|].
    destruct (Hconv 3 (q 1 2) eq_refl eq_refl) as (_ & E1 & E2).
    split; [exact E1|exact E2].
Defined.

(** C3 as stated fails: pore 3 carries the flux 1/2 and its only neighbour,
    the internal pore 2, is a Dirichlet pore.  The assembly gives pore 3 the
    rate 1/2 * 2 = 1 over the throat to pore 2, whereas the sum taken over
    the throats to neighbours that are internal and not Dirichlet is 0. *)
Lemma flux_rate_counts_Dirichlet_neighbours :
  exists A s' t' v',
    _build_coefficient_matrix chain chain_flux_beside_Dirichlet = (inr A, s') /\
    _BCtypes s' = Some t' /\ _BCvalues s' = Some v' /\
    nth_error t' 3 = Some Neumann_rate_union /\
    nth_error v' 3 = Some (q 1 1) /\
    spec_flux_rate chain [0; 0; 1; 2]%list [3]%list
      [q 0 1; q 0 1; q 1 1; q 1 2]%list (q 1 2) = q 0 1 /\
    nth_error v' 3 <>
      Some (spec_flux_rate chain [0; 0; 1; 2]%list [3]%list
              [q 0 1; q 0 1; q 1 1; q 1 2]%list (q 1 2)).
Proof.
  assert (Hspec : spec_flux_rate chain [0; 0; 1; 2]%list [3]%list
                    [q 0 1; q 0 1; q 1 1; q 1 2]%list (q 1 2) = q 0 1)
    by (apply Qc_is_canon; vm_compute; reflexivity).
  do 4 eexists. split; [vm_compute; reflexivity|].
  split; [reflexivity|]. split; [reflexivity|]. split; [reflexivity|].
  assert (Hval : forall a b : Qc, this a = this b -> Some a = Some b)
    by (intros a b E; f_equal; apply Qc_is_canon; rewrite E; reflexivity).
  split; [apply Hval; vm_compute; reflexivity|].
  split; [exact Hspec|].
  rewrite Hspec. intros E. inversion E.
Qed.

(* ================================================================== *)
(** * The flux conversion in the arithmetic of the arrays *)
(* ================================================================== *)

Module FluxGroupFacts.
Import Numpy NumpyFacts LinearSolver MethodFacts MatrixFacts AssemblyFacts
  SystemFacts Numeric.

Section InArithmetic.

Variable K : numbers.

(** ** The comparisons *)

Lemma ordered_at (l : list (carrier K)) (x y z : carrier K) :
  ordered_numbers K l = true -> In x l -> In y l -> In z l ->
  eqb K x x = true /\
  implb (eqb K x y) (eqb K y x) = true /\
  implb (ltb K x y) (negb (eqb K x y)) = true /\
  (eqb K x y || ltb K x y || ltb K y x) = true /\
  implb (eqb K x y && eqb K y z) (eqb K x z) = true /\
  implb (ltb K x y && ltb K y z) (ltb K x z) = true.
Proof.
  unfold ordered_numbers. intros H Hx Hy Hz.
  rewrite forallb_forall in H. specialize (H x Hx).
  apply andb_prop in H. destruct H as [Hxx H].
  rewrite forallb_forall in H. specialize (H y Hy).
  apply andb_prop in H. destruct H as [H Hzs].
  apply andb_prop in H. destruct H as [H Htot].
  apply andb_prop in H. destruct H as [Hsym Hlt].
  rewrite forallb_forall in Hzs. specialize (Hzs z Hz).
  apply andb_prop in Hzs. destruct Hzs as [Htr Hltr].
  repeat split; assumption.
Qed.

Lemma eqb_refl_on l x : ordered_numbers K l = true -> In x l -> eqb K x x = true.
Proof. intros H Hx. apply (ordered_at l x x x H Hx Hx Hx). Qed.

Lemma eqb_sym_on l x y :
  ordered_numbers K l = true -> In x l -> In y l ->
  eqb K x y = true -> eqb K y x = true.
Proof.
  intros H Hx Hy E.
  destruct (ordered_at l x y y H Hx Hy Hy) as (_ & S & _).
  rewrite E in S. exact S.
Qed.

Lemma eqb_trans_on l x y z :
  ordered_numbers K l = true -> In x l -> In y l -> In z l ->
  eqb K x y = true -> eqb K y z = true -> eqb K x z = true.
Proof.
  intros H Hx Hy Hz E1 E2.
  destruct (ordered_at l x y z H Hx Hy Hz) as (_ & _ & _ & _ & T & _).
  rewrite E1, E2 in T. exact T.
Qed.

Lemma ltb_neq_on l x y :
  ordered_numbers K l = true -> In x l -> In y l ->
  ltb K x y = true -> eqb K x y = false.
Proof.
  intros H Hx Hy E.
  destruct (ordered_at l x y y H Hx Hy Hy) as (_ & _ & N & _).
  rewrite E in N. simpl in N. apply negb_true_iff. exact N.
Qed.

Lemma ltb_total_on l x y :
  ordered_numbers K l = true -> In x l -> In y l ->
  eqb K x y = false -> ltb K x y = false -> ltb K y x = true.
Proof.
  intros H Hx Hy E1 E2.
  destruct (ordered_at l x y y H Hx Hy Hy) as (_ & _ & _ & T & _).
  rewrite E1, E2 in T. exact T.
Qed.

Lemma ltb_trans_on l x y z :
  ordered_numbers K l = true -> In x l -> In y l -> In z l ->
  ltb K x y = true -> ltb K y z = true -> ltb K x z = true.
Proof.
  intros H Hx Hy Hz E1 E2.
  destruct (ordered_at l x y z H Hx Hy Hz) as (_ & _ & _ & _ & _ & T).
  rewrite E1, E2 in T. exact T.
Qed.

(** ** [sp.unique] *)

Lemma In_insert_sorted_inv (x : carrier K) (m : list (carrier K)) (w : carrier K) :
  In w (insert_sorted K x m) -> w = x \/ In w m.
Proof.
  induction m as [|y m IH]; simpl.
  - intros [E|[]]. left. symmetry. exact E.
  - destruct (eqb K x y); [intros H; right; exact H|].
    destruct (ltb K x y).
    + intros [E|H]; [left; symmetry; exact E|right; exact H].
    + intros [E|H]; [right; left; exact E|].
      destruct (IH H) as [E|Hin]; [left; exact E|right; right; exact Hin].
Qed.

Lemma insert_sorted_keeps (x : carrier K) (m : list (carrier K)) (w : carrier K) :
  In w m -> In w (insert_sorted K x m).
Proof.
  induction m as [|y m IH]; simpl; [intros []|].
  intros H. destruct (eqb K x y); [exact H|].
  destruct (ltb K x y); [right; exact H|].
  destruct H as [E|H]; [left; exact E|right; apply IH; exact H].
Qed.

Lemma insert_sorted_represents (x : carrier K) (m : list (carrier K)) :
  eqb K x x = true ->
  exists y, In y (insert_sorted K x m) /\ eqb K x y = true.
Proof.
  intros R. induction m as [|y m IH]; simpl.
  - exists x. split; [left; reflexivity|exact R].
  - destruct (eqb K x y) eqn:E.
    + exists y. split; [left; reflexivity|exact E].
    + destruct (ltb K x y).
      * exists x. split; [left; reflexivity|exact R].
      * destruct IH as (z & Hz & Ez). exists z. split; [right; exact Hz|exact Ez].
Qed.

Lemma unique_incl (l : list (carrier K)) (w : carrier K) :
  In w (unique K l) -> In w l.
Proof.
  unfold unique. induction l as [|x l IH]; simpl; [intros []|].
  intros H. apply In_insert_sorted_inv in H.
  destruct H as [E|H]; [left; symmetry; exact E|right; apply IH; exact H].
Qed.

Lemma unique_represents (l : list (carrier K)) :
  (forall x, In x l -> eqb K x x = true) ->
  forall x, In x l -> exists y, In y (unique K l) /\ eqb K x y = true.
Proof.
  unfold unique. induction l as [|a l IH]; intros R x Hx; [destruct Hx|].
  simpl. destruct Hx as [->|Hx].
  - apply insert_sorted_represents. apply R. left. reflexivity.
  - destruct (IH (fun z Hz => R z (or_intror Hz)) x Hx) as (y & Hy & Ey).
    exists y. split; [apply insert_sorted_keeps; exact Hy|exact Ey].
Qed.

Lemma insert_sorted_increasing (l : list (carrier K)) (x : carrier K)
    (m : list (carrier K)) :
  ordered_numbers K l = true -> In x l -> (forall w, In w m -> In w l) ->
  ForallOrdPairs (fun a b => ltb K a b = true) m ->
  ForallOrdPairs (fun a b => ltb K a b = true) (insert_sorted K x m).
Proof.
  intros O Hx. induction m as [|y m IH]; intros Hm S; simpl.
  - constructor; constructor.
  - inversion S as [|y' m' Hy Sm]; subst.
    assert (Hyl : In y l) by (apply Hm; left; reflexivity).
    destruct (eqb K x y) eqn:E; [exact S|].
    destruct (ltb K x y) eqn:L.
    + constructor; [|exact S]. constructor; [exact L|].
      rewrite Forall_forall in Hy |- *. intros z Hz.
      apply (ltb_trans_on l x y z O Hx Hyl); auto.
      apply Hm. right. exact Hz.
    + constructor.
      * rewrite Forall_forall in Hy |- *. intros w Hw.
        apply In_insert_sorted_inv in Hw. destruct Hw as [->|Hw].
        -- apply (ltb_total_on l x y O Hx Hyl E L).
        -- apply Hy. exact Hw.
      * apply IH; [|exact Sm]. intros w Hw. apply Hm. right. exact Hw.
Qed.

Lemma unique_distinct (l : list (carrier K)) :
  ordered_numbers K l = true ->
  ForallOrdPairs (fun a b => eqb K a b = false) (unique K l).
Proof.
  intros O.
  assert (S : forall l', (forall w, In w l' -> In w l) ->
            ForallOrdPairs (fun a b => ltb K a b = true) (unique K l')).
  { induction l' as [|x l' IH]; intros Hl'; [constructor|].
    unfold unique. simpl. apply (insert_sorted_increasing l).
    - exact O.
    - apply Hl'. left. reflexivity.
    - intros w Hw. apply Hl'. right. apply unique_incl. exact Hw.
    - apply IH. intros w Hw. apply Hl'. right. exact Hw. }
  specialize (S l (fun w Hw => Hw)).
  assert (Hin : forall w, In w (unique K l) -> In w l) by apply unique_incl.
  revert S Hin. generalize (unique K l). intros m.
  induction m as [|a m IH]; intros S Hin; [constructor|].
  inversion S as [|a' m' Ha Sm]; subst. constructor.
  - rewrite Forall_forall in Ha |- *. intros b Hb.
    apply (ltb_neq_on l a b O).
    + apply Hin. left. reflexivity.
    + apply Hin. right. exact Hb.
    + apply Ha. exact Hb.
  - apply IH; [exact Sm|]. intros w Hw. apply Hin. right. exact Hw.
Qed.

(** ** The groups *)

Lemma has_value_compares (x : carrier K) (w : list (carrier K)) (p : nat) :
  existsb (Nat.eqb p) (nonzero (has_value K x w)) = true
  <-> exists y, nth_error w p = Some y /\ eqb K y x = true.
Proof.
  rewrite existsb_eqb_In, In_nonzero. unfold has_value. rewrite nth_error_map.
  destruct (nth_error w p) as [y|]; simpl.
  - split.
    + intros H. inversion H as [E]. exists y. rewrite E. auto.
    + intros (y' & E1 & E2). inversion E1; subst. rewrite E2. reflexivity.
  - split; [discriminate|]. intros (y' & E1 & _). discriminate E1.
Qed.

Lemma flux_group_as_filter (F : list nat) (w : list (carrier K)) (x : carrier K) :
  flux_group K F w x
  = filter (fun p => existsb (Nat.eqb p) (nonzero (has_value K x w))) F.
Proof. unfold flux_group. apply select_in1d. Qed.

Lemma In_flux_group_compares (F : list nat) (w : list (carrier K)) (x : carrier K)
    (p : nat) :
  In p (flux_group K F w x)
  <-> In p F /\ exists y, nth_error w p = Some y /\ eqb K y x = true.
Proof.
  rewrite flux_group_as_filter, filter_In, has_value_compares. reflexivity.
Qed.

(** Two values that compare equal have the same group. *)
Lemma flux_group_of_equal (F : list nat) (v fv : list (carrier K))
    (x u : carrier K) :
  ordered_numbers K fv = true ->
  (forall p, In p F -> exists y, nth_error v p = Some y /\ In y fv) ->
  In x fv -> In u fv -> eqb K x u = true ->
  flux_group K F v u = flux_group K F v x.
Proof.
  intros O HFv Hx Hu E. rewrite !flux_group_as_filter. apply filter_ext_in.
  intros p Hp. apply eq_iff_eq_true. rewrite !has_value_compares.
  destruct (HFv p Hp) as (y & Ey & Hy).
  split; intros (y' & E1 & E2); rewrite Ey in E1; inversion E1; subst y';
    exists y; (split; [exact Ey|]).
  - apply (eqb_trans_on fv y u x O Hy Hu Hx E2).
    apply (eqb_sym_on fv x u O Hx Hu E).
  - apply (eqb_trans_on fv y x u O Hy Hx Hu E2 E).
Qed.

(** ** Lines 165-170 *)

Lemma fold_result_cons {A S} (body : S -> A -> result S) (a : A)
    (l : list A) (acc r : S) :
  fold_result body (a :: l) acc = inr r ->
  exists acc', body acc a = inr acc' /\ fold_result body l acc' = inr r.
Proof.
  simpl. destruct (body acc a) as [e|acc']; [discriminate|]. eauto.
Qed.

Lemma convert_flux_group_inv (net : GenericNetwork.t)
    (cs : list (carrier K)) (F : list nat) (tc : list nat)
    (vc : list (carrier K)) (u : carrier K) (t1 : list nat)
    (v1 : list (carrier K)) :
  convert_flux_group K net cs F (tc, vc) u = inr (t1, v1) ->
  exists vf css prod,
    put tc (flux_group K F vc u) Neumann_rate_union = inr t1 /\
    take vc (flux_group K F vc u) = inr vf /\
    take cs (flux_throats net (flux_group K F vc u)) = inr css /\
    multiply K vf css = inr prod /\
    put vc (flux_group K F vc u) (sum K prod) = inr v1.
Proof.
  unfold convert_flux_group. intros H.
  apply rbind_ok in H. destruct H as (same & Hs & H).
  apply mask_get_arange in Hs. destruct Hs as [-> _].
  apply rbind_ok in H. destruct H as (f & Hf & H).
  apply mask_get_select in Hf.
  assert (Ef : f = flux_group K F vc u) by (rewrite Hf; reflexivity).
  clear Hf. subst f.
  apply rbind_ok in H. destruct H as (internal_fn & Hi & H).
  apply (take_map_nth false) in Hi.
  apply rbind_ok in H. destruct H as (fn & Hfn & H).
  apply mask_get_select in Hfn.
  assert (Efn : fn = internal_neighbors net (flux_group K F vc u))
    by (rewrite Hfn, Hi; reflexivity).
  clear Hfn. subst fn.
  apply rbind_ok in H. destruct H as (t1' & Ht & H).
  apply rbind_ok in H. destruct H as (vf & Hvf & H).
  apply rbind_ok in H. destruct H as (css & Hcs & H).
  apply rbind_ok in H. destruct H as (prod & Hm & H).
  apply rbind_ok in H. destruct H as (v1' & Hv & H).
  inversion H; subst t1' v1'.
  exists vf, css, prod. repeat split; assumption.
Qed.

Lemma multiply_flux_rate (net : GenericNetwork.t) (cs : list (carrier K))
    (F : list nat) (v : list (carrier K)) (u : carrier K)
    (prod : list (carrier K)) :
  let f := flux_group K F v u in
  multiply K (map (fun p => nth p v (zero K)) f)
    (map (fun t => nth t cs (zero K)) (flux_throats net f)) = inr prod ->
  length (flux_throats net f) = length f \/ length f = 1 ->
  sum K prod = flux_rate K net cs F v u.
Proof.
  intros f Hm Hs. unfold flux_rate. fold f.
  unfold multiply in Hm. cbv zeta.
  destruct (Nat.eqb (length (map (fun p => nth p v (zero K)) f))
              (length (map (fun t => nth t cs (zero K)) (flux_throats net f))))
    eqn:E.
  - inversion Hm. reflexivity.
  - rewrite !length_map in E. apply Nat.eqb_neq in E.
    destruct Hs as [Hs|Hs]; [congruence|].
    destruct f as [|p0 [|p1 f']]; try discriminate Hs.
    simpl in Hm |- *. inversion Hm. reflexivity.
Qed.

(** The loop of lines 164-170, one flux value after the other. *)
Lemma flux_loop_converts (net : GenericNetwork.t) (cs : list (carrier K))
    (F : list nat) (v fv : list (carrier K)) :
  ordered_numbers K fv = true ->
  (forall p, In p F -> exists y, nth_error v p = Some y /\ In y fv) ->
  (forall x, In x fv ->
     length (flux_throats net (flux_group K F v x))
     = length (flux_group K F v x)
     \/ length (flux_group K F v x) = 1) ->
  (forall x y, In x fv -> In y fv -> eqb K x y = false ->
     eqb K (flux_rate K net cs F v x) y = false) ->
  forall (todo done : list (carrier K)) (tc : list nat)
         (vc : list (carrier K)) (t' : list nat) (v' : list (carrier K)),
  fold_result (convert_flux_group K net cs F) todo (tc, vc) = inr (t', v') ->
  (forall x, In x done -> In x fv) ->
  (forall x, In x todo -> In x fv) ->
  (forall a b, In a done -> In b todo -> eqb K a b = false) ->
  ForallOrdPairs (fun a b => eqb K a b = false) todo ->
  converted_so_far K net cs F v done tc vc ->
  converted_so_far K net cs F v (done ++ todo) t' v'.
Proof.
  intros O HFv Hshape Hnc.
  induction todo as [|u todo IH];
    intros done tc vc t' v' H Hdone Htodo Hsep Hdist Inv.
  - simpl in H. inversion H; subst. rewrite app_nil_r. exact Inv.
  - apply fold_result_cons in H. destruct H as ([t1 v1] & Hg & H).
    destruct (convert_flux_group_inv _ _ _ _ _ _ _ _ Hg)
      as (vf & css & prod & Hp & Hvf & Hcs & Hm & Hq).
    destruct Inv as [Lvc Inv].
    assert (Hu : In u fv) by (apply Htodo; left; reflexivity).
    (* a pore whose flux compares equal to [u] has not been converted *)
    assert (Hfresh : forall y, In y fv -> eqb K y u = true ->
              existsb (eqb K y) done = false).
    { intros y Hy Eyu.
      destruct (existsb (eqb K y) done) eqn:Ed; [|reflexivity].
      apply existsb_exists in Ed. destruct Ed as (u' & Hu' & Eyu').
      assert (Hu'fv : In u' fv) by (apply Hdone; exact Hu').
      assert (E : eqb K u' u = true).
      { apply (eqb_trans_on fv u' y u O Hu'fv Hy Hu); [|exact Eyu].
        apply (eqb_sym_on fv y u' O Hy Hu'fv Eyu'). }
      rewrite (Hsep u' u Hu' (or_introl eq_refl)) in E. discriminate E. }
    (* the group is the group of the original flux value *)
    assert (Ef : flux_group K F vc u = flux_group K F v u).
    { rewrite !flux_group_as_filter. apply filter_ext_in. intros p HpF.
      apply eq_iff_eq_true. rewrite !has_value_compares.
      destruct (HFv p HpF) as (y & Ey & Hy).
      specialize (Inv p y HpF Ey).
      destruct (existsb (eqb K y) done) eqn:Ed.
      - destruct Inv as (_ & u' & Hu' & Eyu' & Hr).
        assert (Hu'fv : In u' fv) by (apply Hdone; exact Hu').
        pose proof (Hnc u' u Hu'fv Hu (Hsep u' u Hu' (or_introl eq_refl)))
          as Hmiss.
        split; intros (y' & E1 & E2).
        + rewrite Hr in E1. inversion E1; subst y'. congruence.
        + rewrite Ey in E1. inversion E1; subst y'.
          rewrite (Hfresh y Hy E2) in Ed. discriminate Ed.
      - rewrite Inv, Ey. reflexivity. }
    rewrite Ef in Hp, Hvf, Hcs, Hq.
    assert (Hfx : forall p, In p (flux_group K F v u) ->
              nth_error vc p = nth_error v p).
    { intros p Hpf. apply In_flux_group_compares in Hpf.
      destruct Hpf as (HpF & y & Ey & Eyu).
      destruct (HFv p HpF) as (y' & Ey' & Hy). rewrite Ey in Ey'.
      inversion Ey'; subst y'.
      specialize (Inv p y HpF Ey). rewrite (Hfresh y Hy Eyu) in Inv.
      rewrite Inv, Ey. reflexivity. }
    pose proof (fun p => take_bound _ _ _ p Hvf) as Bvc.
    apply (take_map_nth (zero K)) in Hvf.
    assert (Evf : vf = map (fun p => nth p v (zero K)) (flux_group K F v u)).
    { rewrite Hvf. apply map_ext_in. intros p Hpf.
      specialize (Hfx p Hpf). specialize (Bvc p Hpf).
      destruct (nth_error vc p) as [y|] eqn:Ey;
        [|apply nth_error_None in Ey; lia].
      rewrite (nth_error_nth _ _ _ Ey).
      symmetry in Hfx. rewrite (nth_error_nth _ _ _ Hfx). reflexivity. }
    apply (take_map_nth (zero K)) in Hcs.
    rewrite Evf, Hcs in Hm.
    pose proof (multiply_flux_rate net cs F v u prod Hm (Hshape u Hu)) as Eprod.
    rewrite Eprod in Hq.
    destruct (put_spec _ _ _ _ Hp) as (Bt & Lt1 & Nt1).
    destruct (put_spec _ _ _ _ Hq) as (Bv & Lv1 & Nv1).
    inversion Hdist as [|u0 todo0 Hu_rest Hdist']; subst.
    assert (Inv1 : converted_so_far K net cs F v (done ++ [u]) t1 v1).
    { split; [congruence|].
      intros p y HpF Ey.
      destruct (HFv p HpF) as (y' & Ey' & Hy). rewrite Ey in Ey'.
      inversion Ey'; subst y'.
      specialize (Inv p y HpF Ey).
      rewrite existsb_app. simpl. rewrite orb_false_r.
      rewrite Nt1, Nv1.
      destruct (eqb K y u) eqn:Eyu.
      - assert (Hpf : In p (flux_group K F v u)).
        { apply In_flux_group_compares. split; [exact HpF|]. exists y. auto. }
        assert (Em : existsb (Nat.eqb p) (flux_group K F v u) = true)
          by (apply existsb_eqb_In; exact Hpf).
        rewrite Em, orb_true_r.
        rewrite Forall_forall in Bt, Bv.
        pose proof (Bt p Hpf) as B1. pose proof (Bv p Hpf) as B2.
        apply Nat.ltb_lt in B1. apply Nat.ltb_lt in B2. rewrite B1, B2.
        split; [reflexivity|]. exists u. split.
        + apply in_or_app. right. left. reflexivity.
        + split; [exact Eyu|reflexivity].
      - assert (Em : existsb (Nat.eqb p) (flux_group K F v u) = false).
        { destruct (existsb (Nat.eqb p) (flux_group K F v u)) eqn:Em;
            [|reflexivity].
          apply existsb_eqb_In, In_flux_group_compares in Em.
          destruct Em as (_ & y' & E1 & E2). rewrite Ey in E1.
          inversion E1; subst y'. congruence. }
        rewrite Em, orb_false_r.
        destruct (existsb (eqb K y) done).
        + destruct Inv as (Ht4 & u' & Hu' & Eyu' & Hr).
          split; [exact Ht4|]. exists u'. split; [|split; assumption].
          apply in_or_app. left. exact Hu'.
        + exact Inv. }
    replace (done ++ u :: todo) with ((done ++ [u]) ++ todo)
      by (rewrite <- app_assoc; reflexivity).
    apply (IH (done ++ [u]) t1 v1 t' v' H).
    + intros x Hx. apply in_app_or in Hx.
      destruct Hx as [Hx|[<-|[]]]; [apply Hdone; exact Hx|exact Hu].
    + intros x Hx. apply Htodo. right. exact Hx.
    + intros a b Ha Hb. apply in_app_or in Ha.
      destruct Ha as [Ha|[<-|[]]].
      * apply Hsep; [exact Ha|right; exact Hb].
      * rewrite Forall_forall in Hu_rest. apply Hu_rest. exact Hb.
    + exact Hdist'.
    + exact Inv1.
Qed.

(** ** Lines 132-134 leave the flux pores alone *)

Lemma insulate_keeps_flux (net : GenericNetwork.t) (t t1 : list nat) :
  insulate net t = inr t1 ->
  length t1 = length t /\
  forall i, nth_error t1 i = Some 2 <-> nth_error t i = Some 2.
Proof.
  unfold insulate. intros H.
  apply rbind_ok in H. destruct H as (bnd & _ & H).
  apply rbind_ok in H. destruct H as (tb & Htake & H).
  destruct (any (is_kind 0 tb)).
  - apply rbind_ok in H. destruct H as (idx & Hi & Hp).
    apply mask_get_select in Hi.
    destruct (put_spec _ _ _ _ Hp) as (_ & Hlen & Hn).
    split; [exact Hlen|]. intros i. rewrite Hn.
    destruct (existsb (Nat.eqb i) idx) eqn:E; [|reflexivity].
    apply existsb_eqb_In in E. subst idx.
    destruct (In_select _ _ _ E) as (k & Hk1 & Hk2).
    unfold is_kind in Hk2. rewrite nth_error_map in Hk2.
    destruct (take_nth _ _ _ _ _ Htake Hk1) as [Hv Hb].
    rewrite Hv in Hk2.
    destruct (nth_error t i) as [x|] eqn:Ex; simpl in Hk2; [|discriminate].
    inversion Hk2 as [Hx]. destruct x; [|discriminate].
    destruct (Nat.ltb_spec i (length t)); split; discriminate.
  - inversion H; subst. split; reflexivity.
Qed.

(** ** Lines 161-170 as a whole *)

Lemma flux_values_converted (net : GenericNetwork.t) (cs : list (carrier K))
    (t : list nat) (v : list (carrier K)) (t3 : list nat)
    (v3 : list (carrier K)) :
  convert_flux K net cs (t, v) = inr (t3, v3) ->
  ordered_numbers K (select v (is_kind 2 t)) = true ->
  (forall x, In x (select v (is_kind 2 t)) ->
     length (flux_throats net (flux_group K (nonzero (is_kind 2 t)) v x))
     = length (flux_group K (nonzero (is_kind 2 t)) v x)
     \/ length (flux_group K (nonzero (is_kind 2 t)) v x) = 1) ->
  (forall x y, In x (select v (is_kind 2 t)) ->
     In y (select v (is_kind 2 t)) -> eqb K x y = false ->
     eqb K (flux_rate K net cs (nonzero (is_kind 2 t)) v x) y = false) ->
  forall p x, nth_error t p = Some 2 -> nth_error v p = Some x ->
    In x (select v (is_kind 2 t)) /\
    nth_error t3 p = Some 4 /\
    nth_error v3 p = Some (flux_rate K net cs (nonzero (is_kind 2 t)) v x).
Proof.
  intros H O Hshape Hnc p x Hp Hx.
  assert (HpF : In p (nonzero (is_kind 2 t))) by (apply In_is_kind; exact Hp).
  unfold convert_flux in H.
  destruct (any (is_kind 2 t)) eqn:Eany.
  - apply rbind_ok in H. destruct H as (F0 & HF & H).
    apply mask_get_arange in HF. destruct HF as [-> _].
    apply rbind_ok in H. destruct H as (fv & Hfv & H).
    pose proof (mask_get_select _ _ _ Hfv) as Efv. subst fv.
    unfold mask_get in Hfv.
    set (F := nonzero (is_kind 2 t)) in *.
    set (fv := select v (is_kind 2 t)) in *.
    assert (HFv : forall q, In q F ->
              exists y, nth_error v q = Some y /\ In y fv).
    { intros q Hq. apply In_nth_error in Hq. destruct Hq as [k Hk].
      destruct (take_nth _ _ _ _ _ Hfv Hk) as [Hv Hb].
      destruct (nth_error v q) as [y|] eqn:Ey;
        [|apply nth_error_None in Ey; lia].
      exists y. split; [reflexivity|]. apply (nth_error_In _ k). exact Hv. }
    assert (Hxfv : In x fv).
    { destruct (HFv p HpF) as (y & Ey & Hy). congruence. }
    split; [exact Hxfv|].
    assert (Inv0 : converted_so_far K net cs F v [] t v).
    { split; [reflexivity|]. intros q y _ Hy. simpl. exact Hy. }
    pose proof (flux_loop_converts net cs F v fv O HFv Hshape Hnc
                  (unique K fv) [] t v t3 v3 H
                  (fun y (Hy : In y []) => match Hy with end)
                  (unique_incl fv)
                  (fun a b (Ha : In a []) _ => match Ha with end)
                  (unique_distinct fv O) Inv0) as [_ Inv].
    simpl in Inv. specialize (Inv p x HpF Hx).
    destruct (unique_represents fv (fun y Hy => eqb_refl_on fv y O Hy) x Hxfv)
      as (u & Hu & Exu).
    assert (Ex : existsb (eqb K x) (unique K fv) = true)
      by (apply existsb_exists; exists u; auto).
    rewrite Ex in Inv. destruct Inv as (Ht4 & u' & Hu' & Exu' & Hr).
    split; [exact Ht4|]. rewrite Hr. f_equal.
    unfold flux_rate.
    rewrite (flux_group_of_equal F v fv x u' O HFv Hxfv
               (unique_incl fv u' Hu') Exu').
    reflexivity.
  - rewrite (any_false_nonzero _ Eany) in HpF. destruct HpF.
Qed.

End InArithmetic.

End FluxGroupFacts.

Import Numpy NumpyFacts LinearSolver MethodFacts MatrixFacts Numeric
  FluxGroupFacts.

(** C3 (amended).  During assembly, in any arithmetic and so in the doubles
    of the program, the Neumann-flux nodes (kind 2) are grouped by flux
    values that compare equal; for each group the neighbours that carry the
    label 'internal' (Dirichlet ones included) and the throats joining the
    group to them are found.  When the flux values are numbers that [==]
    and [<] compare as numbers (none is NaN), every group has as many nodes
    as such throats, or a single node, and no group's rate compares equal
    to the flux value of another group, every node of the group is
    reclassified as grouped-rate (kind 4) with value the sum of flux times
    cross-section over those throats, as [sp.sum] adds it. *)
Theorem flux_groups_carry_their_rate
    (K : numbers) (net : GenericNetwork.t) (cross_section : list (carrier K))
    (t : list nat) (v : list (carrier K)) (c : conductance K)
    (out : assembled K) :
  Numeric._build_coefficient_matrix K net cross_section t v c = inr out ->
  let F := nonzero (is_kind Neumann_flux t) in
  let fluxes := select v (is_kind Neumann_flux t) in
  ordered_numbers K fluxes = true ->
  (forall x, In x fluxes ->
     let f := flux_group K F v x in
     length (flux_throats net f) = length f \/ length f = 1) ->
  (forall x y, In x fluxes -> In y fluxes -> eqb K x y = false ->
     eqb K (flux_rate K net cross_section F v x) y = false) ->
  forall p x,
    nth_error t p = Some Neumann_flux -> nth_error v p = Some x ->
    (forall q, In q (flux_group K F v x) <->
               nth_error t q = Some Neumann_flux /\
               exists y, nth_error v q = Some y /\ eqb K y x = true) /\
    nth_error (BCtypes out) p = Some Neumann_rate_union /\
    nth_error (BCvalues out) p
    = Some (flux_rate K net cross_section F v x).
Proof.
  intros H F fluxes O Hshape Hnc p x Hp Hx.
  unfold Neumann_flux, Neumann_rate_union in *.
  unfold Numeric._build_coefficient_matrix in H.
  apply rbind_ok in H. destruct H as (t1 & Hins & H).
  apply rbind_ok in H. destruct H as ([[[rows cols] entries] g] & _ & H).
  apply rbind_ok in H. destruct H as ([t3 v3] & Hconv & H).
  apply rbind_ok in H. destruct H as ([[dim rcd] ex] & _ & H).
  apply rbind_ok in H. destruct H as (M_ & _ & H).
  inversion H; subst out. cbn [BCtypes BCvalues].
  destruct (insulate_keeps_flux net t t1 Hins) as [L1 K2].
  assert (EF : is_kind 2 t1 = is_kind 2 t)
    by (apply FluxFacts.is_kind_ext; assumption).
  split.
  - intros q. unfold F. rewrite In_flux_group_compares, In_is_kind.
    reflexivity.
  - assert (Hp1 : nth_error t1 p = Some 2) by (apply K2; exact Hp).
    pose proof (flux_values_converted K net cross_section t1 v t3 v3 Hconv)
      as Hall.
    rewrite EF in Hall.
    destruct (Hall O Hshape Hnc p x Hp1 Hx) as (_ & Ht4 & Hr).
    split; [exact Ht4|exact Hr].
Qed.

Lemma flux_groups_carry_their_rate_witness :
  exists out,
    Numeric._build_coefficient_matrix binary64 Examples.chain
      FloatExamples.chain_cross_section [2; 2; 1; 2]
      [Doubles.half; Doubles.quarter; PrimFloat.one; Doubles.half]
      (@Scalar binary64 Doubles.three) = inr out /\
    (forall q,
       In q (flux_group binary64 (nonzero (is_kind Neumann_flux [2; 2; 1; 2]))
               [Doubles.half; Doubles.quarter; PrimFloat.one; Doubles.half]
               Doubles.half) <->
       nth_error [2; 2; 1; 2] q = Some Neumann_flux /\
       exists y,
         nth_error [Doubles.half; Doubles.quarter; PrimFloat.one; Doubles.half]
           q = Some y /\
         eqb binary64 y Doubles.half = true) /\
    nth_error (BCtypes out) 3 = Some Neumann_rate_union /\
    nth_error (BCvalues out) 3
    = Some (flux_rate binary64 Examples.chain FloatExamples.chain_cross_section
              (nonzero (is_kind Neumann_flux [2; 2; 1; 2]))
              [Doubles.half; Doubles.quarter; PrimFloat.one; Doubles.half]
              Doubles.half).
Proof.
  evar (o : assembled binary64).
  assert (H : Numeric._build_coefficient_matrix binary64 Examples.chain
                FloatExamples.chain_cross_section [2; 2; 1; 2]
                [Doubles.half; Doubles.quarter; PrimFloat.one; Doubles.half]
                (@Scalar binary64 Doubles.three) = inr o)
    by (subst o; vm_compute; reflexivity).
  exists o. split; [exact H|].
  apply (flux_groups_carry_their_rate binary64 Examples.chain
           FloatExamples.chain_cross_section [2; 2; 1; 2]
           [Doubles.half; Doubles.quarter; PrimFloat.one; Doubles.half]
           (@Scalar binary64 Doubles.three) o H).
  - vm_compute. reflexivity.
  - intros x Hx. cbn in Hx.
    destruct Hx as [<-|[<-|[<-|[]]]]; vm_compute; auto.
  - intros x y Hx Hy E. cbn in Hx, Hy.
    destruct Hx as [<-|[<-|[<-|[]]]]; destruct Hy as [<-|[<-|[<-|[]]]];
      first [vm_compute; reflexivity | vm_compute in E; discriminate E].
  - reflexivity.
  - reflexivity.
Defined.

(** Why the rates must miss the fluxes.  With the fluxes 0.1 on pore 0 and
    0.30000000000000004 on pore 3 and the cross-sections 3, 1, 1 the rate
    of pore 0, 0.1 * 3, is the double 0.30000000000000004: the second pass
    of the loop finds pore 0 beside pore 3, and both end with the same
    value, 1.2000000000000002, which is not the rate of the group of
    pore 3. *)
Lemma a_rate_that_meets_a_flux_is_regrouped :
  exists out r,
    Numeric._build_coefficient_matrix binary64 Examples.chain
      [Doubles.three; PrimFloat.one; PrimFloat.one] [2; 0; 1; 2]
      [Doubles.tenth; PrimFloat.zero; PrimFloat.one; Doubles.three_tenths_up]
      (@Scalar binary64 Doubles.three) = inr out /\
    nth_error (BCvalues out) 0 = Some r /\
    nth_error (BCvalues out) 3 = Some r /\
    eqb binary64
      (flux_rate binary64 Examples.chain
         [Doubles.three; PrimFloat.one; PrimFloat.one] [0; 3]
         [Doubles.tenth; PrimFloat.zero; PrimFloat.one;
          Doubles.three_tenths_up] Doubles.tenth)
      Doubles.three_tenths_up = true /\
    eqb binary64 r
      (flux_rate binary64 Examples.chain
         [Doubles.three; PrimFloat.one; PrimFloat.one] [0; 3]
         [Doubles.tenth; PrimFloat.zero; PrimFloat.one;
          Doubles.three_tenths_up] Doubles.three_tenths_up) = false.
Proof.
  do 2 eexists. split; [vm_compute; reflexivity|].
  split; [reflexivity|]. split; [reflexivity|].
  split; vm_compute; reflexivity.
Qed.

(* ================================================================== *)
(** * The conductance input *)
(* ================================================================== *)

Module ConductanceFacts.
Import Numpy NumpyFacts LinearSolver MethodFacts MatrixFacts AssemblyFacts
  SystemFacts.

Lemma set_conductance_same (s : self_t) (c : conductance_t) :
  _conductance s = Some c -> set_conductance (Some c) s = s.
Proof. destruct s. simpl. intros ->. reflexivity. Qed.

Lemma broadcast_idempotent (c : conductance_t) (n : nat) :
  broadcast (Array (broadcast c n)) n = broadcast c n.
Proof.
  unfold broadcast at 1. simpl size.
  destruct (Nat.eqb_spec (length (broadcast c n)) 1) as [E|E]; [|reflexivity].
  unfold broadcast in *. destruct (Nat.eqb (size c) 1) eqn:Es.
  - unfold times_ones in E. 
    assert (n = 1) by (destruct c; rewrite repeat_length in E; exact E).
    subst n. simpl. destruct c; reflexivity.
  - apply Nat.eqb_neq in Es. destruct c as [g|g]; simpl in *; [lia|].
    contradiction.
Qed.

(** Lines 132-134 neither read nor write the conductance. *)
Lemma insulate_boundaries_conductance (net : GenericNetwork.t) (s : self_t) x :
  insulate_boundaries net (set_conductance x s)
  = (fst (insulate_boundaries net s),
     set_conductance x (snd (insulate_boundaries net s))).
Proof.
  unfold insulate_boundaries, bind, lift, getattr, setattr, ret. simpl.
  destruct (mask_get _ _) as [e|bnd]; [reflexivity|].
  destruct (_BCtypes s) as [t|]; [|reflexivity]. simpl.
  destruct (take t bnd) as [e|tb]; [reflexivity|].
  destruct (any (is_kind 0 tb)); [|reflexivity].
  destruct (mask_get bnd (is_kind 0 tb)) as [e|idx]; [reflexivity|].
  destruct (put t idx Neumann_insulated) as [e|t']; reflexivity.
Qed.

(** Lines 137-156 run on the broadcast array give what they give on the
    input. *)
Lemma conductance_entries_broadcast (net : GenericNetwork.t) (s s2 : self_t)
    (c : conductance_t) rcd :
  _conductance s = Some c ->
  conductance_entries net s = (inr rcd, s2) ->
  conductance_entries net
    (set_conductance (Some (Array (broadcast c (GenericNetwork.num_throats net)))) s)
  = (inr rcd, s2).
Proof.
  intros Hc H. destruct rcd as [[row col] data].
  destruct (conductance_entries_ok _ _ _ _ _ _ H)
    as (t & c' & d1 & d2 & Ht & Hc' & Ht2 & V2 & C2 & Hnd & Hd1 & Hd2 & Er & Ec & Ed).
  cbv zeta in *. rewrite Hc in Hc'. inversion Hc'; subst c'. clear Hc'.
  set (g := broadcast c (GenericNetwork.num_throats net)) in *.
  assert (Es2 : s2 = set_conductance (Some (Array g)) s).
  { unfold conductance_entries in H. method_inv H.
    match goal with
    | Hif : (if Nat.eqb (size ?c0) 1 then _ else _) _ = (inr _, ?s1) |- _ =>
        assert (c0 = c) by congruence; subst c0;
        unfold g, broadcast; destruct (Nat.eqb (size c) 1) eqn:Esz; method_inv Hif
    end.
    - reflexivity.
    - destruct c as [x|gg]; [simpl in Esz; discriminate|]. simpl.
      symmetry. apply set_conductance_same. exact Hc. }
  subst s2.
  assert (Hm : mask_get (GenericNetwork.get_pore_indices net) (not_kind 1 t)
               = inr (nonzero (not_kind 1 t))).
  { apply take_arange_total. exact Hnd. }
  pose proof (broadcast_idempotent c (GenericNetwork.num_throats net)) as Hidem.
  fold g in Hidem.
  unfold conductance_entries.
  unfold bind at 1, getattr at 1. simpl _BCtypes. rewrite Ht.
  unfold ok at 1. cbv beta iota.
  unfold bind at 1, lift at 1. rewrite Hm.
  unfold bind at 1, lift at 1.
  rewrite mask_get_total by (unfold in1d; rewrite !length_map; lia).
  unfold bind at 1, lift at 1.
  rewrite mask_get_total by (unfold in1d; rewrite !length_map; lia).
  unfold bind at 1, getattr at 1. simpl _conductance.
  unfold ok at 1. cbv beta iota.
  unfold bind at 1.
  assert (Hstep :
    (if Nat.eqb (size (Array g)) 1
     then setattr set_conductance
            (Some (Array (times_ones (Array g) (GenericNetwork.num_throats net))))
     else ret tt) (set_conductance (Some (Array g)) s)
    = (inr tt, set_conductance (Some (Array g)) s)).
  { unfold broadcast in Hidem. simpl array_of in Hidem.
    destruct (Nat.eqb (size (Array g)) 1).
    - unfold setattr, ok. rewrite Hidem. reflexivity.
    - reflexivity. }
  rewrite Hstep.
  unfold bind at 1, getattr at 1. simpl _conductance.
  unfold ok at 1. cbv beta iota. simpl array_of.
  unfold bind at 1, lift at 1. rewrite Hd1.
  unfold bind at 1, getattr at 1. simpl _BCtypes. rewrite Ht.
  unfold ok at 1. cbv beta iota.
  unfold bind at 1, lift at 1. rewrite Hm.
  unfold bind at 1, lift at 1.
  rewrite mask_get_total by (unfold in1d; rewrite !length_map; lia).
  unfold bind at 1, lift at 1.
  rewrite mask_get_total by (unfold in1d; rewrite !length_map; lia).
  unfold bind at 1, lift at 1. rewrite Hd2.
  unfold ret. subst row col data. reflexivity.
Qed.

End ConductanceFacts.

Import Numpy NumpyFacts LinearSolver MethodFacts MatrixFacts AssemblyFacts
  SystemFacts ConductanceFacts Examples.

(** C8 (amended).  A conductance of size 1, a scalar or a one-element
    array, is broadcast to all connections; an array of any other size is
    used as it is.  The assembly checks no shape beforehand: it stores that
    array and returns exactly what it returns when it is given that array. *)
Theorem conductance_of_size_one_is_broadcast
    (net : GenericNetwork.t) (s s' : self_t) (c : conductance_t)
    (A : coo_matrix) :
  _conductance s = Some c ->
  _build_coefficient_matrix net s = (inr A, s') ->
  let M_ := GenericNetwork.num_throats net in
  let g := broadcast c M_ in
  (size c = 1 -> g = repeat (hd 0%Qc (array_of c)) M_) /\
  (size c <> 1 -> c = Array g) /\
  _conductance s' = Some (Array g) /\
  _build_coefficient_matrix net (set_conductance (Some (Array g)) s) = (inr A, s').
Proof.
  intros Hc HA M_ g.
  split.
  { intros E. unfold g, broadcast. rewrite E. simpl. destruct c; reflexivity. }
  split.
  { intros E. unfold g, broadcast.
    destruct (Nat.eqb_spec (size c) 1); [contradiction|].
    destruct c as [x|gg]; [simpl in E; contradiction|reflexivity]. }
  destruct (_BCtypes s) as [t|] eqn:Ht.
  2:{ exfalso. destruct (build_inv _ _ _ _ HA)
        as (s1 & s2 & s3 & s4 & u1 & u3 & rcd & r & H1 & _).
      destruct (insulate_boundaries_ok _ _ _ _ H1) as (t0 & t1 & E & _).
      congruence. }
  split.
  { destruct (build_summary _ _ _ _ _ HA Ht)
      as (t' & dim & row & col & data & c0 & _ & _ & _ & _ & _ & Hc0 & Hc' & _).
    rewrite Hc in Hc0. inversion Hc0; subst c0. exact Hc'. }
  destruct (build_inv _ _ _ _ HA)
    as (s1 & s2 & s3 & s4 & u1 & u3 & rcd & r & H1 & H2 & H3 & H4 & H5).
  assert (Hc1 : _conductance s1 = Some c).
  { destruct (insulate_boundaries_ok _ _ _ _ H1) as (t0 & t1 & _ & _ & _ & _ & _ & C1).
    congruence. }
  unfold g, M_. unfold _build_coefficient_matrix.
  unfold bind at 1. rewrite insulate_boundaries_conductance, H1.
  cbn [fst snd].
  unfold bind at 1.
  rewrite (conductance_entries_broadcast net s1 s2 c rcd Hc1 H2).
  unfold bind at 1. rewrite H3.
  unfold bind at 1. rewrite H4. exact H5.
Qed.

Lemma conductance_of_size_one_is_broadcast_witness :
  exists A s',
    _build_coefficient_matrix chain chain_flux = (inr A, s') /\
    _conductance s' = Some (Array [q 3 1; q 3 1; q 3 1]%list) /\
    _build_coefficient_matrix chain
      (set_conductance (Some (Array [q 3 1; q 3 1; q 3 1]%list)) chain_flux)
      = (inr A, s').
Proof.
  evar (A0 : coo_matrix). evar (s0 : self_t).
  assert (HA : _build_coefficient_matrix chain chain_flux = (inr A0, s0))
    by (subst A0 s0; vm_compute; reflexivity).
  destruct (conductance_of_size_one_is_broadcast chain chain_flux s0
              (Scalar (q 3 1)) A0 eq_refl HA) as (_ & _ & H3 & H4).
  exists A0, s0. split; [exact HA|]. split; [exact H3|exact H4].
Defined.

(** C8 as stated fails: the chain has three connections, yet a conductance
    array of one element, and one of four elements, are both assembled
    without any error. *)
Lemma mismatched_conductance_is_accepted :
  GenericNetwork.num_throats chain = 3 /\
  (exists A s',
     _build_coefficient_matrix chain
       (set_conductance (Some (Array [q 3 1]%list)) chain_flux) = (inr A, s')) /\
  (exists A s',
     _build_coefficient_matrix chain
       (set_conductance (Some (Array [q 3 1; q 3 1; q 3 1; q 7 1]%list)) chain_flux)
     = (inr A, s')).
Proof.
  split; [reflexivity|].
  split; do 2 eexists; vm_compute; reflexivity.
Qed.

(* ================================================================== *)
(** * The effective property estimator *)
(* ================================================================== *)

Module EstimatorFacts.
Import Numpy NumpyFacts LinearSolver MethodFacts.

(** ** Dictionaries *)

Lemma dict_get_replace {V} (d : list (string * V)) (k k' : string) (v : V) :
  dict_get (dict_replace d k v) k'
  = if String.eqb k' k
    then (if dict_mem d k then Some v else None)
    else dict_get d k'.
Proof.
  unfold dict_mem. induction d as [|[k0 v0] d IH]; simpl.
  - destruct (String.eqb k' k); reflexivity.
  - destruct (String.eqb_spec k k0) as [->|Hne]; simpl.
    + destruct (String.eqb_spec k' k0); reflexivity.
    + rewrite IH. destruct (String.eqb_spec k' k0) as [->|Hne'].
      * destruct (String.eqb_spec k0 k); [congruence|reflexivity].
      * reflexivity.
Qed.

Lemma dict_get_app {V} (d1 d2 : list (string * V)) (k : string) :
  dict_get (d1 ++ d2) k
  = match dict_get d1 k with Some v => Some v | None => dict_get d2 k end.
Proof.
  induction d1 as [|[k0 v0] d1 IH]; simpl; auto.
  destruct (String.eqb k k0); auto.
Qed.

Lemma dict_get_set {V} (d : list (string * V)) (k k' : string) (v : V) :
  dict_get (dict_set d k v) k'
  = if String.eqb k' k then Some v else dict_get d k'.
Proof.
  unfold dict_set. destruct (dict_mem d k) eqn:E.
  - rewrite dict_get_replace, E. reflexivity.
  - rewrite dict_get_app. simpl.
    destruct (String.eqb_spec k' k) as [->|Hne].
    + unfold dict_mem in E. destruct (dict_get d k); [discriminate|reflexivity].
    + destruct (dict_get d k'); reflexivity.
Qed.

Lemma dict_get_remove {V} (d : list (string * V)) (k k' : string) :
  dict_get (dict_remove d k) k'
  = if String.eqb k' k then None else dict_get d k'.
Proof.
  induction d as [|[k0 v0] d IH]; simpl.
  - destruct (String.eqb k' k); reflexivity.
  - destruct (String.eqb_spec k k0) as [->|Hne]; simpl.
    + rewrite IH. destruct (String.eqb_spec k' k0); reflexivity.
    + rewrite IH. destruct (String.eqb_spec k' k0) as [->|Hne'].
      * destruct (String.eqb_spec k0 k); [congruence|reflexivity].
      * reflexivity.
Qed.

Lemma dict_mem_remove {V} (d : list (string * V)) (k : string) :
  dict_mem (dict_remove d k) k = false.
Proof. unfold dict_mem. rewrite dict_get_remove, String.eqb_refl. reflexivity. Qed.

Lemma dict_del_ok {V} (d d' : list (string * V)) (k : string) :
  dict_del d k = inr d' -> d' = dict_remove d k /\ dict_mem d k = true.
Proof.
  unfold dict_del. destruct (dict_mem d k); intros H; inversion H; auto.
Qed.

(** ** The store of the instance *)

Lemma set_pore_info_ok (n : nat) (label : string) (locations : list nat)
    (overwrite : bool) (s s' : self_t) (u : unit) :
  set_pore_info n label locations overwrite s = (inr u, s') ->
  exists m, s' = set_pore_info_dict (dict_set (_pore_info s) label m) s.
Proof.
  unfold set_pore_info. intros H. method_inv H. eauto.
Qed.

Lemma set_pore_data_at_ok (n : nat) (prop : string) (data : Qc)
    (locations : list nat) (s s' : self_t) (u : unit) :
  set_pore_data_at n prop data locations s = (inr u, s') ->
  exists a, s' = set_pore_data_dict (dict_set (_pore_data s) prop a) s.
Proof.
  unfold set_pore_data_at. intros H. method_inv H. eauto.
Qed.

Lemma del_pore_info_ok (label : string) (s s' : self_t) (u : unit) :
  del_pore_info label s = (inr u, s') ->
  s' = set_pore_info_dict (dict_remove (_pore_info s) label) s.
Proof.
  unfold del_pore_info. intros H. method_inv H.
  match goal with Hd : dict_del _ _ = inr _ |- _ =>
    apply dict_del_ok in Hd; destruct Hd as [-> _] end.
  reflexivity.
Qed.

Lemma del_pore_data_ok (prop : string) (s s' : self_t) (u : unit) :
  del_pore_data prop s = (inr u, s') ->
  s' = set_pore_data_dict (dict_remove (_pore_data s) prop) s.
Proof.
  unfold del_pore_data. intros H. method_inv H.
  match goal with Hd : dict_del _ _ = inr _ |- _ =>
    apply dict_del_ok in Hd; destruct Hd as [-> _] end.
  reflexivity.
Qed.

(** ** Lines 262-286 only write to the log *)

Lemma collect_faces_frame (l : list (option string * option string)) (s : self_t) :
  exists r lg, collect_faces l s = (inr r, set_logger lg s) /\
               length (fst r) = length (snd r).
Proof.
  revert s. induction l as [|[[a|] [b|]] l IH]; intros s; simpl.
  - exists ([], []), (_logger s). destruct s; auto.
  - destruct (IH s) as (r & lg & E & L). unfold bind. rewrite E.
    exists (a :: fst r, b :: snd r), lg. simpl. auto.
  - unfold bind, logger_error, logger_info.
    destruct (IH (set_logger (_logger s ++ ["face1 and face2 should be string or a list of strings!"%string]) s))
      as (r & lg & E & L).
    rewrite E. exists r, lg. auto.
  - unfold bind, logger_error, logger_info.
    destruct (IH (set_logger (_logger s ++ ["face1 and face2 should be string or a list of strings!"%string]) s))
      as (r & lg & E & L).
    rewrite E. exists r, lg. auto.
  - unfold bind, logger_error, logger_info.
    destruct (IH (set_logger (_logger s ++ ["face1 and face2 should be string or a list of strings!"%string]) s))
      as (r & lg & E & L).
    rewrite E. exists r, lg. auto.
Qed.

Lemma face_types_frame (face1 face2 : face_arg) (s : self_t) :
  exists r lg, face_types face1 face2 s = (inr r, set_logger lg s) /\
               length (fst r) = length (snd r).
Proof.
  assert (Hs : s = set_logger (_logger s) s) by (destruct s; reflexivity).
  unfold face_types.
  destruct (negb (is_empty_str face1) && negb (is_empty_str face2)).
  - destruct face1 as [a|l1|]; destruct face2 as [b|l2|];
      try (unfold bind, logger_error, logger_info, ret;
           eexists ([], []), _; split; [reflexivity|reflexivity]).
    + exists (a :: nil, b :: nil), (_logger s). unfold ret.
      split; [rewrite <- Hs; reflexivity|reflexivity].
    + destruct (Nat.eqb (length l1) (length l2)).
      * apply collect_faces_frame.
      * unfold bind, logger_error, logger_info, ret.
        eexists ([], []), _. split; reflexivity.
  - destruct (is_empty_str face1 && is_empty_str face2).
    + eexists (_, _), (_logger s). unfold ret. split; [rewrite <- Hs; reflexivity|reflexivity].
    + unfold bind, logger_error, logger_info, ret.
      eexists ([], []), _. split; reflexivity.
Qed.

(** ** Lines 287-298 *)

Lemma set_aside_ok (s : self_t) (dir : list bool) (bcval : list Qc) :
  dict_get (_pore_info s) "Dirichlet" = Some dir ->
  dict_get (_pore_data s) "BCval" = Some bcval ->
  _BCtypes_temp s = None -> _BCvalues_temp s = None ->
  (_BCtypes s = None -> _BCvalues s = None) ->
  exists s1,
    set_aside s = (inr tt, s1) /\
    set_aside_state dir bcval (_BCtypes s) (_BCvalues s) s1.
Proof.
  intros Hd Hv HT HV Hboth. destruct s. simpl in *. subst.
  unfold set_aside, bind, gets, get_pore_info, get_pore_data, del_pore_info,
    del_pore_data, lift, setattr, getattr, delattr, try_pass, ret, bind, gets,
    dict_del, dict_mem, of_key. simpl.
  repeat (first [rewrite Hd | rewrite Hv | rewrite dict_get_remove]; simpl).
  unfold set_aside_state, dict_mem.
  destruct _BCtypes0 as [t|]; simpl.
  - destruct _BCvalues0 as [v|]; simpl; eexists; (split; [reflexivity|]);
      simpl; rewrite !dict_get_remove; simpl; repeat split; reflexivity.
  - rewrite (Hboth eq_refl). eexists. split; [reflexivity|].
    simpl. rewrite !dict_get_remove. simpl. repeat split; reflexivity.
Qed.

(** ** Lines 376-385 *)

Lemma put_cons_shift {A} (x : A) (a : list A) (l : list nat) (v : A) :
  put (x :: a) (map S l) v
  = match put a l v with inl e => inl e | inr r => inr (x :: r) end.
Proof.
  revert a. induction l as [|i l IH]; intros a; simpl; auto.
  destruct (set_item a i v) as [e|a1]; auto. apply IH.
Qed.

Lemma put_mask_roundtrip (dir : list bool) :
  put (repeat false (length dir)) (nonzero dir) true = inr dir.
Proof.
  unfold nonzero. induction dir as [|b dir IH]; simpl; auto.
  rewrite nonzero_from_shift. destruct b; simpl.
  - rewrite put_cons_shift, IH. reflexivity.
  - rewrite put_cons_shift, IH. reflexivity.
Qed.

Lemma put_back_ok (net : GenericNetwork.t) (s : self_t) (dir : list bool)
    (bcval : list Qc) (T0 : option (list nat)) (V0 : option (list Qc)) :
  set_aside_state dir bcval T0 V0 s ->
  length dir = GenericNetwork.num_pores net ->
  exists s',
    put_back net s = (inr tt, s') /\
    dict_get (_pore_info s') "Dirichlet" = Some dir /\
    dict_get (_pore_data s') "BCval" = Some bcval /\
    _BCtypes s' = T0 /\
    _BCvalues s' = match T0 with Some _ => V0 | None => None end.
Proof.
  intros (H1 & H2 & H3 & H4 & H5 & H6 & H7 & H8) Hn.
  destruct s. simpl in *. subst.
  unfold put_back, try_pass, set_pore_info, set_pore_data,
    getattr, delattr, setattr, gets, lift, bind. simpl.
  unfold dict_mem in H1.
  destruct (dict_get _pore_info0 "Dirichlet") eqn:E1; [discriminate H1|].
  rewrite map_repeat, <- Hn, put_mask_roundtrip. simpl.
  match goal with |- context [match ?T with Some _ => _ | None => _ end] =>
    destruct T as [t|] end; simpl.
  - match goal with |- context [match ?V with Some _ => _ | None => _ end] =>
      destruct V as [v|] end; simpl; eexists;
      (split; [reflexivity|]); simpl; rewrite !dict_get_set; simpl; auto.
  - eexists. split; [reflexivity|]. simpl. rewrite !dict_get_set. simpl. auto.
Qed.

(** ** Lines 301-375: one turn of the loop *)

Lemma estimate_pair_acc (net : GenericNetwork.t) (run : M unit)
    (log1m : Qc -> Qc) (d_data : list Qc) (alg x_term : string)
    (acc acc' : list Qc * list (string * Qc) * list (list Qc))
    (faces : string * string) (s s' : self_t) :
  estimate_pair net run log1m d_data alg x_term acc faces s = (inr acc', s') ->
  exists x cond eff,
    effective_coefficient net log1m d_data alg x cond (fst faces) (snd faces)
      = inr eff /\
    acc' = (fst (fst acc) ++ [eff],
            dict_set (snd (fst acc)) (fst faces ++ "/" ++ snd faces)%string eff,
            place (fst faces) eff (snd acc)).
Proof.
  intros H. destruct acc as [[ep res] T].
  unfold estimate_pair in H. method_inv H. eauto 6.
Qed.

Lemma estimate_pair_state (net : GenericNetwork.t) (run : M unit)
    (log1m : Qc -> Qc) (d_data : list Qc) (alg x_term : string)
    (acc acc' : list Qc * list (string * Qc) * list (list Qc))
    (faces : string * string) (s s' : self_t)
    (dir : list bool) (bcval : list Qc)
    (T0 : option (list nat)) (V0 : option (list Qc)) :
  keeps_temporaries run ->
  set_aside_state dir bcval T0 V0 s ->
  estimate_pair net run log1m d_data alg x_term acc faces s = (inr acc', s') ->
  set_aside_state dir bcval T0 V0 s'.
Proof.
  intros Hrun Hs H. destruct acc as [[ep res] T].
  unfold estimate_pair in H. method_inv H.
  repeat match goal with
  | E : set_pore_info _ _ _ _ _ = (inr _, _) |- _ =>
      apply set_pore_info_ok in E; destruct E as [? ->]
  | E : set_pore_data_at _ _ _ _ _ = (inr _, _) |- _ =>
      apply set_pore_data_at_ok in E; destruct E as [? ->]
  | E : del_pore_info _ _ = (inr _, _) |- _ => apply del_pore_info_ok in E
  | E : del_pore_data _ _ = (inr _, _) |- _ => apply del_pore_data_ok in E
  | E : delattr _ _ _ = (inr _, _) |- _ =>
      apply delattr_ok in E; destruct E as [_ E]
  end.
  match goal with E : get_pore_data _ _ = (inr _, _) |- _ =>
    unfold get_pore_data in E; method_inv E end.
  match goal with E : run ?s3 = (inr _, ?s4) |- _ =>
    pose proof (Hrun s3) as Hk; cbv zeta in Hk; rewrite E in Hk;
    cbn [snd] in Hk; clear E; destruct Hk as (K1 & K2 & K3 & K4) end.
  destruct Hs as (S1 & S2 & S3 & S4 & S5 & S6 & S7 & S8).
  subst.
  unfold set_aside_state. destruct s; destruct s4; simpl in *.
  rewrite !dict_mem_remove. subst. repeat split; reflexivity.
Qed.

(** ** The whole loop *)

Lemma estimate_pairs_state (net : GenericNetwork.t) (run : M unit)
    (log1m : Qc -> Qc) (d_data : list Qc) (alg x_term : string)
    (dir : list bool) (bcval : list Qc)
    (T0 : option (list nat)) (V0 : option (list Qc))
    (l : list (string * string)) :
  keeps_temporaries run ->
  forall acc acc' s s',
  set_aside_state dir bcval T0 V0 s ->
  estimate_pairs net run log1m d_data alg x_term acc l s = (inr acc', s') ->
  set_aside_state dir bcval T0 V0 s'.
Proof.
  intros Hrun. induction l as [|faces l IH]; intros acc acc' s s' Hs H.
  - simpl in H. method_inv H. assumption.
  - simpl in H. apply bind_ok in H. destruct H as (acc1 & s1 & H1 & H2).
    eapply IH; [|exact H2].
    exact (estimate_pair_state net run log1m d_data alg x_term acc acc1 faces
             s s1 dir bcval T0 V0 Hrun Hs H1).
Qed.

Lemma estimate_pairs_acc (net : GenericNetwork.t) (run : M unit)
    (log1m : Qc -> Qc) (d_data : list Qc) (alg x_term : string)
    (l : list (string * string)) :
  forall acc acc' s s',
  estimate_pairs net run log1m d_data alg x_term acc l s = (inr acc', s') ->
  exists effs,
    Forall2 (fun faces eff => exists x cond,
               effective_coefficient net log1m d_data alg x cond
                 (fst faces) (snd faces) = inr eff) l effs /\
    acc' = fold_left (fun a fe =>
                        (fst (fst a) ++ [snd fe],
                         dict_set (snd (fst a))
                           (fst (fst fe) ++ "/" ++ snd (fst fe))%string (snd fe),
                         place (fst (fst fe)) (snd fe) (snd a)))
                     (combine l effs) acc.
Proof.
  induction l as [|faces l IH]; intros acc acc' s s' H.
  - simpl in H. method_inv H.
    exists []. split; [constructor|reflexivity].
  - simpl in H. apply bind_ok in H. destruct H as (acc1 & s1 & H1 & H2).
    destruct (estimate_pair_acc net run log1m d_data alg x_term acc acc1 faces
                s s1 H1) as (x & cond & eff & He & ->).
    destruct (IH _ _ _ _ H2) as (effs & HF & ->).
    exists (eff :: effs). split.
    + constructor; eauto.
    + reflexivity.
Qed.

(** ** Methods that leave the temporaries alone *)

Lemma frames_bind {A B} (m : M A) (k : A -> M B) :
  frames_temporaries m -> (forall a, frames_temporaries (k a)) ->
  frames_temporaries (bind m k).
Proof.
  intros Hm Hk s. unfold bind. specialize (Hm s).
  destruct (m s) as [[e|a] s1]; simpl in *; [assumption|].
  rewrite (Hk a s1). assumption.
Qed.

Lemma frames_ret {A} (a : A) : frames_temporaries (ret a).
Proof. intros s. reflexivity. Qed.

Lemma frames_lift {A} (r : result A) : frames_temporaries (lift r).
Proof. intros s. reflexivity. Qed.

Lemma frames_gets {A} (f : self_t -> A) : frames_temporaries (gets f).
Proof. intros s. reflexivity. Qed.

Lemma frames_getattr {A} (f : self_t -> option A) :
  frames_temporaries (getattr f).
Proof. intros s. unfold getattr. destruct (f s); reflexivity. Qed.

Lemma frames_setattr {A} (f : A -> self_t -> self_t) (v : A) :
  (forall s, temporaries (f v s) = temporaries s) ->
  frames_temporaries (setattr f v).
Proof. intros H s. apply H. Qed.

Lemma frames_logger_info (msg : string) : frames_temporaries (logger_info msg).
Proof. intros s. reflexivity. Qed.

Lemma frames_for_each {A} (l : list A) (body : A -> M unit) :
  (forall a, frames_temporaries (body a)) ->
  frames_temporaries (for_each l body).
Proof.
  intros H. induction l as [|a l IH]; simpl.
  - apply frames_ret.
  - apply frames_bind; auto.
Qed.

Lemma frames_get_pore_info (label : string) :
  frames_temporaries (get_pore_info label).
Proof.
  apply frames_bind; [apply frames_gets|intros; apply frames_lift].
Qed.

Lemma frames_get_pore_data (prop : string) :
  frames_temporaries (get_pore_data prop).
Proof.
  apply frames_bind; [apply frames_gets|intros; apply frames_lift].
Qed.

Lemma frames_set_pore_data (prop : string) (data : list Qc) :
  frames_temporaries (set_pore_data prop data).
Proof.
  apply frames_bind; [apply frames_gets|].
  intros d. apply frames_setattr. reflexivity.
Qed.

Lemma frames_apply_BC_label (bctype : string) :
  frames_temporaries (apply_BC_label bctype).
Proof.
  unfold apply_BC_label. destruct (BC_code bctype); [|apply frames_ret].
  repeat first
    [ apply frames_get_pore_info | apply frames_get_pore_data
    | apply frames_getattr | apply frames_lift
    | apply frames_setattr; reflexivity
    | apply frames_bind; [|intros ?] ].
Qed.

(** Lines 52-128 never touch the temporaries of the estimator. *)
Lemma frames_boundary_conditions_setup (n : nat) :
  frames_temporaries (_boundary_conditions_setup n).
Proof.
  unfold _boundary_conditions_setup.
  repeat first
    [ apply frames_gets | apply frames_logger_info
    | apply frames_for_each; intros ?; apply frames_apply_BC_label
    | apply frames_setattr; reflexivity
    | apply frames_bind; [|intros ?] ].
Qed.

Lemma frames_keeps (r : M unit) : frames_temporaries r -> keeps_temporaries r.
Proof.
  intros H s. specialize (H s). unfold temporaries in H.
  inversion H. cbv zeta. auto.
Qed.

Lemma run_with_fixed_field_keeps :
  keeps_temporaries Examples.run_with_fixed_field.
Proof.
  apply frames_keeps. unfold Examples.run_with_fixed_field.
  apply frames_bind; [apply frames_boundary_conditions_setup|intros ?].
  apply frames_bind; [apply frames_setattr; reflexivity|intros ?].
  apply frames_set_pore_data.
Qed.

End EstimatorFacts.

Import Numpy NumpyFacts LinearSolver MethodFacts EstimatorFacts Examples.

(** C7 (amended).  When the instance carries both a Dirichlet label, over
    all the nodes, and boundary values, holds no stale temporaries
    ([_BCtypes_temp], [_BCvalues_temp]), has a value array only if it has
    a kind array, and the run leaves the four temporaries of the estimator
    ([_dir], [_BCval_temp], [_BCtypes_temp], [_BCvalues_temp]) alone, every
    call of the estimator that returns leaves the Dirichlet label, the
    boundary values and the kind and value arrays as they were before the
    call. *)
Theorem estimator_restores_state_on_return
    (net : GenericNetwork.t) (run : M unit) (log1m : Qc -> Qc)
    (d_data : list Qc) (alg x_term : string) (face1 face2 : face_arg)
    (s s' : self_t) (out : output) (dir : list bool) (bcval : list Qc) :
  keeps_temporaries run ->
  dict_get (_pore_info s) "Dirichlet" = Some dir ->
  length dir = GenericNetwork.num_pores net ->
  dict_get (_pore_data s) "BCval" = Some bcval ->
  _BCtypes_temp s = None -> _BCvalues_temp s = None ->
  (_BCtypes s = None -> _BCvalues s = None) ->
  _calc_eff_prop_cubic net run log1m d_data alg x_term face1 face2 s
    = (inr out, s') ->
  dict_get (_pore_info s') "Dirichlet" = Some dir /\
  dict_get (_pore_data s') "BCval" = Some bcval /\
  _BCtypes s' = _BCtypes s /\
  _BCvalues s' = _BCvalues s.
Proof.
  intros Hrun Hd Hn Hv HT HV Hboth H.
  unfold _calc_eff_prop_cubic in H.
  apply bind_ok in H. destruct H as (ft & s0 & H0 & H).
  destruct (face_types_frame face1 face2 s) as (r & lg & E & _).
  rewrite E in H0. apply pair_equal_spec in H0. destruct H0 as [Er Es].
  apply (f_equal (fun x => match x with inr y => y | inl _ => ft end)) in Er.
  subst ft s0.
  apply bind_ok in H. destruct H as (u & s1 & H1 & H).
  destruct (set_aside_ok (set_logger lg s) dir bcval) as (s1' & E1 & Hs1);
    try (destruct s; assumption).
  rewrite E1 in H1. apply pair_equal_spec in H1. destruct H1 as [_ Es1].
  subst s1'.
  apply bind_ok in H. destruct H as (acc & s2 & Hp2 & H).
  pose proof (estimate_pairs_state net run log1m d_data alg x_term dir bcval
                _ _ _ Hrun _ _ _ _ Hs1 Hp2) as Hs2.
  apply bind_ok in H. destruct H as (u' & s3 & Hp3 & H).
  destruct (put_back_ok net s2 dir bcval _ _ Hs2 Hn)
    as (s3' & E3 & R1 & R2 & R3 & R4).
  rewrite E3 in Hp3. apply pair_equal_spec in Hp3. destruct Hp3 as [_ Es3].
  subst s3'.
  assert (s' = s3).
  { destruct acc as [[ep res] T].
    destruct (Nat.ltb (length (fst r)) 3);
      [|destruct (Nat.eqb (length (fst r)) 3)];
      apply ret_ok in H; destruct H; auto. }
  subst s'. split; [exact R1|]. split; [exact R2|].
  assert (Et : _BCtypes (set_logger lg s) = _BCtypes s) by (destruct s; reflexivity).
  assert (Ev : _BCvalues (set_logger lg s) = _BCvalues s) by (destruct s; reflexivity).
  rewrite Et in R3, R4. rewrite Ev in R4.
  split; [exact R3|].
  rewrite R4. destruct (_BCtypes s); [reflexivity|].
  symmetry. apply Hboth. reflexivity.
Qed.

Lemma estimator_restores_state_on_return_witness :
  exists out s',
    _calc_eff_prop_cubic cube run_with_fixed_field (fun x => x)
      (repeat (q 1 1) 8) "Stokes" "pressure" (FaceStr "") (FaceStr "")
      labelled_instance = (inr out, s') /\
    dict_get (_pore_info s') "Dirichlet"
      = Some [true; false; false; false; false; false; false; true] /\
    _BCtypes s' = Some [1; 0; 0; 0; 0; 0; 0; 1].
Proof.
  evar (out0 : output). evar (s0 : self_t).
  assert (HA : _calc_eff_prop_cubic cube run_with_fixed_field (fun x => x)
                 (repeat (q 1 1) 8) "Stokes" "pressure" (FaceStr "")
                 (FaceStr "") labelled_instance = (inr out0, s0))
    by (subst out0 s0; vm_compute; reflexivity).
  destruct (estimator_restores_state_on_return cube run_with_fixed_field
              (fun x => x) (repeat (q 1 1) 8) "Stokes" "pressure"
              (FaceStr "") (FaceStr "") labelled_instance s0 out0
              [true; false; false; false; false; false; false; true]
              [q 1 1; q 0 1; q 0 1; q 0 1; q 0 1; q 0 1; q 0 1; q 1 2]
              run_with_fixed_field_keeps eq_refl eq_refl eq_refl eq_refl
              eq_refl (fun E : _BCtypes labelled_instance = None =>
                         match eq_ind (_BCtypes labelled_instance)
                                 (fun o => match o with Some _ => True | None => False end)
                                 I None E with end)
              HA)
    as (R1 & _ & R3 & _).
  exists out0, s0. split; [exact HA|]. split; [exact R1|exact R3].
Defined.

(** C7 as stated fails: when the run raises, the error leaves the estimator
    at once; the Dirichlet label is the override of the pair, the kind array
    is gone, and what was set aside still sits in the temporary. *)
Lemma failed_run_leaves_the_override :
  let r := _calc_eff_prop_cubic cube run_that_fails (fun x => x)
             (repeat (q 1 1) 8) "Stokes" "pressure" (FaceStr "top")
             (FaceStr "bottom") labelled_instance in
  fst r = inl SolverError /\
  dict_get (_pore_info labelled_instance) "Dirichlet"
    = Some [true; false; false; false; false; false; false; true] /\
  dict_get (_pore_info (snd r)) "Dirichlet" = Some (repeat true 8) /\
  _BCtypes labelled_instance = Some [1; 0; 0; 0; 0; 0; 0; 1] /\
  _BCtypes (snd r) = None /\
  _dir (snd r) = Some [true; false; false; false; false; false; false; true].
Proof.
  cbv zeta. repeat split; vm_compute; reflexivity.
Qed.

(** Why the value array must not stand alone.  Lines 293-297 set the two
    arrays aside in one [try], kind array first, so a missing kind array
    leaves the value array where it is; the loop deletes both arrays at
    lines 371-372, and lines 381-384 stop at the missing temporary: the
    call returns and the value array is gone. *)
Lemma lone_value_array_is_not_restored :
  let s := set_BCtypes None labelled_instance in
  let r := _calc_eff_prop_cubic cube run_with_fixed_field (fun x => x)
             (repeat (q 1 1) 8) "Stokes" "pressure" (FaceStr "") (FaceStr "")
             s in
  (exists out, fst r = inr out) /\
  _BCtypes s = None /\
  _BCvalues s
    = Some [q 1 1; q 0 1; q 0 1; q 0 1; q 0 1; q 0 1; q 0 1; q 1 2] /\
  _BCvalues (snd r) = None.
Proof.
  cbv zeta. split; [eexists; vm_compute; reflexivity|].
  repeat split; vm_compute; reflexivity.
Qed.

(* ================================================================== *)
(** * What the estimator returns *)
(* ================================================================== *)

Module TensorFacts.
Import Numpy NumpyFacts LinearSolver MethodFacts EstimatorFacts.

Lemma is_3x3_inv (t : list (list Qc)) :
  is_3x3 t ->
  exists a b c d e f g h i,
    t = [[a; b; c]; [d; e; f]; [g; h; i]]%list.
Proof.
  intros [L F].
  destruct t as [|r0 [|r1 [|r2 [|r3 t]]]]; try discriminate L.
  inversion F as [|? ? L0 F0]; subst.
  inversion F0 as [|? ? L1 F1]; subst.
  inversion F1 as [|? ? L2 _]; subst.
  destruct r0 as [|a [|b [|c [|? ?]]]]; try discriminate L0.
  destruct r1 as [|d [|e [|f [|? ?]]]]; try discriminate L1.
  destruct r2 as [|g [|h [|i [|? ?]]]]; try discriminate L2.
  repeat eexists.
Qed.

Lemma zeros33_is_3x3 : is_3x3 zeros33.
Proof. split; [reflexivity|]. repeat constructor. Qed.

Lemma tensor_get_zeros33 (i j : nat) : tensor_get zeros33 i j = 0%Qc.
Proof.
  destruct i as [|[|[|[|i]]]]; destruct j as [|[|[|[|j]]]]; reflexivity.
Qed.

Lemma tensor_position_bound (n : string) (k : nat) :
  tensor_position n = Some k -> k < 3.
Proof.
  unfold tensor_position.
  destruct (String.eqb n "top" || String.eqb n "bottom");
    [intros H; inversion H; lia|].
  destruct (String.eqb n "right" || String.eqb n "left");
    [intros H; inversion H; lia|].
  destruct (String.eqb n "front" || String.eqb n "back");
    [intros H; inversion H; lia|discriminate].
Qed.

Lemma tensor_set_diag_is_3x3 (t : list (list Qc)) (k : nat) (v : Qc) :
  is_3x3 t -> is_3x3 (tensor_set_diag t k v).
Proof.
  intros H. destruct (is_3x3_inv t H) as (a & b & c & d & e & f & g & h & i & ->).
  destruct k as [|[|[|[|k]]]]; try exact H;
    (split; [reflexivity|repeat constructor]).
Qed.

Lemma tensor_get_set_diag (t : list (list Qc)) (k : nat) (v : Qc) (i j : nat) :
  is_3x3 t -> k < 3 ->
  tensor_get (tensor_set_diag t k v) i j
  = if Nat.eqb i k && Nat.eqb j k then v else tensor_get t i j.
Proof.
  intros H Hk.
  destruct (is_3x3_inv t H) as (a & b & c & d & e & f & g & h & x & ->).
  destruct k as [|[|[|k]]]; [| | |lia];
    destruct i as [|[|[|i]]]; destruct j as [|[|[|j]]]; reflexivity.
Qed.

Lemma place_is_3x3 (n : string) (e : Qc) (t : list (list Qc)) :
  is_3x3 t -> is_3x3 (place n e t).
Proof.
  intros H. unfold place. destruct (tensor_position n); [|exact H].
  apply tensor_set_diag_is_3x3. exact H.
Qed.

Lemma tensor_get_place (n : string) (e : Qc) (t : list (list Qc)) (i j : nat) :
  is_3x3 t ->
  tensor_get (place n e t) i j
  = match tensor_position n with
    | Some k => if Nat.eqb i k && Nat.eqb j k then e else tensor_get t i j
    | None => tensor_get t i j
    end.
Proof.
  intros H. unfold place. destruct (tensor_position n) as [k|] eqn:E; [|reflexivity].
  apply tensor_get_set_diag; [exact H|]. exact (tensor_position_bound n k E).
Qed.

Lemma nth_error_combine {A B} (l1 : list A) (l2 : list B) (i : nat) :
  nth_error (combine l1 l2) i
  = match nth_error l1 i, nth_error l2 i with
    | Some a, Some b => Some (a, b)
    | _, _ => None
    end.
Proof.
  revert l2 i. induction l1 as [|a l1 IH]; intros l2 i.
  - destruct i; reflexivity.
  - destruct l2 as [|b l2].
    + destruct i; simpl; [reflexivity|]. destruct (nth_error l1 i); reflexivity.
    + destruct i; simpl; [reflexivity|]. apply IH.
Qed.

(** ** Lines 370-375 over the whole loop *)

Abbreviation record_pair :=
  (fun (a : list Qc * list (string * Qc) * list (list Qc))
       (fe : string * string * Qc) =>
     (fst (fst a) ++ [snd fe],
      dict_set (snd (fst a))
        (fst (fst fe) ++ "/" ++ snd (fst fe))%string (snd fe),
      place (fst (fst fe)) (snd fe) (snd a))).

Lemma fold_result_other (pe : list (string * string * Qc)) (k : string) :
  (forall fe, In fe pe -> (fst (fst fe) ++ "/" ++ snd (fst fe))%string <> k) ->
  forall acc,
  dict_get (snd (fst (fold_left record_pair pe acc))) k
  = dict_get (snd (fst acc)) k.
Proof.
  induction pe as [|fe pe IH]; intros Hk acc; [reflexivity|].
  simpl fold_left. rewrite IH by (intros; apply Hk; right; assumption).
  cbn [fst snd]. rewrite dict_get_set.
  match goal with |- context [String.eqb k ?x] =>
    destruct (String.eqb_spec k x) as [E|_] end; [|reflexivity].
  exfalso. apply (Hk fe); [left; reflexivity|]. symmetry. exact E.
Qed.

Lemma fold_result_last (pe : list (string * string * Qc)) :
  forall acc i fe,
  nth_error pe i = Some fe ->
  (forall j fe', i < j -> nth_error pe j = Some fe' ->
     (fst (fst fe') ++ "/" ++ snd (fst fe'))%string
     <> (fst (fst fe) ++ "/" ++ snd (fst fe))%string) ->
  dict_get (snd (fst (fold_left record_pair pe acc)))
    (fst (fst fe) ++ "/" ++ snd (fst fe))%string = Some (snd fe).
Proof.
  induction pe as [|fe0 pe IH]; intros acc i fe Hi Hlast.
  - destruct i; discriminate Hi.
  - destruct i as [|i].
    + simpl in Hi. inversion Hi; subst fe0. simpl fold_left.
      rewrite fold_result_other.
      * cbn [fst snd]. rewrite dict_get_set, String.eqb_refl. reflexivity.
      * intros fe' Hin. apply In_nth_error in Hin. destruct Hin as [j Hj].
        apply (Hlast (S j)); [lia|exact Hj].
    + simpl in Hi. simpl fold_left. apply (IH _ i); [exact Hi|].
      intros j fe' Hj E. apply (Hlast (S j)); [lia|exact E].
Qed.

Lemma fold_tensor_is_3x3 (pe : list (string * string * Qc)) :
  forall acc, is_3x3 (snd acc) ->
  is_3x3 (snd (fold_left record_pair pe acc)).
Proof.
  induction pe as [|fe pe IH]; intros acc H; [exact H|].
  simpl fold_left. apply IH. cbn [snd]. apply place_is_3x3. exact H.
Qed.

Lemma fold_tensor_off_diagonal (pe : list (string * string * Qc)) (i j : nat) :
  i <> j ->
  forall acc, is_3x3 (snd acc) ->
  tensor_get (snd (fold_left record_pair pe acc)) i j = tensor_get (snd acc) i j.
Proof.
  intros Hij. induction pe as [|fe pe IH]; intros acc H; [reflexivity|].
  simpl fold_left. rewrite IH by (cbn [snd]; apply place_is_3x3; exact H).
  cbn [snd]. rewrite tensor_get_place by exact H.
  destruct (tensor_position (fst (fst fe))) as [k|]; [|reflexivity].
  destruct (Nat.eqb_spec i k); [|reflexivity].
  destruct (Nat.eqb_spec j k); [|reflexivity].
  exfalso. apply Hij. congruence.
Qed.

Lemma fold_tensor_other (pe : list (string * string * Qc)) (k : nat) :
  (forall fe, In fe pe -> tensor_position (fst (fst fe)) <> Some k) ->
  forall acc, is_3x3 (snd acc) ->
  tensor_get (snd (fold_left record_pair pe acc)) k k = tensor_get (snd acc) k k.
Proof.
  induction pe as [|fe pe IH]; intros Hk acc H; [reflexivity|].
  simpl fold_left.
  rewrite IH; [|intros; apply Hk; right; assumption
               |cbn [snd]; apply place_is_3x3; exact H].
  cbn [snd]. rewrite tensor_get_place by exact H.
  destruct (tensor_position (fst (fst fe))) as [k'|] eqn:E; [|reflexivity].
  destruct (Nat.eqb_spec k k') as [->|_]; [|reflexivity].
  exfalso. apply (Hk fe); [left; reflexivity|exact E].
Qed.

Lemma fold_tensor_last (pe : list (string * string * Qc)) (k : nat) :
  forall acc i fe,
  is_3x3 (snd acc) ->
  nth_error pe i = Some fe ->
  tensor_position (fst (fst fe)) = Some k ->
  (forall j fe', i < j -> nth_error pe j = Some fe' ->
     tensor_position (fst (fst fe')) <> Some k) ->
  tensor_get (snd (fold_left record_pair pe acc)) k k = snd fe.
Proof.
  induction pe as [|fe0 pe IH]; intros acc i fe H Hi Hpos Hlast.
  - destruct i; discriminate Hi.
  - destruct i as [|i].
    + simpl in Hi. inversion Hi; subst fe0. simpl fold_left.
      rewrite fold_tensor_other.
      * cbn [snd]. rewrite tensor_get_place by exact H.
        rewrite Hpos, Nat.eqb_refl. reflexivity.
      * intros fe' Hin. apply In_nth_error in Hin. destruct Hin as [j Hj].
        apply (Hlast (S j)); [lia|exact Hj].
      * cbn [snd]. apply place_is_3x3. exact H.
    + simpl in Hi. simpl fold_left. apply (IH _ i).
      * cbn [snd]. apply place_is_3x3. exact H.
      * exact Hi.
      * exact Hpos.
      * intros j fe' Hj E. apply (Hlast (S j)); [lia|exact E].
Qed.

End TensorFacts.

Import Numpy NumpyFacts LinearSolver MethodFacts EstimatorFacts TensorFacts
  Examples.

(** C9 (amended).  A call of the estimator that returns computes one
    coefficient per face pair.  With fewer than 3 pairs it returns a
    mapping that holds, under the name [face1/face2] of a pair, the
    coefficient of the last pair of that name.  With exactly 3 pairs it
    returns a 3x3 tensor whose off-diagonal entries are all zero; the
    coefficient of a pair sits at the diagonal position chosen by the name
    of its first face (front or back: 0, right or left: 1, top or bottom:
    2), the last pair of a position wins, and a position that no pair names
    stays zero. *)
Theorem estimator_output_follows_face_names
    (net : GenericNetwork.t) (run : M unit) (log1m : Qc -> Qc)
    (d_data : list Qc) (alg x_term : string) (face1 face2 : face_arg)
    (s s0 s' : self_t) (out : output) (f1 f2 : list string) :
  face_types face1 face2 s = (inr (f1, f2), s0) ->
  _calc_eff_prop_cubic net run log1m d_data alg x_term face1 face2 s
    = (inr out, s') ->
  exists effs,
    Forall2 (fun faces eff => exists x cond,
               effective_coefficient net log1m d_data alg x cond
                 (fst faces) (snd faces) = inr eff)
            (combine f1 f2) effs /\
    (length f1 < 3 ->
     exists res, out = Mapping res /\
       forall i a b e,
         nth_error f1 i = Some a -> nth_error f2 i = Some b ->
         nth_error effs i = Some e ->
         (forall j a' b', i < j ->
            nth_error f1 j = Some a' -> nth_error f2 j = Some b' ->
            (a' ++ "/" ++ b')%string <> (a ++ "/" ++ b)%string) ->
         dict_get res (a ++ "/" ++ b)%string = Some e) /\
    (length f1 = 3 ->
     exists T, out = Tensor T /\
       (forall i j, i <> j -> tensor_get T i j = 0%Qc) /\
       (forall i a e k,
          nth_error f1 i = Some a -> nth_error effs i = Some e ->
          tensor_position a = Some k ->
          (forall j a', i < j -> nth_error f1 j = Some a' ->
             tensor_position a' <> Some k) ->
          tensor_get T k k = e) /\
       (forall k, (forall a, In a f1 -> tensor_position a <> Some k) ->
          tensor_get T k k = 0%Qc)).
Proof.
  intros Hf H.
  assert (Hlen : length f1 = length f2).
  { destruct (face_types_frame face1 face2 s) as (r & lg & E & L).
    rewrite E in Hf. apply pair_equal_spec in Hf. destruct Hf as [Er _].
    apply (f_equal (fun x => match x with inr y => y | inl _ => r end)) in Er.
    subst r. exact L. }
  unfold _calc_eff_prop_cubic in H.
  apply bind_ok in H. destruct H as (ft & s0' & Hp0 & H).
  rewrite Hf in Hp0. apply pair_equal_spec in Hp0. destruct Hp0 as [Er Es].
  apply (f_equal (fun x => match x with inr y => y | inl _ => ft end)) in Er.
  subst ft s0'. cbn [fst snd] in H.
  apply bind_ok in H. destruct H as (u & s1 & _ & H).
  apply bind_ok in H. destruct H as (acc & s2 & Hp2 & H).
  apply bind_ok in H. destruct H as (u' & s3 & _ & H).
  destruct (estimate_pairs_acc net run log1m d_data alg x_term _ _ _ _ _ Hp2)
    as (effs & HF & Hacc).
  pose proof (Forall2_length HF) as HL. rewrite length_combine in HL.
  exists effs. split; [exact HF|].
  destruct acc as [[ep res] T].
  assert (Hres : res = snd (fst (fold_left record_pair
                    (combine (combine f1 f2) effs) ([], [], zeros33))))
    by (rewrite <- Hacc; reflexivity).
  assert (HT : T = snd (fold_left record_pair
                    (combine (combine f1 f2) effs) ([], [], zeros33)))
    by (rewrite <- Hacc; reflexivity).
  clear Hacc. split.
  - intros Hlt. apply Nat.ltb_lt in Hlt. rewrite Hlt in H.
    apply ret_ok in H. destruct H as [-> _].
    exists res. split; [reflexivity|].
    intros i a b e Ha Hb He Hlast. rewrite Hres.
    apply (fold_result_last _ _ i (a, b, e)).
    + rewrite !nth_error_combine, Ha, Hb, He. reflexivity.
    + intros j [[a' b'] e'] Hj Hn. rewrite !nth_error_combine in Hn.
      destruct (nth_error f1 j) as [a1|] eqn:E1; [|discriminate Hn].
      destruct (nth_error f2 j) as [b1|] eqn:E2; [|discriminate Hn].
      destruct (nth_error effs j) as [e1|]; [|discriminate Hn].
      inversion Hn; subst. cbn [fst snd].
      exact (Hlast j a' b' Hj E1 E2).
  - intros H3.
    assert (Hnlt : Nat.ltb (length f1) 3 = false) by (apply Nat.ltb_ge; lia).
    rewrite Hnlt in H. rewrite H3 in H. cbn [Nat.eqb] in H.
    apply ret_ok in H. destruct H as [-> _].
    exists T. split; [reflexivity|]. rewrite HT. split; [|split].
    + intros i j Hij.
      rewrite fold_tensor_off_diagonal by (assumption || apply zeros33_is_3x3).
      cbn [snd]. apply tensor_get_zeros33.
    + intros i a e k Ha He Hpos Hlast.
      assert (Hb : exists b, nth_error f2 i = Some b).
      { destruct (nth_error f2 i) as [b|] eqn:E; [eauto|].
        apply nth_error_None in E.
        assert (i < length f1) by (apply nth_error_Some; congruence). lia. }
      destruct Hb as [b Hb].
      apply (fold_tensor_last _ k _ i (a, b, e)).
      * apply zeros33_is_3x3.
      * rewrite !nth_error_combine, Ha, Hb, He. reflexivity.
      * exact Hpos.
      * intros j [[a' b'] e'] Hj Hn. rewrite !nth_error_combine in Hn.
        destruct (nth_error f1 j) as [a1|] eqn:E1; [|discriminate Hn].
        destruct (nth_error f2 j) as [b1|] eqn:E2; [|discriminate Hn].
        destruct (nth_error effs j) as [e1|]; [|discriminate Hn].
        inversion Hn; subst. cbn [fst snd].
        exact (Hlast j a' Hj E1).
    + intros k Hk. rewrite fold_tensor_other.
      * cbn [snd]. apply tensor_get_zeros33.
      * intros [[a b] e] Hin. cbn [fst snd].
        apply in_combine_l in Hin. apply in_combine_l in Hin.
        exact (Hk a Hin).
      * apply zeros33_is_3x3.
Qed.

Lemma estimator_output_follows_face_names_witness :
  exists out s' T,
    _calc_eff_prop_cubic cube run_with_fixed_field (fun x => x)
      (repeat (q 1 1) 8) "Stokes" "pressure" (FaceStr "") (FaceStr "")
      labelled_instance = (inr out, s') /\
    out = Tensor T /\
    (forall i j, i <> j -> tensor_get T i j = 0%Qc).
Proof.
  evar (out0 : output). evar (s0 : self_t).
  assert (HA : _calc_eff_prop_cubic cube run_with_fixed_field (fun x => x)
                 (repeat (q 1 1) 8) "Stokes" "pressure" (FaceStr "")
                 (FaceStr "") labelled_instance = (inr out0, s0))
    by (subst out0 s0; vm_compute; reflexivity).
  destruct (estimator_output_follows_face_names cube run_with_fixed_field
              (fun x => x) (repeat (q 1 1) 8) "Stokes" "pressure"
              (FaceStr "") (FaceStr "") labelled_instance labelled_instance
              s0 out0 ["front"; "right"; "top"]%string
              ["back"; "left"; "bottom"]%string eq_refl HA)
    as (effs & _ & _ & Ht).
  destruct (Ht eq_refl) as (T & ET & Hoff & _).
  exists out0, s0, T. split; [exact HA|]. split; [exact ET|exact Hoff].
Defined.

(** C9 as stated fails: on the cube lying on its side the coordinate that
    is constant across the face named top is x, the first one, and the
    coefficient of the pair top/bottom is 2/3; that coefficient sits at
    position (2,2) all the same, and position (0,0) holds the 6 of the pair
    front/back. *)
Lemma tensor_position_ignores_the_constant_coordinate :
  let r := _calc_eff_prop_cubic tilted_cube run_with_fixed_field (fun x => x)
             (repeat (q 1 1) 8) "Stokes" "pressure" (FaceStr "") (FaceStr "")
             labelled_instance in
  constant_axis (map (fun c => fst (fst c)) cube_coords)
    (map (fun c => snd (fst c)) cube_coords) (map snd cube_coords)
    (GenericNetwork.get_pore_indices_of tilted_cube "top") = inr (Some 0) /\
  (exists e,
     effective_coefficient tilted_cube (fun x => x) (repeat (q 1 1) 8) "Stokes"
       [q 8 10; q 7 10; q 6 10; q 5 10; q 4 10; q 3 10; q 2 10; q 1 10]
       (Array (repeat (q 1 1) 12)) "top" "bottom" = inr e /\
     e = q 2 3) /\
  exists T,
    fst r = inr (Tensor T) /\
    tensor_get T 2 2 = q 2 3 /\
    tensor_get T 0 0 = q 6 1 /\
    tensor_get T 0 0 <> q 2 3.
Proof.
  cbv zeta. split; [vm_compute; reflexivity|]. split.
  - eexists. split; [vm_compute; reflexivity|].
    apply Qc_is_canon. vm_compute. reflexivity.
  - eexists. split; [vm_compute; reflexivity|].
    split; [apply Qc_is_canon; vm_compute; reflexivity|].
    split; [apply Qc_is_canon; vm_compute; reflexivity|].
    intros E. apply (f_equal this) in E. vm_compute in E. discriminate E.
Qed.

(* ================================================================== *)
(** * More on the right-hand side and on one inner iteration *)
(* ================================================================== *)

Module RHSFacts.
Import Numpy NumpyFacts LinearSolver MethodFacts MatrixFacts SystemFacts.

(** [B[pores_of_kind_k] = values[pores_of_kind_k]] *)
Lemma put_each_kind (k : nat) (t : list nat) (v B0 B1 : list Qc) :
  put_each B0 (nonzero (is_kind k t))
    (map (fun p => nth p v 0%Qc) (nonzero (is_kind k t))) = inr B1 ->
  length B1 = length B0 /\
  forall j, nth_error B1 j
            = match nth_error t j with
              | Some x => if Nat.eqb x k then Some (nth j v 0%Qc)
                          else nth_error B0 j
              | None => nth_error B0 j
              end.
Proof.
  intros H. destruct (put_each_spec _ _ _ _ H) as (L & Hout & Hin).
  split; [exact L|]. intros j.
  destruct (nth_error t j) as [x|] eqn:E.
  - destruct (Nat.eqb_spec x k) as [->|Hne].
    + assert (Hj : In j (nonzero (is_kind k t))) by (apply In_is_kind; exact E).
      apply In_nth_error in Hj. destruct Hj as [i Hi].
      rewrite (Hin (NoDup_nonzero _) i j Hi).
      rewrite nth_error_map, Hi. reflexivity.
    + apply Hout. intros Hj. apply In_is_kind in Hj. congruence.
  - apply Hout. intros Hj. apply In_is_kind in Hj. congruence.
Qed.

(** Lines 226-227: the rows written for the grouped-rate classes. *)
Lemma fold_RHS_superpore_rows (dim : nat) (e : list Qc) (items : list nat) :
  forall B B' : list Qc,
  fold_result (RHS_superpore dim e) items B = inr B' ->
  length B = dim -> NoDup items ->
  (forall i, In i items -> i < dim) ->
  (forall j, (forall i, In i items -> j <> dim - i - 1) ->
     nth_error B' j = nth_error B j) /\
  (forall i, In i items ->
     exists x, nth_error e i = Some x /\ nth_error B' (dim - i - 1) = Some x).
Proof.
  induction items as [|i0 items IH]; intros B B' H L ND Hlt.
  - simpl in H. inversion H; subst. split; [reflexivity|]. intros i [].
  - cbn [fold_result] in H.
    destruct (RHS_superpore dim e B i0) as [|B1] eqn:E; [discriminate H|].
    unfold RHS_superpore in E.
    apply rbind_ok in E. destruct E as (x & Hx & E).
    apply rbind_ok in E. destruct E as (k & Hk & E).
    apply item_inv in Hx.
    rewrite L in Hk. apply py_index_from_end in Hk;
      [|apply Hlt; left; reflexivity].
    subst k.
    destruct (set_item_spec _ _ _ _ E) as (_ & L1 & N1).
    apply NoDup_cons_iff in ND. destruct ND as [Hnotin ND'].
    assert (LB1 : length B1 = dim) by congruence.
    assert (Hlt' : forall i, In i items -> i < dim)
      by (intros i Hi; apply Hlt; right; exact Hi).
    destruct (IH B1 B' H LB1 ND' Hlt') as (Hother & Hrows).
    split.
    + intros j Hj. rewrite Hother by (intros i Hi; apply Hj; right; exact Hi).
      rewrite N1. destruct (Nat.eqb_spec j (dim - i0 - 1)) as [Ej|_];
        [|reflexivity].
      exfalso. exact (Hj i0 (or_introl eq_refl) Ej).
    + intros i [<-|Hi].
      * exists x. split; [exact Hx|].
        rewrite Hother.
        -- rewrite N1, Nat.eqb_refl. reflexivity.
        -- intros i Hi Eq.
           assert (i < dim) by (apply Hlt; right; exact Hi).
           assert (i0 < dim) by (apply Hlt; left; reflexivity).
           apply Hnotin. replace i0 with i by lia. exact Hi.
      * apply Hrows. exact Hi.
Qed.

(** Lines 216-229, when the dimension is [N] plus the number of classes. *)
Lemma rhs_rows
    (net : GenericNetwork.t) (s1 s2 : self_t) (B : list Qc) (dim : nat)
    (ex : extera_t) :
  _Coeff_dimension s1 = Some dim ->
  _extera_Neumann_equations s1 = Some ex ->
  dim = GenericNetwork.num_pores net
        + match ex with Values e => length e | Zero => 0 end ->
  _build_RHS_matrix net s1 = (inr B, s2) ->
  exists t v,
    _BCtypes s1 = Some t /\ _BCvalues s1 = Some v /\ s2 = s1 /\
    length B = dim /\
    (forall p, p < GenericNetwork.num_pores net ->
       nth_error B p
       = Some (match nth_error t p with
               | Some k => if Nat.eqb k 1 || Nat.eqb k 5 then nth p v 0%Qc
                           else 0%Qc
               | None => 0%Qc
               end)) /\
    (any (is_kind 4 t) = true ->
     exists e, ex = Values e /\
       forall i, i < length e -> nth_error B (dim - i - 1) = nth_error e i).
Proof.
  intros Hd He Hdim H.
  destruct (build_RHS_inv _ _ _ _ H)
    as (ex' & dim' & t & v & B1 & B2 & He' & Hd' & Ht & Hv & P1 & P2 & Hif & ->).
  rewrite He in He'. inversion He'; subst ex'.
  rewrite Hd in Hd'. inversion Hd'; subst dim'.
  exists t, v. split; [exact Ht|]. split; [exact Hv|]. split; [reflexivity|].
  destruct (put_each_kind 1 t v _ _ P1) as (L1 & N1).
  destruct (put_each_kind 5 t v _ _ P2) as (L2 & N2).
  rewrite repeat_length in L1.
  assert (HB2 : forall p, p < dim ->
            nth_error B2 p
            = Some (match nth_error t p with
                    | Some k => if Nat.eqb k 1 || Nat.eqb k 5 then nth p v 0%Qc
                                else 0%Qc
                    | None => 0%Qc
                    end)).
  { intros p Hp. rewrite N2, N1.
    assert (Hz : nth_error (repeat 0%Qc dim) p = Some 0%Qc)
      by (apply nth_error_repeat; exact Hp).
    rewrite Hz.
    destruct (nth_error t p) as [k|]; [|reflexivity].
    destruct (Nat.eqb_spec k 5) as [->|_]; [reflexivity|].
    destruct (Nat.eqb k 1); reflexivity. }
  destruct (any (is_kind 4 t)) eqn:E4.
  - destruct Hif as (e & -> & Hfold).
    assert (LB2 : length B2 = dim) by congruence.
    destruct (fold_RHS_superpore dim (GenericNetwork.num_pores net) e _ _ _
                Hfold LB2) as (LB & Hlow).
    { intros i Hi. apply in_seq in Hi. lia. }
    destruct (fold_RHS_superpore_rows dim e _ _ _ Hfold LB2) as (_ & Hrows).
    { apply seq_NoDup. }
    { intros i Hi. apply in_seq in Hi. lia. }
    split; [exact LB|]. split.
    + intros p Hp. rewrite Hlow by exact Hp. apply HB2. lia.
    + intros _. exists e. split; [reflexivity|]. intros i Hi.
      destruct (Hrows i) as (x & Hx & Hr).
      { apply in_seq. lia. }
      rewrite Hx. exact Hr.
  - subst B. split; [congruence|]. split.
    + intros p Hp. apply HB2. lia.
    + intros Habs. discriminate Habs.
Qed.


End RHSFacts.

Import Numpy NumpyFacts LinearSolver MethodFacts MatrixFacts SystemFacts
  RHSFacts Examples.

(** X1.  After the matrix has been assembled, the right-hand side has one
    entry per row of the matrix.  Below [N], the entry of a Dirichlet node
    or of a node with an individual rate is that node's value and every
    other entry is zero; when grouped-rate nodes exist, row
    [A_dim - item - 1] holds the value of class [item]. *)
Theorem rhs_after_assembly
    (net : GenericNetwork.t) (s s1 s2 : self_t) (A : coo_matrix)
    (B : list Qc) :
  _build_coefficient_matrix net s = (inr A, s1) ->
  _build_RHS_matrix net s1 = (inr B, s2) ->
  exists t v,
    _BCtypes s1 = Some t /\ _BCvalues s1 = Some v /\ s2 = s1 /\
    length B = shape A /\
    (forall p, p < GenericNetwork.num_pores net ->
       nth_error B p
       = Some (match nth_error t p with
               | Some k => if Nat.eqb k 1 || Nat.eqb k 5 then nth p v 0%Qc
                           else 0%Qc
               | None => 0%Qc
               end)) /\
    (any (is_kind 4 t) = true ->
     exists e, _extera_Neumann_equations s1 = Some (Values e) /\
       shape A = GenericNetwork.num_pores net + length e /\
       forall i, i < length e -> nth_error B (shape A - i - 1) = nth_error e i).
Proof.
  intros HA HB.
  destruct (_BCtypes s) as [t0|] eqn:Ht0.
  2:{ exfalso. destruct (build_inv _ _ _ _ HA)
        as (x1 & x2 & x3 & x4 & u1 & u3 & rcd & r & K1 & _).
      destruct (AssemblyFacts.insulate_boundaries_ok _ _ _ _ K1)
        as (y0 & y1 & E & _).
      congruence. }
  destruct (build_summary _ _ _ _ _ HA Ht0)
    as (t' & dim & row & col & data & c0 & Ht' & _ & _ & _ & _ & _ & _ & Hd
        & Hshape & _ & Hif & _).
  assert (Hex : exists ex, _extera_Neumann_equations s1 = Some ex /\
            dim = GenericNetwork.num_pores net
                  + match ex with Values e => length e | Zero => 0 end).
  { destruct (any (is_kind 4 t')).
    - destruct Hif as (v' & kv & _ & _ & E1 & E2 & _).
      exists (Values (unique kv)). split; [exact E2|exact E1].
    - destruct Hif as (E1 & E2). exists Zero. split; [exact E2|lia]. }
  destruct Hex as (ex & Hex & Hdim).
  destruct (rhs_rows net s1 s2 B dim ex Hd Hex Hdim HB)
    as (t & v & Ht & Hv & Hs & L & Hlow & H4).
  exists t, v. rewrite Hshape.
  split; [exact Ht|]. split; [exact Hv|]. split; [exact Hs|].
  split; [exact L|]. split; [exact Hlow|].
  intros E4. destruct (H4 E4) as (e & -> & Hrows).
  exists e. split; [exact Hex|]. split; [exact Hdim|exact Hrows].
Qed.

Lemma rhs_after_assembly_witness :
  exists A s1 B s2,
    _build_coefficient_matrix chain chain_flux = (inr A, s1) /\
    _build_RHS_matrix chain s1 = (inr B, s2) /\
    length B = 5.
Proof.
  evar (A0 : coo_matrix). evar (s10 : self_t).
  assert (HA : _build_coefficient_matrix chain chain_flux = (inr A0, s10))
    by (subst A0 s10; vm_compute; reflexivity).
  evar (B0 : list Qc). evar (s20 : self_t).
  assert (HB : _build_RHS_matrix chain s10 = (inr B0, s20))
    by (subst B0 s20 s10; vm_compute; reflexivity).
  destruct (rhs_after_assembly chain chain_flux s10 s20 A0 B0 HA HB)
    as (t & v & _ & _ & _ & L & _).
  exists A0, s10, B0, s20. split; [exact HA|]. split; [exact HB|].
  rewrite L. subst A0. reflexivity.
Defined.

(* ================================================================== *)
(** * What the methods leave alone *)
(* ================================================================== *)

Module FrameFacts.
Import Numpy NumpyFacts LinearSolver MethodFacts.

Section Preserves.

Context {X : Type} (f : self_t -> X).

Lemma preserves_bind {A B} (m : M A) (k : A -> M B) :
  preserves f m -> (forall a, preserves f (k a)) -> preserves f (bind m k).
Proof.
  intros Hm Hk s. unfold bind. specialize (Hm s).
  destruct (m s) as [[e|a] s1]; cbn [snd] in *; [assumption|].
  rewrite (Hk a s1). assumption.
Qed.

Lemma preserves_ret {A} (a : A) : preserves f (ret a).
Proof. intros s. reflexivity. Qed.

Lemma preserves_throw {A} (e : error) : preserves f (@throw A e).
Proof. intros s. reflexivity. Qed.

Lemma preserves_lift {A} (r : result A) : preserves f (lift r).
Proof. intros s. reflexivity. Qed.

Lemma preserves_gets {A} (g : self_t -> A) : preserves f (gets g).
Proof. intros s. reflexivity. Qed.

Lemma preserves_getattr {A} (g : self_t -> option A) :
  preserves f (getattr g).
Proof. intros s. unfold getattr. destruct (g s); reflexivity. Qed.

Lemma preserves_setattr {A} (g : A -> self_t -> self_t) (v : A) :
  (forall s, f (g v s) = f s) -> preserves f (setattr g v).
Proof. intros H s. apply H. Qed.

Lemma preserves_delattr {A} (p : self_t -> option A)
    (g : option A -> self_t -> self_t) :
  (forall s, f (g None s) = f s) -> preserves f (delattr p g).
Proof. intros H s. unfold delattr. destruct (p s); [apply H|reflexivity]. Qed.

Lemma preserves_logger_info (msg : string) :
  (forall lg s, f (set_logger lg s) = f s) -> preserves f (logger_info msg).
Proof. intros H s. apply H. Qed.

Lemma preserves_try_pass (body : M unit) :
  preserves f body -> preserves f (try_pass body).
Proof.
  intros H s. unfold try_pass. specialize (H s).
  destruct (body s) as [r s1]. exact H.
Qed.

Lemma preserves_for_each {A} (l : list A) (body : A -> M unit) :
  (forall a, preserves f (body a)) -> preserves f (for_each l body).
Proof.
  intros H. induction l as [|a l IH]; simpl.
  - apply preserves_ret.
  - apply preserves_bind; auto.
Qed.

End Preserves.

End FrameFacts.

(** Discharges [preserves f m] by walking through the method [m]. *)
Ltac frame :=
  cbv zeta;
  repeat first
    [ apply FrameFacts.preserves_ret
    | apply FrameFacts.preserves_throw
    | apply FrameFacts.preserves_lift
    | apply FrameFacts.preserves_gets
    | apply FrameFacts.preserves_getattr
    | apply FrameFacts.preserves_setattr; intros; reflexivity
    | apply FrameFacts.preserves_delattr; intros; reflexivity
    | apply FrameFacts.preserves_logger_info; intros; reflexivity
    | apply FrameFacts.preserves_try_pass
    | apply FrameFacts.preserves_for_each; intros ?
    | apply FrameFacts.preserves_bind; [|intros ?]
    | match goal with
      | |- LinearSolver.preserves _ (if ?b then _ else _) => destruct b
      | |- LinearSolver.preserves _ (match ?x with _ => _ end) => destruct x
      end; cbv zeta ].

Import Numpy NumpyFacts LinearSolver MethodFacts FrameFacts Examples.

(** X2.  The rate evaluator has no side effect: whatever its arguments and
    whether it returns or raises, the instance is left as it was. *)
Theorem rate_has_no_side_effect
    (net : GenericNetwork.t) (pores throats : option (list nat)) (s : self_t) :
  snd (rate net pores throats s) = s.
Proof.
  revert s. change (preserves (fun s => s) (rate net pores throats)).
  unfold rate. frame.
Qed.

(** X3.  Building the right-hand side changes nothing on the instance,
    whether it returns or raises. *)
Theorem rhs_has_no_side_effect (net : GenericNetwork.t) (s : self_t) :
  snd (_build_RHS_matrix net s) = s.
Proof.
  revert s. change (preserves (fun s => s) (_build_RHS_matrix net)).
  unfold _build_RHS_matrix. frame.
Qed.

(** X4.  The assembly of the matrix writes the kind and value arrays, the
    conductance, the superpore attributes and the dimension, and nothing
    else: the labels, the data, the result of the last solve, the log and
    the temporaries of the estimator are left alone on every path. *)
Theorem assembly_leaves_the_store_alone (net : GenericNetwork.t) (s : self_t) :
  let s' := snd (_build_coefficient_matrix net s) in
  _pore_info s' = _pore_info s /\ _pore_data s' = _pore_data s /\
  _result s' = _result s /\ _Neumann_super_X s' = _Neumann_super_X s /\
  _logger s' = _logger s /\ temporaries s' = temporaries s.
Proof.
  cbv zeta.
  assert (H : preserves (fun s => (_pore_info s, _pore_data s, _result s,
                                    _Neumann_super_X s, _logger s,
                                    temporaries s))
                (_build_coefficient_matrix net)).
  { unfold _build_coefficient_matrix, insulate_boundaries, conductance_entries,
      convert_flux, superpore_entries, close_diagonal.
    frame. }
  specialize (H s). cbv beta in H.
  repeat (apply pair_equal_spec in H; destruct H as [H ?]).
  repeat split; assumption.
Qed.


(* ================================================================== *)
(** * More on one inner iteration, the rate and the set-up *)
(* ================================================================== *)

Module IterationFacts.
Import Numpy NumpyFacts LinearSolver MethodFacts FrameFacts RateFacts.

Lemma existsb_eqb_seq (i k n : nat) :
  existsb (Nat.eqb i) (seq k n) = (Nat.leb k i && Nat.ltb i (k + n)).
Proof.
  revert k. induction n as [|n IH]; intros k; simpl.
  - destruct (Nat.leb_spec k i); destruct (Nat.ltb_spec i (k + 0));
      simpl; auto; lia.
  - rewrite IH.
    destruct (Nat.eqb_spec i k); destruct (Nat.leb_spec (S k) i);
      destruct (Nat.ltb_spec i (S k + n)); destruct (Nat.leb_spec k i);
      destruct (Nat.ltb_spec i (k + S n)); simpl; auto; lia.
Qed.

(** [X[-in1d(r_[0:len(X)], r_[0:N])]] is what follows the first [N]
    entries. *)
Lemma select_beyond {A} (X : list A) (N : nat) :
  forall k,
  select X (negate (in1d (seq k (length X)) (arange N))) = skipn (N - k) X.
Proof.
  unfold negate, in1d, arange.
  induction X as [|x X IH]; intros k.
  - simpl. destruct (N - k); reflexivity.
  - simpl length. simpl seq. simpl map. rewrite existsb_eqb_seq.
    simpl select. specialize (IH (S k)).
    change (0 + N) with N.
    destruct (Nat.leb_spec 0 k); [|lia].
    destruct (Nat.ltb_spec k N); simpl.
    + rewrite IH. replace (N - k) with (S (N - S k)) by lia. reflexivity.
    + rewrite IH. replace (N - S k) with 0 by lia.
      replace (N - k) with 0 by lia. reflexivity.
Qed.

Lemma build_keeps_result (net : GenericNetwork.t) :
  preserves (fun s => (_result s, _Neumann_super_X s))
    (_build_coefficient_matrix net).
Proof.
  unfold _build_coefficient_matrix, insulate_boundaries, conductance_entries,
    convert_flux, superpore_entries, close_diagonal.
  frame.
Qed.

Lemma rhs_keeps_all (net : GenericNetwork.t) :
  preserves (fun s => s) (_build_RHS_matrix net).
Proof. unfold _build_RHS_matrix. frame. Qed.

(** What [rate(throats=ts)] and [rate(pores=P, throats=ts)] compute, step
    by step; [inside] is [P], or nothing when no pores are given. *)
Lemma rate_throats_eq (net : GenericNetwork.t) (P : option (list nat))
    (ts : list nat) (s : self_t) :
  rate net P (Some ts) s =
  let inside := match P with Some ps => ps | None => [] end in
  match take (GenericNetwork.connections net) ts with
  | inl e => (inl e, s)
  | inr conns =>
      match _result s with
      | None => (inl AttributeError, s)
      | Some X =>
          match take X (map (source inside) conns) with
          | inl e => (inl e, s)
          | inr X1 =>
              match take X (map (sink inside) conns) with
              | inl e => (inl e, s)
              | inr X2 =>
                  match _conductance s with
                  | None => (inl AttributeError, s)
                  | Some c =>
                      match index_conductance c ts with
                      | inl e => (inl e, s)
                      | inr g =>
                          (inr (sum (map (fun p => (fst p * snd p)%Qc)
                                  (combine g
                                     (map (fun p => (fst p - snd p)%Qc)
                                        (combine X1 X2))))), s)
                      end
                  end
              end
          end
      end
  end.
Proof.
  unfold rate. cbv zeta.
  unfold bind at 1. unfold bind at 1. unfold lift at 1.
  unfold GenericNetwork.find_connected_pores.
  destruct (take (GenericNetwork.connections net) ts) as [e|conns] eqn:Ec;
    [reflexivity|].
  unfold ret at 1. unfold ok at 1. cbv beta iota. cbn [fst snd].
  destruct (swap_outside (match P with Some ps => ps | None => [] end) conns)
    as [(v2 & Hv2 & Hs1) (v1 & Hv1 & Hs2)].
  cbv zeta in Hv2, Hs1, Hv1, Hs2.
  unfold bind at 1, lift at 1. rewrite Hv2.
  unfold bind at 1, lift at 1. rewrite Hs1.
  unfold bind at 1, lift at 1. rewrite Hv1.
  unfold bind at 1, lift at 1. rewrite Hs2.
  unfold bind at 1, getattr at 1.
  destruct (_result s) as [X|]; [|reflexivity].
  unfold ok at 1. cbv beta iota.
  unfold bind at 1, lift at 1.
  destruct (take X (map (source _) conns)) as [e|X1] eqn:E1; [reflexivity|].
  unfold bind at 1, lift at 1.
  destruct (take X (map (sink _) conns)) as [e|X2] eqn:E2; [reflexivity|].
  unfold bind at 1, getattr at 1.
  destruct (_conductance s) as [c|]; [|reflexivity].
  unfold ok at 1. cbv beta iota.
  unfold bind at 1, lift at 1.
  destruct (index_conductance c ts) as [e|g] eqn:Eg; [reflexivity|].
  assert (L1 : length X1 = length conns)
    by (rewrite (take_length _ _ _ E1), length_map; reflexivity).
  assert (L2 : length X2 = length conns)
    by (rewrite (take_length _ _ _ E2), length_map; reflexivity).
  assert (Lg : length g = length conns).
  { destruct c; simpl in Eg; try discriminate.
    rewrite (take_length _ _ _ Eg). symmetry. apply (take_length _ _ _ Ec). }
  unfold bind at 1, lift at 1. rewrite subtract_same by congruence.
  unfold bind at 1, lift at 1.
  rewrite multiply_same
    by (rewrite length_map, length_combine; lia).
  reflexivity.
Qed.

End IterationFacts.

Import IterationFacts RateFacts.

(** X6.  When the sparse solver fails, one inner iteration raises the
    solver's error: no result is stored, the result and the superpore
    values of an earlier solve stay as they were. *)
Theorem solver_failure_is_raised
    (net : GenericNetwork.t) (spsolve : coo_matrix -> list Qc -> result (list Qc))
    (s s1 s2 : self_t) (types : list nat) (A : coo_matrix) (B : list Qc)
    (e : error) :
  _BCtypes s = Some types ->
  all (is_kind 0 types) = false ->
  _build_coefficient_matrix net
    (set_logger (_logger s ++ ["Creating Coefficient matrix for the algorithm"%string]) s)
    = (inr A, s1) ->
  _build_RHS_matrix net
    (set_logger (_logger s1 ++ ["Creating RHS matrix for the algorithm"%string]) s1)
    = (inr B, s2) ->
  spsolve A B = inl e ->
  exists s',
    _do_one_inner_iteration net spsolve s = (inl e, s') /\
    _result s' = _result s /\ _Neumann_super_X s' = _Neumann_super_X s.
Proof.
  intros Ht Hall HA HB HX.
  unfold _do_one_inner_iteration, bind at 1, getattr at 1.
  rewrite Ht. unfold ok at 1. cbv beta iota. rewrite Hall.
  unfold bind at 1, logger_info at 1. unfold ok at 1. cbv beta iota.
  unfold bind at 1. rewrite HA.
  unfold bind at 1, logger_info at 1. unfold ok at 1. cbv beta iota.
  unfold bind at 1. rewrite HB.
  unfold bind at 1, logger_info at 1. unfold ok at 1. cbv beta iota.
  unfold bind at 1, lift at 1. rewrite HX.
  eexists. split; [reflexivity|].
  pose proof (rhs_keeps_all net
    (set_logger (_logger s1 ++ ["Creating RHS matrix for the algorithm"%string]) s1))
    as K2.
  rewrite HB in K2. cbn [snd] in K2. subst s2.
  pose proof (build_keeps_result net
    (set_logger (_logger s ++ ["Creating Coefficient matrix for the algorithm"%string]) s))
    as K1.
  rewrite HA in K1. cbn [snd] in K1.
  apply pair_equal_spec in K1. destruct K1 as [K1 K1'].
  split; [exact K1|exact K1'].
Qed.

Lemma solver_failure_is_raised_witness :
  exists s',
    _do_one_inner_iteration two_pores (fun _ _ => inl SolverError)
      both_Dirichlet = (inl SolverError, s') /\
    _result s' = None.
Proof.
  evar (A0 : coo_matrix). evar (s10 : self_t).
  assert (HA : _build_coefficient_matrix two_pores
                 (set_logger (_logger both_Dirichlet
                    ++ ["Creating Coefficient matrix for the algorithm"%string])
                    both_Dirichlet) = (inr A0, s10))
    by (subst A0 s10; vm_compute; reflexivity).
  evar (B0 : list Qc). evar (s20 : self_t).
  assert (HB : _build_RHS_matrix two_pores
                 (set_logger (_logger s10
                    ++ ["Creating RHS matrix for the algorithm"%string]) s10)
               = (inr B0, s20))
    by (subst B0 s20 s10; vm_compute; reflexivity).
  destruct (solver_failure_is_raised two_pores (fun _ _ => inl SolverError)
              both_Dirichlet s10 s20 [1; 1] A0 B0 SolverError
              eq_refl eq_refl HA HB eq_refl) as (s' & E & R & _).
  exists s'. split; [exact E|exact R].
Defined.

(** X7.  When the solver returns [X] with at least [N] entries, the
    iteration splits it in two: the first [N] entries are stored as the
    result and returned, everything after them is stored as the superpore
    values, and the solve is the last thing written to the log. *)
Theorem solution_is_split_at_N
    (net : GenericNetwork.t) (spsolve : coo_matrix -> list Qc -> result (list Qc))
    (s s1 s2 : self_t) (types : list nat) (A : coo_matrix) (B X : list Qc) :
  _BCtypes s = Some types ->
  all (is_kind 0 types) = false ->
  _build_coefficient_matrix net
    (set_logger (_logger s ++ ["Creating Coefficient matrix for the algorithm"%string]) s)
    = (inr A, s1) ->
  _build_RHS_matrix net
    (set_logger (_logger s1 ++ ["Creating RHS matrix for the algorithm"%string]) s1)
    = (inr B, s2) ->
  spsolve A B = inr X ->
  GenericNetwork.num_pores net <= length X ->
  exists x sx s',
    _do_one_inner_iteration net spsolve s = (inr x, s') /\
    _result s' = Some x /\ _Neumann_super_X s' = Some sx /\
    x ++ sx = X /\ length x = GenericNetwork.num_pores net /\
    _logger s' = _logger s2 ++ ["Solving AX = B for the sparse matrices"%string].
Proof.
  intros Ht Hall HA HB HX Hlen.
  exists (firstn (GenericNetwork.num_pores net) X),
         (skipn (GenericNetwork.num_pores net) X).
  unfold _do_one_inner_iteration, bind at 1, getattr at 1.
  rewrite Ht. unfold ok at 1. cbv beta iota. rewrite Hall.
  unfold bind at 1, logger_info at 1. unfold ok at 1. cbv beta iota.
  unfold bind at 1. rewrite HA.
  unfold bind at 1, logger_info at 1. unfold ok at 1. cbv beta iota.
  unfold bind at 1. rewrite HB.
  unfold bind at 1, logger_info at 1. unfold ok at 1. cbv beta iota.
  unfold bind at 1, lift at 1. rewrite HX.
  unfold bind at 1, lift at 1.
  rewrite mask_get_total
    by (unfold negate, in1d, arange; rewrite !length_map, length_seq; lia).
  unfold arange at 1. rewrite select_beyond, Nat.sub_0_r.
  unfold bind at 1, setattr at 1. unfold ok at 1. cbv beta iota.
  unfold bind at 1, lift at 1.
  rewrite take_arange_firstn by exact Hlen.
  unfold bind, setattr, getattr. simpl. eexists.
  split; [reflexivity|]. simpl.
  split; [reflexivity|]. split; [reflexivity|].
  split; [apply firstn_skipn|].
  split; [apply firstn_length_le; exact Hlen|reflexivity].
Qed.

Lemma solution_is_split_at_N_witness :
  exists x sx s',
    _do_one_inner_iteration two_pores solve_identity both_Dirichlet
      = (inr x, s') /\
    _Neumann_super_X s' = Some sx /\ length x = 2.
Proof.
  evar (A0 : coo_matrix). evar (s10 : self_t).
  assert (HA : _build_coefficient_matrix two_pores
                 (set_logger (_logger both_Dirichlet
                    ++ ["Creating Coefficient matrix for the algorithm"%string])
                    both_Dirichlet) = (inr A0, s10))
    by (subst A0 s10; vm_compute; reflexivity).
  evar (B0 : list Qc). evar (s20 : self_t).
  assert (HB : _build_RHS_matrix two_pores
                 (set_logger (_logger s10
                    ++ ["Creating RHS matrix for the algorithm"%string]) s10)
               = (inr B0, s20))
    by (subst B0 s20 s10; vm_compute; reflexivity).
  assert (HL : GenericNetwork.num_pores two_pores <= length B0)
    by (subst B0; vm_compute; lia).
  destruct (solution_is_split_at_N two_pores solve_identity both_Dirichlet
              s10 s20 [1; 1] A0 B0 B0 eq_refl eq_refl HA HB eq_refl HL)
    as (x & sx & s' & E & _ & R & _ & L & _).
  exists x, sx, s'. split; [exact E|]. split; [exact R|exact L].
Defined.

(** X8.  Called with throats, the rate evaluator works on exactly those
    throats.  Without pores no end of a throat counts as inside, so every
    throat is read from its second end towards its first: the rate is the
    sum of conductance times (potential at the second end minus potential
    at the first end). *)
Theorem rate_over_given_throats
    (net : GenericNetwork.t) (s s' : self_t) (ts : list nat) (R : Qc) :
  rate net None (Some ts) s = (inr R, s') ->
  exists conns X g,
    take (GenericNetwork.connections net) ts = inr conns /\
    _result s = Some X /\ _conductance s = Some (Array g) /\
    R = sum (map (fun tc => (nth (fst tc) g 0
                             * (nth (snd (snd tc)) X 0
                                - nth (fst (snd tc)) X 0))%Qc)
               (combine ts conns)).
Proof.
  intros HR. rewrite rate_throats_eq in HR. cbv zeta in HR.
  destruct (take (GenericNetwork.connections net) ts) as [e|conns] eqn:Ec;
    [discriminate HR|].
  destruct (_result s) as [X|] eqn:EX; [|discriminate HR].
  destruct (take X (map (source []) conns)) as [e|X1] eqn:E1; [discriminate HR|].
  destruct (take X (map (sink []) conns)) as [e|X2] eqn:E2; [discriminate HR|].
  destruct (_conductance s) as [c|] eqn:Econd; [|discriminate HR].
  destruct (index_conductance c ts) as [e|gt] eqn:Eg; [discriminate HR|].
  destruct c as [g0|g]; [discriminate Eg|]. simpl in Eg.
  apply pair_equal_spec in HR. destruct HR as [HR _].
  apply (f_equal (fun x => match x with inr y => y | inl _ => R end)) in HR.
  exists conns, X, g. split; [reflexivity|]. split; [reflexivity|].
  split; [reflexivity|]. rewrite <- HR.
  rewrite (cut_rate_eq g X [] ts conns gt X1 X2 Eg E1 E2)
    by (symmetry; apply (take_length _ _ _ Ec)).
  reflexivity.
Qed.

Lemma rate_over_given_throats_witness :
  exists R,
    rate chain None (Some [0; 2]) chain_solved = (inr R, chain_solved) /\
    R = q (-2) 1.
Proof.
  evar (R0 : Qc).
  assert (HR : rate chain None (Some [0; 2]) chain_solved
               = (inr R0, chain_solved))
    by (subst R0; vm_compute; reflexivity).
  destruct (rate_over_given_throats chain chain_solved chain_solved [0; 2] R0 HR)
    as (conns & X & g & _ & _ & _ & E).
  exists R0. split; [exact HR|].
  apply Qc_is_canon. subst R0. vm_compute. reflexivity.
Defined.

(** X9.  The set-up starts from fresh arrays: what the kind and value
    arrays held before the call plays no part in its outcome. *)
Theorem setup_rebuilds_the_arrays
    (n : nat) (s : self_t) (t : option (list nat)) (v : option (list Qc)) :
  _boundary_conditions_setup n (set_BCvalues v (set_BCtypes t s))
  = _boundary_conditions_setup n s.
Proof.
  unfold _boundary_conditions_setup.
  unfold bind at 1, setattr at 1. unfold ok at 1. cbv beta iota.
  unfold bind at 1, setattr at 1. unfold ok at 1. cbv beta iota.
  symmetry.
  unfold bind at 1, setattr at 1. unfold ok at 1. cbv beta iota.
  unfold bind at 1, setattr at 1. unfold ok at 1. cbv beta iota.
  destruct s; reflexivity.
Qed.

(* ================================================================== *)
(** * The set-up of the boundary conditions *)
(* ================================================================== *)

Module SetupFacts.
Import Numpy NumpyFacts LinearSolver MethodFacts EstimatorFacts TensorFacts.

(** [a[mask] = c] *)
Lemma put_mask {A} (m : list bool) (c : A) :
  forall a : list A, length m = length a ->
  put a (nonzero m) c
  = inr (map (fun p : A * bool => if snd p then c else fst p) (combine a m)).
Proof.
  unfold nonzero. induction m as [|b m IH]; intros [|x a] L;
    try discriminate L; [reflexivity|].
  simpl in L. injection L as L. simpl nonzero_from.
  rewrite nonzero_from_shift. destruct b.
  - simpl put. rewrite put_cons_shift, (IH a L). reflexivity.
  - rewrite put_cons_shift, (IH a L). reflexivity.
Qed.

(** [a[mask] = b[mask]] *)
Lemma mask_set_select {A} (m : list bool) :
  forall a b : list A, length m = length a -> length m = length b ->
  mask_set a m (select b m)
  = inr (map (fun p : A * bool * A =>
                if snd (fst p) then snd p else fst (fst p))
           (combine (combine a m) b)).
Proof.
  induction m as [|c m IH]; intros [|x a] [|y b] La Lb;
    try discriminate La; try discriminate Lb; [reflexivity|].
  simpl in La, Lb. injection La as La. injection Lb as Lb.
  destruct c; simpl; rewrite (IH a b La Lb); reflexivity.
Qed.

Lemma dict_get_keys {V} (d : list (string * V)) (k : string) :
  In k (map fst d) -> exists v, dict_get d k = Some v.
Proof.
  induction d as [|[k0 v0] d IH]; simpl; [intros []|].
  intros [E|Hin].
  - subst k0. rewrite String.eqb_refl. eauto.
  - destruct (String.eqb k k0); eauto.
Qed.

(** Lines 106-126: one turn of the loop, for a label that names a
    condition. *)
Lemma apply_BC_label_ok (n : nat) (k : string) (c : nat) (s : self_t)
    (m : list bool) (t : list nat) (v bv : list Qc) :
  BC_code k = Some c ->
  dict_get (_pore_info s) k = Some m -> length m = n ->
  _BCtypes s = Some t -> length t = n ->
  _BCvalues s = Some v -> length v = n ->
  dict_get (_pore_data s) "BCval" = Some bv -> length bv = n ->
  apply_BC_label k s
  = (inr tt,
     set_BCvalues
       (Some (map (fun p : Qc * bool * Qc =>
                     if snd (fst p) then snd p else fst (fst p))
                (combine (combine v m) bv)))
       (set_BCtypes
          (Some (map (fun p : nat * bool => if snd p then c else fst p)
                   (combine t m))) s)).
Proof.
  intros Hc Hm Lm Ht Lt Hv Lv Hb Lb.
  unfold apply_BC_label. rewrite Hc.
  unfold get_pore_info, get_pore_data.
  unfold bind at 1. unfold bind at 1, gets at 1. unfold ok at 1.
  cbv beta iota. unfold lift at 1. rewrite Hm. unfold of_key, ok at 1.
  cbv beta iota.
  unfold bind at 1, getattr at 1. rewrite Ht. unfold ok at 1. cbv beta iota.
  unfold bind at 1, lift at 1. rewrite put_mask by congruence.
  unfold bind at 1, setattr at 1. unfold ok at 1. cbv beta iota.
  unfold bind at 1. unfold bind at 1, gets at 1. unfold ok at 1.
  cbv beta iota. unfold lift at 1.
  replace (_pore_data (set_BCtypes _ s)) with (_pore_data s)
    by (destruct s; reflexivity).
  rewrite Hb. unfold ok at 1. cbv beta iota.
  unfold bind at 1, lift at 1. rewrite mask_get_total by lia.
  unfold bind at 1, getattr at 1.
  replace (_BCvalues (set_BCtypes _ s)) with (_BCvalues s)
    by (destruct s; reflexivity).
  rewrite Hv. unfold ok at 1. cbv beta iota.
  unfold bind at 1, lift at 1. rewrite mask_set_select by congruence.
  reflexivity.
Qed.

Lemma nth_error_put_mask {A} (a : list A) (m : list bool) (c : A) (i : nat) :
  length m = length a -> i < length a ->
  nth_error (map (fun p : A * bool => if snd p then c else fst p)
               (combine a m)) i
  = if nth i m false then Some c else nth_error a i.
Proof.
  intros L Hi. rewrite nth_error_map, nth_error_combine.
  destruct (nth_error a i) as [x|] eqn:Ea;
    [|apply nth_error_None in Ea; lia].
  destruct (nth_error m i) as [b|] eqn:Em;
    [|apply nth_error_None in Em; lia].
  rewrite (nth_error_nth _ _ false Em). destruct b; reflexivity.
Qed.

Lemma nth_error_mask_set_select {A} (a b : list A) (m : list bool) (i : nat) :
  length m = length a -> length m = length b -> i < length a ->
  nth_error (map (fun p : A * bool * A =>
                    if snd (fst p) then snd p else fst (fst p))
               (combine (combine a m) b)) i
  = if nth i m false then nth_error b i else nth_error a i.
Proof.
  intros La Lb Hi. rewrite nth_error_map, !nth_error_combine.
  destruct (nth_error a i) as [x|] eqn:Ea;
    [|apply nth_error_None in Ea; lia].
  destruct (nth_error m i) as [c|] eqn:Em;
    [|apply nth_error_None in Em; lia].
  destruct (nth_error b i) as [y|] eqn:Eb;
    [|apply nth_error_None in Eb; lia].
  rewrite (nth_error_nth _ _ false Em). destruct c; reflexivity.
Qed.

(** Lines 106-126: the loop over the labels.  Node [i] ends with the kind
    of the last label of the list that holds it. *)
Lemma setup_loop (n : nat) (info : list (string * list bool)) (bv : list Qc)
    (l : list string) :
  length bv = n ->
  (forall k, In k l -> In k (map fst info)) ->
  (forall k c m, BC_code k = Some c -> dict_get info k = Some m ->
     length m = n) ->
  forall (s : self_t) (t : list nat) (v : list Qc),
  _pore_info s = info ->
  dict_get (_pore_data s) "BCval" = Some bv ->
  _BCtypes s = Some t -> length t = n ->
  _BCvalues s = Some v -> length v = n ->
  exists t' v',
    for_each l apply_BC_label s
    = (inr tt, set_BCvalues (Some v') (set_BCtypes (Some t') s)) /\
    length t' = n /\ length v' = n /\
    forall i, i < n ->
      ((forall k c m, In k l -> BC_code k = Some c ->
          dict_get info k = Some m -> nth i m false = false) ->
       nth_error t' i = nth_error t i /\ nth_error v' i = nth_error v i) /\
      (forall j k c m,
         nth_error l j = Some k -> BC_code k = Some c ->
         dict_get info k = Some m -> nth i m false = true ->
         (forall j' k' c' m', j < j' -> nth_error l j' = Some k' ->
            BC_code k' = Some c' -> dict_get info k' = Some m' ->
            nth i m' false = false) ->
         nth_error t' i = Some c /\ nth_error v' i = nth_error bv i).
Proof.
  intros Lb Hkeys Hlen.
  induction l as [|k l IH]; intros s t v Hi Hb Ht Lt Hv Lv.
  - exists t, v. split.
    { simpl. unfold ret. f_equal. destruct s; simpl in *; subst; reflexivity. }
    split; [exact Lt|]. split; [exact Lv|]. intros i Hlt. split.
    + intros _. split; reflexivity.
    + intros j k c m Hj. destruct j; discriminate Hj.
  - assert (Hkeys' : forall k', In k' l -> In k' (map fst info))
      by (intros k' Hk'; apply Hkeys; right; exact Hk').
    specialize (IH Hkeys').
    destruct (BC_code k) as [c|] eqn:Ec.
    + destruct (dict_get_keys info k (Hkeys k (or_introl eq_refl))) as [m Hm].
      pose proof (Hlen k c m Ec Hm) as Lm.
      assert (Hm' : dict_get (_pore_info s) k = Some m) by (rewrite Hi; exact Hm).
      pose proof (apply_BC_label_ok n k c s m t v bv Ec Hm' Lm Ht Lt Hv Lv Hb Lb)
        as Hstep.
      set (t1 := map (fun p : nat * bool => if snd p then c else fst p)
                   (combine t m)) in *.
      set (v1 := map (fun p : Qc * bool * Qc =>
                        if snd (fst p) then snd p else fst (fst p))
                   (combine (combine v m) bv)) in *.
      set (s1 := set_BCvalues (Some v1) (set_BCtypes (Some t1) s)) in *.
      assert (Lt1 : length t1 = n).
      { unfold t1. rewrite length_map, length_combine. lia. }
      assert (Lv1 : length v1 = n).
      { unfold v1. rewrite length_map, !length_combine. lia. }
      assert (Q1 : _pore_info s1 = info)
        by (subst s1; destruct s; exact Hi).
      assert (Q2 : dict_get (_pore_data s1) "BCval" = Some bv)
        by (subst s1; destruct s; exact Hb).
      assert (Q3 : _BCtypes s1 = Some t1) by (subst s1; destruct s; reflexivity).
      assert (Q4 : _BCvalues s1 = Some v1) by (subst s1; destruct s; reflexivity).
      destruct (IH s1 t1 v1 Q1 Q2 Q3 Lt1 Q4 Lv1)
        as (t' & v' & Hrest & Lt' & Lv' & Hspec).
      exists t', v'. split.
      { simpl for_each. unfold bind. rewrite Hstep, Hrest. reflexivity. }
      split; [exact Lt'|]. split; [exact Lv'|]. intros i Hlt.
      destruct (Hspec i Hlt) as [Hnone Hlast].
      assert (Ht1 : nth_error t1 i = if nth i m false then Some c else nth_error t i)
        by (unfold t1; apply nth_error_put_mask; lia).
      assert (Hv1 : nth_error v1 i
                    = if nth i m false then nth_error bv i else nth_error v i)
        by (unfold v1; apply nth_error_mask_set_select; lia).
      split.
      * intros Hno.
        destruct Hnone as [E1 E2].
        { intros k' c' m' Hk'. apply Hno. right. exact Hk'. }
        rewrite E1, E2, Ht1, Hv1.
        rewrite (Hno k c m (or_introl eq_refl) Ec Hm). split; reflexivity.
      * intros j k0 c0 m0 Hj Hc0 Hm0 Hcov Hlater.
        destruct j as [|j].
        -- simpl in Hj. inversion Hj; subst k0.
           rewrite Ec in Hc0. inversion Hc0; subst c0.
           rewrite Hm in Hm0. inversion Hm0; subst m0.
           destruct Hnone as [E1 E2].
           { intros k' c' m' Hk' Hc' Hmk.
             apply In_nth_error in Hk'. destruct Hk' as [j' Hj'].
             apply (Hlater (S j') k' c' m'); [lia|exact Hj'|exact Hc'|exact Hmk]. }
           rewrite E1, E2, Ht1, Hv1, Hcov. split; reflexivity.
        -- simpl in Hj. apply (Hlast j k0 c0 m0 Hj Hc0 Hm0 Hcov).
           intros j' k' c' m' Hlt' Hj'. apply (Hlater (S j') k' c' m'); [lia|exact Hj'].
    + destruct (IH s t v Hi Hb Ht Lt Hv Lv) as (t' & v' & Hrest & Lt' & Lv' & Hspec).
      exists t', v'. split.
      { simpl for_each. unfold bind. unfold apply_BC_label at 1. rewrite Ec.
        unfold ret at 1. exact Hrest. }
      split; [exact Lt'|]. split; [exact Lv'|]. intros i Hlt.
      destruct (Hspec i Hlt) as [Hnone Hlast]. split.
      * intros Hno. apply Hnone. intros k' c' m' Hk'. apply Hno. right. exact Hk'.
      * intros j k0 c0 m0 Hj Hc0 Hm0 Hcov Hlater.
        destruct j as [|j].
        -- simpl in Hj. inversion Hj; subst k0. congruence.
        -- simpl in Hj. apply (Hlast j k0 c0 m0 Hj Hc0 Hm0 Hcov).
           intros j' k' c' m' Hlt' Hj'. apply (Hlater (S j') k' c' m'); [lia|exact Hj'].
Qed.




End SetupFacts.

Import Numpy NumpyFacts LinearSolver MethodFacts SetupFacts Examples.

(** X10.  When the boundary values and the masks of the labels that name a
    condition all have one entry per node, the set-up returns, with one kind
    and one value per node: a node that no such label holds gets kind 0 and
    value 0; a node held by such labels gets the kind of the last of them
    in the order of the store, and its boundary value. *)
Theorem setup_gives_each_node_its_last_label
    (n : nat) (s : self_t) (bv : list Qc) :
  dict_get (_pore_data s) "BCval" = Some bv -> length bv = n ->
  (forall k c m, BC_code k = Some c -> dict_get (_pore_info s) k = Some m ->
     length m = n) ->
  exists t v s',
    _boundary_conditions_setup n s = (inr tt, s') /\
    _BCtypes s' = Some t /\ _BCvalues s' = Some v /\
    length t = n /\ length v = n /\
    forall i, i < n ->
      ((forall k c m, In k (map fst (_pore_info s)) -> BC_code k = Some c ->
          dict_get (_pore_info s) k = Some m -> nth i m false = false) ->
       nth_error t i = Some 0 /\ nth_error v i = Some 0%Qc) /\
      (forall j k c m,
         nth_error (map fst (_pore_info s)) j = Some k -> BC_code k = Some c ->
         dict_get (_pore_info s) k = Some m -> nth i m false = true ->
         (forall j' k' c' m', j < j' ->
            nth_error (map fst (_pore_info s)) j' = Some k' ->
            BC_code k' = Some c' -> dict_get (_pore_info s) k' = Some m' ->
            nth i m' false = false) ->
         nth_error t i = Some c /\ nth_error v i = nth_error bv i).
Proof.
  intros Hb Lb Hlen.
  set (s0 := set_BCvalues (Some (repeat 0%Qc n))
               (set_BCtypes (Some (repeat 0 n)) s)).
  assert (Q1 : _pore_info s0 = _pore_info s) by (destruct s; reflexivity).
  assert (Q2 : dict_get (_pore_data s0) "BCval" = Some bv)
    by (subst s0; destruct s; exact Hb).
  assert (Q3 : _BCtypes s0 = Some (repeat 0 n)) by (destruct s; reflexivity).
  assert (Q4 : _BCvalues s0 = Some (repeat 0%Qc n)) by (destruct s; reflexivity).
  destruct (setup_loop n (_pore_info s) bv (map fst (_pore_info s)) Lb
              (fun k H => H) Hlen s0 (repeat 0 n) (repeat 0%Qc n)
              Q1 Q2 Q3 (repeat_length _ _) Q4 (repeat_length _ _))
    as (t & v & Hloop & Lt & Lv & Hspec).
  exists t, v. eexists. split.
  { unfold _boundary_conditions_setup.
    unfold bind at 1, setattr at 1. unfold ok at 1. cbv beta iota.
    unfold bind at 1, setattr at 1. unfold ok at 1. cbv beta iota.
    unfold bind at 1, gets at 1. unfold ok at 1. cbv beta iota.
    fold s0.
    replace (_pore_info s0) with (_pore_info s) by (destruct s; reflexivity).
    unfold bind at 1. rewrite Hloop. unfold logger_info. reflexivity. }
  split; [subst s0; destruct s; reflexivity|].
  split; [subst s0; destruct s; reflexivity|].
  split; [exact Lt|]. split; [exact Lv|].
  intros i Hi. destruct (Hspec i Hi) as [Hnone Hlast]. split.
  - intros Hno. destruct (Hnone Hno) as [E1 E2].
    rewrite E1, E2, !nth_error_repeat by exact Hi. split; reflexivity.
  - exact Hlast.
Qed.

Lemma setup_gives_each_node_its_last_label_witness :
  exists t v s',
    _boundary_conditions_setup 8 labelled_instance = (inr tt, s') /\
    _BCtypes s' = Some t /\ _BCvalues s' = Some v /\
    nth_error t 7 = Some 1 /\ nth_error t 3 = Some 0 /\
    nth_error v 7 = Some (q 1 2).
Proof.
  destruct (setup_gives_each_node_its_last_label 8 labelled_instance
              [q 1 1; q 0 1; q 0 1; q 0 1; q 0 1; q 0 1; q 0 1; q 1 2]
              eq_refl eq_refl)
    as (t & v & s' & E & Ht & Hv & _ & _ & Hspec).
  { intros k c m _ Hm. simpl in Hm.
    destruct (String.eqb k "Dirichlet"); [|discriminate Hm].
    inversion Hm. reflexivity. }
  exists t, v, s'. split; [exact E|]. split; [exact Ht|]. split; [exact Hv|].
  destruct (Hspec 7) as [_ H7]; [lia|].
  destruct (H7 0 "Dirichlet"%string 1
              [true; false; false; false; false; false; false; true]
              eq_refl eq_refl eq_refl eq_refl) as [T7 V7].
  { intros j' k' c' m' Hlt Hj'. destruct j'; [lia|]. destruct j'; discriminate Hj'. }
  destruct (Hspec 3) as [H3 _]; [lia|].
  destruct H3 as [T3 _].
  { intros k c m _ _ Hm. simpl in Hm.
    destruct (String.eqb k "Dirichlet"); [|discriminate Hm].
    inversion Hm. reflexivity. }
  split; [exact T7|]. split; [exact T3|exact V7].
Defined.



(* ================================================================== *)
(** * More on the effective property estimator *)
(* ================================================================== *)

Module EstimatorEdgeFacts.
Import Numpy NumpyFacts LinearSolver MethodFacts EstimatorFacts.

(** Lines 287-298 never raise. *)
Lemma set_aside_total (s : self_t) : exists s1, set_aside s = (inr tt, s1).
Proof.
  unfold set_aside.
  unfold bind at 1, gets at 1. unfold ok at 1. cbv beta iota.
  unfold bind at 1.
  assert (H1 : exists s0,
            (if dict_mem (_pore_info s) "Dirichlet"
             then bind (get_pore_info "Dirichlet") (fun d =>
                    bind (setattr set_dir (Some d)) (fun _ =>
                      del_pore_info "Dirichlet"))
             else ret tt) s = (inr tt, s0)).
  { destruct (dict_mem (_pore_info s) "Dirichlet") eqn:E.
    - unfold dict_mem in E.
      destruct (dict_get (_pore_info s) "Dirichlet") as [d|] eqn:Ed;
        [|discriminate E].
      cbv beta delta [get_pore_info del_pore_info bind gets lift setattr
                        of_key dict_del dict_mem ok raise] iota.
      rewrite Ed. cbv beta iota.
      replace (_pore_info (set_dir (Some d) s)) with (_pore_info s)
        by (destruct s; reflexivity).
      rewrite Ed. cbv beta iota. eexists. reflexivity.
    - eexists. reflexivity. }
  destruct H1 as [s0 H1]. rewrite H1.
  unfold bind at 1, gets at 1. unfold ok at 1. cbv beta iota.
  destruct (dict_mem (_pore_data s0) "BCval") eqn:E.
  - unfold dict_mem in E.
    destruct (dict_get (_pore_data s0) "BCval") as [v|] eqn:Ev;
      [|discriminate E].
    unfold get_pore_data, del_pore_data.
    unfold bind at 1. unfold bind at 1, gets at 1. unfold ok at 1.
    cbv beta iota. unfold lift at 1. rewrite Ev. unfold of_key, ok at 1.
    cbv beta iota.
    unfold bind at 1, setattr at 1. unfold ok at 1. cbv beta iota.
    unfold bind at 1. unfold bind at 1, gets at 1. unfold ok at 1.
    cbv beta iota. unfold bind at 1, lift at 1.
    replace (_pore_data (set_BCval_temp (Some v) s0)) with (_pore_data s0)
      by (destruct s0; reflexivity).
    unfold dict_del, dict_mem. rewrite Ev. unfold ok at 1. cbv beta iota.
    unfold setattr at 1. unfold ok at 1. cbv beta iota.
    unfold try_pass.
    match goal with |- context [let (_, s') := ?m ?x in _] =>
      destruct (m x) as [r s2] end.
    eexists. reflexivity.
  - eexists. reflexivity.
Qed.

(** Lines 376-385 never raise. *)
Lemma put_back_total (net : GenericNetwork.t) (s : self_t) :
  exists s', put_back net s = (inr tt, s').
Proof.
  unfold put_back, try_pass.
  match goal with |- context [let (_, s') := ?m ?x in _] =>
    destruct (m x) as [r s2] end.
  eexists. reflexivity.
Qed.

End EstimatorEdgeFacts.

Import Numpy NumpyFacts LinearSolver MethodFacts EstimatorFacts
  EstimatorEdgeFacts Examples.

(** X12.  When the face arguments yield no pair (one of them is empty, they
    are neither two strings nor two lists, or the lists differ in length),
    the estimator returns the empty mapping, whatever the instance holds;
    the run takes no part in it. *)
Theorem no_face_pair_gives_the_empty_mapping
    (net : GenericNetwork.t) (log1m : Qc -> Qc) (d_data : list Qc)
    (alg x_term : string) (face1 face2 : face_arg) (s s0 : self_t)
    (f2 : list string) :
  face_types face1 face2 s = (inr ([], f2), s0) ->
  exists s', forall run : M unit,
    _calc_eff_prop_cubic net run log1m d_data alg x_term face1 face2 s
    = (inr (Mapping []), s').
Proof.
  intros Hf.
  destruct (set_aside_total s0) as [s1 H1].
  destruct (put_back_total net s1) as [s2 H2].
  exists s2. intros run.
  unfold _calc_eff_prop_cubic.
  unfold bind at 1. rewrite Hf. cbn [fst snd].
  unfold bind at 1. rewrite H1.
  unfold bind at 1. simpl combine. simpl estimate_pairs. unfold ret at 1.
  unfold bind at 1. rewrite H2. reflexivity.
Qed.

Lemma no_face_pair_gives_the_empty_mapping_witness :
  exists s', forall run : M unit,
    _calc_eff_prop_cubic cube run (fun x => x) (repeat (q 1 1) 8)
      "Stokes" "pressure" (FaceStr "top") (FaceStr "") labelled_instance
    = (inr (Mapping []), s').
Proof.
  evar (s0 : self_t).
  assert (Hf : face_types (FaceStr "top") (FaceStr "") labelled_instance
               = (inr ([], []), s0))
    by (subst s0; vm_compute; reflexivity).
  exact (no_face_pair_gives_the_empty_mapping cube (fun x => x)
           (repeat (q 1 1) 8) "Stokes" "pressure" (FaceStr "top") (FaceStr "")
           labelled_instance s0 [] Hf).
Defined.

(** X13.  With more than three face pairs a call that returns gives
    nothing back: neither the mapping nor the tensor. *)
Theorem more_than_three_pairs_return_nothing
    (net : GenericNetwork.t) (run : M unit) (log1m : Qc -> Qc)
    (d_data : list Qc) (alg x_term : string) (face1 face2 : face_arg)
    (s s0 s' : self_t) (out : output) (f1 f2 : list string) :
  face_types face1 face2 s = (inr (f1, f2), s0) ->
  3 < length f1 ->
  _calc_eff_prop_cubic net run log1m d_data alg x_term face1 face2 s
    = (inr out, s') ->
  out = NoneValue.
Proof.
  intros Hf Hlen H.
  unfold _calc_eff_prop_cubic in H.
  apply bind_ok in H. destruct H as (ft & s0' & Hp0 & H).
  rewrite Hf in Hp0. apply pair_equal_spec in Hp0. destruct Hp0 as [Er Es].
  apply (f_equal (fun x => match x with inr y => y | inl _ => ft end)) in Er.
  subst ft s0'. cbn [fst snd] in H.
  apply bind_ok in H. destruct H as (u & s1 & _ & H).
  apply bind_ok in H. destruct H as (acc & s2 & _ & H).
  apply bind_ok in H. destruct H as (u' & s3 & _ & H).
  destruct acc as [[ep res] T].
  assert (E1 : Nat.ltb (length f1) 3 = false) by (apply Nat.ltb_ge; lia).
  assert (E2 : Nat.eqb (length f1) 3 = false) by (apply Nat.eqb_neq; lia).
  rewrite E1, E2 in H. apply ret_ok in H. destruct H as [-> _]. reflexivity.
Qed.

Lemma more_than_three_pairs_return_nothing_witness :
  exists s',
    _calc_eff_prop_cubic cube run_with_fixed_field (fun x => x)
      (repeat (q 1 1) 8) "Stokes" "pressure"
      (FaceList [Some "front"; Some "right"; Some "top"; Some "left"]%string)
      (FaceList [Some "back"; Some "left"; Some "bottom"; Some "right"]%string)
      labelled_instance = (inr NoneValue, s').
Proof.
  evar (out0 : output). evar (s0 : self_t).
  assert (HA : _calc_eff_prop_cubic cube run_with_fixed_field (fun x => x)
                 (repeat (q 1 1) 8) "Stokes" "pressure"
                 (FaceList [Some "front"; Some "right"; Some "top"; Some "left"]%string)
                 (FaceList [Some "back"; Some "left"; Some "bottom"; Some "right"]%string)
                 labelled_instance = (inr out0, s0))
    by (subst out0 s0; vm_compute; reflexivity).
  assert (E : out0 = NoneValue).
  { apply (more_than_three_pairs_return_nothing cube run_with_fixed_field
             (fun x => x) (repeat (q 1 1) 8) "Stokes" "pressure"
             (FaceList [Some "front"; Some "right"; Some "top"; Some "left"]%string)
             (FaceList [Some "back"; Some "left"; Some "bottom"; Some "right"]%string)
             labelled_instance labelled_instance s0 out0
             ["front"; "right"; "top"; "left"]%string
             ["back"; "left"; "bottom"; "right"]%string eq_refl).
    - simpl. lia.
    - exact HA. }
  exists s0. rewrite <- E. exact HA.
Defined.

(** X14.  The coefficient of a pair is defined for the algorithms named
    Fickian and Stokes only: under any other name the potentials of the
    faces are never bound and the computation stops with a [NameError],
    whatever the network and the solved field. *)
Theorem unknown_algorithm_is_a_NameError
    (net : GenericNetwork.t) (log1m : Qc -> Qc) (d_data x : list Qc)
    (alg : string) (cond : conductance_t) (face1 face2 : string) :
  alg <> "Fickian"%string -> alg <> "Stokes"%string ->
  effective_coefficient net log1m d_data alg x cond face1 face2
  = inl NameError.
Proof.
  intros H1 H2. unfold effective_coefficient.
  apply String.eqb_neq in H1. apply String.eqb_neq in H2.
  rewrite H1, H2. reflexivity.
Qed.

Lemma unknown_algorithm_is_a_NameError_witness :
  effective_coefficient cube (fun x => x) (repeat (q 1 1) 8) "Ohmic"
    (repeat (q 1 2) 8) (Array (repeat (q 1 1) 12)) "top" "bottom"
  = inl NameError.
Proof.
  apply unknown_algorithm_is_a_NameError; intros E; discriminate E.
Defined.

(* ================================================================== *)
(** * More on the minpore model *)
(* ================================================================== *)

Module MinporeFacts.
Import Numpy NumpyFacts ThroatDiameter ThroatDiameterFacts.

Lemma Qcmin_comm (x y : Qc) : Qcmin x y = Qcmin y x.
Proof.
  destruct (Qcmin_cases x y) as [(L & -> & _)|(L & -> & _)];
    destruct (Qcmin_cases y x) as [(L' & -> & _)|(L' & -> & _)];
    try reflexivity; apply Qcle_antisym; assumption.
Qed.

Lemma Qcmax_comm (x y : Qc) : Qcmax x y = Qcmax y x.
Proof.
  destruct (Qcmin_cases x y) as [(L & _ & ->)|(L & _ & ->)];
    destruct (Qcmin_cases y x) as [(L' & _ & ->)|(L' & _ & ->)];
    try reflexivity; apply Qcle_antisym; assumption.
Qed.

(** The value of one throat. *)
Lemma value_zero_iff (da db : Qc) :
  (if Qc_eqb (Qcmin da db) (Q2Qc 0) then Qcmax da db else Qcmin da db) = 0%Qc
  <-> da = 0%Qc /\ db = 0%Qc.
Proof.
  destruct (Qc_eqb (Qcmin da db) (Q2Qc 0)) eqn:E.
  - apply Qc_eqb_eq in E.
    destruct (Qcmin_cases da db) as [(_ & Emin & Emax)|(_ & Emin & Emax)];
      rewrite Emin in E; rewrite Emax; split.
    + intros H. split; assumption.
    + intros [_ H]. exact H.
    + intros H. split; assumption.
    + intros [H _]. exact H.
  - split.
    + intros H. rewrite H in E. rewrite Qc_eqb_refl in E. discriminate E.
    + intros [Ha Hb]. subst.
      destruct (Qcmin_cases 0%Qc 0%Qc) as [(_ & Emin & _)|(_ & Emin & _)];
        rewrite Emin in E; rewrite Qc_eqb_refl in E; discriminate E.
Qed.

Lemma mapM_ext_in {A B} (f g : A -> result B) (l : list A) :
  (forall a, In a l -> f a = g a) -> mapM f l = mapM g l.
Proof.
  induction l as [|a l IH]; intros H; simpl; [reflexivity|].
  rewrite (H a (or_introl eq_refl)), IH; [reflexivity|].
  intros b Hb. apply H. right. exact Hb.
Qed.

Lemma mapM_map {A B C} (f : B -> result C) (g : A -> B) (l : list A) :
  mapM f (map g l) = mapM (fun a => f (g a)) l.
Proof.
  induction l as [|a l IH]; simpl; [reflexivity|]. rewrite IH. reflexivity.
Qed.

Lemma item_error {A} (a : list A) (i : nat) (e : error) :
  item a i = inl e -> e = IndexError.
Proof.
  unfold item. destruct (nth_error a i); intros H; inversion H; reflexivity.
Qed.

Lemma mapM_error {A B} (f : A -> result B) (l : list A) (e : error) :
  (forall a e', f a = inl e' -> e' = IndexError) ->
  mapM f l = inl e -> e = IndexError.
Proof.
  intros Hf. induction l as [|a l IH]; simpl; intros H; [discriminate H|].
  destruct (f a) as [e'|b] eqn:E.
  - inversion H; subst. exact (Hf a e E).
  - destruct (mapM f l) as [e'|bs]; [|discriminate H].
    inversion H; subst. apply IH. reflexivity.
Qed.

Lemma mapM_post {A B C} (f : A -> result B) (g : B -> C) (l : list A) :
  mapM (fun a => match f a with inl e => inl e | inr b => inr (g b) end) l
  = match mapM f l with inl e => inl e | inr bs => inr (map g bs) end.
Proof.
  induction l as [|a l IH]; simpl; [reflexivity|].
  destruct (f a) as [e|b]; [reflexivity|].
  rewrite IH. destruct (mapM f l); reflexivity.
Qed.

Lemma take_map {A B} (g : A -> B) (a : list A) (idx : list nat) :
  take (map g a) idx
  = match take a idx with inl e => inl e | inr r => inr (map g r) end.
Proof.
  unfold take. rewrite <- mapM_post. apply mapM_ext_in. intros i _.
  unfold item. rewrite nth_error_map. destruct (nth_error a i); reflexivity.
Qed.

(** The two diameters of a connection, read in the other order. *)
Lemma diameters_swapped (d : list Qc) (c : nat * nat) :
  (d1 <- item d (snd c) ;; d2 <- item d (fst c) ;; ok (d1, d2))%res
  = match (d1 <- item d (fst c) ;; d2 <- item d (snd c) ;; ok (d1, d2))%res with
    | inl e => inl e
    | inr p => inr (snd p, fst p)
    end.
Proof.
  unfold rbind.
  destruct (item d (fst c)) as [e1|d1] eqn:E1;
    destruct (item d (snd c)) as [e2|d2] eqn:E2; try reflexivity.
  rewrite (item_error _ _ _ E1), (item_error _ _ _ E2). reflexivity.
Qed.

Lemma pore_diameters_of_swapped (d : list Qc) (conns : list (nat * nat))
    (nTs : list nat) :
  pore_diameters_of
    {| pore_diameter := d;
       throat_conns := map (fun c => (snd c, fst c)) conns |} nTs
  = match pore_diameters_of {| pore_diameter := d; throat_conns := conns |} nTs
    with
    | inl e => inl e
    | inr pDs => inr (map (fun p => (snd p, fst p)) pDs)
    end.
Proof.
  unfold pore_diameters_of. cbn [pore_diameter throat_conns].
  rewrite take_map. unfold rbind at 1 4.
  destruct (take conns nTs) as [e|cs]; [reflexivity|].
  rewrite mapM_map. cbn [fst snd].
  rewrite <- mapM_post. apply mapM_ext_in. intros c _.
  apply diameters_swapped.
Qed.

Lemma pore_diameters_of_error (network : Network) (nTs : list nat) (e : error) :
  pore_diameters_of network nTs = inl e -> e = IndexError.
Proof.
  unfold pore_diameters_of, rbind. intros H.
  destruct (take (throat_conns network) nTs) as [e'|cs] eqn:E.
  - inversion H; subst. unfold take in E.
    apply (mapM_error _ _ _ (item_error _) E).
  - refine (mapM_error _ _ _ _ H). intros c e' H'. cbv beta in H'.
    destruct (item (pore_diameter network) (fst c)) as [e1|d1] eqn:E1.
    + inversion H'; subst. exact (item_error _ _ _ E1).
    + destruct (item (pore_diameter network) (snd c)) as [e2|d2] eqn:E2.
      * inversion H'; subst. exact (item_error _ _ _ E2).
      * discriminate H'.
Qed.

End MinporeFacts.

Import Numpy NumpyFacts ThroatDiameter ThroatDiameterFacts MinporeFacts Examples.

(** X15.  The direction in which a throat is stored plays no part: when the
    two ends of every connection are exchanged, [minpore] returns the same
    values, and fails on the same inputs with the same error. *)
Theorem minpore_ignores_throat_direction
    (d : list Qc) (conns : list (nat * nat)) (nTs : list nat) :
  minpore {| pore_diameter := d;
             throat_conns := map (fun c => (snd c, fst c)) conns |} nTs
  = minpore {| pore_diameter := d; throat_conns := conns |} nTs.
Proof.
  pose proof (pore_diameters_of_swapped d conns nTs) as Hs.
  destruct (pore_diameters_of {| pore_diameter := d; throat_conns := conns |} nTs)
    as [e|pDs] eqn:E.
  - unfold minpore, rbind. rewrite Hs, E. reflexivity.
  - rewrite (minpore_eq _ _ _ Hs), (minpore_eq _ _ _ E). f_equal.
    rewrite map_map. apply map_ext. intros [a b]. cbn [fst snd].
    rewrite (Qcmin_comm b a), (Qcmax_comm b a). reflexivity.
Qed.

(** X16.  A value returned by [minpore] is zero for exactly the throats
    whose two pores both have diameter zero. *)
Theorem minpore_is_zero_between_zero_pores
    (network : Network) (nTs : list nat) (value : list Qc) :
  minpore network nTs = inr value ->
  forall k t a b da db,
    nth_error nTs k = Some t ->
    nth_error (throat_conns network) t = Some (a, b) ->
    nth_error (pore_diameter network) a = Some da ->
    nth_error (pore_diameter network) b = Some db ->
    (nth_error value k = Some 0%Qc <-> da = 0%Qc /\ db = 0%Qc).
Proof.
  intros H k t a b da db Hk Ht Ha Hb.
  destruct (pore_diameters_of network nTs) as [e|pDs] eqn:E.
  - unfold minpore, rbind in H. rewrite E in H. discriminate H.
  - rewrite (minpore_eq _ _ _ E) in H. inversion H; subst value.
    destruct (pore_diameters_of_nth _ _ _ _ _ _ _ E Hk Ht)
      as (da' & db' & Ha' & Hb' & Hn).
    rewrite Ha in Ha'. rewrite Hb in Hb'.
    inversion Ha'; inversion Hb'; subst da' db'.
    rewrite nth_error_map, Hn. cbn [option_map fst snd].
    rewrite <- value_zero_iff. split.
    + intros Hv. injection Hv as Hv'. exact Hv'.
    + intros Hv. rewrite Hv. reflexivity.
Qed.

Lemma minpore_is_zero_between_zero_pores_witness :
  exists value,
    minpore minpore_example_network [0; 1]%list = inr value /\
    (nth_error value 0 = Some 0%Qc
     <-> Q2Qc 0 = 0%Qc /\ Q2Qc (3 # 1) = 0%Qc).
Proof.
  evar (v0 : list Qc).
  assert (Hv : minpore minpore_example_network [0; 1]%list = inr v0)
    by (subst v0; vm_compute; reflexivity).
  exists v0. split; [exact Hv|].
  apply (minpore_is_zero_between_zero_pores minpore_example_network
           [0; 1]%list v0 Hv 0 0 0 1 (Q2Qc 0) (Q2Qc (3 # 1)));
    reflexivity.
Defined.

(** X17.  The only error [minpore] raises is the [IndexError] of a throat
    or pore index out of range. *)
Theorem minpore_raises_only_IndexError
    (network : Network) (nTs : list nat) (e : error) :
  minpore network nTs = inl e -> e = IndexError.
Proof.
  intros H.
  destruct (pore_diameters_of network nTs) as [e'|pDs] eqn:E.
  - unfold minpore, rbind in H. rewrite E in H. inversion H; subst e'.
    exact (pore_diameters_of_error _ _ _ E).
  - rewrite (minpore_eq _ _ _ E) in H. discriminate H.
Qed.

Lemma minpore_raises_only_IndexError_witness :
  minpore minpore_example_network [5]%list = inl IndexError.
Proof.
  evar (e0 : error).
  assert (H : minpore minpore_example_network [5]%list = inl e0)
    by (subst e0; vm_compute; reflexivity).
  rewrite <- (minpore_raises_only_IndexError minpore_example_network
                [5]%list e0 H).
  exact H.
Defined.

(* ================================================================== *)
(** * The default of the unclassified boundary nodes *)
(* ================================================================== *)

Module InsulateFacts.
Import Numpy NumpyFacts LinearSolver MethodFacts MatrixFacts AssemblyFacts
  SystemFacts.

(** The nodes that lines 132-134 reclassify. *)
Lemma In_unclassified_boundaries (net : GenericNetwork.t) (t0 : list nat)
    (bnd : list nat) (tb : list nat) (i x : nat) :
  mask_get (GenericNetwork.get_pore_indices net)
    (negate (in1d (GenericNetwork.get_pore_indices net)
               (GenericNetwork.get_pore_indices_of net "internal")))
  = inr bnd ->
  take t0 bnd = inr tb ->
  nth_error t0 i = Some x ->
  (In i (select bnd (is_kind 0 tb))
   <-> x = 0 /\ i < GenericNetwork.num_pores net /\
       nth i (GenericNetwork.get_pore_info net "internal") false = false).
Proof.
  intros Hb Ht Hx.
  apply mask_get_select in Hb.
  unfold GenericNetwork.get_pore_indices, negate, in1d, arange in Hb.
  rewrite map_map, select_map in Hb.
  rewrite (take_map_nth 0 _ _ _ Ht). unfold is_kind. rewrite map_map, select_map.
  subst bnd. rewrite !filter_In, in_seq.
  rewrite (nth_error_nth _ _ 0 Hx).
  assert (Hint : existsb (Nat.eqb i)
                   (GenericNetwork.get_pore_indices_of net "internal") = true
                 <-> nth i (GenericNetwork.get_pore_info net "internal") false
                     = true).
  { rewrite existsb_eqb_In. unfold GenericNetwork.get_pore_indices_of.
    rewrite In_nonzero. split.
    - intros H. exact (nth_error_nth _ _ false H).
    - intros H.
      destruct (nth_error (GenericNetwork.get_pore_info net "internal") i)
        as [b|] eqn:E.
      + rewrite (nth_error_nth _ _ false E) in H. congruence.
      + apply nth_error_None in E. rewrite nth_overflow in H by exact E.
        discriminate H. }
  split.
  - intros [[[_ Hi] Hn] H0]. apply Nat.eqb_eq in H0.
    split; [congruence|]. split; [simpl in Hi; lia|].
    apply negb_true_iff in Hn.
    destruct (nth i (GenericNetwork.get_pore_info net "internal") false);
      [|reflexivity].
    rewrite (proj2 Hint eq_refl) in Hn. discriminate Hn.
  - intros (-> & Hi & Hn). split; [|reflexivity].
    split; [simpl; lia|]. apply negb_true_iff.
    destruct (existsb (Nat.eqb i)
                (GenericNetwork.get_pore_indices_of net "internal")) eqn:E;
      [|reflexivity].
    rewrite (proj1 Hint eq_refl) in Hn. discriminate Hn.
Qed.

End InsulateFacts.

Import Numpy NumpyFacts LinearSolver MethodFacts MatrixFacts AssemblyFacts
  SystemFacts InsulateFacts Examples.

(** X18.  The first step of the assembly gives kind 3 (insulated) to
    exactly the nodes that carry kind 0 and lie among the pores of the
    network without the label 'internal'; every other node keeps its
    kind. *)
Theorem unclassified_boundary_nodes_are_insulated
    (net : GenericNetwork.t) (s s1 : self_t) (t0 : list nat) :
  _BCtypes s = Some t0 ->
  insulate_boundaries net s = (inr tt, s1) ->
  exists t1,
    _BCtypes s1 = Some t1 /\ length t1 = length t0 /\
    forall i x, nth_error t0 i = Some x ->
      nth_error t1 i
      = Some (if Nat.eqb x 0 && Nat.ltb i (GenericNetwork.num_pores net)
                 && negb (nth i (GenericNetwork.get_pore_info net "internal")
                            false)
              then 3 else x).
Proof.
  intros Ht0 H. unfold insulate_boundaries in H. method_inv H.
  match goal with
  | Ht : _BCtypes s = Some ?t, Hb : take ?t ?b = inr ?tb |- _ =>
      rewrite Ht0 in Ht; inversion Ht; subst t;
      rename b into bnd, tb into tb0; rename Hb into Htake
  end.
  match goal with
  | Hm : mask_get (GenericNetwork.get_pore_indices net) _ = inr bnd |- _ =>
      rename Hm into Hbnd
  end.
  assert (Hchar : forall i x, nth_error t0 i = Some x ->
            existsb (Nat.eqb i) (select bnd (is_kind 0 tb0))
            = Nat.eqb x 0 && Nat.ltb i (GenericNetwork.num_pores net)
              && negb (nth i (GenericNetwork.get_pore_info net "internal")
                         false)).
  { intros i x Hx.
    pose proof (In_unclassified_boundaries net t0 bnd tb0 i x Hbnd Htake Hx)
      as Hin.
    apply eq_true_iff_eq. rewrite existsb_eqb_In, Hin.
    rewrite !andb_true_iff, Nat.eqb_eq, Nat.ltb_lt, negb_true_iff.
    tauto. }
  match goal with
  | Hif : (if any (is_kind 0 tb0) then _ else _) _ = _ |- _ =>
      destruct (any (is_kind 0 tb0)) eqn:Eany; method_inv Hif
  end.
  - match goal with
    | Hi : mask_get bnd _ = inr ?idx, Hp : put t0 ?idx _ = inr ?t1 |- _ =>
        rename t1 into t1'; rename idx into idx0;
        apply mask_get_select in Hi;
        destruct (put_spec _ _ _ _ Hp) as (_ & Hlen & Hn)
    end.
    exists t1'. split; [reflexivity|]. split; [exact Hlen|].
    intros i x Hx. rewrite Hn. subst idx0. rewrite (Hchar i x Hx).
    destruct (Nat.eqb x 0 && Nat.ltb i (GenericNetwork.num_pores net)
              && negb (nth i (GenericNetwork.get_pore_info net "internal") false)).
    + assert (Hlt : i < length t0) by (apply nth_error_Some; congruence).
      apply Nat.ltb_lt in Hlt. rewrite Hlt. reflexivity.
    + exact Hx.
  - exists t0. split; [exact Ht0|]. split; [reflexivity|].
    intros i x Hx. rewrite <- (Hchar i x Hx).
    rewrite (any_false_select bnd _ Eany). simpl. exact Hx.
Qed.

Lemma unclassified_boundary_nodes_are_insulated_witness :
  exists s1 t1,
    insulate_boundaries chain chain_flux_beside_Dirichlet = (inr tt, s1) /\
    _BCtypes s1 = Some t1 /\
    nth_error t1 0 = Some 3 /\ nth_error t1 1 = Some 0.
Proof.
  evar (s0 : self_t).
  assert (H : insulate_boundaries chain chain_flux_beside_Dirichlet
              = (inr tt, s0))
    by (subst s0; vm_compute; reflexivity).
  destruct (unclassified_boundary_nodes_are_insulated chain
              chain_flux_beside_Dirichlet s0 [0; 0; 1; 2] eq_refl H)
    as (t1 & Ht1 & _ & Hspec).
  exists s0, t1. split; [exact H|]. split; [exact Ht1|]. split.
  - exact (Hspec 0 0 eq_refl).
  - exact (Hspec 1 0 eq_refl).
Defined.

